(* ===== verification/_CoqProject ===== *)
-Q . S2P
Prelude.v
Str.v
Path.v
Interpolate.v
Config.v
Retry.v
Breaker.v
Json.v
Auth.v
Ip.v
Headers.v
Identity.v
Binding.v
F64.v
Store.v
RateLimit.v
Shared.v
Limiter.v
Concurrency.v
Cors.v
Trace.v
Routes.v
RouteIndex.v
RouteTable.v
Rejection.v
Upstream.v
Prog.v
Effects.v
Ext.v
Gateway.v
Resolve.v
Suggest.v
Proxy.v
Samples.v
Admission.v
Outgoing.v
Refusals.v
Delivery.v
Exchange.v
Cache.v
CacheStore.v
Resp.v
Keys.v
Jwt.v
Runtime.v
Offline.v
Edge.v
Dns.v
Documents.v
Inventory.v
Metrics.v
Diff.v
Explain.v
PoolHealth.v
Otel.v
Effective.v
Listing.v
Services.v
Redaction.v
Narration.v
Cli.v
Tests.v
