(* ===== verification/Prelude.v ===== *)
(** * Lagos: a verification development

    Lagos is an API gateway: a Rust program on Pingora that reads one YAML
    document, resolves it or refuses to start, and then answers or forwards
    every request by the policy the document states.  This development models
    the gateway's own decisions, in the language of the source files under
    [src/crates/lagos-core/src/] (named below without that prefix), and proves
    what they promise.

    ** How the program fits together

    At startup the document is expanded ([config/interpolate.rs]), parsed, and
    resolved ([config/mod.rs]); routes come from the document or from a file
    ([routes/file.rs]) and are built into a table ([routes/mod.rs],
    [routes/index.rs]) that must pass [validate_table]; [runtime.rs] splits the
    table between the two listeners, builds the upstreams ([upstream.rs]), the
    router of token verifiers ([auth/]) and the shared counters
    ([ratelimit/shared.rs], [ratelimit/resp.rs]), and starts the services: two
    proxies, the route reloader and the reconciliation of the counters.  A
    connection is admitted by [accept.rs] and bounded by [downstream.rs]; each
    of its requests runs through the callbacks of [proxy.rs], which call
    everything else.

    ** The files

    - Foundations: this prelude (notations, machine arithmetic with its
      saturations, [Duration]s in nanoseconds, generic list lemmas), Str.v
      (UTF-8 strings as byte lists), Json.v, Ip.v (textual addresses), F64.v
      (IEEE doubles, computed), Store.v (moka's bounded store of shared cells),
      Prog.v (programs as trees of questions; [traces] are their executions
      under any answers).
    - The document: Interpolate.v ([config/interpolate.rs]), Config.v, Gateway.v,
      Resolve.v, Suggest.v ([config/mod.rs]).
    - Decisions on a request: Path.v ([path.rs]), Auth.v ([auth/mod.rs]), Headers.v
      ([headers.rs]), Identity.v, Binding.v, Cors.v ([cors.rs], [csrf.rs]),
      Trace.v, Rejection.v ([error.rs]), Retry.v, Ext.v ([ext.rs]).
    - Routes: Routes.v, RouteTable.v ([routes/mod.rs]), RouteIndex.v
      ([routes/index.rs]).
    - State shared by requests: RateLimit.v, Limiter.v ([ratelimit/mod.rs]),
      Shared.v, Resp.v, Concurrency.v, Breaker.v, Upstream.v, Keys.v
      ([auth/jwks.rs]), CacheStore.v ([cache/storage.rs]), Dns.v.
    - The proxy: Effects.v (what a request asks of the rest), Proxy.v (the request
      filter), Delivery.v (the callbacks of an admitted request), Cache.v (the
      cache callbacks and [cache/policy.rs]), Jwt.v (the token verifiers), with
      the theorems about whole requests in Admission.v, Outgoing.v, Refusals.v and
      Exchange.v, on the sample gateway of Samples.v.
    - The process: Edge.v ([accept.rs], [downstream.rs]), Runtime.v ([runtime.rs],
      [routes/file.rs]), Services.v (what [runtime.rs] starts), PoolHealth.v
      (health checks, [upstream.rs]), Metrics.v ([metrics.rs]), Otel.v
      ([otel.rs]), Narration.v (the log of a request, [proxy.rs]), Redaction.v (what is
      printed of secrets).
    - The commands: Documents.v (loading a document; [validate] and [run] of
      [cli.rs]), Offline.v, Tests.v and Diff.v ([test] and [diff], [cli/policy.rs]),
      Explain.v and Listing.v ([explain] and [routes], [cli.rs],
      [cli/explanation.rs]), Inventory.v and Effective.v ([vars] and [effective],
      [cli/vars.rs], [cli/diagnostics.rs], [cli/effective.rs]), Cli.v (the choice of
      a command, [init], [dev] and what [validate] prints, [cli.rs]).

    A definition carries the name of the Rust item where the language allows;
    fields of records carry a short prefix.  A method that mutates returns the
    new state; a lock-protected method is one step, and a component used by many
    requests at once is a step relation over such steps.  Asynchronous code asks
    its questions in a [prog], so that a theorem about its traces holds under any
    interleaving with other requests.  [Result]s are [result], early returns are
    the notations [let?], [letO] and [let!].

    ** What the theorems show

    - A request reaches an upstream only if every check of its route passed, in
      the order of the code, on its canonical path; signature checks are made only
      within the rate limit; of two requests that differ in nothing but what they send
      under the names the gateway owns the upstream sees the same (of these names,
      [X-Request-Id] alone carries what the client sent, where that is text);
      the entries a caller puts before those of the trusted proxies change nothing,
      so long as every field is readable text; refusals of unknown, denied and
      unauthenticated paths are alike.
    - A token is accepted only on the word of the provider configured for its
      issuer, with its algorithms, audience, claims and clock; keys are fetched
      once for many lookups, nobody waits for ever, and stale keys fail closed: over
      every history of lookups, failures and cancellations, the keys and their
      expiry are those of the last fetch that succeeded.
    - Slots and extension permits are given back on every path of an exchange, and
      breaker trials on every path that lives to its end; an exchange that the
      deadline of the whole request cuts, at any point, still gives back its slot but
      loses the report of its trial, which is a finding: trials that are never
      reported keep a half-open circuit shut.  Retries and failovers are bounded,
      with what the gateway only passes on counted apart; caps are never exceeded,
      and trials that succeed close the circuit while later ones are let in.
    - The trie is the linear scan, and the scan is the most specific route; the
      deny-list covers every spelling of a path; a listener serves only accepted
      tables of its tier, at startup and after any reloads, and a reload that
      fails changes nothing.
    - Over every interleaving of lookups, checks and evictions, the requests that a
      cell of the exact limiter lets through in one window number at most its limit,
      for limits below 2^53; a count that is evicted begins again.  What a replica
      believes of the cluster is what the others published, with requests, later
      buckets and evictions running while the backend answers; the RESP backend
      keeps the contract the limiter is proved against; one address cannot exhaust
      the others.
    - Cached answers are shareable and go only to requests for which the
      upstream would have been sent the same; readers get whole bodies; fills
      stay within their budget.
    - The configuration that resolves satisfies what the request path assumes,
      its deadlines included; offline tests agree with the gateway, an explanation
      gives of every route just the reasons that keep the request off it, [lagos validate]
      with the start it predicts, a comparison that reports nothing with equal
      decisions, and [inspect] with [interpolate].
    - Every listener of a start is guarded alike; members of a pool are checked as
      they are dialled, over HTTP or TCP, and every pool that is checked or
      discovered has its service; metrics grow with the configuration only; spans wait in
      bounded numbers and none that was taken is lost while requests are served.
    - [init] overwrites nothing it was not told to, whatever the file system holds;
      [dev] runs one gateway at a time and stops it only for a document that loads.
    - Diagnostics, inventories and the effective view tell neither what a variable
      holds nor the text of a document: documents that have and hide their settings
      at the same paths, and configurations that agree in what is shown, are printed
      alike.

    ** Parameters and laws

    Crates the code calls are parameters: YAML and JSON parsers, [url], [http],
    percent decoding, base64, UUIDs, SHA-256, jsonwebtoken, the regular HTTP cache
    semantics and balancers of Pingora, pingora_limits' sketches, moka's eviction
    and a RESP server.  The laws assumed of them are fields of classes or named
    hypotheses stating documented behaviour, each with an instance on which a
    theorem is applied.  The standard library is modelled, not assumed.

    ** Bounds and fuel

    [canonicalize_proxy_path] decodes at most [MAX_DECODE_PASSES] times, as in the
    code.  Loops over text recurse on fuel taken from the length of the text, with
    a lemma that it is enough; decimal rendering recurses on the number of digits
    of a [u64]; a reader of a stored body needs at most one read per byte.  All
    integers are kept at their width: additions that saturate, wrap or are
    checked in the code do so here.

    ** Not modelled

    What serde derives; where log lines go ([telemetry.rs]) and the registry behind
    the metrics; sockets, TLS and the server, which are Pingora's; the health checks themselves and the balancing
    algorithms of Pingora; what becomes of a batch of spans once it is handed to
    the exporter of OpenTelemetry; the JSON Schema of the document
    ([config/schema.rs]); and, of the command line, what clap derives and the texts
    of the starting files. *)

From Stdlib Require Export ZArith Lia List.
From stdpp Require Export base gmap list strings numbers.

#[export] Set Default Goal Selector "!".

(** ** Notations *)

Declare Scope lagos_scope.
Delimit Scope lagos_scope with lagos.
#[global] Open Scope lagos_scope.

(** A Rust [str] or byte slice is the list of its bytes, each a [Z] in
    [0..255]. *)
Abbreviation str := (list Z).

(** The bytes of a literal. *)
Definition str_of (s : String.string) : str :=
  map (fun c => Z.of_N (Ascii.N_of_ascii c)) (String.list_ascii_of_string s).
Coercion str_of : String.string >-> list.
(** Literals inside a constructor are elaborated at the expected type. *)
#[global] Arguments cons {A}%_type_scope & _ _%_list_scope.
#[global] Arguments app {A}%_type_scope & _%_list_scope _%_list_scope.
#[global] Arguments Some {A}%_type_scope & _.
#[global] Arguments pair {A B}%_type_scope & _ _.
#[global] Open Scope string_scope.
#[global] Open Scope list_scope.
#[global] Open Scope Z_scope.

(** Equality of decidable values, as the code's [==]. *)
Notation "a ==? b" := (bool_decide (a = b)) (at level 70, no associativity) : lagos_scope.

(** Rust's [Result]. *)
Inductive result (A E : Type) : Type :=
| Ok (a : A)
| Err (e : E).
Arguments Ok {A E} & _.
Arguments Err {A E} & _.

#[export] Instance result_eq_dec A E `{EqDecision A, EqDecision E} : EqDecision (result A E).
Proof. solve_decision. Defined.

(** The [?] operator on [Result], and on [Option] with an early [None]. *)
Definition rbind {A B E} (m : result A E) (f : A -> result B E) : result B E :=
  match m with Ok a => f a | Err e => Err e end.
Notation "'let?' x ':=' m 'in' k" := (rbind m (fun x => k))
  (at level 10, x pattern, m at level 100, k at level 200) : lagos_scope.
Notation "'letO' x ':=' m 'in' k" := (mbind (M:=option) (fun x => k) m)
  (at level 10, x pattern, m at level 100, k at level 200) : lagos_scope.

(** [ok_or]: an [Option] read as a [Result]. *)
Definition ok_or {A E} (o : option A) (e : E) : result A E :=
  match o with Some a => Ok a | None => Err e end.

(** [Result::map_err]. *)
Definition map_err {A E F} (f : E -> F) (m : result A E) : result A F :=
  match m with Ok a => Ok a | Err e => Err (f e) end.

Definition is_ok {A E} (r : result A E) : bool :=
  match r with Ok _ => true | Err _ => false end.

(** [iter().map(f).collect::<Result<Vec<_>, _>>()]: the first error wins. *)
Fixpoint collect_results {A B E} (f : A -> result B E) (l : list A) : result (list B) E :=
  match l with
  | [] => Ok []
  | x :: xs => let? y := f x in let? ys := collect_results f xs in Ok (y :: ys)
  end.

(** ** Record update

    A record type declares how a record is rebuilt from its fields; from that the
    update of one field is found, and [r <| f := v |>] is [r] with [v] for [f]. *)

Class Rebuild (R : Type) := rebuild : R -> R.
Class Setter {R T : Type} (field : R -> T) := with_field : T -> R -> R.

Ltac derive_setter :=
  lazymatch goal with
  | |- @Setter ?R ?T ?field =>
      let whole := eval hnf in (rebuild (R:=R)) in
      let abstracted := eval pattern field in whole in
      lazymatch abstracted with
      | ?build _ => let t := eval cbv beta in (fun (v : T) (r : R) => build (fun _ => v) r) in exact t
      end
  end.
#[export] Hint Extern 1 (Setter _) => derive_setter : typeclass_instances.

Notation "r <| f := v |>" := (with_field (field:=f) v r) (at level 12, left associativity) : lagos_scope.

(** ** Machine-width integers *)

Definition u32_max : Z := 2 ^ 32 - 1.
Definition u64_max : Z := 2 ^ 64 - 1.
(** [usize] on the 64-bit targets the project is released for. *)
Definition usize_max : Z := 2 ^ 64 - 1.

Definition sat_add (max a b : Z) : Z := Z.min max (a + b).
Definition sat_sub (a b : Z) : Z := Z.max 0 (a - b).
Definition sat_mul (max a b : Z) : Z := Z.min max (a * b).

Lemma sat_add_le max a b : sat_add max a b <= max.
Proof. unfold sat_add. lia. Qed.

Lemma sat_add_exact max a b : a + b <= max -> sat_add max a b = a + b.
Proof. unfold sat_add. lia. Qed.

Lemma sat_sub_nonneg a b : 0 <= sat_sub a b.
Proof. unfold sat_sub. lia. Qed.

Lemma sat_sub_exact a b : b <= a -> sat_sub a b = a - b.
Proof. unfold sat_sub. lia. Qed.

(** ** Automation *)

Create HintDb lagos.
Create Rewrite HintDb lagos.
#[export] Hint Resolve sat_add_le sat_sub_nonneg : lagos.

(** Case analysis on every [if], [match] and [decide] in sight, closing the
    branches that contradict each other. *)
Ltac split_cases :=
  repeat (case_decide || case_bool_decide || case_match); simplify_eq/=.

(** Turn boolean conjunctions, comparisons and [bool_decide]s in the context
    into the propositions they decide. *)
Ltac breflect :=
  repeat match goal with
  | H : _ && _ = true |- _ => apply andb_true_iff in H; destruct H
  | H : _ || _ = false |- _ => apply orb_false_iff in H; destruct H
  | H : negb _ = true |- _ => apply negb_true_iff in H
  | H : negb _ = false |- _ => apply negb_false_iff in H
  | H : bool_decide _ = true |- _ => apply bool_decide_eq_true in H
  | H : bool_decide _ = false |- _ => apply bool_decide_eq_false in H
  | H : (_ =? _) = true |- _ => apply Z.eqb_eq in H
  | H : (_ =? _) = false |- _ => apply Z.eqb_neq in H
  | H : (_ <? _) = true |- _ => apply Z.ltb_lt in H
  | H : (_ <? _) = false |- _ => apply Z.ltb_ge in H
  | H : (_ <=? _) = true |- _ => apply Z.leb_le in H
  | H : (_ <=? _) = false |- _ => apply Z.leb_gt in H
  end.

(** ** Sorting

    [sort] and [dedup] of a vector of strings, whose order is that of their
    bytes. *)

Fixpoint str_leb (a b : str) : bool :=
  match a, b with
  | [], _ => true
  | _ :: _, [] => false
  | x :: a, y :: b => if x =? y then str_leb a b else x <? y
  end.
Fixpoint insert_by {A} (le : A -> A -> bool) (a : A) (l : list A) : list A :=
  match l with
  | [] => [a]
  | b :: rest => if le a b then a :: l else b :: insert_by le a rest
  end.
Definition sort_by {A} (le : A -> A -> bool) (l : list A) : list A := foldr (insert_by le) [] l.
Fixpoint dedup {A} `{EqDecision A} (l : list A) : list A :=
  match l with
  | [] => []
  | a :: rest => match rest with
                 | [] => [a]
                 | b :: _ => if a ==? b then dedup rest else a :: dedup rest
                 end
  end.

(** ** Generic lemmas *)

Lemma elem_of_insert_by {A} (le : A -> A -> bool) a l x : x ∈ insert_by le a l <-> x = a \/ x ∈ l.
Proof.
  induction l as [|b l IH]; simpl; [rewrite list_elem_of_singleton, elem_of_nil; tauto|].
  destruct (le a b); rewrite !elem_of_cons, ?IH; tauto.
Qed.

Lemma elem_of_sort_by {A} (le : A -> A -> bool) l x : x ∈ sort_by le l <-> x ∈ l.
Proof.
  induction l as [|a l IH]; [done|]. unfold sort_by. simpl. fold (sort_by le l).
  by rewrite elem_of_insert_by, IH, elem_of_cons.
Qed.

Lemma elem_of_dedup {A} `{EqDecision A} (l : list A) x : x ∈ dedup l <-> x ∈ l.
Proof.
  induction l as [|a [|b l] IH]; [done..|]. simpl dedup in *.
  case_bool_decide as E; [subst b|]; rewrite ?elem_of_cons in *; tauto.
Qed.

Lemma rbind_Ok {A B E} (m : result A E) (f : A -> result B E) b :
  rbind m f = Ok b <-> exists a, m = Ok a /\ f a = Ok b.
Proof.
  destruct m as [a|e]; simpl; split.
  - intros H. eauto.
  - intros (a' & Ha & H). by simplify_eq.
  - done.
  - by intros (a' & Ha & H).
Qed.

Lemma map_err_Ok {A E F} (f : E -> F) (m : result A E) a : map_err f m = Ok a <-> m = Ok a.
Proof. destruct m; cbn; split; congruence. Qed.
Lemma map_err_Err {A E F} (f : E -> F) (m : result A E) e : map_err f m = Err e <-> exists e', m = Err e' /\ e = f e'.
Proof. destruct m; cbn; naive_solver. Qed.

Lemma collect_results_Ok {A B E} (f : A -> result B E) l ys :
  collect_results f l = Ok ys <-> Forall2 (fun x y => f x = Ok y) l ys.
Proof.
  revert ys. induction l as [|x l IH]; intros ys; simpl.
  - split; [intros [= <-]; constructor | by inversion 1].
  - rewrite rbind_Ok. split.
    + intros (y & Hy & (ys' & Hys & [= <-])%rbind_Ok). constructor; [done|by apply IH].
    + intros H. inversion H as [|? y ? ys' Hy Hys]; subst. exists y. split; [done|].
      apply rbind_Ok. exists ys'. by rewrite IH.
Qed.

Lemma existsb_In {A} (p : A -> bool) l : existsb p l = true <-> exists x, x ∈ l /\ p x = true.
Proof.
  rewrite existsb_exists. split; intros (x & Hx & Hp); exists x; split; auto;
    by apply list_elem_of_In.
Qed.

Lemma existsb_none {A} (p : A -> bool) l : existsb p l = false <-> forall x, x ∈ l -> p x = false.
Proof.
  split.
  - intros H x Hx. destruct (p x) eqn:E; [|done].
    assert (existsb p l = true) as H' by (apply existsb_In; eauto). congruence.
  - intros H. destruct (existsb p l) eqn:E; [|done].
    apply existsb_In in E as (x & Hx & Hp). rewrite H in Hp; done.
Qed.

Lemma forallb_In {A} (p : A -> bool) l : forallb p l = true <-> forall x, x ∈ l -> p x = true.
Proof. rewrite forallb_forall. by setoid_rewrite list_elem_of_In. Qed.

Lemma Forall_elem {A} (P : A -> Prop) l : Forall P l <-> forall x, x ∈ l -> P x.
Proof. rewrite List.Forall_forall. by setoid_rewrite list_elem_of_In. Qed.

Lemma elem_of_lfilter {A} (f : A -> bool) l x : x ∈ List.filter f l <-> x ∈ l /\ f x = true.
Proof. rewrite !list_elem_of_In. apply filter_In. Qed.
