(* ===== verification/Str.v ===== *)
(** * Strings: the part of Rust's [str] the gateway uses

    A [str] is its UTF-8 bytes.  [chars] is the decoder of [str::chars], and
    every operation that the code applies character-wise goes through it;
    [split], [find], [strip_prefix] and the like take ASCII patterns or whole
    strings, for which the byte-wise reading is exact.  The lemmas here are
    the string facts the components share: splitting and joining are inverse,
    case folding is idempotent and length-preserving, ASCII bytes of a valid
    string are its ASCII characters. *)

From S2P Require Export Prelude.

(** ** Bytes and ASCII classes *)

Definition b_tab : Z := 9.
Definition b_space : Z := 32.
Definition b_slash : Z := 47.
Definition b_dot : Z := 46.
Definition b_percent : Z := 37.
Definition b_backslash : Z := 92.

Definition in_range (lo hi c : Z) : bool := (lo <=? c) && (c <=? hi).

Definition is_ascii_upper (c : Z) : bool := in_range 65 90 c.
Definition is_ascii_lower (c : Z) : bool := in_range 97 122 c.
Definition is_ascii_alphabetic (c : Z) : bool := is_ascii_upper c || is_ascii_lower c.
Definition is_ascii_digit (c : Z) : bool := in_range 48 57 c.
Definition is_ascii_alphanumeric (c : Z) : bool := is_ascii_alphabetic c || is_ascii_digit c.
Definition is_ascii_hexdigit (c : Z) : bool :=
  is_ascii_digit c || in_range 65 70 c || in_range 97 102 c.

Definition lower_byte (c : Z) : Z := if is_ascii_upper c then c + 32 else c.
Definition upper_byte (c : Z) : Z := if is_ascii_lower c then c - 32 else c.
Definition to_ascii_lowercase (s : str) : str := map lower_byte s.
Definition to_ascii_uppercase (s : str) : str := map upper_byte s.
Definition eq_ignore_ascii_case (a b : str) : bool :=
  to_ascii_lowercase a ==? to_ascii_lowercase b.

(** [char::is_control]: general category Cc. *)
Definition is_control (c : Z) : bool := in_range 0 31 c || in_range 127 159 c.

(** ** Characters *)

(** [str::chars]: the decoder of [core::str], which relies on its input being
    valid UTF-8 and reads the length of a character off its first byte. *)
Fixpoint chars (s : str) : list Z :=
  match s with
  | [] => []
  | b0 :: r0 =>
      if b0 <? 128 then b0 :: chars r0 else
      match r0 with
      | [] => []
      | b1 :: r1 =>
          if b0 <? 224 then (b0 - 192) * 64 + (b1 - 128) :: chars r1 else
          match r1 with
          | [] => []
          | b2 :: r2 =>
              if b0 <? 240 then (b0 - 224) * 4096 + (b1 - 128) * 64 + (b2 - 128) :: chars r2 else
              match r2 with
              | [] => []
              | b3 :: r3 =>
                  (b0 - 240) * 262144 + (b1 - 128) * 4096 + (b2 - 128) * 64 + (b3 - 128)
                    :: chars r3
              end
          end
      end
  end.

(** Well-formed UTF-8 (Unicode table 3-7), which is what the type [str]
    promises: a sequence of ASCII bytes and of multi-byte characters. *)
Inductive utf8_multi : list Z -> Prop :=
| utf8_two b0 b1 :
    194 <= b0 <= 223 -> 128 <= b1 <= 191 -> utf8_multi [b0; b1]
| utf8_three b0 b1 b2 :
    224 <= b0 <= 239 ->
    (if b0 =? 224 then 160 else 128) <= b1 <= (if b0 =? 237 then 159 else 191) ->
    128 <= b2 <= 191 -> utf8_multi [b0; b1; b2]
| utf8_four b0 b1 b2 b3 :
    240 <= b0 <= 244 ->
    (if b0 =? 240 then 144 else 128) <= b1 <= (if b0 =? 244 then 143 else 191) ->
    128 <= b2 <= 191 -> 128 <= b3 <= 191 -> utf8_multi [b0; b1; b2; b3].

Inductive Utf8 : str -> Prop :=
| utf8_nil : Utf8 []
| utf8_ascii b s : 0 <= b < 128 -> Utf8 s -> Utf8 (b :: s)
| utf8_wide c s : utf8_multi c -> Utf8 s -> Utf8 (c ++ s).

(** ** Splitting and joining *)

(** [str::split(c)] for an ASCII character. *)
Fixpoint split_on (c : Z) (s : str) : list str :=
  match s with
  | [] => [[]]
  | x :: s' =>
      if x =? c then [] :: split_on c s'
      else match split_on c s' with
           | w :: ws => (x :: w) :: ws
           | [] => [[x]]
           end
  end.

(** [slice::join]. *)
Fixpoint join (sep : str) (l : list str) : str :=
  match l with
  | [] => []
  | [w] => w
  | w :: ws => w ++ sep ++ join sep ws
  end.

(** [str::split_once(c)] for an ASCII character: cut at its first occurrence. *)
Fixpoint split_once (c : Z) (s : str) : option (str * str) :=
  match s with
  | [] => None
  | x :: s' =>
      if x =? c then Some ([], s')
      else match split_once c s' with
           | Some (a, b) => Some (x :: a, b)
           | None => None
           end
  end.

Fixpoint strip_prefix (p s : str) : option str :=
  match p, s with
  | [], _ => Some s
  | x :: p', y :: s' => if x =? y then strip_prefix p' s' else None
  | _ :: _, [] => None
  end.

Definition starts_with (p s : str) : bool := bool_decide (is_Some (strip_prefix p s)).
Definition strip_suffix (p s : str) : option str :=
  reverse <$> strip_prefix (reverse p) (reverse s).
Definition ends_with (p s : str) : bool := bool_decide (is_Some (strip_suffix p s)).

(** [str::find(pat)]: the byte offset of the first occurrence. *)
Fixpoint find_str (p s : str) : option nat :=
  if starts_with p s then Some 0%nat
  else match s with
       | [] => None
       | _ :: s' => S <$> find_str p s'
       end.

(** [str::split_once(pat)] for a string pattern. *)
Definition split_once_str (p s : str) : option (str * str) :=
  (fun i => (take i s, drop (i + length p) s)) <$> find_str p s.

(** [str::rfind(c)] and [str::rsplit_once(c)] for an ASCII character. *)
Definition rsplit_once (c : Z) (s : str) : option (str * str) :=
  (fun ab => (reverse ab.2, reverse ab.1)) <$> split_once c (reverse s).

Definition contains_byte (c : Z) (s : str) : bool := existsb (Z.eqb c) s.
Definition contains_str (p s : str) : bool := bool_decide (is_Some (find_str p s)).

(** ** Trimming *)

Fixpoint drop_while (p : Z -> bool) (s : str) : str :=
  match s with
  | [] => []
  | x :: s' => if p x then drop_while p s' else s
  end.

(** [str::trim_matches] for a set of ASCII characters. *)
Definition trim_matches (p : Z -> bool) (s : str) : str :=
  reverse (drop_while p (reverse (drop_while p s))).
Definition trim_start_matches (p : Z -> bool) (s : str) : str := drop_while p s.
Definition trim_end_matches (p : Z -> bool) (s : str) : str := reverse (drop_while p (reverse s)).

(** The characters with the Unicode property [White_Space], by their UTF-8
    encodings of one, two and three bytes. *)
Definition ws1 (b : Z) : bool := in_range 9 13 b || (b =? 32).
Definition ws2 (b0 b1 : Z) : bool := (b0 =? 194) && ((b1 =? 133) || (b1 =? 160)).
Definition ws3 (b0 b1 b2 : Z) : bool :=
  ((b0 =? 225) && (b1 =? 154) && (b2 =? 128))
  || ((b0 =? 226) && (b1 =? 128) && (in_range 128 138 b2 || in_range 168 169 b2 || (b2 =? 175)))
  || ((b0 =? 226) && (b1 =? 129) && (b2 =? 159))
  || ((b0 =? 227) && (b1 =? 128) && (b2 =? 128)).

Fixpoint strip_ws (w2 : Z -> Z -> bool) (w3 : Z -> Z -> Z -> bool) (s : str) : str :=
  match s with
  | [] => []
  | b0 :: r0 =>
      if ws1 b0 then strip_ws w2 w3 r0 else
      match r0 with
      | [] => s
      | b1 :: r1 =>
          if w2 b0 b1 then strip_ws w2 w3 r1 else
          match r1 with
          | [] => s
          | b2 :: r2 => if w3 b0 b1 b2 then strip_ws w2 w3 r2 else s
          end
      end
  end.

Definition trim_start (s : str) : str := strip_ws ws2 ws3 s.
Definition trim_end (s : str) : str :=
  reverse (strip_ws (fun b1 b0 => ws2 b0 b1) (fun b2 b1 b0 => ws3 b0 b1 b2) (reverse s)).
(** [str::trim]. *)
Definition trim (s : str) : str := trim_end (trim_start s).

(** ** Decimal rendering, as [Display] for unsigned integers *)

Fixpoint digits_fuel (fuel : nat) (n : Z) (acc : str) : str :=
  match fuel with
  | O => acc
  | S f => let acc' := 48 + n mod 10 :: acc in
           if n <? 10 then acc' else digits_fuel f (n / 10) acc'
  end.
(** Twenty digits hold every [u64]. *)
Definition show_u64 (n : Z) : str := digits_fuel 20 n [].

(** [str::parse::<u64>]: an optional [+], then digits, below 2^64. *)
Fixpoint digits_value (acc : Z) (s : str) : option Z :=
  match s with
  | [] => Some acc
  | c :: r => if is_ascii_digit c then digits_value (acc * 10 + (c - 48)) r else None
  end.
Definition parse_u64 (s : str) : option Z :=
  let digits := match s with c :: r => if c =? 43 then r else s | [] => s end in
  if digits ==? [] then None
  else match digits_value 0 digits with
       | Some n => if n <=? u64_max then Some n else None
       | None => None
       end.

(** ** Lemmas: membership of bytes *)

Lemma contains_byte_spec c s : contains_byte c s = true <-> c ∈ s.
Proof.
  unfold contains_byte. rewrite existsb_In. split.
  - intros (x & Hx & ->%Z.eqb_eq). done.
  - intros H. exists c. by rewrite Z.eqb_refl.
Qed.

Lemma contains_byte_false c s : contains_byte c s = false <-> c ∉ s.
Proof. rewrite <-contains_byte_spec. by destruct (contains_byte c s). Qed.

(** ** Lemmas: splitting and joining *)

Lemma split_on_cons c s : exists w ws, split_on c s = w :: ws.
Proof. destruct s as [|x s]; simpl; [eauto|]. repeat case_match; eauto. Qed.

Lemma join_split c s : join [c] (split_on c s) = s.
Proof.
  induction s as [|x s IH]; [done|]. simpl.
  destruct (split_on_cons c s) as (w & ws & E).
  destruct (Z.eqb_spec x c) as [->|Hx]; rewrite E in *.
  - simpl in *. by rewrite IH.
  - simpl in *. destruct ws; simpl in *; by rewrite IH.
Qed.

Lemma split_on_clean c s : Forall (fun w => c ∉ w) (split_on c s).
Proof.
  induction s as [|x s IH]; simpl; [constructor; [exact (not_elem_of_nil c)|done]|].
  destruct (split_on_cons c s) as (w & ws & E). rewrite E in *.
  destruct (Z.eqb_spec x c) as [->|Hx].
  - constructor; [apply not_elem_of_nil|done].
  - inversion IH; subst. constructor; [|done].
    rewrite not_elem_of_cons. auto.
Qed.

Lemma split_on_absent c s : c ∉ s -> split_on c s = [s].
Proof.
  induction s as [|x s IH]; [done|]. rewrite not_elem_of_cons. intros [Hx Hs]. simpl.
  rewrite IH by done. by destruct (Z.eqb_spec x c).
Qed.

Lemma split_on_app c s t : c ∉ s -> split_on c (s ++ c :: t) = s :: split_on c t.
Proof.
  induction s as [|x s IH]; simpl; [by rewrite Z.eqb_refl|].
  rewrite not_elem_of_cons. intros [Hx Hs]. rewrite IH by done.
  by destruct (Z.eqb_spec x c).
Qed.

Lemma split_join c l : l <> [] -> Forall (fun w => c ∉ w) l -> split_on c (join [c] l) = l.
Proof.
  induction l as [|w l IH]; [done|]. intros _ [Hw Hl]%Forall_cons_iff.
  destruct l as [|w' l]; simpl in *; [by apply split_on_absent|].
  rewrite split_on_app by done. f_equal. by apply IH.
Qed.

Lemma split_on_elem c s w x : w ∈ split_on c s -> x ∈ w -> x ∈ s.
Proof.
  revert w. induction s as [|y s IH]; simpl; intros w Hw Hx.
  - apply list_elem_of_singleton in Hw as ->. by apply not_elem_of_nil in Hx.
  - destruct (split_on_cons c s) as (v & ws & E). rewrite E in *.
    destruct (Z.eqb_spec y c).
    + apply elem_of_cons in Hw as [->|Hw]; [by apply not_elem_of_nil in Hx|].
      apply elem_of_cons. right. by apply (IH w).
    + apply elem_of_cons in Hw as [->|Hw].
      * apply elem_of_cons in Hx as [->|Hx]; apply elem_of_cons; [by left|].
        right. apply (IH v); [by left|done].
      * apply elem_of_cons. right. apply (IH w); [by right|done].
Qed.

Lemma elem_of_join c x l : x ∈ join [c] l -> x = c \/ exists w, w ∈ l /\ x ∈ w.
Proof.
  induction l as [|w l IH]; [by intros ?%not_elem_of_nil|].
  destruct l as [|w' l].
  - simpl. intros H. right. exists w. split; [by left|done].
  - change (join [c] (w :: w' :: l)) with (w ++ c :: join [c] (w' :: l)).
    rewrite elem_of_app, elem_of_cons. intros [H|[->|H]]; [|by left|].
    + right. exists w. split; [by left|done].
    + destruct (IH H) as [->|(v & Hv & Hx)]; [by left|]. right. exists v. by split; [right|].
Qed.

(** ** Lemmas: prefixes *)

Lemma strip_prefix_Some p s r : strip_prefix p s = Some r <-> s = p ++ r.
Proof.
  revert s. induction p as [|x p IH]; intros s; simpl.
  - split; intros H; by simplify_eq.
  - destruct s as [|y s]; [split; intros; by simplify_eq|].
    destruct (Z.eqb_spec x y) as [->|Hxy].
    + rewrite IH. split; [intros ->; done|by intros [= ->]].
    + split; [done|]. intros [= -> _]. done.
Qed.

Lemma starts_with_spec p s : starts_with p s = true <-> exists r, s = p ++ r.
Proof.
  unfold starts_with. rewrite bool_decide_eq_true. unfold is_Some.
  by setoid_rewrite strip_prefix_Some.
Qed.

Lemma strip_suffix_Some p s r : strip_suffix p s = Some r <-> s = r ++ p.
Proof.
  unfold strip_suffix. rewrite fmap_Some. setoid_rewrite strip_prefix_Some. split.
  - intros (x & H & ->). apply (f_equal reverse) in H.
    rewrite reverse_involutive, reverse_app, reverse_involutive in H. by rewrite H.
  - intros ->. exists (reverse r). by rewrite reverse_app, reverse_involutive.
Qed.

Lemma ends_with_spec p s : ends_with p s = true <-> exists r, s = r ++ p.
Proof.
  unfold ends_with. rewrite bool_decide_eq_true. unfold is_Some.
  by setoid_rewrite strip_suffix_Some.
Qed.

Lemma split_once_Some c s a b : split_once c s = Some (a, b) <-> s = a ++ c :: b /\ c ∉ a.
Proof.
  revert a. induction s as [|x s IH]; intros a; simpl.
  - split; [done|]. intros [H _]. by destruct a.
  - destruct (Z.eqb_spec x c) as [->|Hx].
    + split; [intros [= <- <-]; split; [done|apply not_elem_of_nil]|].
      intros [H Hc]. destruct a as [|y a]; simplify_eq/=; [done|].
      by apply not_elem_of_cons in Hc as [? _].
    + transitivity (exists a', a = x :: a' /\ split_once c s = Some (a', b)).
      { destruct (split_once c s) as [[a' b']|]; [|by split; [|intros (?&?&?)]].
        split; [intros [= <- <-]; eauto|]. by intros (a'' & -> & [= -> ->]). }
      setoid_rewrite IH. split.
      * intros (a' & -> & -> & Hc). split; [done|]. rewrite not_elem_of_cons. auto.
      * intros [H Hc]. destruct a as [|y a]; simplify_eq/=.
        apply not_elem_of_cons in Hc as [_ Hc]. eauto.
Qed.

(** ** Lemmas: case folding *)

Lemma lower_byte_idem c : lower_byte (lower_byte c) = lower_byte c.
Proof. unfold lower_byte, is_ascii_upper, in_range. repeat case_match; breflect; lia. Qed.

Lemma to_ascii_lowercase_idem s :
  to_ascii_lowercase (to_ascii_lowercase s) = to_ascii_lowercase s.
Proof.
  unfold to_ascii_lowercase. rewrite map_map. apply map_ext, lower_byte_idem.
Qed.

Lemma upper_byte_idem c : upper_byte (upper_byte c) = upper_byte c.
Proof. unfold upper_byte, is_ascii_lower, in_range. repeat case_match; breflect; lia. Qed.

Lemma to_ascii_uppercase_idem s :
  to_ascii_uppercase (to_ascii_uppercase s) = to_ascii_uppercase s.
Proof.
  unfold to_ascii_uppercase. rewrite map_map. apply map_ext, upper_byte_idem.
Qed.

Lemma length_to_ascii_lowercase s : length (to_ascii_lowercase s) = length s.
Proof. apply length_map. Qed.

#[export] Hint Rewrite to_ascii_lowercase_idem to_ascii_uppercase_idem : lagos.

(** ** Lemmas: trimming *)

Lemma drop_while_id p s : (forall x s', s = x :: s' -> p x = false) -> drop_while p s = s.
Proof. destruct s as [|x s]; [done|]. intros H. simpl. by rewrite (H x s eq_refl). Qed.

Lemma drop_while_head p s x s' : drop_while p s = x :: s' -> p x = false.
Proof.
  induction s as [|y s IH]; [done|]. simpl. destruct (p y) eqn:E; [done|].
  by intros [= <- <-].
Qed.

Lemma drop_while_suffix p s : exists a, s = a ++ drop_while p s.
Proof.
  induction s as [|y s (a & IH)]; [by exists []|]. simpl. destruct (p y).
  - exists (y :: a). simpl. by rewrite <-IH.
  - by exists [].
Qed.

Lemma trim_matches_infix p s : exists a b, s = a ++ trim_matches p s ++ b.
Proof.
  unfold trim_matches. destruct (drop_while_suffix p s) as (a & Ha).
  destruct (drop_while_suffix p (reverse (drop_while p s))) as (b & Hb).
  exists a, (reverse b). rewrite <-reverse_app, <-Hb, reverse_involutive. done.
Qed.

(** What is left begins with a character that is not trimmed. *)
Lemma trim_matches_head p s c t : trim_matches p s = c :: t -> p c = false.
Proof.
  unfold trim_matches. destruct (drop_while_suffix p (reverse (drop_while p s))) as (b & Hb).
  intros E. apply (drop_while_head p s c (t ++ reverse b)).
  rewrite <-(reverse_involutive (drop_while p s)), Hb, reverse_app, E. done.
Qed.

Lemma trim_matches_idemp p s : trim_matches p (trim_matches p s) = trim_matches p s.
Proof.
  unfold trim_matches at 1. rewrite (drop_while_id p (trim_matches p s)).
  - rewrite drop_while_id; [by rewrite reverse_involutive|]. unfold trim_matches. intros x t E.
    rewrite reverse_involutive in E. by apply drop_while_head in E.
  - intros x t E. by apply trim_matches_head in E.
Qed.

Lemma elem_of_trim_matches p s x : x ∈ trim_matches p s -> x ∈ s.
Proof.
  destruct (trim_matches_infix p s) as (a & b & E). rewrite E at 2.
  rewrite !elem_of_app. auto.
Qed.

(** ** Lemmas: UTF-8 *)

Lemma Utf8_of_ascii s : Forall (fun b => 0 <= b < 128) s -> Utf8 s.
Proof. induction 1; by constructor. Qed.

Lemma utf8_multi_high c : utf8_multi c -> Forall (fun b => 128 <= b) c /\ c <> [].
Proof.
  intros H. split; [|by destruct H].
  destruct H; repeat (constructor; [repeat case_match; lia|]); constructor.
Qed.

Lemma utf8_multi_chars c :
  utf8_multi c -> exists u, 128 <= u /\ forall s, chars (c ++ s) = u :: chars s.
Proof.
  intros H. destruct H as [b0 b1|b0 b1 b2|b0 b1 b2 b3].
  - exists ((b0 - 192) * 64 + (b1 - 128)). split; [lia|]. intros s. simpl.
    by rewrite (proj2 (Z.ltb_ge b0 128)), (proj2 (Z.ltb_lt b0 224)) by lia.
  - exists ((b0 - 224) * 4096 + (b1 - 128) * 64 + (b2 - 128)). split.
    + destruct (Z.eqb_spec b0 224); case_match; lia.
    + intros s. simpl. by rewrite (proj2 (Z.ltb_ge b0 128)), (proj2 (Z.ltb_ge b0 224)),
        (proj2 (Z.ltb_lt b0 240)) by lia.
  - exists ((b0 - 240) * 262144 + (b1 - 128) * 4096 + (b2 - 128) * 64 + (b3 - 128)). split.
    + destruct (Z.eqb_spec b0 240); case_match; lia.
    + intros s. simpl. by rewrite (proj2 (Z.ltb_ge b0 128)), (proj2 (Z.ltb_ge b0 224)),
        (proj2 (Z.ltb_ge b0 240)) by lia.
Qed.

(** The ASCII bytes of a valid string are its ASCII characters. *)
Lemma elem_of_chars_ascii s b : Utf8 s -> b < 128 -> b ∈ chars s <-> b ∈ s.
Proof.
  intros Hs Hb. induction Hs as [|b' s Hb' _ IH|c s Hc _ IH]; [done|..].
  - simpl. rewrite (proj2 (Z.ltb_lt b' 128)) by lia. by rewrite !elem_of_cons, IH.
  - destruct (utf8_multi_chars c Hc) as (u & Hu & ->).
    destruct (utf8_multi_high c Hc) as [Hhigh _]. rewrite Forall_forall in Hhigh.
    rewrite elem_of_cons, elem_of_app, IH. split; [|intros [H|H]; [|by right]].
    + intros [->|H]; [lia|by right].
    + apply list_elem_of_In, Hhigh in H. lia.
Qed.

(** A valid string cut before an ASCII character is valid. *)
Lemma Utf8_cut s a x b : Utf8 s -> x < 128 -> s = a ++ x :: b -> Utf8 a.
Proof.
  intros Hs Hx. revert a. induction Hs as [|b' s Hb' _ IH|c s Hc _ IH]; intros a E.
  - by destruct a.
  - destruct a as [|y a]; simplify_eq/=; [constructor|]. constructor; [done|by apply IH].
  - destruct (utf8_multi_high c Hc) as [Hhigh Hne].
    apply app_eq_inv in E as [(k & -> & E)|(k & -> & E)].
    + destruct k as [|y k]; simpl in *; [|injection E as <- ->].
      * rewrite app_nil_r in *. rewrite <-(app_nil_r a). constructor; [done|constructor].
      * rewrite Forall_forall in Hhigh.
        enough (128 <= x) by lia. apply Hhigh, in_or_app. right. by left.
    + constructor; [done|]. by apply IH.
Qed.

(** No character is the beginning of another. *)
Lemma utf8_multi_prefix c d s t : utf8_multi c -> utf8_multi d -> c ++ s = d ++ t -> c = d /\ s = t.
Proof. intros Hc Hd. destruct Hc, Hd; simpl; intros E; simplify_eq; try lia; done. Qed.

Lemma Utf8_tail_ascii b s : b < 128 -> Utf8 (b :: s) -> Utf8 s.
Proof.
  intros Hb H. inversion H as [|? ? ? Hs|c t Hc Ht E]; subst; [done|].
  destruct (utf8_multi_high c Hc) as [Hhigh Hne]. destruct c as [|x c]; [done|].
  injection E as -> _. inversion Hhigh; lia.
Qed.

Lemma Utf8_tail_multi c s : utf8_multi c -> Utf8 (c ++ s) -> Utf8 s.
Proof.
  intros Hc H. inversion H as [E|b t Hb Ht E|d t Hd Ht E].
  - destruct Hc; discriminate.
  - destruct (utf8_multi_high c Hc) as [Hhigh Hne]. destruct c as [|x c]; [done|].
    injection E as <- _. inversion Hhigh; lia.
  - apply utf8_multi_prefix in E as [-> ->]; done.
Qed.

Lemma utf8_multi_lead c : utf8_multi c -> exists b w, c = b :: w /\ 194 <= b.
Proof. destruct 1; eexists _, _; (split; [done|lia]). Qed.

Lemma utf8_multi_tail b w : utf8_multi (b :: w) -> Forall (fun x => x < 194) w.
Proof. inversion 1; subst; repeat constructor; repeat case_match; lia. Qed.

(** A valid string cut before a character is valid. *)
Lemma Utf8_cut_multi a c : utf8_multi c -> Utf8 (a ++ c) -> Utf8 a.
Proof.
  intros Hc. remember (a ++ c) as s eqn:E. intros Hs. revert a E.
  induction Hs as [|b s Hb _ IH|d s Hd _ IH]; intros a E.
  - destruct a; [constructor|done].
  - destruct a as [|y a]; simplify_eq/=; [constructor|]. constructor; [done|by apply IH].
  - apply app_eq_inv in E as [(k & -> & E)|(k & -> & E)].
    + destruct a as [|x a]; [constructor|]. destruct k as [|y k].
      * rewrite app_nil_r in Hd. rewrite <- (app_nil_r (x :: a)). constructor; [done|constructor].
      * exfalso. apply utf8_multi_lead in Hc as (z & w & -> & Hz). injection E as -> _.
        pose proof (utf8_multi_tail _ _ Hd) as Ht. rewrite Forall_app in Ht.
        destruct Ht as [_ Ht]. inversion Ht. lia.
    + constructor; [done|]. by apply IH.
Qed.

(** ** Lemmas: Unicode trimming *)

Lemma list_len_ind {A} (P : list A -> Prop) :
  (forall s, (forall t, (length t < length s)%nat -> P t) -> P s) -> forall s, P s.
Proof.
  intros H s. remember (length s) as n eqn:Hn. revert s Hn.
  induction n as [n IH] using lt_wf_ind. intros s ->. apply H. intros t Ht. by eapply IH.
Qed.

Section StripWs.
Context (w2 : Z -> Z -> bool) (w3 : Z -> Z -> Z -> bool).

(** Case analysis following the recursion of [strip_ws]. *)
Lemma strip_ws_ind (P : str -> str -> Prop) :
  (forall s, (forall c r, s = c :: r -> ws1 c = false) ->
             (forall c d r, s = c :: d :: r -> w2 c d = false) ->
             (forall c d e r, s = c :: d :: e :: r -> w3 c d e = false) -> P s s) ->
  (forall c r t, ws1 c = true -> P r t -> P (c :: r) t) ->
  (forall c d r t, w2 c d = true -> P r t -> P (c :: d :: r) t) ->
  (forall c d e r t, w3 c d e = true -> P r t -> P (c :: d :: e :: r) t) ->
  forall s, P s (strip_ws w2 w3 s).
Proof.
  intros H0 H1 H2 H3 s. induction s as [s IH] using list_len_ind.
  destruct s as [|c r]; [by apply H0|]. simpl.
  destruct (ws1 c) eqn:E1; [apply H1; [done|apply IH; simpl; lia]|].
  destruct r as [|d r]; [apply H0; intros; by simplify_eq|].
  destruct (w2 c d) eqn:E2; [apply H2; [done|apply IH; simpl; lia]|].
  destruct r as [|e r]; [apply H0; intros; by simplify_eq|].
  destruct (w3 c d e) eqn:E3; [apply H3; [done|apply IH; simpl; lia]|].
  apply H0; intros; by simplify_eq.
Qed.

Lemma elem_of_strip_ws s x : x ∈ strip_ws w2 w3 s -> x ∈ s.
Proof.
  apply (strip_ws_ind (fun s t => x ∈ t -> x ∈ s)); [done|..];
    intros; rewrite ?elem_of_cons; auto.
Qed.

Lemma strip_ws_stop s :
  (forall c r, s = c :: r -> ws1 c = false) ->
  (forall c d r, s = c :: d :: r -> w2 c d = false) ->
  (forall c d e r, s = c :: d :: e :: r -> w3 c d e = false) ->
  strip_ws w2 w3 s = s.
Proof.
  intros H1 H2 H3. destruct s as [|c r]; [done|]. simpl. rewrite (H1 c r eq_refl).
  destruct r as [|d r]; [done|]. rewrite (H2 c d r eq_refl).
  destruct r as [|e r]; [done|]. by rewrite (H3 c d e r eq_refl).
Qed.

Lemma strip_ws_idem s : strip_ws w2 w3 (strip_ws w2 w3 s) = strip_ws w2 w3 s.
Proof.
  apply (strip_ws_ind (fun s t => strip_ws w2 w3 t = t)); [|done..].
  intros t H1 H2 H3. by apply strip_ws_stop.
Qed.

(** A byte that is part of no whitespace character stops the trimming. *)
Lemma strip_ws_barrier n c v :
  ws1 c = false -> (forall d, w2 c d = false /\ w2 d c = false) ->
  (forall d e, w3 c d e = false /\ w3 d c e = false /\ w3 d e c = false) ->
  strip_ws w2 w3 (n ++ c :: v) = strip_ws w2 w3 n ++ c :: v.
Proof.
  intros Hc H2 H3. induction n as [n IH] using list_len_ind.
  destruct n as [|d n].
  - apply strip_ws_stop; intros; simplify_eq/=; [done|apply H2|apply H3].
  - simpl. destruct (ws1 d); [apply IH; simpl; lia|].
    destruct n as [|e n]; simpl.
    + rewrite (proj2 (H2 d)). destruct v; [done|]. by rewrite (proj1 (proj2 (H3 d _))).
    + destruct (w2 d e); [apply IH; simpl; lia|].
      destruct n as [|f n]; simpl; [by rewrite (proj2 (proj2 (H3 d e)))|].
      destruct (w3 d e f); [apply IH; simpl; lia|done].
Qed.
End StripWs.

Lemma elem_of_trim s x : x ∈ trim s -> x ∈ s.
Proof.
  unfold trim, trim_end. rewrite elem_of_reverse. intros H%elem_of_strip_ws.
  rewrite elem_of_reverse in H. by apply elem_of_strip_ws in H.
Qed.

(** Trimming takes whole characters away. *)
Lemma ws1_ascii c : ws1 c = true -> c < 128.
Proof. unfold ws1, in_range. intros H. apply orb_true_iff in H as [H|H]; breflect; lia. Qed.

Lemma ws2_multi b0 b1 : ws2 b0 b1 = true -> utf8_multi [b0; b1].
Proof. unfold ws2. intros H. breflect. apply orb_true_iff in H0 as [H1|H1]; breflect; constructor; lia. Qed.

Lemma ws3_multi b0 b1 b2 : ws3 b0 b1 b2 = true -> utf8_multi [b0; b1; b2].
Proof.
  unfold ws3, in_range. intros H.
  repeat (match goal with H : _ || _ = true |- _ => apply orb_true_iff in H as [H|H] end || breflect);
    subst; constructor; simpl; lia.
Qed.

Lemma Utf8_trim s : Utf8 s -> Utf8 (trim s).
Proof.
  intros Hs. assert (Utf8 (trim_start s)) as H.
  { revert Hs. unfold trim_start. apply (strip_ws_ind ws2 ws3 (fun s t => Utf8 s -> Utf8 t)); [done|..].
    - intros c r t Hc%ws1_ascii IH H. by apply IH, (Utf8_tail_ascii c).
    - intros c d r t H2%ws2_multi IH H. by apply IH, (Utf8_tail_multi [c; d]).
    - intros c d e r t H3%ws3_multi IH H. by apply IH, (Utf8_tail_multi [c; d; e]). }
  unfold trim, trim_end. revert H. generalize (trim_start s). clear s Hs. intros s.
  rewrite <- (reverse_involutive s) at 1. generalize (reverse s). clear s.
  apply (strip_ws_ind (fun b1 b0 => ws2 b0 b1) (fun b2 b1 b0 => ws3 b0 b1 b2)
    (fun s t => Utf8 (reverse s) -> Utf8 (reverse t))); [done|..].
  - intros c r t Hc%ws1_ascii IH. rewrite reverse_cons. intros H. apply IH. by apply (Utf8_cut _ _ c [] H).
  - intros c d r t H2%ws2_multi IH. rewrite !reverse_cons, <- app_assoc. intros H.
    by apply IH, (Utf8_cut_multi _ [d; c]).
  - intros c d e r t H3%ws3_multi IH. rewrite !reverse_cons, <- !app_assoc. intros H.
    by apply IH, (Utf8_cut_multi _ [e; d; c]).
Qed.

Lemma trim_start_idem s : trim_start (trim_start s) = trim_start s.
Proof. apply strip_ws_idem. Qed.

Lemma trim_trim_start s : trim (trim_start s) = trim s.
Proof. unfold trim. by rewrite trim_start_idem. Qed.

Lemma ws2_ascii c d : c < 128 -> ws2 c d = false /\ ws2 d c = false.
Proof.
  intros H. unfold ws2. rewrite (proj2 (Z.eqb_neq c 194)), (proj2 (Z.eqb_neq c 133)),
    (proj2 (Z.eqb_neq c 160)), !andb_false_r by lia. done.
Qed.

Lemma ws3_ascii c d e : c < 128 -> ws3 c d e = false /\ ws3 d c e = false /\ ws3 d e c = false.
Proof.
  intros H. unfold ws3, in_range.
  repeat match goal with |- context [c =? ?k] => rewrite (proj2 (Z.eqb_neq c k)) by lia end.
  rewrite (proj2 (Z.leb_gt 128 c)), (proj2 (Z.leb_gt 168 c)) by lia.
  simpl. rewrite ?andb_false_r. simpl. rewrite ?andb_false_r. done.
Qed.

(** An ASCII character that is not whitespace separates what is trimmed on its
    left from what is trimmed on its right. *)
Lemma trim_barrier n c v :
  c < 128 -> ws1 c = false -> trim (n ++ c :: v) = trim_start n ++ c :: trim_end v.
Proof.
  intros Hc Hw. unfold trim, trim_start, trim_end.
  rewrite strip_ws_barrier by (eauto using ws2_ascii, ws3_ascii).
  rewrite reverse_app, reverse_cons, <-app_assoc. simpl.
  rewrite (strip_ws_barrier _ _ (reverse v) c).
  - by rewrite reverse_app, reverse_cons, reverse_involutive, <-app_assoc.
  - done.
  - intros d. by destruct (ws2_ascii c d Hc).
  - intros d e. by destruct (ws3_ascii c e d Hc) as (? & ? & ?).
Qed.

(** ** String patterns *)

Lemma starts_with_head c p d s : c <> d -> starts_with (c :: p) (d :: s) = false.
Proof.
  intros Hne. apply bool_decide_eq_false. intros [r H%strip_prefix_Some]. by simplify_eq/=.
Qed.

Lemma find_str_here p s : starts_with p s = true -> find_str p s = Some 0%nat.
Proof. intros H. destruct s; cbn [find_str]; by rewrite H. Qed.

(** The first occurrence of a pattern whose first byte comes nowhere earlier. *)
Lemma find_str_barrier c p s r :
  c ∉ s -> find_str (c :: p) (s ++ (c :: p) ++ r) = Some (length s).
Proof.
  induction s as [|d s IH]; intros Hc.
  - apply find_str_here, starts_with_spec. by exists r.
  - apply not_elem_of_cons in Hc as [Hcd Hc]. rewrite <-app_comm_cons. cbn [find_str length].
    rewrite starts_with_head by done. by rewrite IH.
Qed.

Lemma split_once_str_barrier c p s r :
  c ∉ s -> split_once_str (c :: p) (s ++ (c :: p) ++ r) = Some (s, r).
Proof.
  intros Hc. unfold split_once_str. rewrite find_str_barrier by done. cbn [fmap option_fmap option_map].
  rewrite take_app_length. do 2 f_equal. rewrite <-length_app, app_assoc. apply drop_app_length.
Qed.

Lemma find_str_Some p s i : find_str p s = Some i -> exists a r, s = a ++ p ++ r /\ length a = i.
Proof.
  revert i. induction s as [|d s IH]; intros i; cbn [find_str];
    destruct (starts_with p _) eqn:E; intros H.
  1, 3: injection H as <-; apply starts_with_spec in E as [r Hr]; by exists [], r.
  1: done.
  apply fmap_Some in H as (j & (a & r & -> & <-)%IH & ->). by exists (d :: a), r.
Qed.

(** [find] gives the first occurrence, and [None] means there is none. *)
Lemma find_str_least p s i b t : find_str p s = Some i -> s = b ++ p ++ t -> (i <= length b)%nat.
Proof.
  revert i b. induction s as [|d s IH]; intros i b; cbn [find_str];
    destruct (starts_with p _) eqn:E; intros H Hs; try done.
  1, 2: injection H as <-; lia.
  apply fmap_Some in H as (j & Hj & ->). destruct b as [|x b]; simplify_eq/=.
  - assert (starts_with p (d :: s) = true) by (apply starts_with_spec; by exists t). congruence.
  - enough (j <= length b)%nat by lia. by eapply IH.
Qed.

Lemma find_str_None p s b t : find_str p s = None -> s <> b ++ p ++ t.
Proof.
  revert b. induction s as [|d s IH]; intros b; cbn [find_str];
    destruct (starts_with p _) eqn:E; intros H Hs; try done.
  - symmetry in Hs. apply app_nil in Hs as [-> [-> ->]%app_nil]. done.
  - apply fmap_None in H. destruct b as [|x b]; simplify_eq/=; [|by eapply IH].
    assert (starts_with p (d :: s) = true) by (apply starts_with_spec; by exists t). congruence.
Qed.

Lemma find_str_first p a r :
  (forall b t, a ++ p ++ r = b ++ p ++ t -> (length a <= length b)%nat) ->
  find_str p (a ++ p ++ r) = Some (length a).
Proof.
  intros H. destruct (find_str p (a ++ p ++ r)) as [i|] eqn:E.
  - pose proof (find_str_least _ _ _ a r E eq_refl).
    apply find_str_Some in E as (b & t & E & <-). apply H in E. f_equal. lia.
  - by apply (find_str_None _ _ a r) in E.
Qed.

Lemma contains_str_false p s : contains_str p s = false <-> forall b t, s <> b ++ p ++ t.
Proof.
  unfold contains_str. rewrite bool_decide_eq_false. split.
  - intros H b t. apply find_str_None. by apply eq_None_not_Some.
  - intros H [i (a & r & E & _)%find_str_Some]. by eapply H.
Qed.

Lemma split_once_str_Some p s a b : split_once_str p s = Some (a, b) -> s = a ++ p ++ b.
Proof.
  unfold split_once_str. intros (i & (a' & r & -> & <-)%find_str_Some & [= -> ->])%fmap_Some.
  rewrite take_app_length, <-length_app. f_equal. f_equal.
  by rewrite (app_assoc a' p r), drop_app_length.
Qed.

Lemma split_once_str_absent c p s : c ∉ s -> split_once_str (c :: p) s = None.
Proof.
  intros Hc. unfold split_once_str. destruct (find_str (c :: p) s) eqn:E; [|done]. exfalso.
  apply find_str_Some in E as (a & r & -> & _). apply Hc. set_solver.
Qed.

Lemma rsplit_once_barrier c a b : c ∉ b -> rsplit_once c (a ++ c :: b) = Some (a, b).
Proof.
  intros Hc. unfold rsplit_once. rewrite reverse_app, reverse_cons, <-app_assoc.
  rewrite (proj2 (split_once_Some c _ (reverse b) (reverse a))); simpl.
  - by rewrite !reverse_involutive.
  - split; [done|]. by rewrite elem_of_reverse.
Qed.

(** Trimming leaves text that begins and ends with visible ASCII alone. *)
Lemma trim_end_snoc n c : c < 128 -> ws1 c = false -> trim_end (n ++ [c]) = n ++ [c].
Proof.
  intros Hc Hw. unfold trim_end. rewrite reverse_app.
  change (reverse [c] ++ reverse n) with ([] ++ c :: reverse n).
  rewrite (strip_ws_barrier _ _ [] c); [|done|..].
  - simpl. by rewrite reverse_cons, reverse_involutive.
  - intros d. by destruct (ws2_ascii c d Hc).
  - intros d e. by destruct (ws3_ascii c e d Hc) as (? & ? & ?).
Qed.

Lemma trim_id c n d :
  c < 128 -> ws1 c = false -> d < 128 -> ws1 d = false -> trim (c :: n ++ [d]) = c :: n ++ [d].
Proof.
  intros Hc Wc Hd Wd. change (trim ([] ++ c :: (n ++ [d])) = c :: n ++ [d]).
  rewrite trim_barrier, trim_end_snoc by done. done.
Qed.

(** How the code tests for a sub-domain of a suffix: a non-empty label, a dot,
    the suffix. *)
Lemma dotted_suffix_spec suffix host :
  (length suffix + 1 <? length host)%nat && ends_with suffix host
    && ends_with [b_dot] (take (length host - length suffix) host) = true <->
  exists label : str, label <> [] /\ host = label ++ b_dot :: suffix.
Proof.
  split.
  - intros H. apply andb_true_iff in H as [H H2]. apply andb_true_iff in H as [H0 H1].
    apply Nat.ltb_lt in H0. apply ends_with_spec in H1 as [pre ->]. rewrite length_app in *.
    replace (length pre + length suffix - length suffix)%nat with (length pre) in H2 by lia.
    rewrite take_app_length in H2. apply ends_with_spec in H2 as [label ->].
    exists label. rewrite length_app in H0. simpl in H0. split; [by destruct label; simpl in *; [lia|]|].
    by rewrite <-app_assoc.
  - intros (label & Hl & ->).
    replace (label ++ b_dot :: suffix) with ((label ++ [b_dot]) ++ suffix) by by rewrite <-app_assoc.
    rewrite !andb_true_iff. split; [split|].
    + apply Nat.ltb_lt. rewrite !length_app. simpl. destruct label; [done|simpl; lia].
    + apply ends_with_spec. by eexists.
    + rewrite (length_app _ suffix), Nat.add_sub, take_app_length. apply ends_with_spec. by eexists.
Qed.

(** ** Lemmas: decimals *)

Lemma digits_fuel_spec f n acc :
  0 <= n < 10 ^ Z.of_nat f ->
  exists w, digits_fuel f n acc = w ++ acc /\ Forall (fun c => is_ascii_digit c = true) w /\
    forall a r, digits_value a (w ++ r) = digits_value (a * 10 ^ Z.of_nat (length w) + n) r.
Proof.
  revert n acc. induction f as [|f IH]; intros n acc Hn.
  - exists []. split_and!; [done|constructor|]. intros a r. simpl. f_equal. simpl in Hn. lia.
  - assert (is_ascii_digit (48 + n mod 10) = true) as Hd.
    { unfold is_ascii_digit, in_range. pose proof (Z.mod_pos_bound n 10). apply andb_true_iff. lia. }
    cbn [digits_fuel]. destruct (Z.ltb_spec n 10) as [H|H].
    + exists [48 + n mod 10]. split_and!; [done|by repeat constructor|].
      intros a r. cbn [digits_value app length]. rewrite Hd, Z.mod_small by lia. f_equal. lia.
    + rewrite Nat2Z.inj_succ, Z.pow_succ_r in Hn by lia.
      destruct (IH (n / 10) (48 + n mod 10 :: acc)) as (w & E & Hw & Hv).
      { split; [apply Z.div_pos; lia|]. apply Z.div_lt_upper_bound; lia. }
      exists (w ++ [48 + n mod 10]). split_and!.
      * rewrite E. by rewrite <- app_assoc.
      * apply Forall_app. split; [done|by repeat constructor].
      * intros a r. rewrite <- app_assoc, Hv. cbn [app digits_value]. rewrite Hd. f_equal.
        rewrite length_app. simpl length. rewrite Nat2Z.inj_add, Z.pow_add_r by lia.
        change (10 ^ Z.of_nat 1) with 10. pose proof (Z.div_mod n 10). lia.
Qed.

Lemma show_u64_digits n : 0 <= n <= u64_max -> Forall (fun c => is_ascii_digit c = true) (show_u64 n).
Proof.
  intros H. destruct (digits_fuel_spec 20 n []) as (w & E & Hw & _).
  { unfold u64_max in H. change (10 ^ Z.of_nat 20) with 100000000000000000000. lia. }
  unfold show_u64. by rewrite E, app_nil_r.
Qed.

Lemma show_u64_value n : 0 <= n <= u64_max -> digits_value 0 (show_u64 n) = Some n.
Proof.
  intros H. destruct (digits_fuel_spec 20 n []) as (w & E & _ & Hv).
  { unfold u64_max in H. change (10 ^ Z.of_nat 20) with 100000000000000000000. lia. }
  unfold show_u64. rewrite E, Hv. reflexivity.
Qed.

Lemma show_u64_inj m n : 0 <= m <= u64_max -> 0 <= n <= u64_max -> show_u64 m = show_u64 n -> m = n.
Proof. intros Hm Hn E. apply show_u64_value in Hm, Hn. rewrite E in Hm. congruence. Qed.
