(* ===== verification/Path.v ===== *)
(** * Path canonicalization (path.rs)

    [canonicalize_proxy_path] turns an untrusted request path into the one
    string used both for matching (deny-list, routes) and for the upstream
    request.  The percent decoder is the [percent_encoding] crate's
    [percent_decode_str(..).decode_utf8()], a parameter of the model; what the
    theorems need of it is that a successful decode is valid UTF-8, which is
    the type of its result. *)

From S2P Require Export Str.

Definition MAX_DECODE_PASSES : nat := 3.

Definition normalize_proxy_path (path : str) : str := trim_matches (Z.eqb b_slash) path.

(** The characters rejected after decoding: below 0x20, DEL, backslash. *)
Definition hostile_char (c : Z) : bool := (c <? 32) || (c =? 127) || (c =? b_backslash).

Definition dot_segment (s : str) : bool := (s ==? ".") || (s ==? "..").

Section Canonicalize.
Context (percent_decode : str -> option str).

(** The decoding loop: stop without a [%] or at a fixed point, fail where the
    decoder does. *)
Fixpoint decode_passes (n : nat) (decoded : str) : option str :=
  match n with
  | O => Some decoded
  | S n' =>
      if negb (contains_byte b_percent decoded) then Some decoded
      else letO next := percent_decode decoded in
           if next ==? decoded then Some decoded else decode_passes n' next
  end.

Definition canonicalize_proxy_path (raw : str) : option str :=
  letO before_query := head (split_on 63 raw) in
  letO without_query := head (split_on 35 before_query) in
  letO decoded := decode_passes MAX_DECODE_PASSES without_query in
  if contains_byte b_percent decoded then None
  else if existsb hostile_char (chars decoded) then None
  else
    let segments := List.filter (fun s => negb (s ==? [])) (split_on b_slash decoded) in
    if existsb dot_segment segments then None
    else Some (join [b_slash] segments).
End Canonicalize.

(** ** Encoding for the upstream *)

(** The set [SEGMENT]: controls, and what may not appear in a path segment. *)
Definition SEGMENT (b : Z) : bool :=
  (b <? 32) || (b =? 127)
  || existsb (Z.eqb b) [32; 34; 35; 60; 62; 63; 96; 123; 125; 37; 94; 124; 92; 91; 93; 47].

(** [utf8_percent_encode s set] of the [percent_encoding] crate is a parameter. *)
Definition encode_path_segments (utf8_percent_encode : (Z -> bool) -> str -> str) (path : str) : str :=
  join [b_slash] (map (utf8_percent_encode SEGMENT) (split_on b_slash path)).

(** What "safe for prefix matching and for the upstream" means: no escape left,
    no hostile byte, no empty or dot segment between slashes. *)
Record canonical (p : str) : Prop := {
  canon_no_percent : b_percent ∉ p;
  canon_no_hostile : forall b, b ∈ p -> 32 <= b /\ b <> 127 /\ b <> 92;
  canon_segments : p <> [] -> forall s, s ∈ split_on b_slash p ->
    s <> [] /\ s <> str_of "." /\ s <> str_of "..";
}.

(** ** Lemmas *)

Lemma hostile_char_spec c : hostile_char c = false <-> 32 <= c /\ c <> 127 /\ c <> 92.
Proof.
  unfold hostile_char, b_backslash. rewrite !orb_false_iff, Z.ltb_ge, !Z.eqb_neq. tauto.
Qed.

Lemma dot_segment_spec s : dot_segment s = false <-> s <> str_of "." /\ s <> str_of "..".
Proof. unfold dot_segment. by rewrite orb_false_iff, !bool_decide_eq_false. Qed.

Section Facts.
Context (percent_decode : str -> option str).
Context (decode_utf8 : forall s t, percent_decode s = Some t -> Utf8 t).

Lemma decode_passes_utf8 n s t :
  Utf8 s -> decode_passes percent_decode n s = Some t -> Utf8 t.
Proof using decode_utf8.
  revert s. induction n as [|n IH]; intros s Hs; simpl; [by intros [= <-]|].
  case_match; [by intros [= <-]|].
  destruct (percent_decode s) as [next|] eqn:E; simpl; [|done].
  case_bool_decide; [by intros [= <-]|]. eauto.
Qed.
End Facts.

Lemma decode_passes_plain pd n s : b_percent ∉ s -> decode_passes pd n s = Some s.
Proof. intros H%contains_byte_false. destruct n; simpl; by rewrite ?H. Qed.

Lemma Utf8_head_split c s w : c < 128 -> Utf8 s -> head (split_on c s) = Some w -> Utf8 w.
Proof.
  intros Hc Hs. destruct (decide (c ∈ s)) as [Hin|Hin].
  - apply list_elem_of_split_l in Hin as (a & b & -> & Ha).
    rewrite split_on_app by done. intros [= <-]. by eapply Utf8_cut.
  - rewrite split_on_absent by done. by intros [= <-].
Qed.

(** The segments that survive the filter are exactly the segments of the
    result. *)
Lemma kept_segments s :
  let segs := List.filter (fun s => negb (s ==? [])) (split_on b_slash s) in
  Forall (fun w => b_slash ∉ w) segs.
Proof.
  apply Forall_forall. intros w [Hw _]%filter_In.
  pose proof (split_on_clean b_slash s) as H. rewrite Forall_forall in H. by apply H.
Qed.

Lemma split_join_kept s p :
  let segs := List.filter (fun s => negb (s ==? [])) (split_on b_slash s) in
  p = join [b_slash] segs -> p <> [] -> split_on b_slash p = segs.
Proof.
  intros segs -> Hne. apply split_join; [|apply kept_segments].
  intros Hnil. by rewrite Hnil in Hne.
Qed.

Lemma filter_nonempty_id l :
  Forall (fun w : str => w <> []) l -> List.filter (fun s => negb (s ==? [])) l = l.
Proof.
  induction 1 as [|w l Hw _ IH]; [done|]. simpl.
  rewrite bool_decide_false by done. simpl. by rewrite IH.
Qed.

Lemma elem_of_kept_join b s :
  b ∈ join [b_slash] (List.filter (fun s => negb (s ==? [])) (split_on b_slash s)) ->
  b = b_slash \/ b ∈ s.
Proof.
  intros [->|(w & Hw & Hb)]%elem_of_join; [by left|].
  apply list_elem_of_In, filter_In in Hw as [Hw _].
  right. apply (split_on_elem b_slash s w); [by apply list_elem_of_In|done].
Qed.

Lemma hostile_char_wide c : 128 <= c -> hostile_char c = false.
Proof. rewrite hostile_char_spec. lia. Qed.

(** ** Theorems *)

(** C11: whatever the percent decoder does, an accepted path is [canonical]: no
    escape survives, no byte of it is a control character, DEL or a backslash,
    and none of its segments is empty, [.] or [..].  This is what lets prefix
    matching on it stand for the path the upstream resolves. *)
Theorem canonicalize_canonical percent_decode raw p
    (Hdecode : forall s t, percent_decode s = Some t -> Utf8 t) (Hraw : Utf8 raw)
    (Hp : canonicalize_proxy_path percent_decode raw = Some p) :
  canonical p.
Proof.
  unfold canonicalize_proxy_path in Hp.
  apply bind_Some in Hp as (q & Hq & Hp). apply bind_Some in Hp as (r & Hr & Hp).
  apply bind_Some in Hp as (d & Hd & Hp).
  assert (Utf8 d) as Hutf.
  { eapply decode_passes_utf8; [exact Hdecode| |exact Hd].
    eapply (Utf8_head_split 35); [lia| |exact Hr].
    eapply (Utf8_head_split 63); [lia|exact Hraw|exact Hq]. }
  destruct (contains_byte b_percent d) eqn:Hpct; [done|].
  destruct (existsb hostile_char (chars d)) eqn:Hhost; [done|].
  destruct (existsb dot_segment _) eqn:Hdot; [done|]. injection Hp as <-.
  rewrite contains_byte_false in Hpct. rewrite existsb_none in Hhost. rewrite existsb_none in Hdot.
  split.
  - intros [?|?]%elem_of_kept_join; done.
  - intros b Hb. apply hostile_char_spec. revert b Hb. intros b [->|Hb]%elem_of_kept_join; [done|].
    destruct (decide (b < 128)) as [Hlt|Hge].
    + apply Hhost. by apply elem_of_chars_ascii.
    + apply hostile_char_wide. lia.
  - intros Hne s Hs. rewrite (split_join_kept d _ eq_refl Hne) in Hs.
    split; [|by apply dot_segment_spec, Hdot].
    apply list_elem_of_In, filter_In in Hs as [_ Hs]. by breflect.
Qed.

(** What follows the decoding leaves a canonical path alone. *)
Lemma canonical_kept p : canonical p -> Utf8 p ->
  contains_byte b_percent p = false /\ existsb hostile_char (chars p) = false /\
  existsb dot_segment (List.filter (fun s => negb (s ==? [])) (split_on b_slash p)) = false /\
  join [b_slash] (List.filter (fun s => negb (s ==? [])) (split_on b_slash p)) = p.
Proof.
  intros [Hpct Hhost Hseg] Hutf. split_and!.
  - by apply contains_byte_false.
  - apply existsb_none. intros c Hc. destruct (decide (c < 128)).
    + apply hostile_char_spec, Hhost. by apply elem_of_chars_ascii.
    + apply hostile_char_wide. lia.
  - destruct (decide (p = [])) as [->|Hne]; [done|]. rewrite filter_nonempty_id.
    + apply existsb_none. intros s Hs. by apply dot_segment_spec, (Hseg Hne).
    + apply Forall_forall. intros s Hs. apply (Hseg Hne). by apply list_elem_of_In.
  - destruct (decide (p = [])) as [->|Hne]; [done|]. rewrite filter_nonempty_id.
    + apply join_split.
    + apply Forall_forall. intros s Hs. apply (Hseg Hne). by apply list_elem_of_In.
Qed.

Lemma canonicalize_decoded percent_decode raw p :
  63 ∉ raw -> 35 ∉ raw -> decode_passes percent_decode MAX_DECODE_PASSES raw = Some p ->
  canonical p -> Utf8 p -> canonicalize_proxy_path percent_decode raw = Some p.
Proof.
  intros Hq Hf Hd Hp Hutf. destruct (canonical_kept p Hp Hutf) as (H1 & H2 & H3 & H4).
  unfold canonicalize_proxy_path. rewrite split_on_absent by done. cbn [head mbind option_bind].
  rewrite split_on_absent by done. cbn [head mbind option_bind].
  rewrite Hd. cbn [mbind option_bind]. by rewrite H1, H2, H3, H4.
Qed.

(** Canonicalization is idempotent on its own results, unless a decoded
    [?] or [#] survives in them (from [%3F] or [%23]), which a second pass
    would read as the start of a query string or a fragment. *)
Lemma canonicalize_idempotent percent_decode p (Hp : canonical p) (Hutf : Utf8 p)
    (Hquery : 63 ∉ p) (Hfragment : 35 ∉ p) :
  canonicalize_proxy_path percent_decode p = Some p.
Proof. apply canonicalize_decoded; try done. apply decode_passes_plain, Hp. Qed.

(** ** The encoded path *)

(** How a byte is escaped: an upper-case pair of hex digits. *)
Definition upper_hex (d : Z) : Z := if d <? 10 then 48 + d else 55 + d.
Definition percent_byte (set : Z -> bool) (b : Z) : str :=
  if set b || (128 <=? b) then [b_percent; upper_hex (b / 16); upper_hex (b mod 16)] else [b].

(** The documented behaviour of the [percent_encoding] crate: the encoder
    escapes the bytes of the set and the non-ASCII ones, each on its own, and
    the decoder undoes it when the set holds the percent sign. *)
Record PercentEncoding (encode : (Z -> bool) -> str -> str) (decode : str -> option str) : Prop := {
  pe_encode : forall set s, encode set s = flat_map (percent_byte set) s;
  pe_decode : forall set s, set b_percent = true -> Utf8 s ->
    decode (flat_map (percent_byte set) s) = Some s;
}.

(** The slashes are left as they are, and nothing else of [SEGMENT]. *)
Definition PATH (b : Z) : bool := SEGMENT b && negb (b =? b_slash).

Lemma join_encoded (s : str) :
  join [b_slash] (map (flat_map (percent_byte SEGMENT)) (split_on b_slash s)) = flat_map (percent_byte PATH) s.
Proof.
  induction s as [|c s IH]; [done|]. cbn [split_on flat_map].
  destruct (split_on_cons b_slash s) as (w & ws & E). rewrite E in *.
  destruct (Z.eqb_spec c b_slash) as [->|Hne].
  - rewrite <-IH. done.
  - rewrite <-IH. assert (percent_byte PATH c = percent_byte SEGMENT c) as ->.
    { unfold percent_byte, PATH. rewrite (proj2 (Z.eqb_neq _ _) Hne). by rewrite andb_true_r. }
    cbn [map flat_map]. destruct (map _ ws); simpl; by rewrite <-?app_assoc.
Qed.

Lemma Utf8_bytes s : Utf8 s -> Forall (fun b => 0 <= b < 256) s.
Proof.
  induction 1 as [|b s Hb _ IH|c s Hc _ IH]; [constructor|constructor; [lia|done]|].
  apply Forall_app. split; [|done].
  destruct Hc; repeat (apply List.Forall_cons; [repeat case_match; lia|]); constructor.
Qed.

(** An escaped byte shows none of the bytes of the set but the percent sign. *)
Lemma elem_of_percent_byte set b x :
  0 <= b < 256 -> x ∈ percent_byte set b ->
  x = b_percent \/ 48 <= x <= 57 \/ 65 <= x <= 70 \/ (x = b /\ set b = false /\ b < 128).
Proof.
  intros Hb. unfold percent_byte. destruct (set b || (128 <=? b)) eqn:E.
  - assert (0 <= b / 16 < 16) by (split; [apply Z.div_pos; lia|apply Z.div_lt_upper_bound; lia]).
    pose proof (Z.mod_pos_bound b 16 ltac:(lia)).
    rewrite !elem_of_cons. unfold upper_hex.
    intros [->|[->|[->|[]%elem_of_nil]]]; [by left|..]; right; case_match; breflect; lia.
  - breflect. intros ->%list_elem_of_singleton. auto 10.
Qed.

Lemma encoded_plain set s : b_percent ∉ flat_map (percent_byte set) s -> flat_map (percent_byte set) s = s.
Proof.
  induction s as [|c s IH]; [done|]. simpl. intros H. unfold percent_byte at 1 in H. unfold percent_byte at 1.
  destruct (set c || _); [exfalso; apply H; by left|]. simpl. f_equal. apply IH.
  intros Hin. apply H. by right.
Qed.

(** C39: what the upstream is asked for is what was authorized: whatever the
    percent encoder and decoder, if they do what they document, the canonical
    path that went through the deny-list and the allowlist is encoded without
    a query or fragment marker, and canonicalizing the encoded path gives the
    same path back, not another one. *)
Theorem encoded_path_roundtrip encode decode p (Henc : PercentEncoding encode decode)
    (Hp : canonical p) (Hutf : Utf8 p) :
  canonicalize_proxy_path decode (encode_path_segments encode p) = Some p /\
  63 ∉ encode_path_segments encode p /\ 35 ∉ encode_path_segments encode p.
Proof.
  pose proof (Utf8_bytes p Hutf) as Hbytes.
  assert (encode_path_segments encode p = flat_map (percent_byte PATH) p) as ->.
  { unfold encode_path_segments. rewrite <-join_encoded. f_equal.
    apply map_ext. intros w. apply Henc. }
  assert (forall x, PATH x = true -> x <> b_percent -> (x < 48 \/ 57 < x) -> (x < 65 \/ 70 < x) ->
    x ∉ flat_map (percent_byte PATH) p) as Hno.
  { intros x Hx Hne H1 H2. rewrite list_elem_of_In, in_flat_map. intros (b & Hb & Hin).
    apply list_elem_of_In in Hb, Hin. rewrite Forall_elem in Hbytes.
    destruct (elem_of_percent_byte PATH b x (Hbytes _ Hb) Hin) as [?|[?|[?|(-> & Hf & _)]]]; try lia.
    congruence. }
  assert (63 ∉ flat_map (percent_byte PATH) p) as H63 by (apply Hno; [done|unfold b_percent; lia..]).
  assert (35 ∉ flat_map (percent_byte PATH) p) as H35 by (apply Hno; [done|unfold b_percent; lia..]).
  split_and!; [|done..]. apply canonicalize_decoded; try done.
  unfold MAX_DECODE_PASSES. cbn [decode_passes].
  destruct (contains_byte b_percent (flat_map (percent_byte PATH) p)) eqn:E; cbn [negb].
  - rewrite (pe_decode _ _ Henc) by done. cbn [mbind option_bind].
    case_bool_decide as Heq; [by rewrite <-Heq|].
    pose proof (proj2 (contains_byte_false b_percent p) (canon_no_percent p Hp)) as H.
    by rewrite H.
  - f_equal. apply encoded_plain, contains_byte_false. done.
Qed.

(** ** Witnesses *)

(** A percent decoder for the witnesses: the sequences it decodes are those of
    two hex digits, and it answers only where the result is ASCII. *)
Definition hex_value (c : Z) : option Z :=
  if is_ascii_digit c then Some (c - 48)
  else if in_range 97 102 c then Some (c - 87)
  else if in_range 65 70 c then Some (c - 55)
  else None.

Fixpoint decode_escapes (s : str) : str :=
  match s with
  | [] => []
  | c :: r =>
      match r with
      | a :: b :: r' =>
          match hex_value a, hex_value b with
          | Some x, Some y =>
              if c =? b_percent then 16 * x + y :: decode_escapes r' else c :: decode_escapes r
          | _, _ => c :: decode_escapes r
          end
      | _ => c :: decode_escapes r
      end
  end.

Definition ascii_decoder (s : str) : option str :=
  let t := decode_escapes s in if forallb (in_range 0 127) t then Some t else None.

Lemma ascii_decoder_utf8 s t : ascii_decoder s = Some t -> Utf8 t.
Proof.
  unfold ascii_decoder. destruct (forallb _ _) eqn:E; [|done]. intros [= <-].
  apply Utf8_of_ascii, Forall_forall. intros b Hb%list_elem_of_In.
  rewrite forallb_In in E. specialize (E b Hb). unfold in_range in E. breflect. lia.
Qed.

Lemma ascii_Utf8 s : forallb (in_range 0 127) s = true -> Utf8 s.
Proof.
  intros E. apply Utf8_of_ascii, Forall_forall. intros b Hb%list_elem_of_In.
  rewrite forallb_In in E. specialize (E b Hb). unfold in_range in E. breflect. lia.
Qed.

Lemma canonicalize_canonical_witness : canonical "users/42/pets".
Proof.
  apply (canonicalize_canonical ascii_decoder "//users/4%32%252Fpets/?full=1").
  - exact ascii_decoder_utf8.
  - apply ascii_Utf8. reflexivity.
  - vm_compute. reflexivity.
Defined.

Lemma canonicalize_idempotent_witness :
  canonicalize_proxy_path ascii_decoder "users/42/pets" = Some (str_of "users/42/pets").
Proof.
  apply canonicalize_idempotent.
  - split.
    + apply contains_byte_false. reflexivity.
    + apply Forall_elem. repeat constructor; vm_compute; discriminate.
    + intros _. apply Forall_elem. repeat constructor; vm_compute; discriminate.
  - apply ascii_Utf8. reflexivity.
  - apply contains_byte_false. reflexivity.
  - apply contains_byte_false. reflexivity.
Defined.

(** The encoder and a decoder for the witness. *)
Definition sample_encode (set : Z -> bool) (s : str) : str := flat_map (percent_byte set) s.

Lemma upper_hex_value d : 0 <= d < 16 -> hex_value (upper_hex d) = Some d.
Proof.
  intros Hd. unfold hex_value, upper_hex, is_ascii_digit, in_range.
  destruct (Z.ltb_spec d 10).
  - rewrite (proj2 (andb_true_iff _ _)) by (split; apply Z.leb_le; lia). f_equal. lia.
  - destruct (Z.leb_spec (55 + d) 57); [lia|]. rewrite andb_false_r.
    destruct (Z.leb_spec 97 (55 + d)); [lia|]. cbn [andb].
    rewrite (proj2 (andb_true_iff _ _)) by (split; apply Z.leb_le; lia). f_equal. lia.
Qed.

Lemma decode_escapes_other c r : c <> b_percent -> decode_escapes (c :: r) = c :: decode_escapes r.
Proof.
  intros Hc%Z.eqb_neq. simpl. destruct r as [|a [|b r']]; [done..|].
  destruct (hex_value a), (hex_value b); rewrite ?Hc; done.
Qed.

Lemma sample_encoding : PercentEncoding sample_encode (fun s => Some (decode_escapes s)).
Proof.
  split; [done|]. intros set s Hset Hs%Utf8_bytes. f_equal.
  induction Hs as [|c s Hc _ IH]; [done|]. cbn [flat_map]. unfold percent_byte at 1.
  destruct (set c || (128 <=? c)) eqn:E.
  - assert (0 <= c / 16 < 16) by (split; [apply Z.div_pos; lia|apply Z.div_lt_upper_bound; lia]).
    pose proof (Z.mod_pos_bound c 16 ltac:(lia)). cbn [app decode_escapes].
    rewrite !upper_hex_value by lia. cbn. f_equal; [|exact IH].
    pose proof (Z.div_mod c 16 ltac:(lia)). lia.
  - cbn [app]. rewrite decode_escapes_other; [by f_equal|]. intros ->. by rewrite Hset in E.
Qed.

Lemma encoded_path_roundtrip_witness :
  encode_path_segments sample_encode (str_of "a ?b/" ++ [195; 169]) = "a%20%3Fb/%C3%A9" /\
  canonicalize_proxy_path (fun s => Some (decode_escapes s)) "a%20%3Fb/%C3%A9"
  = Some (str_of "a ?b/" ++ [195; 169]).
Proof.
  split; [reflexivity|].
  refine (proj1 (encoded_path_roundtrip sample_encode _ (str_of "a ?b/" ++ [195; 169]) sample_encoding _ _)).
  - split.
    + apply contains_byte_false. reflexivity.
    + apply Forall_elem. repeat constructor; vm_compute; discriminate.
    + intros _. apply Forall_elem. repeat constructor; vm_compute; discriminate.
  - change (Utf8 [97; 32; 63; 98; 47; 195; 169]). do 5 (apply utf8_ascii; [lia|]). apply (utf8_wide [195; 169] []); [by constructor|constructor].
Defined.
