(* ===== verification/Interpolate.v ===== *)
(** * Environment variables in the configuration (config/interpolate.rs)

    [${VAR}] and [${VAR:-default}] are expanded in the text of a configuration
    document before it is parsed.  The document is read by lines; comments are
    left alone, except inside block scalars, whose body is literal text.  The
    environment is the function [lookup].  [inspect] runs the same machine with
    markers in the place of values, and [resolve_scalar] fills the markers of
    one scalar in. *)

From S2P Require Export Str.

Definition is_structurally_safe (value : str) : bool := negb (existsb is_control (chars value)).

Definition is_valid_name (name : str) : bool :=
  match chars name with
  | [] => false
  | c :: rest =>
      (is_ascii_alphabetic c || (c =? 95))
      && forallb (fun c => is_ascii_alphanumeric c || (c =? 95)) rest
  end.

Inductive InterpolateError :=
| Unset (name : str) (line : nat)
| Unterminated (line : nat)
| EmptyName (line : nat)
| BadName (name : str) (line : nat)
| ControlCharacter (name : str) (line : nat).

Record Interpolated := {
  text : str;
  referenced : list str;
  defaulted : list str;
  placeheld : list str;
}.

Inductive VariableState := IsSet | IsDefaulted | IsRequired | IsInvalid.
#[export] Instance VariableState_eq_dec : EqDecision VariableState.
Proof. solve_decision. Defined.

Record VariableReference := {
  vr_name : str;
  vr_line : nat;
  vr_column : nat;
  has_default : bool;
  state : VariableState;
  marker : str;
  selected : option str;
}.

(** ** Lines *)

(** The scan of [comment_start], from byte [i] on. *)
Fixpoint comment_scan (i : nat) (in_single in_double prev_was_space escaped : bool) (line : str)
  : option nat :=
  match line with
  | [] => None
  | c :: rest =>
      if escaped then comment_scan (S i) in_single in_double false false rest
      else
        let space := (c =? b_space) || (c =? b_tab) in
        if (c =? b_backslash) && in_double then comment_scan (S i) in_single in_double space true rest
        else if (c =? 39) && negb in_double then
          comment_scan (S i) (negb in_single) in_double space false rest
        else if (c =? 34) && negb in_single then
          comment_scan (S i) in_single (negb in_double) space false rest
        else if (c =? 35) && negb in_single && negb in_double && prev_was_space then Some i
        else comment_scan (S i) in_single in_double space false rest
  end.
Definition comment_start (line : str) : option nat := comment_scan 0 false false true false line.

Definition indent_of (line : str) : nat := length line - length (trim_start line).

Definition opens_block_scalar (code : str) : bool :=
  match rsplit_once 58 (trim_end code) with
  | Some (_, rest) =>
      let r := trim rest in
      negb (r ==? []) && (starts_with "|" r || starts_with ">" r)
  | None => false
  end.

(** ** Expansion *)

Record Expansion := {
  ex_referenced : list str;
  ex_defaulted : list str;
  ex_placeheld : list str;
  ex_occurrences : list VariableReference;
}.
Definition expansion_new : Expansion :=
  {| ex_referenced := []; ex_defaulted := []; ex_placeheld := []; ex_occurrences := [] |}.

Definition note (l : list str) (name : str) : list str :=
  if existsb (fun n => n ==? name) l then l else l ++ [name].

Definition note_referenced (name : str) (e : Expansion) : Expansion :=
  {| ex_referenced := note (ex_referenced e) name; ex_defaulted := ex_defaulted e;
     ex_placeheld := ex_placeheld e; ex_occurrences := ex_occurrences e |}.
Definition note_defaulted (name : str) (e : Expansion) : Expansion :=
  {| ex_referenced := ex_referenced e; ex_defaulted := note (ex_defaulted e) name;
     ex_placeheld := ex_placeheld e; ex_occurrences := ex_occurrences e |}.
Definition note_placeheld (name : str) (e : Expansion) : Expansion :=
  {| ex_referenced := ex_referenced e; ex_defaulted := ex_defaulted e;
     ex_placeheld := note (ex_placeheld e) name; ex_occurrences := ex_occurrences e |}.
Definition add_occurrence (r : VariableReference) (e : Expansion) : Expansion :=
  {| ex_referenced := ex_referenced e; ex_defaulted := ex_defaulted e;
     ex_placeheld := ex_placeheld e; ex_occurrences := ex_occurrences e ++ [r] |}.

Section Expand.
Context (lookup : str -> option str) (fallback : option (str -> str)) (inspection_prefix : option str).

(** The name and the default written in the braces. *)
Definition reference_parts (body : str) : str * option str :=
  match split_once_str ":-" body with
  | Some (n, d) => (trim n, Some d)
  | None => (trim body, None)
  end.

(** A value that is empty or blank counts as unset. *)
Definition resolved (name : str) : option str :=
  letO v := lookup name in let v := trim v in if v ==? [] then None else Some v.

Definition marker_of (prefix : str) (i : nat) : str := prefix ++ show_u64 (Z.of_nat i) ++ "-end".

(** What an inspection records of one occurrence. *)
Definition inspect_reference (prefix name : str) (default : option str) (line column : nat)
    (e : Expansion) : VariableReference :=
  let st := match resolved name, default with
            | Some _, _ => IsSet
            | None, Some _ => IsDefaulted
            | None, None => IsRequired
            end in
  let sel := match resolved name with Some v => Some v | None => default end in
  let invalid := match sel with Some v => negb (is_structurally_safe v) | None => false end in
  {| vr_name := name; vr_line := line; vr_column := column;
     has_default := bool_decide (is_Some default);
     state := if invalid then IsInvalid else st;
     marker := marker_of prefix (length (ex_occurrences e));
     selected := if invalid then None else sel |}.

(** What a reference expands to, [before] being the fragment up to its [$]. *)
Definition expand_reference (line : nat) (before body : str) (e : Expansion)
  : result (str * Expansion) InterpolateError :=
  let '(name, default) := reference_parts body in
  if name ==? [] then Err (EmptyName line)
  else if negb (is_valid_name name) then Err (BadName name line)
  else
    let e := note_referenced name e in
    match inspection_prefix with
    | Some prefix =>
        let r := inspect_reference prefix name default line (length (chars before) + 1) e in
        Ok (marker r, add_occurrence r e)
    | None =>
        let? ve := match resolved name, default with
                   | Some v, _ => Ok (v, e)
                   | None, Some d => Ok (d, note_defaulted name e)
                   | None, None =>
                       match fallback with
                       | Some f => Ok (f name, note_placeheld name e)
                       | None => Err (Unset name line)
                       end
                   end in
        if negb (is_structurally_safe (fst ve)) then Err (ControlCharacter name line) else Ok ve
    end.

Definition push (s : str) (r : result (str * Expansion) InterpolateError)
  : result (str * Expansion) InterpolateError :=
  let? oe := r in Ok (s ++ fst oe, snd oe).

(** [expand_into]: the text it appends to its output.  [seen] is the part of
    the fragment that was read, and [body] what was read of the body of an open
    reference, with the fragment before it. *)
Fixpoint expand_into (line : nat) (seen : str) (body : option (str * str)) (rest : str) (e : Expansion)
  : result (str * Expansion) InterpolateError :=
  match rest with
  | [] => match body with Some _ => Err (Unterminated line) | None => Ok ([], e) end
  | c :: rest =>
      match body with
      | Some (before, b) =>
          if c =? 125 then
            let? ve := expand_reference line before b e in
            push (fst ve) (expand_into line (seen ++ [c]) None rest (snd ve))
          else expand_into line (seen ++ [c]) (Some (before, b ++ [c])) rest e
      | None =>
          if negb (c =? 36) then push [c] (expand_into line (seen ++ [c]) None rest e)
          else match rest with
               | [] => Ok ([36], e)
               | d :: rest' =>
                   if d =? 36 then push [36] (expand_into line (seen ++ [c; d]) None rest' e)
                   else if d =? 123 then expand_into line (seen ++ [c; d]) (Some (seen, [])) rest' e
                   else push [36] (expand_into line (seen ++ [c]) None rest e)
               end
      end
  end.

(** ** Documents *)

Definition leave_block (block : option nat) (line : str) : option nat :=
  match block with
  | Some indent =>
      if negb (trim line ==? []) && (indent_of line <=? indent)%nat then None else block
  | None => None
  end.

Definition code_and_comment (block : option nat) (line : str) : str * str :=
  match block with
  | Some _ => (line, [])
  | None => match comment_start line with
            | Some i => (take i line, drop i line)
            | None => (line, [])
            end
  end.

Definition enter_block (block : option nat) (code line : str) : option nat :=
  match block with
  | None => if opens_block_scalar code then Some (indent_of line) else None
  | Some _ => block
  end.

Fixpoint process_lines (idx last : nat) (ends_with_newline : bool) (block : option nat)
    (lines : list str) (e : Expansion) : result (str * Expansion) InterpolateError :=
  match lines with
  | [] => Ok ([], e)
  | line :: rest =>
      let block := leave_block block line in
      let '(code, comment) := code_and_comment block line in
      let block := enter_block block code line in
      let? oe := expand_into (S idx) [] None code e in
      let newline := if negb (idx =? last)%nat || ends_with_newline then [10] else [] in
      push (fst oe ++ comment ++ newline)
        (process_lines (S idx) last ends_with_newline block rest (snd oe))
  end.

Definition process (document : str) : result (Interpolated * list VariableReference) InterpolateError :=
  let newline := ends_with [10] document in
  let lines := split_on 10 document in
  let? oe := process_lines 0 (length lines - 1) newline None lines expansion_new in
  let '(out, e) := oe in
  Ok ({| text := if newline then removelast out else out; referenced := ex_referenced e;
         defaulted := ex_defaulted e; placeheld := ex_placeheld e |}, ex_occurrences e).
End Expand.

Definition interpolate_with_fallback (document : str) (lookup : str -> option str)
    (fallback : option (str -> str)) : result Interpolated InterpolateError :=
  let? r := process lookup fallback None document in Ok (fst r).
Definition interpolate (document : str) (lookup : str -> option str) :=
  interpolate_with_fallback document lookup None.

(** ** Inspection *)

Record Inspection := { masked : str; references : list VariableReference }.

(** The loop that looks for a prefix the document does not hold. *)
Fixpoint fresh_prefix (fuel : nat) (document prefix : str) : str :=
  match fuel with
  | O => prefix
  | S fuel => if contains_str prefix document then fresh_prefix fuel document (prefix ++ "x") else prefix
  end.
Definition inspection_prefix_of (document : str) : str :=
  fresh_prefix (S (length document)) document "lagos-vars-placeholder-".

Definition inspect (document : str) (lookup : str -> option str) : result Inspection InterpolateError :=
  let? r := process lookup None (Some (inspection_prefix_of document)) document in
  Ok {| masked := text (fst r); references := snd r |}.

Definition contains_marker (i : Inspection) (scalar : str) : bool :=
  existsb (fun r => contains_str (marker r) scalar) (references i).

(** [min_by_key] over the references found: the first of the nearest. *)
Fixpoint next_marker (refs : list VariableReference) (rest : str) : option (nat * VariableReference) :=
  match refs with
  | [] => None
  | r :: refs =>
      match find_str (marker r) rest, next_marker refs rest with
      | Some o, Some (o', r') => if (o' <? o)%nat then Some (o', r') else Some (o, r)
      | Some o, None => Some (o, r)
      | None, m => m
      end
  end.

(** The walk of [resolve_scalar]; every marker it meets is shorter by one byte
    at least, so the length of the scalar is fuel enough. *)
Fixpoint resolve_walk (fuel : nat) (refs : list VariableReference) (rest : str) : option str :=
  match next_marker refs rest with
  | None => Some rest
  | Some (offset, r) =>
      match fuel with
      | O => None
      | S fuel =>
          letO v := selected r in
          letO after := strip_prefix (marker r) (drop offset rest) in
          letO out := resolve_walk fuel refs after in
          Some (take offset rest ++ v ++ out)
      end
  end.
Definition resolve_scalar (i : Inspection) (scalar : str) : option str :=
  resolve_walk (length scalar) (references i) scalar.

Definition env_of (l : list (str * str)) (name : str) : option str :=
  snd <$> List.find (fun nv => nv.1 ==? name) l.

(** ** Documents as pieces

    What the machine reads does not depend on the environment: a document is a
    sequence of literal pieces, with what they are written as, and of
    references. *)

Inductive piece :=
| Lit (src out : str)
| Use (before body : str)
| Open (src : str).

Definition source (p : piece) : str :=
  match p with Lit s _ => s | Use _ b => "${" ++ b ++ "}" | Open s => s end.

Fixpoint tokens (seen : str) (body : option (str * str)) (rest : str) : list piece :=
  match rest with
  | [] => match body with Some (_, b) => [Open ("${" ++ b)] | None => [] end
  | c :: rest =>
      match body with
      | Some (before, b) =>
          if c =? 125 then Use before b :: tokens (seen ++ [c]) None rest
          else tokens (seen ++ [c]) (Some (before, b ++ [c])) rest
      | None =>
          if negb (c =? 36) then Lit [c] [c] :: tokens (seen ++ [c]) None rest
          else match rest with
               | [] => [Lit [36] [36]]
               | d :: rest' =>
                   if d =? 36 then Lit [36; 36] [36] :: tokens (seen ++ [c; d]) None rest'
                   else if d =? 123 then tokens (seen ++ [c; d]) (Some (seen, [])) rest'
                   else Lit [36] [36] :: tokens (seen ++ [c]) None rest
               end
      end
  end.

Section Run.
Context (lookup : str -> option str) (fallback : option (str -> str)) (inspection_prefix : option str).

Fixpoint run (ps : list (nat * piece)) (e : Expansion) : result (str * Expansion) InterpolateError :=
  match ps with
  | [] => Ok ([], e)
  | (_, Lit _ o) :: ps => push o (run ps e)
  | (line, Use before b) :: ps =>
      let? ve := expand_reference lookup fallback inspection_prefix line before b e in
      push (fst ve) (run ps (snd ve))
  | (line, Open _) :: _ => Err (Unterminated line)
  end.

Lemma push_nil r : push [] r = r.
Proof. by destruct r as [[? ?]|]. Qed.

Lemma push_push s t r : push s (push t r) = push (s ++ t) r.
Proof. destruct r as [[o e]|]; simpl; [|done]. by rewrite app_assoc. Qed.

Lemma push_bind s r (f : str * Expansion -> result (str * Expansion) InterpolateError) :
  (let? oe := push s r in f oe) = let? oe := r in f (s ++ fst oe, snd oe).
Proof. by destruct r as [[o e]|]. Qed.

Lemma expand_into_run line seen body rest e :
  expand_into lookup fallback inspection_prefix line seen body rest e =
  run (map (pair line) (tokens seen body rest)) e.
Proof.
  revert seen body e. induction rest as [rest IH] using list_len_ind. intros seen body e.
  destruct rest as [|c rest]; [by destruct body as [[? ?]|]|]. cbn [expand_into tokens].
  destruct body as [[before b]|].
  - destruct (c =? 125); cbn [map run]; [|apply IH; simpl; lia].
    destruct (expand_reference _ _ _ _ _ _ _) as [[v e']|]; simpl; [|done]. rewrite IH by (simpl; lia). done.
  - destruct (negb (c =? 36)); cbn [map run]; [by rewrite IH by (simpl; lia)|].
    destruct rest as [|d rest']; [done|].
    destruct (d =? 36); cbn [map run]; [by rewrite IH by (simpl; lia)|].
    destruct (d =? 123); cbn [map run]; by rewrite IH by (simpl; lia).
Qed.

Lemma run_app ps qs e :
  run (ps ++ qs) e = let? oe := run ps e in push (fst oe) (run qs (snd oe)).
Proof.
  revert e. induction ps as [|[line [s o|before b|s]] ps IH]; intros e; cbn [run app].
  - simpl. by rewrite push_nil.
  - rewrite IH. destruct (run ps e) as [[o' e']|]; simpl; [|done]. by rewrite push_push.
  - destruct (expand_reference _ _ _ _ _ _ _) as [[v e']|]; simpl; [|done].
    rewrite IH. destruct (run ps e') as [[o' e'']|]; simpl; [|done]. by rewrite push_push.
  - done.
Qed.

Lemma run_lit line s o e : run [(line, Lit s o)] e = Ok (o, e).
Proof. simpl. by rewrite app_nil_r. Qed.
End Run.

(** The pieces of a document, a newline between two lines. *)
Definition line_pieces (idx : nat) (code comment : str) : list (nat * piece) :=
  map (pair (S idx)) (tokens [] None code ++ [Lit comment comment]).

Fixpoint document_pieces (idx : nat) (block : option nat) (lines : list str) : list (nat * piece) :=
  match lines with
  | [] => []
  | line :: rest =>
      let block := leave_block block line in
      let '(code, comment) := code_and_comment block line in
      let block := enter_block block code line in
      line_pieces idx code comment
      ++ match rest with [] => [] | _ => (S idx, Lit [10] [10]) :: document_pieces (S idx) block rest end
  end.

Lemma process_lines_run lookup fallback prefix idx last ends block lines e :
  S last = (idx + length lines)%nat -> lines <> [] ->
  process_lines lookup fallback prefix idx last ends block lines e =
  let? oe := run lookup fallback prefix (document_pieces idx block lines) e in
  Ok (fst oe ++ (if ends then [10] else []), snd oe).
Proof.
  revert idx block e. induction lines as [|line rest IH]; intros idx block e Hlast Hne; [done|].
  cbn [process_lines document_pieces].
  destruct (code_and_comment _ line) as [code comment] eqn:Ec.
  rewrite expand_into_run. unfold line_pieces. rewrite map_app, <- app_assoc, run_app.
  destruct (run _ _ _ (map _ (tokens _ _ _)) e) as [[o e']|] eqn:Er; cbn [rbind fst snd]; [|done].
  rewrite run_app. cbn [map]. rewrite run_lit. cbn [rbind fst snd].
  destruct rest as [|line2 rest].
  - simpl in Hlast. replace (idx =? last)%nat with true by (symmetry; apply Nat.eqb_eq; lia).
    cbn [process_lines run push rbind fst snd negb orb]. by rewrite !app_nil_r, <- !app_assoc.
  - simpl length in Hlast. replace (idx =? last)%nat with false by (symmetry; apply Nat.eqb_neq; lia).
    cbn [negb orb]. rewrite IH by (simpl; lia || done). cbn [run].
    destruct (run _ _ _ (document_pieces _ _ _) e') as [[o2 e2]|]; cbn [rbind push fst snd]; [|done].
    f_equal. by rewrite <- !app_assoc.
Qed.

Lemma process_run lookup fallback prefix document :
  process lookup fallback prefix document =
  let? oe := run lookup fallback prefix (document_pieces 0 None (split_on 10 document)) expansion_new in
  let '(out, e) := oe in
  Ok ({| text := out; referenced := ex_referenced e; defaulted := ex_defaulted e;
         placeheld := ex_placeheld e |}, ex_occurrences e).
Proof.
  unfold process. destruct (split_on_cons 10 document) as (w & ws & Hl). rewrite Hl.
  rewrite process_lines_run by (simpl; (lia || done)).
  destruct (run _ _ _ _ _) as [[o e]|]; simpl; [|done].
  destruct (ends_with _ _); [|by rewrite app_nil_r]. by rewrite removelast_last.
Qed.

(** The source of the pieces is the document. *)
Lemma tokens_source seen body rest :
  concat (map source (tokens seen body rest)) =
  match body with Some (_, b) => "${" ++ b ++ rest | None => rest end.
Proof.
  revert seen body. induction rest as [rest IH] using list_len_ind. intros seen body.
  destruct rest as [|c rest]; [by destruct body as [[? ?]|]|]. cbn [tokens].
  destruct body as [[before b]|].
  - destruct (Z.eqb_spec c 125) as [->|]; cbn [map concat source]; rewrite IH by (simpl; lia).
    + simpl. by rewrite <- app_assoc.
    + by rewrite <- app_assoc.
  - destruct (negb (c =? 36)) eqn:E; cbn [map concat source]; [by rewrite IH by (simpl; lia)|].
    apply negb_false_iff, Z.eqb_eq in E as ->. destruct rest as [|d rest']; [done|].
    destruct (Z.eqb_spec d 36) as [->|]; [cbn [map concat source]; by rewrite IH by (simpl; lia)|].
    destruct (Z.eqb_spec d 123) as [->|]; cbn [map concat source]; by rewrite IH by (simpl; lia).
Qed.

Lemma code_and_comment_app block line :
  (code_and_comment block line).1 ++ (code_and_comment block line).2 = line.
Proof.
  unfold code_and_comment. destruct block; simpl; [by rewrite app_nil_r|].
  destruct (comment_start line); simpl; [apply take_drop|by rewrite app_nil_r].
Qed.

Definition sources (ps : list (nat * piece)) : str := concat (map (fun lp => source lp.2) ps).

Lemma line_pieces_source idx code comment : sources (line_pieces idx code comment) = code ++ comment.
Proof.
  unfold sources, line_pieces. rewrite map_map. cbn [snd]. change (fun x => source x) with source.
  rewrite map_app, concat_app, tokens_source. simpl. by rewrite app_nil_r.
Qed.

Lemma document_pieces_source idx block lines : sources (document_pieces idx block lines) = join [10] lines.
Proof.
  revert idx block. induction lines as [|line rest IH]; intros idx block; [done|].
  cbn [document_pieces]. pose proof (code_and_comment_app (leave_block block line) line) as Hl.
  destruct (code_and_comment _ line) as [code comment]. cbn [fst snd] in Hl. unfold sources in *.
  rewrite map_app, concat_app. pose proof (line_pieces_source idx code comment) as Hs. unfold sources in Hs.
  rewrite Hs. destruct rest as [|line2 rest].
  - simpl. by rewrite app_nil_r.
  - cbn [map concat snd source]. by rewrite IH, Hl.
Qed.

(** A literal piece is its source, but for a doubled [$]. *)
Inductive collapse : str -> str -> Prop :=
| co_nil : collapse [] []
| co_byte c s t : collapse s t -> collapse (c :: s) (c :: t)
| co_dollar s t : collapse s t -> collapse (36 :: 36 :: s) (36 :: t).

Lemma collapse_refl s : collapse s s.
Proof. induction s; by constructor. Qed.

Lemma collapse_app s t s' t' : collapse s t -> collapse s' t' -> collapse (s ++ s') (t ++ t').
Proof. induction 1; intros; simpl; [done|apply co_byte; auto|apply co_dollar; auto]. Qed.

Definition lit_ok (p : piece) : Prop := match p with Lit s o => collapse s o | _ => True end.

Lemma tokens_lits seen body rest : Forall lit_ok (tokens seen body rest).
Proof.
  revert seen body. induction rest as [rest IH] using list_len_ind. intros seen body.
  destruct rest as [|c rest]; [by destruct body as [[? ?]|]; repeat constructor|]. cbn [tokens].
  destruct body as [[before b]|].
  - destruct (c =? 125); [constructor; [done|]|]; apply IH; simpl; lia.
  - destruct (negb (c =? 36)); [constructor; [apply collapse_refl|apply IH; simpl; lia]|].
    destruct rest as [|d rest']; [repeat constructor|].
    destruct (d =? 36); [constructor; [by repeat constructor|apply IH; simpl; lia]|].
    destruct (d =? 123); [apply IH; simpl; lia|].
    constructor; [apply collapse_refl|apply IH; simpl; lia].
Qed.

Lemma document_pieces_lits idx block lines : Forall (fun lp => lit_ok lp.2) (document_pieces idx block lines).
Proof.
  revert idx block. induction lines as [|line rest IH]; intros idx block; [done|].
  cbn [document_pieces]. destruct (code_and_comment _ line) as [code comment].
  apply Forall_app. split.
  - unfold line_pieces. apply Forall_map. apply Forall_app. split; [apply tokens_lits|].
    repeat constructor. apply collapse_refl.
  - destruct rest; [done|]. constructor; [apply collapse_refl|apply IH].
Qed.

(** A word without [$] that shows in a collapsed text was written in it. *)
Lemma collapse_prefix w s t r : 36 ∉ w -> collapse s t -> t = w ++ r -> exists r', s = w ++ r'.
Proof.
  revert s t. induction w as [|x w IH]; intros s t Hw Hc E; [by exists s|].
  apply not_elem_of_cons in Hw as [Hx Hw]. subst t. inversion Hc; subst.
  - match goal with H : collapse _ (w ++ r) |- _ => destruct (IH _ _ Hw H eq_refl) as [r' ->] end.
    by exists r'.
  - done.
Qed.

Lemma collapse_infix w s t a r :
  36 ∉ w -> collapse s t -> t = a ++ w ++ r -> exists a' r', s = a' ++ w ++ r'.
Proof.
  intros Hw Hc. revert a. induction Hc as [|c s t Hc IH|s t Hc IH]; intros a E.
  - symmetry in E. apply app_nil in E as [-> [-> ->]%app_nil]. by exists [], [].
  - destruct a as [|y a]; simpl in E.
    + destruct (collapse_prefix w (c :: s) (c :: t) r Hw (co_byte _ _ _ Hc) E) as [r' E']. by exists [], r'.
    + injection E as -> E. destruct (IH a E) as (a' & r' & ->). by exists (y :: a'), r'.
  - destruct a as [|y a]; simpl in E.
    + destruct (collapse_prefix w _ _ r Hw (co_dollar _ _ Hc) E) as [r' E']. by exists [], r'.
    + injection E as <- E. destruct (IH a E) as (a' & r' & ->). by exists (36 :: 36 :: a'), r'.
Qed.

(** ** Inspection and interpolation side by side *)

Fixpoint mask (ps : list (nat * piece)) (rs : list VariableReference) : str :=
  match ps with
  | [] => []
  | (_, Lit _ o) :: ps => o ++ mask ps rs
  | (_, Use _ _) :: ps =>
      match rs with r :: rs => marker r ++ mask ps rs | [] => [] end
  | (_, Open _) :: _ => []
  end.

Fixpoint fill (ps : list (nat * piece)) (rs : list VariableReference) : str :=
  match ps with
  | [] => []
  | (_, Lit _ o) :: ps => o ++ fill ps rs
  | (_, Use _ _) :: ps =>
      match rs with r :: rs => default [] (selected r) ++ fill ps rs | [] => [] end
  | (_, Open _) :: _ => []
  end.

(** What a successful interpolation needs of an occurrence. *)
Definition usable (r : VariableReference) : Prop := state r = IsSet \/ state r = IsDefaulted.

(** The references of an inspection, numbered from [n] on; a usable one has a
    value. *)
Fixpoint numbered (prefix : str) (n : nat) (rs : list VariableReference) : Prop :=
  match rs with
  | [] => True
  | r :: rs => (marker r = marker_of prefix n /\ (usable r -> is_Some (selected r))) /\ numbered prefix (S n) rs
  end.

Section Agree.
Context (lookup : str -> option str) (prefix : str).
Abbreviation inspects := (run lookup None (Some prefix)).
Abbreviation expands := (run lookup None None).

(** One reference, under both machines. *)
Lemma expand_reference_agrees line before b e :
  match expand_reference lookup None (Some prefix) line before b e with
  | Err _ => forall e2, is_ok (expand_reference lookup None None line before b e2) = false
  | Ok (m, e') =>
      exists r, m = marker r /\ ex_occurrences e' = ex_occurrences e ++ [r] /\
        (marker r = marker_of prefix (length (ex_occurrences e)) /\ (usable r -> is_Some (selected r))) /\
        forall e2, match expand_reference lookup None None line before b e2 with
                   | Ok (v, _) => usable r /\ selected r = Some v
                   | Err _ => ~ usable r
                   end
  end.
Proof.
  unfold expand_reference. destruct (reference_parts b) as [name dflt].
  destruct (name ==? []); [done|]. destruct (negb (is_valid_name name)); [done|].
  eexists. split_and!; [done|done|done|..].
  { unfold inspect_reference, usable. cbn [state selected].
    destruct (resolved lookup name) as [v|], dflt as [d|];
      try destruct (is_structurally_safe _); intros [?|?]; simpl in *; done || by eexists. }
  intros e2. unfold inspect_reference, usable. cbn [state selected]. destruct (resolved lookup name) as [v|]; cbn [rbind fst].
  - destruct (is_structurally_safe v); simpl; [split; [by left|done]|]. intros [?|?]; done.
  - destruct dflt as [d|]; cbn [rbind fst].
    + destruct (is_structurally_safe d); simpl; [split; [by right|done]|]. intros [?|?]; done.
    + intros [?|?]; done.
Qed.

(** The two runs read the same references, and where all of them are usable
    the texts differ in the values only. *)
Lemma runs_agree ps e e2 :
  match inspects ps e with
  | Err _ => is_ok (expands ps e2) = false
  | Ok (m, e') =>
      exists rs, m = mask ps rs /\ ex_occurrences e' = ex_occurrences e ++ rs /\
        numbered prefix (length (ex_occurrences e)) rs /\
        match expands ps e2 with
        | Ok (v, _) => Forall usable rs /\ v = fill ps rs
        | Err _ => ~ Forall usable rs
        end
  end.
Proof.
  revert e e2. induction ps as [|[line [s o|before b|s]] ps IH]; intros e e2; cbn [run].
  - exists []. by rewrite app_nil_r.
  - specialize (IH e e2). destruct (inspects ps e) as [[m e']|] eqn:E; cbn [push rbind fst snd].
    + destruct IH as (rs & -> & Ho & Hn & IH). exists rs. split_and!; [done|done|done|].
      destruct (expands ps e2) as [[v ?]|]; cbn [push rbind fst snd]; [|done].
      destruct IH as [Hu ->]. done.
    + by destruct (expands ps e2) as [[??]|].
  - pose proof (expand_reference_agrees line before b e) as Hr.
    destruct (expand_reference lookup None (Some prefix) line before b e) as [[m e']|] eqn:Ee.
    2: { specialize (Hr e2). by destruct (expand_reference lookup None None _ _ _ _). }
    destruct Hr as (r & -> & Ho & Hm & Hr). cbn [rbind fst snd]. specialize (Hr e2).
    destruct (expand_reference lookup None None line before b e2) as [[v e2']|] eqn:Ex; cbn [rbind fst snd].
    + specialize (IH e' e2'). destruct (inspects ps e') as [[m' e'']|]; cbn [push rbind fst snd].
      * destruct IH as (rs & -> & Ho' & Hn & IH). exists (r :: rs). split_and!.
        -- done.
        -- by rewrite Ho', Ho, <- app_assoc.
        -- rewrite Ho, length_app, Nat.add_1_r in Hn. done.
        -- destruct Hr as [Hu Hs]. destruct (expands ps e2') as [[v' ?]|]; cbn [push rbind fst snd].
           ++ destruct IH as [Hus ->]. split; [by constructor|]. cbn [fill]. by rewrite Hs.
           ++ intros H. inversion H. done.
      * by destruct (expands ps e2') as [[??]|].
    + specialize (IH e' e2). destruct (inspects ps e') as [[m' e'']|]; cbn [push rbind fst snd]; [|done].
      destruct IH as (rs & -> & Ho' & Hn & IH). exists (r :: rs). split_and!.
      * done.
      * by rewrite Ho', Ho, <- app_assoc.
      * rewrite Ho, length_app, Nat.add_1_r in Hn. done.
      * intros H. inversion H. done.
  - done.
Qed.
End Agree.

Lemma numbered_selected prefix n rs :
  numbered prefix n rs -> Forall usable rs -> Forall (fun r => is_Some (selected r)) rs.
Proof.
  revert n. induction rs as [|r rs IH]; intros n Hn Hu; [constructor|]. destruct Hn as [[_ Hs] Hn].
  constructor; [apply Hs, (Forall_inv Hu)|]. by eapply IH, Forall_inv_tail.
Qed.

Lemma inspections_count lookup prefix ps e o e' :
  run lookup None (Some prefix) ps e = Ok (o, e') ->
  (length (ex_occurrences e') <= length (ex_occurrences e) + length (sources ps))%nat.
Proof.
  revert e o. induction ps as [|[line p] ps IH]; intros e o; cbn [run]; [intros [= _ <-]; lia|].
  assert (length (sources ((line, p) :: ps)) = (length (source p) + length (sources ps))%nat) as ->.
  { unfold sources. cbn [map concat snd]. by rewrite length_app. }
  destruct p as [s q|before b|s]; [..|done].
  - intros ([o' e2] & Hr & [= _ <-])%rbind_Ok. apply IH in Hr. lia.
  - intros ([v e1] & He & Hr)%rbind_Ok. apply rbind_Ok in Hr as ([o' e2] & Hr & [= _ <-]).
    apply IH in Hr. cbn [snd] in Hr.
    pose proof (expand_reference_agrees lookup prefix line before b e) as Ha. rewrite He in Ha.
    destruct Ha as (r & _ & Ho & _). rewrite Ho, length_app in Hr. simpl in *. lia.
Qed.

(** ** Markers *)

Definition prefix_base : str := "lagos-vars-placeholder-".

Lemma fresh_prefix_shape fuel document p :
  exists n, fresh_prefix fuel document p = p ++ repeat 120 n.
Proof.
  revert p. induction fuel as [|fuel IH]; intros p; simpl; [exists 0%nat; by rewrite app_nil_r|].
  destruct (contains_str p document); [|exists 0%nat; by rewrite app_nil_r].
  destruct (IH (p ++ "x")) as [n ->]. exists (S n). by rewrite <- app_assoc.
Qed.

Lemma fresh_prefix_fresh fuel document p :
  (length document < length p + fuel)%nat -> contains_str (fresh_prefix fuel document p) document = false.
Proof.
  revert p. induction fuel as [|fuel IH]; intros p Hf; simpl.
  - apply contains_str_false. intros b t E. apply (f_equal length) in E. rewrite !length_app in E. lia.
  - destruct (contains_str p document) eqn:E; [|done]. apply IH. rewrite length_app. simpl. lia.
Qed.

Lemma prefix_base_l n d : (prefix_base ++ repeat 120 n) !! d = Some 108 -> d = 0%nat \/ d = 12%nat \/ d = 18%nat.
Proof.
  intros H. destruct (decide (d < 23)%nat).
  - rewrite lookup_app_l in H by done.
    do 23 (destruct d as [|d]; [vm_compute in H; first [lia | discriminate]|]). lia.
  - rewrite lookup_app_r in H by (vm_compute; lia). exfalso.
    apply list_elem_of_lookup_2, list_elem_of_In, repeat_spec in H. done.
Qed.

Section Markers.
Context (prefix : str) (n : nat) (Hprefix : prefix = prefix_base ++ repeat 120 n).

(** No occurrence of the prefix overlaps the beginning of another. *)
Lemma prefix_straddle b lit t tail :
  lit ++ prefix ++ tail = b ++ prefix ++ t -> (length b < length lit)%nat ->
  exists r, lit = b ++ prefix ++ r.
Proof using Hprefix.
  intros E Hlt. apply app_eq_inv in E as [(k & -> & E)|(k & Hb & _)].
  2: { apply (f_equal length) in Hb. rewrite length_app in Hb. lia. }
  rewrite length_app in Hlt. apply app_eq_inv in E as [(q & Hk & E)|(q & Hk & E)].
  - destruct q as [|x q]; [exists []; by rewrite app_nil_r in *; rewrite Hk|]. exfalso.
    assert (forall i, (i < length (x :: q))%nat -> prefix !! (length k + i)%nat = (x :: q) !! i) as Hq.
    { intros i Hi. rewrite Hk. rewrite lookup_app_r by lia. f_equal. lia. }
    assert (forall i, (i < 3)%nat -> (i < length (x :: q))%nat -> (x :: q) !! i = prefix_base !! i) as Hp.
    { intros i Hi Hi'. transitivity ((prefix ++ tail) !! i).
      - rewrite E, lookup_app_l; done.
      - rewrite Hprefix, <- app_assoc, lookup_app_l; [done|]. change (length prefix_base) with 23%nat. lia. }
    assert (prefix !! (length k + 0)%nat = Some 108) as Hl.
    { rewrite Hq by (simpl; lia). by rewrite Hp by (simpl; lia). }
    assert (23 <= length prefix)%nat as Hlen by (rewrite Hprefix, length_app; change (length prefix_base) with 23%nat; lia).
    pose proof (f_equal length Hk) as Hkl. rewrite length_app in Hkl.
    rewrite Hprefix in Hl. apply prefix_base_l in Hl as [Hd|[Hd|Hd]]; [lia|..].
    + pose proof (Hq 2%nat ltac:(lia)) as Hq2. rewrite Hp in Hq2 by lia.
      replace (length k + 2)%nat with 14%nat in Hq2 by lia. rewrite Hprefix in Hq2. done.
    + pose proof (Hq 1%nat ltac:(lia)) as Hq2. rewrite Hp in Hq2 by lia.
      replace (length k + 1)%nat with 19%nat in Hq2 by lia. rewrite Hprefix in Hq2. done.
  - exists q. by rewrite Hk.
Qed.

Lemma digits_no_dash i : 0 <= i <= u64_max -> 45 ∉ show_u64 i.
Proof.
  intros Hi Hin. pose proof (show_u64_digits i Hi) as H. rewrite Forall_elem in H. by apply H in Hin.
Qed.

Lemma marker_unique i j t t' :
  Z.of_nat i <= u64_max -> Z.of_nat j <= u64_max ->
  marker_of prefix i ++ t = marker_of prefix j ++ t' -> i = j.
Proof.
  intros Hi Hj E. unfold marker_of in E. rewrite <- !app_assoc in E. apply app_inv_head in E.
  assert (forall k r, Z.of_nat k <= u64_max ->
            split_once 45 (show_u64 (Z.of_nat k) ++ "-end" ++ r) = Some (show_u64 (Z.of_nat k), str_of "end" ++ r)) as Hs.
  { intros k r Hk. apply split_once_Some. split; [done|apply digits_no_dash; lia]. }
  pose proof (Hs i t Hi) as H1. rewrite E, Hs in H1 by done. injection H1 as H1 _.
  apply show_u64_inj in H1; lia.
Qed.

Lemma numbered_lookup m rs i r : numbered prefix m rs -> rs !! i = Some r -> marker r = marker_of prefix (m + i).
Proof.
  revert m i. induction rs as [|r' rs IH]; [done|]. intros m i [[Hm _] Hn] Hi.
  destruct i as [|i]; simplify_eq/=; [by rewrite Nat.add_0_r|].
  rewrite (IH (S m) i Hn Hi). f_equal. lia.
Qed.

Context (refs : list VariableReference) (Hnum : numbered prefix 0 refs)
        (Hcount : Z.of_nat (length refs) <= u64_max).

Lemma marker_inj r r' t t' :
  r ∈ refs -> r' ∈ refs -> marker r ++ t = marker r' ++ t' -> r = r'.
Proof using Hprefix Hnum Hcount.
  intros [i Hi]%list_elem_of_lookup [j Hj]%list_elem_of_lookup E.
  rewrite (numbered_lookup 0 _ _ _ Hnum Hi), (numbered_lookup 0 _ _ _ Hnum Hj) in E.
  pose proof (lookup_lt_Some _ _ _ Hi). pose proof (lookup_lt_Some _ _ _ Hj).
  apply marker_unique in E; [|lia..]. simpl in E. subst. congruence.
Qed.

Lemma marker_prefix r : r ∈ refs -> exists w, marker r = prefix ++ w.
Proof using Hprefix Hnum.
  intros [i Hi]%list_elem_of_lookup. rewrite (numbered_lookup 0 _ _ _ Hnum Hi). by eexists.
Qed.

(** After a literal without the prefix, the nearest marker is the next one. *)
Lemma next_marker_none lit l : (forall r, r ∈ l -> r ∈ refs) -> contains_str prefix lit = false -> next_marker l lit = None.
Proof using Hprefix Hnum.
  intros Hl Hc. rewrite contains_str_false in Hc. induction l as [|r l IH]; [done|]. cbn [next_marker].
  rewrite IH by (intros; apply Hl; by right).
  destruct (find_str (marker r) lit) eqn:E; [|done]. exfalso.
  apply find_str_Some in E as (a & t & -> & _). destruct (marker_prefix r) as [w Hw]; [apply Hl; by left|].
  rewrite Hw, <- app_assoc in Hc. by eapply Hc.
Qed.

Lemma next_marker_some lit r tail l :
  (forall r, r ∈ l -> r ∈ refs) -> contains_str prefix lit = false -> r ∈ refs ->
  match next_marker l (lit ++ marker r ++ tail) with
  | Some (o, r') => (length lit <= o)%nat /\ (o = length lit -> r' = r) /\ (r ∈ l -> o = length lit)
  | None => r ∉ l
  end.
Proof using Hprefix Hnum Hcount.
  intros Hl Hc Hr. rewrite contains_str_false in Hc. destruct (marker_prefix r Hr) as [w Hw].
  assert (forall r' b t, r' ∈ refs -> lit ++ marker r ++ tail = b ++ marker r' ++ t -> (length lit <= length b)%nat)
    as Hfar.
  { intros r' b t [w' Hw']%marker_prefix E. rewrite Hw, Hw', <- !app_assoc in E.
    destruct (decide (length lit <= length b)%nat) as [|Hlt]; [done|]. exfalso.
    apply prefix_straddle in E as [q E]; [|lia]. by apply Hc in E. }
  induction l as [|r0 l IH]; [by apply not_elem_of_nil|]. cbn [next_marker].
  specialize (IH (fun r H => Hl r (list_elem_of_further r r0 l H))).
  assert (r0 ∈ refs) as Hr0 by (apply Hl; by left).
  destruct (find_str (marker r0) (lit ++ marker r ++ tail)) as [o|] eqn:E.
  - pose proof E as (b & t & Eb & <-)%find_str_Some. pose proof (Hfar r0 b t Hr0 Eb) as Hle.
    assert (length b = length lit -> r0 = r) as Hsame.
    { intros Hlen. symmetry. apply app_inj_1 in Eb as [_ Eb]; [|done]. by apply marker_inj in Eb. }
    assert (r0 = r -> length b = length lit) as Hhere.
    { intros ->. pose proof (find_str_least _ _ _ lit tail E eq_refl). lia. }
    destruct (next_marker l _) as [[o' r']|].
    + destruct IH as (H1 & H2 & H3). destruct (Nat.ltb_spec o' (length b)).
      * split_and!; [done|done|]. intros [->|Hin]%elem_of_cons; [pose proof (Hhere eq_refl); lia|auto].
      * split_and!; [done|done|]. intros [->|Hin]%elem_of_cons; [auto|]. apply H3 in Hin. lia.
    + split_and!; [done|done|]. intros [->|Hin]%elem_of_cons; [auto|done].
  - assert (r <> r0) as Hne.
    { intros ->. by apply (find_str_None _ _ lit tail) in E. }
    destruct (next_marker l _) as [[o' r']|].
    + destruct IH as (H1 & H2 & H3). split_and!; [done|done|]. intros [->|Hin]%elem_of_cons; [done|auto].
    + by intros [->|Hin]%elem_of_cons.
Qed.

(** Filling the markers of a masked text in gives the expanded one. *)
Lemma resolve_mask ps rs src lit fuel :
  36 ∉ prefix -> Forall (fun lp => lit_ok lp.2) ps -> (forall r, r ∈ rs -> r ∈ refs) ->
  Forall (fun r => is_Some (selected r)) rs -> collapse src lit ->
  contains_str prefix (src ++ sources ps) = false -> (length (lit ++ mask ps rs) <= fuel)%nat ->
  resolve_walk fuel refs (lit ++ mask ps rs) = Some (lit ++ fill ps rs).
Proof using Hprefix Hnum Hcount.
  intros Hd. revert rs src lit fuel.
  assert (forall src lit s fuel, collapse src lit -> contains_str prefix (src ++ s) = false ->
    contains_str prefix lit = false /\ resolve_walk fuel refs lit = Some lit) as Hlit.
  { intros src lit s fuel Hc Hp. assert (contains_str prefix lit = false) as Hpl.
    { rewrite contains_str_false in *. intros b t E. destruct (collapse_infix prefix src lit b t Hd Hc E) as (a' & r' & ->).
      apply (Hp a' (r' ++ s)). by rewrite <- !app_assoc. }
    split; [done|]. destruct fuel; simpl; by rewrite (next_marker_none lit). }
  induction ps as [|[line [s o|before b|s]] ps IH]; intros rs src lit fuel Hok Hrs Hsel Hc Hp Hf.
  - cbn [mask fill]. rewrite app_nil_r. by eapply Hlit.
  - pose proof (Forall_inv Hok) as Hs. apply Forall_inv_tail in Hok. cbn [mask fill]. rewrite !(app_assoc lit).
    apply (IH rs (src ++ s)); try done.
    + by apply collapse_app.
    + rewrite <- app_assoc. done.
    + cbn [mask] in Hf. by rewrite app_assoc in Hf.
  - apply Forall_inv_tail in Hok. cbn [mask fill] in *. destruct rs as [|r rs].
    { rewrite app_nil_r. by eapply Hlit. }
    destruct (Hlit src lit _ fuel Hc Hp) as [Hpl _].
    assert (r ∈ refs) as Hr by (apply Hrs; by left).
    pose proof (next_marker_some lit r (mask ps rs) refs ltac:(done) Hpl Hr) as Hn.
    assert (0 < length (marker r))%nat as Hpos.
    { destruct (marker_prefix r Hr) as [w ->]. rewrite Hprefix, !length_app.
      change (length prefix_base) with 23%nat. lia. }
    rewrite !length_app in Hf. destruct fuel as [|fuel]; [lia|]. cbn [resolve_walk].
    destruct (next_marker refs _) as [[off r']|]; [|done]. destruct Hn as (_ & H2 & H3).
    specialize (H3 Hr). subst off. rewrite (H2 eq_refl).
    pose proof (Forall_inv Hsel) as [v Hv]. apply Forall_inv_tail in Hsel.
    rewrite Hv. cbn [mbind option_bind]. rewrite drop_app_length, take_app_length.
    rewrite (proj2 (strip_prefix_Some (marker r) _ (mask ps rs)) eq_refl). cbn [mbind option_bind].
    assert (resolve_walk fuel refs (mask ps rs) = Some (fill ps rs)) as ->; [|done].
    apply (IH rs [] [] fuel); try done.
    + intros r2 Hr2. apply Hrs. by right.
    + constructor.
    + rewrite contains_str_false in *. intros a t E. unfold sources in *. cbn [map concat snd] in Hp.
      eapply (Hp (src ++ source (Use before b) ++ a) t). cbn [app] in E. rewrite E. by rewrite <- !app_assoc.
    + simpl. lia.
  - cbn [mask fill]. rewrite app_nil_r. by eapply Hlit.
Qed.
End Markers.

(** C40: the inspection of a document tells the truth about its interpolation:
    it succeeds with every reference usable exactly where the interpolation
    does, and filling the selected values in for the markers of the masked
    document gives, byte for byte, the text the gateway runs on; no marker is
    mistaken for another or for text of the document or of a value. *)
Theorem inspection_tells_the_truth document lookup
    (Hsize : Z.of_nat (length document) <= u64_max) :
  match inspect document lookup with
  | Ok i => match interpolate document lookup with
            | Ok r => Forall usable (references i) /\ resolve_scalar i (masked i) = Some (text r)
            | Err _ => ~ Forall usable (references i)
            end
  | Err _ => is_ok (interpolate document lookup) = false
  end.
Proof.
  unfold inspect, interpolate, interpolate_with_fallback. rewrite !process_run.
  destruct (fresh_prefix_shape (S (length document)) document "lagos-vars-placeholder-") as [n Hp].
  fold (inspection_prefix_of document) in Hp.
  set (ps := document_pieces 0 None (split_on 10 document)).
  pose proof (runs_agree lookup (inspection_prefix_of document) ps expansion_new expansion_new) as H.
  destruct (run lookup None (Some _) ps expansion_new) as [[m e']|] eqn:Ei; cbn [rbind fst snd masked references].
  2: by destruct (run lookup None None ps expansion_new) as [[??]|].
  destruct H as (rs & -> & Ho & Hn & H). cbn [ex_occurrences expansion_new app length] in Ho, Hn. rewrite Ho.
  destruct (run lookup None None ps expansion_new) as [[v e2]|] eqn:Ex; cbn [rbind fst snd]; [|done].
  destruct H as [Hu ->]. split; [done|]. cbn [text]. unfold resolve_scalar. cbn [masked references text].
  assert (sources ps = document) as Hsrc by (unfold ps; by rewrite document_pieces_source, join_split).
  apply (resolve_mask (inspection_prefix_of document) n Hp rs Hn) with (src := []) (lit := []).
  - apply inspections_count in Ei. rewrite Ho in Ei. simpl in Ei.
    enough (length rs <= length document)%nat by lia. rewrite <- Hsrc. lia.
  - rewrite Hp. intros [Hin|Hin]%elem_of_app; [by vm_compute in Hin; set_solver|].
    by apply list_elem_of_In, repeat_spec in Hin.
  - apply document_pieces_lits.
  - done.
  - by eapply numbered_selected.
  - constructor.
  - rewrite Hsrc. cbn [app]. apply fresh_prefix_fresh. lia.
  - done.
Qed.

(** ** The structure of the document *)

Lemma comment_scan_bound i s d p e line j :
  comment_scan i s d p e line = Some j -> (i <= j < i + length line)%nat.
Proof.
  revert i s d p e. induction line as [|c line IH]; intros i s d p e; cbn [comment_scan]; [done|].
  simpl length. intros H. repeat (case_match; try (apply IH in H; lia)). injection H as <-. lia.
Qed.

Lemma comment_scan_absent i s d p e line : 35 ∉ line -> comment_scan i s d p e line = None.
Proof.
  revert i s d p e. induction line as [|c line IH]; intros i s d p e; [done|].
  intros [Hc Hl]%not_elem_of_cons. cbn [comment_scan].
  rewrite (proj2 (Z.eqb_neq c 35)) by done. cbn [andb]. by repeat (case_match; [by apply IH|]); apply IH.
Qed.

Section Structure.
Context (lookup : str -> option str) (Hutf8 : forall n v, lookup n = Some v -> Utf8 v).

Lemma safe_no_newline v : Utf8 v -> is_structurally_safe v = true -> 10 ∉ v.
Proof.
  intros Hv Hs Hin. unfold is_structurally_safe in Hs. apply negb_true_iff in Hs.
  rewrite existsb_none in Hs. apply (elem_of_chars_ascii v 10 Hv) in Hin; [|lia]. by apply Hs in Hin.
Qed.

Lemma resolved_utf8 name v : resolved lookup name = Some v -> Utf8 v.
Proof using Hutf8.
  unfold resolved. destruct (lookup name) as [w|] eqn:E; simpl; [|done].
  case_bool_decide; [done|]. intros [= <-]. apply Utf8_trim. eauto.
Qed.

Lemma reference_parts_default b d x : (reference_parts b).2 = Some d -> x ∈ d -> x ∈ b.
Proof.
  unfold reference_parts. destruct (split_once_str ":-" b) as [[n d']|] eqn:E; simpl; [|done].
  intros [= <-] Hx. apply split_once_str_Some in E. rewrite E. set_solver.
Qed.

Lemma expand_reference_no_newline line before b e v e' :
  10 ∉ b -> expand_reference lookup None None line before b e = Ok (v, e') -> 10 ∉ v.
Proof using Hutf8.
  intros Hb. unfold expand_reference. pose proof (reference_parts_default b) as Hd.
  destruct (reference_parts b) as [name dflt]. destruct (name ==? []); [done|].
  destruct (negb (is_valid_name name)); [done|]. intros ([v1 e1] & Hv & H)%rbind_Ok. cbn [fst] in H.
  destruct (negb (is_structurally_safe v1)) eqn:Es; [done|]. injection H as <- <-.
  apply negb_false_iff in Es. destruct (resolved lookup name) as [w|] eqn:Er.
  - injection Hv as <- _. apply safe_no_newline; [by eapply resolved_utf8|done].
  - destruct dflt as [d|]; [|done]. injection Hv as <- _. intros Hin. by apply Hb, (Hd d 10 eq_refl).
Qed.

(** Running the code of one line. *)
Lemma run_no_newline ps e v e' :
  10 ∉ sources ps -> Forall (fun lp => lit_ok lp.2) ps -> run lookup None None ps e = Ok (v, e') -> 10 ∉ v.
Proof using Hutf8.
  revert e v. induction ps as [|[line p] ps IH]; intros e v Hs Hok; cbn [run].
  { intros [= <- _]. apply not_elem_of_nil. }
  unfold sources in *. cbn [map concat snd] in Hs. apply not_elem_of_app in Hs as [Hp Hs].
  pose proof (Forall_inv Hok) as Hlit. apply Forall_inv_tail in Hok. cbn [snd] in Hlit.
  destruct p as [s o|before b|s]; [..|done].
  - intros ([o' e2] & Hr & [= <- <-])%rbind_Ok. apply IH in Hr; [|done..]. cbn [fst].
    apply not_elem_of_app. split; [|done]. intros [a [r Ho]]%list_elem_of_split.
    destruct (collapse_infix [10] s o a r) as (a' & r' & E); [set_solver|done|done|]. cbn [source] in Hp.
    rewrite E in Hp. set_solver.
  - intros ([w e1] & He & Hr)%rbind_Ok. apply rbind_Ok in Hr as ([o' e2] & Hr & [= <- <-]).
    apply IH in Hr; [|done..]. cbn [fst snd]. apply not_elem_of_app. split; [|done].
    eapply expand_reference_no_newline; [|exact He]. cbn [source] in Hp. set_solver.
Qed.

Lemma tokens_plain seen s : 36 ∉ s -> tokens seen None s = map (fun c => Lit [c] [c]) s.
Proof.
  revert seen. induction s as [|c s IH]; intros seen; [done|]. intros [Hc Hs]%not_elem_of_cons.
  cbn [tokens map]. rewrite (proj2 (Z.eqb_neq c 36)) by done. cbn [negb]. by rewrite IH.
Qed.

(** What becomes of one line. *)
Definition expands_to (line out : str) : Prop :=
  exists code comment value,
    line = code ++ comment /\ out = value ++ comment /\
    (comment = [] \/ comment_start line = Some (length code)) /\
    10 ∉ value /\ (36 ∉ code -> value = code).

Lemma code_and_comment_start block line code comment :
  code_and_comment block line = (code, comment) -> comment = [] \/ comment_start line = Some (length code).
Proof.
  unfold code_and_comment. destruct block; [intros [= _ <-]; by left|].
  destruct (comment_start line) as [i|] eqn:E; [|intros [= _ <-]; by left].
  intros [= <- _]. right. apply comment_scan_bound in E. rewrite length_take. f_equal. lia.
Qed.

End Structure.

Lemma run_chars lookup fallback prefix n s e :
  run lookup fallback prefix (map (pair n) (map (fun c => Lit [c] [c]) s)) e = Ok (s, e).
Proof. induction s as [|c s IH]; [done|]. cbn [map run]. by rewrite IH. Qed.

Section Lines.
Context (lookup : str -> option str) (Hutf8 : forall n v, lookup n = Some v -> Utf8 v).

Lemma line_expands idx block line code comment e v e' :
  10 ∉ line -> code_and_comment block line = (code, comment) ->
  run lookup None None (line_pieces idx code comment) e = Ok (v, e') -> expands_to line v.
Proof using Hutf8.
  intros Hline Hc. pose proof (code_and_comment_app block line) as Hl. rewrite Hc in Hl. cbn [fst snd] in Hl.
  unfold line_pieces. rewrite map_app, run_app. intros ([o e1] & Hr & H)%rbind_Ok. cbn [fst snd map] in H.
  rewrite run_lit in H. injection H as <- <-. exists code, comment, o.
  split_and!; [done|done|by eapply code_and_comment_start|..].
  - eapply run_no_newline; [done| | |exact Hr].
    + unfold sources. rewrite map_map. cbn [snd]. change (fun x => source x) with source.
      rewrite tokens_source. set_solver.
    + apply Forall_map. apply tokens_lits.
  - intros Hd. rewrite tokens_plain, run_chars in Hr by done. congruence.
Qed.

Lemma document_expands idx block lines e out e' :
  Forall (fun l => 10 ∉ l) lines -> lines <> [] ->
  run lookup None None (document_pieces idx block lines) e = Ok (out, e') ->
  exists outs, out = join [10] outs /\ Forall2 expands_to lines outs.
Proof using Hutf8.
  revert idx block e out. induction lines as [|line rest IH]; intros idx block e out Hl Hne; [done|].
  cbn [document_pieces]. destruct (code_and_comment _ line) as [code comment] eqn:Ec.
  rewrite run_app. intros ([v e1] & Hr & H)%rbind_Ok. cbn [fst snd] in H.
  eapply line_expands in Hr; [|exact (Forall_inv Hl)|exact Ec]. apply Forall_inv_tail in Hl.
  destruct rest as [|line2 rest].
  - injection H as <- <-. exists [v]. rewrite app_nil_r. split; [done|by repeat constructor].
  - cbn [run] in H. rewrite push_push in H. apply rbind_Ok in H as ([o2 e2] & H & [= <- <-]).
    apply IH in H as (outs & -> & Hf); [|done..]. exists (v :: outs). split; [|by constructor].
    cbn [fst]. destruct outs as [|o outs]; [by inversion Hf|]. by rewrite <- app_assoc.
Qed.
End Lines.

(** A value fills in, it never restructures: the lines of the expanded text
    are those of the document, one for one, and each is the same comment after
    code of its own line, in which text without a [$] is untouched; no value
    or default brings a line of its own, whatever the environment holds. *)
Lemma interpolation_keeps_structure document lookup r
    (Hutf8 : forall n v, lookup n = Some v -> Utf8 v)
    (Hr : interpolate document lookup = Ok r) :
  Forall2 expands_to (split_on 10 document) (split_on 10 (text r)).
Proof.
  unfold interpolate, interpolate_with_fallback in Hr. rewrite process_run in Hr.
  apply rbind_Ok in Hr as ([i rs] & Hr & [= <-]). apply rbind_Ok in Hr as ([out e] & Hr & [= <- <-]).
  cbn [fst text]. destruct (split_on_cons 10 document) as (w & ws & Hw).
  destruct (document_expands lookup Hutf8 _ _ _ _ _ _ (split_on_clean 10 document) ltac:(by rewrite Hw) Hr)
    as (outs & -> & Hf).
  rewrite split_join; [done| |].
  - intros ->. inversion Hf as [E|]. by rewrite Hw in E.
  - pose proof (split_on_clean 10 document) as Hclean. revert Hclean. clear -Hf.
    induction Hf as [|l o ls os (code & comment & v & -> & -> & _ & Hv & _) _ IH]; [by constructor|].
    intros Hc. constructor; [|by apply IH, (Forall_inv_tail Hc)].
    pose proof (Forall_inv Hc) as Hl. cbn beta in Hl. set_solver.
Qed.

(** ** Failing closed *)

Record expansion_ok (lookup : str -> option str) (e : Expansion) : Prop := {
  eo_placeheld : ex_placeheld e = [];
  eo_referenced : forall n, n ∈ ex_referenced e ->
    is_valid_name n = true /\ (resolved lookup n = None -> n ∈ ex_defaulted e);
  eo_defaulted : forall n, n ∈ ex_defaulted e -> n ∈ ex_referenced e /\ resolved lookup n = None;
}.

Lemma elem_of_note l name n : n ∈ note l name <-> n ∈ l \/ n = name.
Proof.
  unfold note. destruct (existsb _ l) eqn:E.
  - apply existsb_In in E as (m & Hm & Hn%bool_decide_eq_true). subst. split; [by left|by intros [?| ->]].
  - rewrite elem_of_app, list_elem_of_singleton. done.
Qed.

Lemma run_fails_closed lookup ps e o e' :
  expansion_ok lookup e -> run lookup None None ps e = Ok (o, e') -> expansion_ok lookup e'.
Proof.
  revert e o. induction ps as [|[line p] ps IH]; intros e o He; cbn [run]; [by intros [= _ <-]|].
  destruct p as [s q|before b|s]; [..|done].
  - intros ([o' e2] & Hr & [= _ <-])%rbind_Ok. by eapply IH.
  - intros ([v e1] & Hx & Hr)%rbind_Ok. apply rbind_Ok in Hr as ([o' e2] & Hr & [= _ <-]).
    eapply IH; [|exact Hr]. cbn [snd]. clear IH Hr. unfold expand_reference in Hx.
    destruct (reference_parts b) as [name dflt]. destruct (name ==? []); [done|].
    destruct (negb (is_valid_name name)) eqn:Hn; [done|]. apply negb_false_iff in Hn.
    apply rbind_Ok in Hx as ([v1 e3] & Hv & Hx). cbn [fst] in Hx.
    destruct (negb (is_structurally_safe v1)); [done|]. injection Hx as <- <-.
    destruct He as [Hp Href Hdef]. destruct (resolved lookup name) as [w|] eqn:Er.
    + injection Hv as <- <-. split; [done|..]; cbn [note_referenced ex_referenced ex_defaulted].
      * intros n [Hin| ->]%elem_of_note; [auto|]. split; [done|congruence].
      * intros n Hin. rewrite elem_of_note. apply Hdef in Hin. tauto.
    + destruct dflt as [d|]; [|done]. injection Hv as <- <-.
      split; [done|..]; cbn [note_referenced note_defaulted ex_referenced ex_defaulted]; intros n;
        rewrite !elem_of_note.
      * intros [Hin| ->]; [apply Href in Hin; tauto|tauto].
      * intros [Hin| ->]; [apply Hdef in Hin; tauto|tauto].
Qed.

(** Interpolation fails closed: a text is produced only if every variable
    the document refers to is well named and either set to something that is
    not blank or given a default at every use; the variables reported as
    defaulted are exactly the references that are unset, and none was filled
    with a placeholder. *)
Lemma interpolation_fails_closed document lookup r (Hr : interpolate document lookup = Ok r) :
  placeheld r = [] /\
  (forall n, n ∈ referenced r -> is_valid_name n = true) /\
  (forall n, n ∈ defaulted r <-> n ∈ referenced r /\ (letO v := lookup n in if trim v ==? [] then None else Some v) = None).
Proof.
  unfold interpolate, interpolate_with_fallback in Hr. rewrite process_run in Hr.
  apply rbind_Ok in Hr as ([i rs] & Hr & [= <-]). apply rbind_Ok in Hr as ([out e] & Hr & [= <- <-]).
  apply run_fails_closed in Hr as [Hp Href Hdef]; [|by split; [done|intros ? ?%elem_of_nil..]].
  cbn [fst placeheld referenced defaulted].
  assert (forall n, (letO v := lookup n in if trim v ==? [] then None else Some v) = None <->
                    resolved lookup n = None) as Hres.
  { intros n. unfold resolved. destruct (lookup n); simpl; [|done]. by case_bool_decide. }
  split_and!; [done|intros n Hn; by apply Href|]. intros n. rewrite Hres. split; [apply Hdef|].
  intros [Hn Hu]. by apply Href.
Qed.

(** ** Escaping *)

Definition escape (s : str) : str := flat_map (fun c => if c =? 36 then [36; 36] else [c]) s.

Lemma escape_tokens lookup fallback prefix n seen s e :
  run lookup fallback prefix (map (pair n) (tokens seen None (escape s))) e = Ok (s, e).
Proof.
  revert seen. induction s as [|c s IH]; intros seen; [done|]. cbn [escape flat_map].
  change (flat_map _ s) with (escape s).
  destruct (Z.eqb_spec c 36) as [->|Hc]; cbn [app tokens].
  - change (36 =? 36) with true. cbn [negb map run]. by rewrite IH.
  - rewrite (proj2 (Z.eqb_neq c 36)) by done. cbn [negb map run]. by rewrite IH.
Qed.

Lemma elem_of_escape x s : x ∈ escape s <-> x ∈ s.
Proof.
  induction s as [|c s IH]; [done|]. cbn [escape flat_map]. rewrite elem_of_app, elem_of_cons.
  change (flat_map _ s) with (escape s). rewrite IH.
  destruct (Z.eqb_spec c 36) as [->|]; rewrite ?elem_of_cons, elem_of_nil; tauto.
Qed.

Lemma split_escape s : split_on 10 (escape s) = map escape (split_on 10 s).
Proof.
  induction s as [|c s IH]; [done|]. cbn [escape flat_map]. change (flat_map _ s) with (escape s).
  destruct (split_on_cons 10 s) as (w & ws & E). rewrite E in IH. cbn [map] in IH.
  destruct (Z.eqb_spec c 36) as [->|Hc]; cbn [app split_on].
  - by rewrite IH, E.
  - rewrite IH, E. by destruct (Z.eqb_spec c 10); [|cbn [map escape flat_map]; rewrite (proj2 (Z.eqb_neq c 36))].
Qed.

(** Any text can be written: a document without comments and with every
    [$] doubled expands to the text itself, in any environment, and refers to
    nothing. *)
Lemma escape_roundtrip document lookup (Hplain : 35 ∉ document) :
  interpolate (escape document) lookup =
  Ok {| text := document; referenced := []; defaulted := []; placeheld := [] |}.
Proof.
  unfold interpolate, interpolate_with_fallback. rewrite process_run, split_escape.
  enough (forall idx block lines, Forall (fun l => 35 ∉ l) lines ->
    run lookup None None (document_pieces idx block (map escape lines)) expansion_new =
    Ok (join [10] lines, expansion_new)) as H.
  { rewrite H; [cbn [rbind fst]; by rewrite join_split|]. apply Forall_elem. intros w Hw Hin.
    by eapply Hplain, split_on_elem. }
  intros idx block lines. revert idx block. induction lines as [|l lines IH]; intros idx block Hl; [done|].
  cbn [map document_pieces].
  assert (code_and_comment (leave_block block (escape l)) (escape l) = (escape l, [])) as ->.
  { unfold code_and_comment, comment_start. rewrite comment_scan_absent; [by case_match|].
    rewrite elem_of_escape. exact (Forall_inv Hl). }
  apply Forall_inv_tail in Hl. unfold line_pieces. rewrite map_app, <- app_assoc, run_app, escape_tokens.
  cbn [rbind fst snd map app run]. rewrite push_nil. destruct lines as [|l2 lines].
  - cbn. by rewrite app_nil_r.
  - cbn [map] in *. cbn [run]. rewrite IH by done. cbn [push rbind fst snd join]. done.
Qed.

(** ** Witnesses *)

Definition sample_env : str -> option str := env_of [(str_of "A", str_of " x "); (str_of "B", str_of " ")].
Definition sample_document : str := "a: ${A} # ${Z}" ++ [10] ++ "b: ${B:-d#e} $${C} $x".
Definition sample_expanded : str := "a: x # ${Z}" ++ [10] ++ "b: d#e ${C} $x".

Lemma sample_env_utf8 n v : sample_env n = Some v -> Utf8 v.
Proof.
  unfold sample_env, env_of. cbn [List.find fst].
  repeat case_bool_decide; intros [= <-]; apply Utf8_of_ascii; repeat constructor; lia.
Qed.

Lemma inspection_tells_the_truth_witness :
  Z.of_nat (length sample_document) <= u64_max /\
  match inspect sample_document sample_env with
  | Ok i => resolve_scalar i (masked i) = Some sample_expanded
  | Err _ => False
  end.
Proof.
  assert (Z.of_nat (length sample_document) <= u64_max) as Hs by (vm_compute; discriminate).
  split; [exact Hs|]. pose proof (inspection_tells_the_truth sample_document sample_env Hs) as H.
  destruct (inspect sample_document sample_env) as [i|] eqn:Ei; [|vm_compute in Ei; discriminate].
  destruct (interpolate sample_document sample_env) as [r|] eqn:Er; [|vm_compute in Er; discriminate].
  destruct H as [_ ->]. vm_compute in Er. injection Er as <-. reflexivity.
Defined.

Lemma interpolation_keeps_structure_witness :
  exists r, interpolate sample_document sample_env = Ok r /\ text r = sample_expanded /\
    Forall2 expands_to (split_on 10 sample_document) (split_on 10 (text r)).
Proof.
  eexists. split; [vm_compute; reflexivity|]. split; [reflexivity|].
  apply (interpolation_keeps_structure sample_document sample_env _ sample_env_utf8). vm_compute. reflexivity.
Defined.

Lemma interpolation_fails_closed_witness :
  interpolate "x: ${B}" sample_env = Err (Unset "B" 1) /\
  exists r, interpolate sample_document sample_env = Ok r /\ placeheld r = [] /\ str_of "B" ∈ defaulted r.
Proof.
  split; [vm_compute; reflexivity|]. eexists. split; [vm_compute; reflexivity|].
  edestruct (interpolation_fails_closed sample_document sample_env) as (Hp & _ & Hd); [vm_compute; reflexivity|].
  split; [exact Hp|]. apply Hd. split; [vm_compute; right; left|vm_compute; reflexivity].
Defined.

Lemma escape_roundtrip_witness :
  35 ∉ str_of "price: $5 ${HOME}" /\
  is_ok (interpolate (escape "price: $5 ${HOME}") (fun _ => None)) = true.
Proof.
  assert (35 ∉ str_of "price: $5 ${HOME}") as H by (apply contains_byte_false; reflexivity).
  split; [exact H|]. rewrite (escape_roundtrip _ _ H). reflexivity.
Defined.
