(* ===== verification/Config.v ===== *)
(** * Configuration data (config/mod.rs)

    The records and enumerations of the configuration that the modelled
    components read, field by field.  A [Duration] is its number of
    nanoseconds; [u32], [u64] and [usize] fields are [Z]. *)

From S2P Require Export Str.

(** ** Durations *)

Definition nanos_per_sec : Z := 10 ^ 9.
(** [Duration::MAX]. *)
Definition duration_max : Z := u64_max * nanos_per_sec + (nanos_per_sec - 1).
Definition from_secs (s : Z) : Z := s * nanos_per_sec.
Definition as_secs (d : Z) : Z := d / nanos_per_sec.
(** [Instant::saturating_duration_since], on monotonic readings in nanoseconds. *)
Definition saturating_duration_since (now earlier : Z) : Z := sat_sub now earlier.

(** [Instant::checked_add]: an instant is a 64-bit count of seconds and a
    fraction of one. *)
Definition instant_max : Z := (2 ^ 63 - 1) * nanos_per_sec + (nanos_per_sec - 1).
Definition instant_checked_add (t d : Z) : option Z :=
  if t + d <=? instant_max then Some (t + d) else None.

(** [Debug] of a [Duration]: the largest unit of which there is one, and the
    decimals that are not zero. *)
Fixpoint frac_digits (fuel : nat) (f div : Z) : str :=
  match fuel with
  | O => []
  | S n => if f =? 0 then [] else 48 + f / div :: frac_digits n (f mod div) (div / 10)
  end.
Definition show_decimal (whole frac div : Z) (unit : str) : str :=
  show_u64 whole ++ (if frac =? 0 then [] else "." ++ frac_digits 9 frac div) ++ unit.
Definition show_duration (d : Z) : str :=
  let secs := as_secs d in
  let nanos := d mod nanos_per_sec in
  if 0 <? secs then show_decimal secs nanos (10 ^ 8) "s"
  else if 10 ^ 6 <=? nanos then show_decimal (nanos / 10 ^ 6) (nanos mod 10 ^ 6) (10 ^ 5) "ms"
  else if 1000 <=? nanos then show_decimal (nanos / 1000) (nanos mod 1000) 100 [194; 181; 115]
  else show_decimal nanos 0 1 "ns".

Example show_duration_cases :
  map show_duration [0; 1500000000; 250000000; 1000000; 1234; 60 * 10 ^ 9; 100500]
  = [str_of "0ns"; str_of "1.5s"; str_of "250ms"; str_of "1ms"; "1.234" ++ [194; 181; 115]; str_of "60s"; "100.5" ++ [194; 181; 115]].
Proof. reflexivity. Qed.

(** ** Retry *)

Inductive RetryOn := ConnectionFailure | TransportError.
#[export] Instance RetryOn_eq_dec : EqDecision RetryOn.
Proof. solve_decision. Defined.

Record RetryConfig := {
  retry_attempts : Z;
  retry_on : list RetryOn;
  retry_non_idempotent : bool;
}.
#[export] Instance RetryConfig_eq_dec : EqDecision RetryConfig.
Proof. solve_decision. Defined.

(** ** CORS and cookie protection *)

Record CorsConfig := {
  cors_origins : list str;
  cors_methods : list str;
  cors_headers : list str;
  cors_expose : list str;
  cors_credentials : bool;
  cors_max_age : Z;
}.

Record CookieProtectionConfig := {
  cp_origins : list str;
  cp_referer_fallback : bool;
}.

(** ** Rate and concurrency limits *)

Inductive RateLimitKey := KeyIp | KeyIdentity | KeyRoute | KeyHeader (name : str).
#[export] Instance RateLimitKey_eq_dec : EqDecision RateLimitKey.
Proof. solve_decision. Defined.

Inductive MissingKey := MissingReject | MissingRoute | MissingIp | MissingSkip.
#[export] Instance MissingKey_eq_dec : EqDecision MissingKey.
Proof. solve_decision. Defined.

Inductive Counter := CounterExact | CounterSketch | CounterShared.
#[export] Instance Counter_eq_dec : EqDecision Counter.
Proof. solve_decision. Defined.

Inductive LimitMode := ModeApproximate | ModeExact.
#[export] Instance LimitMode_eq_dec : EqDecision LimitMode.
Proof. solve_decision. Defined.

Record RateLimitConfig := {
  rl_requests : Z;
  rl_interval : Z;
  rl_key : RateLimitKey;
  rl_missing_key : MissingKey;
  rl_trusted_proxies : nat;
  rl_max_keys : Z;
  rl_counter : Counter;
  rl_mode : LimitMode;
}.
#[export] Instance RateLimitConfig_eq_dec : EqDecision RateLimitConfig.
Proof. solve_decision. Defined.

Record ConcurrencyConfig := {
  cc_max : Z;
  cc_key : option RateLimitKey;
  cc_missing_key : MissingKey;
  cc_trusted_proxies : nat;
}.

(** [ConcurrencyConfig::key] and [ConcurrencyConfig::per_caller]. *)
Definition concurrency_key (c : ConcurrencyConfig) : RateLimitKey :=
  default KeyRoute (cc_key c).
Definition per_caller (c : ConcurrencyConfig) : bool :=
  negb (concurrency_key c ==? KeyRoute).

Record SharedCountersConfig := {
  sc_url : str;
  sc_sync : Z;
  sc_prefix : str;
  sc_timeout : Z;
  sc_max_keys_per_sync : nat;
}.

Record RouteDefaults := {
  rd_rate_limit : option RateLimitConfig;
  rd_retry : option RetryConfig;
  rd_methods : option (list str);
}.
Definition no_defaults : RouteDefaults :=
  {| rd_rate_limit := None; rd_retry := None; rd_methods := None |}.

(** ** Circuit breaker *)

Record CircuitBreakerConfig := {
  cb_failures : Z;
  cb_window : Z;
  cb_cooldown : Z;
  cb_successes_to_close : Z;
  cb_max_trials : Z;
}.

(** ** Connection limit *)

Record ConnectionLimitConfig := {
  cl_connections : Z;
  cl_interval : Z;
  cl_max_tracked : Z;
}.

(** ** Identity headers *)

Record ClaimMapping := { cm_claim : str; cm_when_null : option str }.

Record IdentityTokenConfig := {
  it_header : str;
  it_secret : str;
  it_ttl : Z;
  it_audience : option str;
}.

Record IdentityConfig := {
  ic_subject_header : str;
  ic_issuer_header : str;
  ic_claims_header : str;
  ic_claims : list (str * ClaimMapping);  (* a BTreeMap, in key order *)
  ic_token : option IdentityTokenConfig;
}.

(** ** The listener and its budgets *)

Record TcpKeepaliveConfig := { ka_idle : Z; ka_interval : Z; ka_count : Z }.

Record ServerConfig := {
  srv_listen : str;
  srv_mounts : list str;
  srv_internal_listen : option str;
  srv_health_path : str;
  srv_service_name : str;
  srv_threads : Z;
  srv_tcp_keepalive : option TcpKeepaliveConfig;
  srv_shutdown_grace : option Z;
  srv_graceful_shutdown : Z;
}.

Definition default_server : ServerConfig :=
  {| srv_listen := "0.0.0.0:8080"; srv_mounts := ["/"]; srv_internal_listen := None;
     srv_health_path := "/health"; srv_service_name := "lagos"; srv_threads := 2;
     srv_tcp_keepalive := None; srv_shutdown_grace := None; srv_graceful_shutdown := from_secs 25 |}.

Record Timeouts := {
  t_request_total : option Z;
  t_extension : Z;
  t_extension_chain : Z;
  t_connect : Z;
  t_default : Z;
  t_sse : Z;
  t_upload : Z;
  t_upstream_idle : Z;
  t_downstream_read : Z;
  t_downstream_write : Z;
  t_downstream_drain : Z;
  t_downstream_keepalive : Z;
}.

Definition default_timeouts : Timeouts :=
  {| t_request_total := None; t_extension := from_secs 2; t_extension_chain := from_secs 5;
     t_connect := from_secs 5; t_default := from_secs 30; t_sse := from_secs 120;
     t_upload := from_secs 120; t_upstream_idle := from_secs 60; t_downstream_read := from_secs 30;
     t_downstream_write := from_secs 30; t_downstream_drain := from_secs 5;
     t_downstream_keepalive := from_secs 60 |}.

Record Limits := {
  lt_extension_inflight : option Z;
  lt_max_body : Z;
  lt_max_token : Z;
  lt_keepalive_requests : Z;
  lt_connections_per_ip : option ConnectionLimitConfig;
  lt_upstream_pool : Z;
  lt_min_send_rate : option Z;
}.

Definition default_limits : Limits :=
  {| lt_extension_inflight := None; lt_max_body := 50 * 1024 * 1024; lt_max_token := 8 * 1024;
     lt_keepalive_requests := 1000; lt_connections_per_ip := None; lt_upstream_pool := 128;
     lt_min_send_rate := None |}.

Record DnsConfig := { dns_cache_ttl : Z; dns_max_entries : Z }.
Definition default_dns : DnsConfig := {| dns_cache_ttl := from_secs 30; dns_max_entries := 1024 |}.

(** [ConnectionLimitConfig::as_rate_limit]: always local, always by socket. *)
Definition as_rate_limit (c : ConnectionLimitConfig) : RateLimitConfig :=
  {| rl_requests := cl_connections c; rl_interval := cl_interval c; rl_key := KeyIp;
     rl_missing_key := MissingReject; rl_trusted_proxies := 0; rl_max_keys := cl_max_tracked c;
     rl_counter := CounterExact; rl_mode := ModeApproximate |}.

(** ** Sizes *)

Definition unit_factor (u : str) : option Z :=
  if (u ==? "") || (u ==? "b") then Some 1
  else if (u ==? "k") || (u ==? "kb") || (u ==? "kib") then Some 1024
  else if (u ==? "m") || (u ==? "mb") || (u ==? "mib") then Some (1024 * 1024)
  else if (u ==? "g") || (u ==? "gb") || (u ==? "gib") then Some (1024 * 1024 * 1024)
  else None.

(** The leading digits of a string, and the rest. *)
Fixpoint split_digits (s : str) : str * str :=
  match s with
  | [] => ([], [])
  | c :: r => if is_ascii_digit c then let '(n, u) := split_digits r in (c :: n, u) else ([], s)
  end.

Definition parse_byte_size (s : str) : result Z str :=
  let s := trim s in
  let '(n, u) := split_digits s in
  if n ==? [] then Err ("not a size: " ++ s)
  else
    let? n := ok_or (parse_u64 n) ("not a size: " ++ s) in
    let u := to_ascii_lowercase (trim u) in
    match unit_factor u with
    | Some f => Ok (sat_mul u64_max n f)
    | None => Err ("unknown size unit " ++ u)
    end.

(** ** Upstreams *)

Inductive HashKey := HashIp | HashIdentity | HashPath | HashHeader (name : str).
#[export] Instance HashKey_eq_dec : EqDecision HashKey.
Proof. solve_decision. Defined.

(** The value of [hash_on], from its text. *)
Definition hash_key_parse (raw : str) : result HashKey str :=
  if raw ==? "ip" then Ok HashIp
  else if raw ==? "identity" then Ok HashIdentity
  else if raw ==? "path" then Ok HashPath
  else
    let refused := Err ("`" ++ raw ++ "` is not a hash key; expected `ip`, `identity`, `path`, "
                        ++ "or `header.<name>`") in
    match strip_prefix "header." raw with
    | Some name => if negb (name ==? []) then Ok (HashHeader (to_ascii_lowercase name)) else refused
    | None => refused
    end.

Inductive Balance := RoundRobin | Random | Consistent.
#[export] Instance Balance_eq_dec : EqDecision Balance.
Proof. solve_decision. Defined.

Record DiscoveryConfig := { dc_interval : Z; dc_max_members : Z }.
Definition DEFAULT_MAX_MEMBERS : Z := 256.
Definition MAX_MEMBERS_LIMIT : Z := 4096.

Record HealthCheckConfig := {
  hc_path : option str;
  hc_interval : Z;
  hc_timeout : Z;
  hc_healthy_after : Z;
  hc_unhealthy_after : Z;
}.

Record UpstreamTargetConfig := { ut_url : str; ut_weight : Z }.

Record UpstreamConfig := {
  up_targets : list UpstreamTargetConfig;
  up_balance : Balance;
  up_hash_on : HashKey;
  up_health_check : option HealthCheckConfig;
  up_circuit_breaker : option CircuitBreakerConfig;
  up_discovery : option DiscoveryConfig;
}.

Definition is_pool (u : UpstreamConfig) : bool :=
  (1 <? length (up_targets u))%nat
  || match up_health_check u with Some _ => true | None => false end
  || match up_discovery u with Some _ => true | None => false end.

Record UpstreamDetails := {
  ud_url : option str;
  ud_targets : list UpstreamTargetConfig;
  ud_balance : Balance;
  ud_hash_on : HashKey;
  ud_health_check : option HealthCheckConfig;
  ud_circuit_breaker : option CircuitBreakerConfig;
  ud_discovery : option DiscoveryConfig;
}.

(** [UpstreamConfig]'s visitor: the short form and the mapping. *)
Definition upstream_of_url (v : str) : UpstreamConfig :=
  {| up_targets := [{| ut_url := v; ut_weight := 1 |}]; up_balance := RoundRobin;
     up_hash_on := HashPath; up_health_check := None; up_circuit_breaker := None;
     up_discovery := None |}.

Definition upstream_of_details (d : UpstreamDetails) : result UpstreamConfig str :=
  let? targets :=
    match ud_url d, ud_targets d with
    | Some _, _ :: _ => Err (str_of "an upstream sets both `url` and `targets`; use one or the other")
    | Some url, [] => Ok [{| ut_url := url; ut_weight := 1 |}]
    | None, _ :: _ => Ok (ud_targets d)
    | None, [] => Err (str_of "an upstream needs a `url` or a non-empty `targets` list")
    end in
  Ok {| up_targets := targets; up_balance := ud_balance d; up_hash_on := ud_hash_on d;
        up_health_check := ud_health_check d; up_circuit_breaker := ud_circuit_breaker d;
        up_discovery := ud_discovery d |}.

(** ** Values with more than one spelling *)

(** [RateLimitKey], from its text; [header_name_ok] is
    [HeaderName::from_bytes]. *)
Definition rate_limit_key_parse (header_name_ok : str -> bool) (raw : str) : result RateLimitKey str :=
  if raw ==? "ip" then Ok KeyIp
  else if raw ==? "identity" then Ok KeyIdentity
  else if raw ==? "route" then Ok KeyRoute
  else
    let refused := Err ("`" ++ raw ++ "` is not a rate-limit key; expected `ip`, `identity`, `route`, or `header.<name>`") in
    match strip_prefix "header." raw with
    | Some name => if header_name_ok name then Ok (KeyHeader (to_ascii_lowercase name)) else refused
    | None => refused
    end.

(** [RetryOn], from a number or a name. *)
Inductive RawRetryOn := RawStatus (code : Z) | RawName (name : str).
Definition retry_on_parse (raw : RawRetryOn) : result RetryOn str :=
  match raw with
  | RawName name =>
      if name ==? "connection_failure" then Ok ConnectionFailure
      else if name ==? "transport_error" then Ok TransportError
      else Err ("`" ++ name ++ "` is not a retryable failure; expected `connection_failure` or `transport_error`")
  | RawStatus code =>
      Err ("retrying on status " ++ show_u64 code ++ " is not supported. Deciding after a status "
           ++ "arrives means holding the whole response before sending any of it, "
           ++ "which would break streaming and server-sent events. Retry on "
           ++ "`connection_failure` and `transport_error`, and use upstream "
           ++ "`health_check` to take a failing backend out of rotation.")
  end.

(** [string_or_seq]. *)
Inductive OneOrMany := One (s : str) | Many (l : list str).
Definition string_or_seq (v : OneOrMany) : list str := match v with One s => [s] | Many l => l end.

(** [de_byte_size]. *)
Inductive RawSize := RawBytes (n : Z) | RawText (s : str).
Definition de_byte_size (raw : RawSize) : result Z str := match raw with RawBytes n => Ok n | RawText s => parse_byte_size s end.

(** The short and the long form of a target and of a claim. *)
Inductive ShortOrLong (A : Type) := Short (s : str) | Long (a : A).
Arguments Short {A} _.
Arguments Long {A} _.
Definition target_config_parse (v : ShortOrLong (str * Z)) : UpstreamTargetConfig :=
  match v with
  | Short url => {| ut_url := url; ut_weight := 1 |}
  | Long (url, weight) => {| ut_url := url; ut_weight := weight |}
  end.
Definition claim_parse (v : ShortOrLong (str * option str)) : ClaimMapping :=
  match v with
  | Short claim => {| cm_claim := claim; cm_when_null := None |}
  | Long (claim, when_null) => {| cm_claim := claim; cm_when_null := when_null |}
  end.

(** What is accepted as a key says which key it is. *)
Lemma rate_limit_key_parse_Ok header_name_ok raw k : rate_limit_key_parse header_name_ok raw = Ok k ->
  match k with
  | KeyIp => raw = str_of "ip"
  | KeyIdentity => raw = str_of "identity"
  | KeyRoute => raw = str_of "route"
  | KeyHeader n => exists name, raw = "header." ++ name /\ header_name_ok name = true /\ n = to_ascii_lowercase name
  end.
Proof.
  unfold rate_limit_key_parse. repeat case_bool_decide; try (by intros [= <-]).
  destruct (strip_prefix "header." raw) as [name|] eqn:E; [|done].
  destruct (header_name_ok name) eqn:En; [|done]. intros [= <-]. exists name. split_and!; [by apply strip_prefix_Some|done..].
Qed.

(** A status is never a reason to retry, and each failure has one name. *)
Lemma retry_on_parse_Ok raw f : retry_on_parse raw = Ok f <->
  raw = RawName (match f with ConnectionFailure => "connection_failure" | TransportError => "transport_error" end).
Proof.
  destruct raw as [code|name]; cbn [retry_on_parse]; [split; [done|by destruct f]|].
  case_bool_decide as E1; [subst; destruct f; by split|]. case_bool_decide as E2; [subst; destruct f; by split|].
  split; [done|]. destruct f; naive_solver.
Qed.

(** ** Authentication *)

Record MachineConfig := { mc_headers : list str; mc_secret : str }.

Record ClientKeysConfig := {
  ck_header : str;
  ck_forward_as : option str;
  ck_keys : list (str * str);  (* a BTreeMap, in key order *)
  ck_exempt : list str;
  ck_exempt_groups : list str;
}.

Record JwtConfig := {
  jwt_issuer : str;
  jwt_audience : list str;
  jwt_jwks_url : option str;
  jwt_algorithms : list str;
  jwt_required_claims : list str;
  jwt_clock_skew : Z;
  jwt_min_key_ttl : Z;
  jwt_stale_if_error : Z;
}.

Definition resolved_jwks_url (j : JwtConfig) : str :=
  match jwt_jwks_url j with
  | Some u => u
  | None => trim_end_matches (Z.eqb b_slash) (jwt_issuer j) ++ "/.well-known/jwks.json"
  end.

Record FirebaseConfig := {
  fb_projects : list str;
  fb_certs_url : str;
  fb_clock_skew : Z;
  fb_min_cert_ttl : Z;
  fb_stale_if_error : Z;
}.

Record AuthConfig := {
  au_jwt : list JwtConfig;
  au_firebase : option FirebaseConfig;
  au_machine : option MachineConfig;
  au_client_keys : option ClientKeysConfig;
  au_token_cookies : list str;
  au_cookie_protection : option CookieProtectionConfig;
}.

Definition default_machine_headers : list str := ["x-internal-api-key"; "x-api-key"].

(** ** Header policies *)

Record InjectConfig := { in_headers : list (str * str); in_machine : list (str * str) }.
Record RejectConfig := { rj_client_headers : list str }.

Inductive ForwardMode := Allowlist | Passthrough.
#[export] Instance ForwardMode_eq_dec : EqDecision ForwardMode.
Proof. solve_decision. Defined.

Record ForwardConfig := {
  fw_mode : ForwardMode;
  fw_headers : list str;
  fw_authorization : bool;
  fw_preserve_host : bool;
  fw_trusted_proxies : nat;
  fw_trusted_proxy_ips : list str;
}.

Definition default_forward : ForwardConfig :=
  {| fw_mode := Allowlist;
     fw_headers := ["user-agent"; "x-forwarded-proto"; "x-forwarded-host"; "traceparent";
                    "tracestate"; "x-request-id"];
     fw_authorization := true; fw_preserve_host := false; fw_trusted_proxies := 0;
     fw_trusted_proxy_ips := [] |}.

Definition default_identity : IdentityConfig :=
  {| ic_subject_header := "x-auth-subject"; ic_issuer_header := "x-auth-issuer";
     ic_claims_header := "x-auth-claims"; ic_claims := []; ic_token := None |}.

(** ** The response cache *)

Record CacheConfig := {
  ca_max_size : Z;
  ca_max_object_size : Z;
  ca_max_inflight_fill : Z;
  ca_default_ttl : Z;
  ca_stale_while_revalidate : Z;
}.
