(* ===== verification/Retry.v ===== *)
(** * Retrying a failed upstream attempt (retry.rs)

    The decision is a pure function of where the attempt failed, how many
    retries were made, the method and whether the body can be replayed.  The
    theorems say when a request can be delivered twice, and bound how many
    times it is delivered. *)

From S2P Require Export Config.

Definition IDEMPOTENT : list str := ["GET"; "HEAD"; "OPTIONS"; "TRACE"; "PUT"; "DELETE"].

Definition is_idempotent (method : str) : bool :=
  existsb (fun m => eq_ignore_ascii_case m method) IDEMPOTENT.

Inductive Failure := Connect | Transport.

Record Policy := {
  attempts : Z;
  on_connect : bool;
  on_transport : bool;
  non_idempotent : bool;
}.
#[export] Instance Policy_eq_dec : EqDecision Policy.
Proof. solve_decision. Defined.

Definition policy_from_config (cfg : RetryConfig) : Policy :=
  {| attempts := retry_attempts cfg;
     on_connect := existsb (fun r => r ==? ConnectionFailure) (retry_on cfg);
     on_transport := existsb (fun r => r ==? TransportError) (retry_on cfg);
     non_idempotent := retry_non_idempotent cfg |}.

Definition should_retry (p : Policy) (failure : Failure) (attempts_made : Z) (method : str)
    (body_replayable : bool) : bool :=
  if (attempts p <=? attempts_made) || negb body_replayable then false
  else match failure with
       | Connect => on_connect p
       | Transport => on_transport p && (non_idempotent p || is_idempotent method)
       end.

(** One request against a policy: each attempt of the list fails as it says,
    and the request is delivered again as long as [should_retry] agrees.  The
    result is the number of deliveries, the first one included. *)
Fixpoint deliveries (p : Policy) (made : Z) (method : str)
    (outcomes : list (Failure * bool)) : Z :=
  match outcomes with
  | [] => 1
  | (failure, replayable) :: rest =>
      if should_retry p failure made method replayable
      then 1 + deliveries p (made + 1) method rest
      else 1
  end.

(** ** Theorems *)

Lemma deliveries_from p made method outcomes :
  0 <= made -> 1 <= deliveries p made method outcomes <= 1 + Z.max 0 (attempts p - made).
Proof.
  revert made. induction outcomes as [|[f r] rest IH]; intros made Hmade; simpl; [lia|].
  unfold should_retry. destruct (Z.leb_spec (attempts p) made); simpl; [lia|].
  destruct (negb r); [lia|]. specialize (IH (made + 1)). case_match; case_match; lia.
Qed.

(** A retried transport failure is of an idempotent method, unless the
    configuration says the upstream tolerates duplicates. *)
Lemma transport_retry_is_idempotent p made method replayable
    (H : should_retry p Transport made method replayable = true) :
  replayable = true /\ made < attempts p /\ on_transport p = true /\
  (non_idempotent p = true \/ exists m, m ∈ IDEMPOTENT /\ eq_ignore_ascii_case m method = true).
Proof.
  unfold should_retry in H. destruct (Z.leb_spec (attempts p) made); [done|].
  destruct replayable; [|done]. simpl in H. apply andb_true_iff in H as [Ht Ho].
  split_and!; [done|lia|done|]. apply orb_true_iff in Ho as [Ho|Ho]; [by left|right].
  by apply existsb_In in Ho.
Qed.

(** A request under a policy of [n] attempts is delivered at most [n + 1]
    times, whatever its attempts run into. *)
Lemma deliveries_bounded p method outcomes :
  1 <= deliveries p 0 method outcomes <= 1 + Z.max 0 (attempts p).
Proof. pose proof (deliveries_from p 0 method outcomes). lia. Qed.

(** ** Witnesses *)

Definition sample_policy : Policy :=
  policy_from_config {| retry_attempts := 2; retry_on := [ConnectionFailure; TransportError];
                        retry_non_idempotent := false |}.

Lemma transport_retry_is_idempotent_witness :
  true = true /\ 1 < attempts sample_policy /\ on_transport sample_policy = true /\
  (non_idempotent sample_policy = true \/
   exists m, m ∈ IDEMPOTENT /\ eq_ignore_ascii_case m "get" = true).
Proof. apply (transport_retry_is_idempotent sample_policy 1 "get" true). reflexivity. Defined.
