(* ===== verification/Breaker.v ===== *)
(** * The circuit breaker (breaker.rs)

    [Inner] is the state under the mutex; each method is one critical section,
    so an execution is a sequence of the [op]s below, interleaved in any order
    by the requests that share the breaker.  [Instant]s are monotonic readings
    in nanoseconds. *)

From S2P Require Export Config.

Inductive State := Closed | Open | HalfOpen.
#[export] Instance State_eq_dec : EqDecision State.
Proof. solve_decision. Defined.

Definition as_metric (s : State) : Z :=
  match s with Closed => 0 | HalfOpen => 1 | Open => 2 end.
Definition as_str (s : State) : str :=
  match s with Closed => "closed" | Open => "open" | HalfOpen => "half_open" end.

Record Inner := {
  state : State;
  failures : Z;
  window_started : Z;
  opened_at : Z;
  trial_successes : Z;
  trials_in_flight : Z;
}.
#[export] Instance Inner_eq_dec : EqDecision Inner.
Proof. solve_decision. Defined.

(** [CircuitBreaker::new]: the configuration's thresholds are the breaker's. *)
Definition new (now : Z) : Inner :=
  {| state := Closed; failures := 0; window_started := now; opened_at := now;
     trial_successes := 0; trials_in_flight := 0 |}.

Section Breaker.
Context (cfg : CircuitBreakerConfig).

Definition allow_at (now : Z) (i : Inner) : bool * Inner :=
  match state i with
  | Closed => (true, i)
  | Open =>
      if saturating_duration_since now (opened_at i) <? cb_cooldown cfg then (false, i)
      else (true,
            {| state := HalfOpen; failures := failures i; window_started := window_started i;
               opened_at := opened_at i; trial_successes := 0; trials_in_flight := 1 |})
  | HalfOpen =>
      if cb_max_trials cfg <=? trials_in_flight i then (false, i)
      else (true,
            {| state := HalfOpen; failures := failures i; window_started := window_started i;
               opened_at := opened_at i; trial_successes := trial_successes i;
               trials_in_flight := sat_add u32_max (trials_in_flight i) 1 |})
  end.

Definition cancel (i : Inner) : Inner :=
  if state i ==? HalfOpen then
    {| state := HalfOpen; failures := failures i; window_started := window_started i;
       opened_at := opened_at i; trial_successes := trial_successes i;
       trials_in_flight := sat_sub (trials_in_flight i) 1 |}
  else i.

Definition record_success_at (i : Inner) : Inner :=
  match state i with
  | Closed =>
      {| state := Closed; failures := 0; window_started := window_started i;
         opened_at := opened_at i; trial_successes := trial_successes i;
         trials_in_flight := trials_in_flight i |}
  | HalfOpen =>
      let successes := sat_add u32_max (trial_successes i) 1 in
      if cb_successes_to_close cfg <=? successes then
        {| state := Closed; failures := 0; window_started := window_started i;
           opened_at := opened_at i; trial_successes := 0; trials_in_flight := 0 |}
      else
        {| state := HalfOpen; failures := failures i; window_started := window_started i;
           opened_at := opened_at i; trial_successes := successes;
           trials_in_flight := sat_sub (trials_in_flight i) 1 |}
  | Open => i
  end.

Definition record_failure_at (now : Z) (i : Inner) : Inner :=
  match state i with
  | Closed =>
      let expired := cb_window cfg <? saturating_duration_since now (window_started i) in
      let window_started' := if expired then now else window_started i in
      let failures' := sat_add u32_max (if expired then 0 else failures i) 1 in
      let opens := cb_failures cfg <=? failures' in
      {| state := if opens then Open else Closed; failures := failures';
         window_started := window_started';
         opened_at := if opens then now else opened_at i;
         trial_successes := trial_successes i; trials_in_flight := trials_in_flight i |}
  | HalfOpen =>
      {| state := Open; failures := failures i; window_started := window_started i;
         opened_at := now; trial_successes := 0; trials_in_flight := 0 |}
  | Open => i
  end.

(** ** Executions *)

Inductive op :=
| OpAllow (now : Z) (answer : bool)
| OpCancel
| OpSuccess
| OpFailure (now : Z).

Inductive step : Inner -> op -> Inner -> Prop :=
| step_allow now i b i' : allow_at now i = (b, i') -> step i (OpAllow now b) i'
| step_cancel i : step i OpCancel (cancel i)
| step_success i : step i OpSuccess (record_success_at i)
| step_failure now i : step i (OpFailure now) (record_failure_at now i).

Inductive steps : Inner -> list op -> Inner -> Prop :=
| steps_nil i : steps i [] i
| steps_cons i o j ops k : step i o j -> steps j ops k -> steps i (o :: ops) k.

Definition reachable (i : Inner) : Prop := exists t0 ops, steps (new t0) ops i.

(** What startup validation guarantees of the thresholds. *)
Record valid_config : Prop := {
  vc_failures : 1 <= cb_failures cfg <= u32_max;
  vc_successes : 1 <= cb_successes_to_close cfg <= u32_max;
  vc_trials : 1 <= cb_max_trials cfg <= u32_max;
}.

(** The invariant: counters are [u32]s; while closed the run of failures is
    short of the threshold; while half-open the trials out are at most
    [max_trials] and the successes short of closing. *)
Record breaker_inv (i : Inner) : Prop := {
  inv_failures : 0 <= failures i <= u32_max;
  inv_closed : state i = Closed -> failures i < cb_failures cfg;
  inv_trials : state i = HalfOpen -> 0 <= trials_in_flight i <= cb_max_trials cfg;
  inv_successes : state i = HalfOpen -> 0 <= trial_successes i < cb_successes_to_close cfg;
}.

Lemma breaker_inv_step i o i' :
  valid_config -> breaker_inv i -> step i o i' -> breaker_inv i'.
Proof.
  intros [Hf Hs Ht] [If Ic It Is] Hstep.
  destruct Hstep as [now i b i' Hallow|i|i|now i]; destruct i as [[] f w oa ts tf];
    unfold allow_at, cancel, record_success_at, record_failure_at,
      saturating_duration_since, sat_add, sat_sub in *; simpl in *;
    repeat match goal with H : ?x = ?x -> _ |- _ => specialize (H eq_refl) end;
    repeat case_match; simplify_eq/=; breflect; split; simpl; intros; try done; lia.
Qed.

Lemma breaker_inv_steps i ops j :
  valid_config -> breaker_inv i -> steps i ops j -> breaker_inv j.
Proof. intros Hv Hi. induction 1; eauto using breaker_inv_step. Qed.

Lemma breaker_inv_reachable i : valid_config -> reachable i -> breaker_inv i.
Proof.
  intros Hv (t0 & ops & H). eapply breaker_inv_steps; [done| |exact H].
  destruct Hv. split; simpl; intros; try done; unfold u32_max in *; lia.
Qed.

(** [n] failures in a row, nothing else in between. *)
Fixpoint fail_at (times : list Z) (i : Inner) : Inner :=
  match times with
  | [] => i
  | t :: ts => fail_at ts (record_failure_at t i)
  end.

Lemma fail_at_open times i : state i = Open -> fail_at times i = i.
Proof.
  intros Ho. induction times as [|t ts IH]; [done|]. simpl.
  unfold record_failure_at. by rewrite Ho.
Qed.

(** A request at each of the times, one after the other: its admission is
    asked for, and where it is let through it is reported successful. *)
Fixpoint recover (times : list Z) (i : Inner) : list bool * Inner :=
  match times with
  | [] => ([], i)
  | t :: ts =>
      let (b, j) := allow_at t i in
      let (bs, k) := recover ts (if b then record_success_at j else j) in
      (b :: bs, k)
  end.

(** Half open and with nobody out, every trial in a row is admitted, and the
    last of those that are missing closes the circuit. *)
Lemma recover_half_open ts j :
  1 <= cb_max_trials cfg -> cb_successes_to_close cfg <= u32_max ->
  state j = HalfOpen -> trials_in_flight j = 0 -> 0 <= trial_successes j < cb_successes_to_close cfg ->
  trial_successes j + Z.of_nat (length ts) <= cb_successes_to_close cfg ->
  let (bs, k) := recover ts j in
  Forall (fun b => b = true) bs /\
  state k = if decide (trial_successes j + Z.of_nat (length ts) = cb_successes_to_close cfg) then Closed else HalfOpen.
Proof.
  intros Hm Hu. revert j. induction ts as [|u ts IH]; intros j Hj Hfl Hs Hn; cbn [recover length] in *.
  - split; [constructor|]. by rewrite decide_False by lia.
  - unfold allow_at. rewrite Hj, Hfl. rewrite (proj2 (Z.leb_gt (cb_max_trials cfg) 0)) by lia.
    unfold record_success_at, sat_add, sat_sub. cbn [state trial_successes trials_in_flight].
    rewrite (Z.min_r u32_max) by lia.
    destruct (Z.leb_spec (cb_successes_to_close cfg) (trial_successes j + 1)).
    + destruct ts; [|simpl in *; lia]. simpl. split; [by constructor|]. by rewrite decide_True by lia.
    + match goal with |- context [recover ts ?j] => specialize (IH j) end.
      destruct (recover ts _) as [bs k]. destruct IH as [H1 H2]; simpl; try lia; [done|].
      split; [by constructor|]. rewrite H2. simpl. f_equal. apply decide_ext. lia.
Qed.

(** Requests let out minus outcomes reported, over a list of operations. *)
Definition admitted (o : op) : Z := match o with OpAllow _ true => 1 | _ => 0 end.
Definition reported (o : op) : Z := match o with OpAllow _ _ => 0 | _ => 1 end.
Fixpoint outstanding (n : Z) (ops : list op) : Z :=
  match ops with
  | [] => n
  | o :: rest => outstanding (n + admitted o - reported o) rest
  end.
(** Every outcome reported in the list belongs to a request the list, or the
    [n] before it, let out. *)
Fixpoint well_reported (n : Z) (ops : list op) : Prop :=
  match ops with
  | [] => True
  | o :: rest => 0 <= n + admitted o - reported o /\ well_reported (n + admitted o - reported o) rest
  end.

(** Every state the operations pass through is half-open. *)
Inductive half_open_run : Inner -> list op -> Inner -> Prop :=
| run_nil i : state i = HalfOpen -> half_open_run i [] i
| run_cons i o j ops k :
    state i = HalfOpen -> step i o j -> half_open_run j ops k -> half_open_run i (o :: ops) k.

Lemma half_open_step_outstanding i o j :
  valid_config -> breaker_inv i -> state i = HalfOpen -> state j = HalfOpen -> step i o j ->
  0 <= trials_in_flight i + admitted o - reported o ->
  trials_in_flight j = trials_in_flight i + admitted o - reported o.
Proof.
  intros [_ _ Ht] [_ _ It _] Hi Hj Hstep.
  destruct Hstep as [now i b i' Hallow|i|i|now i]; destruct i as [[] f w oa ts tf];
    unfold allow_at, cancel, record_success_at, record_failure_at, sat_add, sat_sub in *;
    simpl in *; repeat case_match; simplify_eq/=; breflect; specialize (It eq_refl); lia.
Qed.

Lemma half_open_run_outstanding i ops k :
  valid_config -> breaker_inv i -> half_open_run i ops k ->
  well_reported (trials_in_flight i) ops ->
  trials_in_flight k = outstanding (trials_in_flight i) ops /\ breaker_inv k.
Proof.
  intros Hv Hi Hrun. induction Hrun as [i|i o j ops k Hst Hstep Hrun IH]; [done|].
  intros [Hn Hw]. simpl.
  assert (state j = HalfOpen) as Hj by by inversion Hrun.
  rewrite <-(half_open_step_outstanding i o j) in Hw |- * by done.
  apply IH; [by eapply breaker_inv_step|done].
Qed.
End Breaker.

Arguments reachable cfg i : clear implicits.

(** ** Theorems *)

(** Every reachable state of a breaker with validated thresholds satisfies
    the invariant: its counters stay in range, a closed circuit is short of the
    failure threshold, and a half-open one never counts more trials than
    [max_trials] nor reaches [successes_to_close] without closing. *)
Lemma breaker_invariant cfg i (Hv : valid_config cfg) (Hr : reachable cfg i) :
  breaker_inv cfg i.
Proof. by apply breaker_inv_reachable. Qed.

(** An open circuit sheds all load for the whole cooldown: whatever
    operations arrive before it has elapsed, in whatever order, every request
    is refused and the state does not change. *)
Lemma open_sheds_load cfg i ops j
    (Hopen : state i = Open)
    (Hearly : Forall (fun o => match o with
                               | OpAllow now _ => now < opened_at i + cb_cooldown cfg
                               | _ => True end) ops)
    (Hcool : 0 < cb_cooldown cfg)
    (Hrun : steps cfg i ops j) :
  j = i /\ Forall (fun o => match o with OpAllow _ b => b = false | _ => True end) ops.
Proof.
  induction Hrun as [i|i o j ops k Hstep Hrun IH]; [by split; [|constructor]|].
  apply Forall_cons_iff in Hearly as [Ho Hearly].
  assert (j = i /\ match o with OpAllow _ b => b = false | _ => True end) as [-> Hb].
  { destruct Hstep as [now i b i' Ha|i|i|now i];
      unfold allow_at, cancel, record_success_at, record_failure_at in *; rewrite Hopen in *;
      try done.
    unfold saturating_duration_since, sat_sub in Ha.
    rewrite (proj2 (Z.ltb_lt (Z.max 0 (now - opened_at i)) (cb_cooldown cfg))) in Ha by lia. by injection Ha as <- <-. }
  destruct (IH Hopen Hearly) as [-> Hall]. split; [done|by constructor].
Qed.

(** A closed circuit opens after exactly the configured run of failures:
    with every failure inside the window that counts the run, it is open when
    the run reaches [failures] and still closed before. *)
Lemma failures_open_the_circuit cfg i times
    (Hv : valid_config cfg) (Hi : breaker_inv cfg i) (Hclosed : state i = Closed)
    (Hwin : Forall (fun t => t - window_started i <= cb_window cfg) times)
    (Hpos : 0 <= cb_window cfg) :
  state (fail_at cfg times i) =
    if decide (cb_failures cfg <= failures i + Z.of_nat (length times)) then Open else Closed.
Proof.
  revert i Hi Hclosed Hwin. induction times as [|t times IH]; intros i Hi Hclosed Hwin; simpl.
  - destruct Hi. rewrite decide_False by (specialize (inv_closed0 Hclosed); lia). done.
  - apply Forall_cons_iff in Hwin as [Ht Hwin].
    pose proof (breaker_inv_step cfg _ _ _ Hv Hi (step_failure cfg t i)) as Hi'.
    destruct Hi as [Hf Hc _ _]. destruct Hv as [Hvf _ _]. specialize (Hc Hclosed).
    revert Hi'. unfold record_failure_at, saturating_duration_since, sat_sub, sat_add.
    rewrite Hclosed. rewrite (proj2 (Z.ltb_ge (cb_window cfg) (Z.max 0 (t - window_started i)))) by lia. rewrite Z.min_r by lia.
    destruct (Z.leb_spec (cb_failures cfg) (failures i + 1)) as [Hle|Hgt]; intros Hi'.
    + rewrite fail_at_open by done. simpl. by rewrite decide_True by lia.
    + rewrite IH; [|done|done|done]. simpl.
      destruct (decide (cb_failures cfg <= failures i + 1 + Z.of_nat (length times)));
        [rewrite decide_True by lia|rewrite decide_False by lia]; done.
Qed.

(** C33: recovery: once the cooldown of an open circuit has elapsed, requests
    that come one after the other and succeed are each admitted as a trial, and
    [successes_to_close] of them close the circuit, not one fewer: each gives
    the slot it took back, so that one trial at a time is enough to recover. *)
Theorem trials_close_the_circuit cfg i t times
    (Hv : valid_config cfg) (Hopen : state i = Open)
    (Hcool : cb_cooldown cfg <= t - opened_at i)
    (Hlen : Z.of_nat (length (t :: times)) <= cb_successes_to_close cfg) :
  let (admissions, j) := recover cfg (t :: times) i in
  Forall (fun b => b = true) admissions /\
  state j = if decide (Z.of_nat (length (t :: times)) = cb_successes_to_close cfg) then Closed else HalfOpen.
Proof.
  destruct Hv as [_ [Hs1 Hs2] [Ht1 Ht2]]. simpl length in *. cbn [recover].
  unfold allow_at, saturating_duration_since, sat_sub. rewrite Hopen.
  rewrite (proj2 (Z.ltb_ge (Z.max 0 (t - opened_at i)) (cb_cooldown cfg))) by lia.
  unfold record_success_at, sat_add, sat_sub. cbn [state trial_successes trials_in_flight].
  rewrite (Z.min_r u32_max) by lia.
  destruct (Z.leb_spec (cb_successes_to_close cfg) (0 + 1)).
  - destruct times; simpl in *; [|lia]. split; [by constructor|]. by rewrite decide_True by lia.
  - match goal with |- context [recover cfg times ?j] => pose proof (recover_half_open cfg times j) as Hr end.
    destruct (recover cfg times _) as [bs k]. destruct Hr as [H1 H2]; simpl; try lia; [done|].
    split; [by constructor|]. rewrite H2. simpl. f_equal. apply decide_ext. lia.
Qed.

(** Trial accounting: while the circuit stays half-open and every reported
    outcome is that of a trial, the trials out are exactly the admissions minus
    the reports, so never more than [max_trials] of them. *)
Lemma half_open_trials_bounded cfg i ops j
    (Hv : valid_config cfg) (Hr : reachable cfg i) (Hrun : half_open_run cfg i ops j)
    (Hw : well_reported (trials_in_flight i) ops) :
  outstanding (trials_in_flight i) ops = trials_in_flight j /\
  outstanding (trials_in_flight i) ops <= cb_max_trials cfg.
Proof.
  pose proof (breaker_inv_reachable cfg i Hv Hr) as Hi.
  destruct (half_open_run_outstanding cfg i ops j Hv Hi Hrun Hw) as [<- [_ _ It _]].
  split; [done|]. apply It. clear -Hrun. by induction Hrun.
Qed.

(** A trial that is never reported keeps its place: once such trials are as many
    as may be out, every later request is refused, however long after. *)
Lemma unreported_trials_shed_for_ever cfg i ops j
    (Hhalf : state i = HalfOpen) (Hfull : cb_max_trials cfg <= trials_in_flight i)
    (Hasked : Forall (fun o => match o with OpAllow _ _ => True | _ => False end) ops)
    (Hrun : steps cfg i ops j) :
  j = i /\ Forall (fun o => match o with OpAllow _ b => b = false | _ => True end) ops.
Proof.
  induction Hrun as [i|i o j ops k Hstep Hrun IH]; [by split; [|constructor]|].
  apply Forall_cons_iff in Hasked as [Ho Hasked]. destruct Hstep as [now i b i' Ha| | | ]; try done.
  unfold allow_at in Ha. rewrite Hhalf, (proj2 (Z.leb_le _ _) Hfull) in Ha. injection Ha as <- <-.
  destruct IH as [-> Hall]; try done. split; [done|by constructor].
Qed.

(** ** Witnesses *)

Definition sample_config : CircuitBreakerConfig :=
  {| cb_failures := 2; cb_window := from_secs 30; cb_cooldown := from_secs 10;
     cb_successes_to_close := 2; cb_max_trials := 1 |}.

Lemma sample_valid : valid_config sample_config.
Proof. split; vm_compute; split; discriminate. Qed.

Definition sample_open : Inner := fail_at sample_config [1; 2] (new 0).

Lemma sample_open_reachable : reachable sample_config sample_open.
Proof.
  exists 0, [OpFailure 1; OpFailure 2].
  eapply steps_cons; [apply step_failure|]. eapply steps_cons; [apply step_failure|]. apply steps_nil.
Qed.

Definition sample_half_open : Inner := snd (allow_at sample_config (from_secs 11) sample_open).

Lemma sample_half_open_reachable : reachable sample_config sample_half_open.
Proof.
  exists 0, [OpFailure 1; OpFailure 2; OpAllow (from_secs 11) true].
  eapply steps_cons; [apply step_failure|]. eapply steps_cons; [apply step_failure|].
  eapply steps_cons; [by apply step_allow|apply steps_nil].
Qed.

(** Requests admitted while the circuit was closed and answered after it opened
    count as its trials: once it is half open, two late successes close it while
    the one trial it let out has not reported, and let a second trial out. *)
Lemma late_outcomes_count_as_trials :
  let one := record_success_at sample_config sample_half_open in
  allow_at sample_config (from_secs 11) sample_half_open = (false, sample_half_open) /\
  fst (allow_at sample_config (from_secs 11) one) = true /\
  state (record_success_at sample_config one) = Closed.
Proof. split_and!; vm_compute; reflexivity. Qed.

Lemma breaker_invariant_witness : breaker_inv sample_config sample_open.
Proof. apply breaker_invariant; [exact sample_valid|exact sample_open_reachable]. Defined.

Lemma trials_close_the_circuit_witness :
  let (admissions, j) := recover sample_config [from_secs 11; from_secs 12] sample_open in
  Forall (fun b => b = true) admissions /\ state j = Closed.
Proof.
  apply (trials_close_the_circuit sample_config sample_open (from_secs 11) [from_secs 12]).
  - exact sample_valid.
  - reflexivity.
  - vm_compute. discriminate.
  - vm_compute. discriminate.
Defined.
