(* ===== verification/Json.v ===== *)
(** * JSON values

    The data type of [serde_json::Value] as the gateway matches on it.  The
    crate's [Number] is a parameter: a type with [From<u64>] and the two readings
    the gateway uses, its rendering and [as_u64]. *)

From S2P Require Export Str.

Class JsonNumber (N : Type) := {
  num_to_string : N -> str;
  num_as_u64 : N -> option Z;
  num_of_u64 : Z -> N;
}.

Inductive value (N : Type) : Type :=
| Null
| Bool (b : bool)
| Number (n : N)
| VString (s : str)
| Array (l : list (value N))
| Object (m : list (str * value N)).
Arguments Null {N}.
Arguments Bool {N} _.
Arguments Number {N} _.
Arguments VString {N} & _.
Arguments Array {N} _.
Arguments Object {N} & _.

(** [Map::get]: the keys of a [Map] are distinct. *)
Fixpoint map_get {A} (k : str) (m : list (str * A)) : option A :=
  match m with
  | [] => None
  | (k', v) :: m' => if k' ==? k then Some v else map_get k m'
  end.

Definition as_value_str {N} (v : value N) : option str :=
  match v with VString s => Some s | _ => None end.
Definition as_object {N} (v : value N) : option (list (str * value N)) :=
  match v with Object m => Some m | _ => None end.
Definition as_u64 {N} `{JsonNumber N} (v : value N) : option Z :=
  match v with Number n => num_as_u64 n | _ => None end.

(** Rendering of [bool]. *)
Definition show_bool (b : bool) : str := if b then "true" else "false".

(** An instance for concrete inputs: the numbers that are integers. *)
#[export] Instance Z_number : JsonNumber Z := {
  num_to_string n := if n <? 0 then 45 :: show_u64 (- n) else show_u64 n;
  num_as_u64 n := if n <? 0 then None else Some n;
  num_of_u64 n := n;
}.

Lemma map_get_elem {A} k (m : list (str * A)) v : map_get k m = Some v -> (k, v) ∈ m.
Proof.
  induction m as [|[k' v'] m IH]; [done|]. simpl.
  case_bool_decide; [intros [= ->]; subst; by left|]. intros H'. right. by apply IH.
Qed.
