(* ===== verification/Auth.v ===== *)
(** * The caller's credentials and identity (auth/mod.rs)

    Extraction of a token from the [Authorization] header or from cookies,
    removal of credential cookies before the request goes upstream, and the
    [Identity] whose claims the rest of the gateway reads. *)

From S2P Require Export Json.

Section Identity.
Context {N : Type}.

Record Identity := {
  subject : str;
  issuer : str;
  audience : str;
  claims : list (str * value N);
}.

Fixpoint to_snake_case (name : str) : str :=
  match name with
  | [] => []
  | c :: rest =>
      if is_ascii_upper c then 95 :: lower_byte c :: to_snake_case rest
      else c :: to_snake_case rest
  end.

(** A claim under its own spelling, or under the snake_case one. *)
Definition get_either (m : list (str * value N)) (k : str) : option (value N) :=
  match map_get k m with
  | Some v => Some v
  | None => map_get (to_snake_case k) m
  end.

Fixpoint descend (current : value N) (segments : list str) : option (value N) :=
  match segments with
  | [] => Some current
  | s :: rest =>
      letO object := as_object current in
      letO next := get_either object s in
      descend next rest
  end.

Definition claim_at (id : Identity) (path : str) : option (value N) :=
  match split_on b_dot path with
  | [] => None
  | first :: rest => letO current := get_either (claims id) first in descend current rest
  end.

Definition claim_str (id : Identity) (name : str) : option str :=
  match (letO v := map_get name (claims id) in as_value_str v) with
  | Some v => Some v
  | None => letO v := map_get (to_snake_case name) (claims id) in as_value_str v
  end.

Definition claim_raw (id : Identity) (name : str) : option (value N) :=
  match map_get name (claims id) with
  | Some v => Some v
  | None => map_get (to_snake_case name) (claims id)
  end.
End Identity.
Arguments Identity N : clear implicits.

(** ** Errors *)

Inductive AuthError :=
| Invalid (detail : str)
| UnknownIssuer (iss : str)
| Unavailable (detail : str).
#[export] Instance AuthError_eq_dec : EqDecision AuthError.
Proof. solve_decision. Defined.

Section UnverifiedIssuer.
Context {N : Type}.
(** [base64::URL_SAFE_NO_PAD.decode] and [serde_json::from_slice]. *)
Context (b64url_decode : str -> option (list Z)) (json_from_slice : list Z -> option (value N)).

Definition unverified_issuer (token : str) : result str AuthError :=
  let? payload := ok_or (split_on b_dot token !! 1%nat) (Invalid "token is not a JWT") in
  let? bytes := ok_or (b64url_decode payload) (Invalid "token payload is not base64url") in
  let? v := ok_or (json_from_slice bytes) (Invalid "token payload is not JSON") in
  ok_or (letO m := as_object v in letO iss := map_get "iss" m in as_value_str iss)
        (Invalid "token has no `iss` claim").
End UnverifiedIssuer.

(** ** Quoting what a token says *)

Definition UNTRUSTED_QUOTE_CHARS : nat := 64.

(** [escape_debug] is [char::escape_debug], with the standard library's table of
    printable characters. *)
Definition untrusted (escape_debug : Z -> str) (v : str) : str :=
  flat_map escape_debug (take UNTRUSTED_QUOTE_CHARS (chars v))
  ++ (match chars v !! UNTRUSTED_QUOTE_CHARS with Some _ => "..." | None => [] end).

(** ** The [Authorization] header *)

(** [str::split_once(char::is_whitespace)]. *)
Fixpoint split_once_ws (s : str) : option (str * str) :=
  let next b0 r0 := match split_once_ws r0 with
                    | Some (a, b) => Some (b0 :: a, b)
                    | None => None
                    end in
  match s with
  | [] => None
  | b0 :: r0 =>
      if ws1 b0 then Some ([], r0) else
      match r0 with
      | [] => None
      | b1 :: r1 =>
          if ws2 b0 b1 then Some ([], r1) else
          match r1 with
          | [] => next b0 r0
          | b2 :: r2 => if ws3 b0 b1 b2 then Some ([], r2) else next b0 r0
          end
      end
  end.

Definition bearer_token (value : str) : option str :=
  letO sr := split_once_ws (trim value) in
  let '(scheme, rest) := sr in
  if negb (eq_ignore_ascii_case scheme "bearer") then None
  else let rest := trim rest in
       if rest ==? [] then None else Some rest.

(** ** Cookies *)

Definition cookie_pair (pair : str) : option (str * str) :=
  (fun nv => (trim nv.1, trim nv.2)) <$> split_once 61 pair.

Definition cookie_pairs (headers : list str) : list (str * str) :=
  omap cookie_pair (concat (map (split_on 59) headers)).

(** The value of a cookie without its RFC 6265 double quotes. *)
Definition unquote (value : str) : str :=
  default value (letO v := strip_prefix [34] value in strip_suffix [34] v).

Definition find_cookie (pairs : list (str * str)) (wanted : str) : option str :=
  letO nv := List.find (fun nv => nv.1 ==? wanted) pairs in
  let value := unquote nv.2 in
  if value ==? [] then None else Some value.

(** [Iterator::find_map]. *)
Fixpoint find_map {A B} (f : A -> option B) (l : list A) : option B :=
  match l with
  | [] => None
  | x :: xs => match f x with Some y => Some y | None => find_map f xs end
  end.

Definition cookie_token (headers : list str) (names : list str) : option str :=
  find_map (find_cookie (cookie_pairs headers)) names.

(** The name a cookie goes by when it is stripped: what is before [=], or all
    of it. *)
Definition stripped_name (pair : str) : str :=
  match split_once 61 pair with Some (n, _) => trim n | None => pair end.

Definition kept_cookies (headers : list str) (names : list str) : list str :=
  List.filter (fun pair => negb (existsb (fun n => n ==? stripped_name pair) names))
    (List.filter (fun pair => negb (pair ==? []))
       (map trim (concat (map (split_on 59) headers)))).

Definition strip_cookies (headers : list str) (names : list str) : option str :=
  let kept := kept_cookies headers names in
  if kept ==? [] then None else Some (join "; " kept).

(** ** Lemmas *)

Definition name_of (piece : str) : option str := fst <$> cookie_pair piece.
Definition listed (names : list str) (n : str) : bool := existsb (fun m => m ==? n) names.

Lemma listed_spec names n : listed names n = true <-> n ∈ names.
Proof.
  unfold listed. rewrite existsb_In. split.
  - intros (m & Hm & ->%bool_decide_eq_true). done.
  - intros H. exists n. by rewrite bool_decide_eq_true.
Qed.

Lemma split_once_barrier c a b : c ∉ a -> split_once c (a ++ c :: b) = Some (a, b).
Proof. intros H. by apply split_once_Some. Qed.

Lemma split_once_None c s : split_once c s = None <-> c ∉ s.
Proof.
  split.
  - intros H Hin. apply list_elem_of_split_l in Hin as (a & b & -> & Ha).
    by rewrite split_once_barrier in H.
  - intros H. destruct (split_once c s) as [[a b]|] eqn:E; [|done].
    apply split_once_Some in E as [-> _]. rewrite elem_of_app, elem_of_cons in H. naive_solver.
Qed.

(** The name of a cookie does not depend on the whitespace around the pair. *)
Lemma name_of_trim s : name_of (trim s) = name_of s.
Proof.
  unfold name_of, cookie_pair. destruct (split_once 61 s) as [[n v]|] eqn:E.
  - apply split_once_Some in E as [-> Hn]. rewrite trim_barrier by done.
    rewrite split_once_barrier.
    + simpl. by rewrite trim_trim_start.
    + intros H. apply Hn. by apply elem_of_strip_ws in H.
  - apply split_once_None in E. rewrite (proj2 (split_once_None 61 (trim s))); [done|].
    intros H. by apply E, elem_of_trim.
Qed.

Lemma name_of_space s : name_of (32 :: s) = name_of s.
Proof. rewrite <-name_of_trim, <-(name_of_trim s). done. Qed.

Lemma name_of_stripped s n : name_of s = Some n -> trim s <> [] /\ stripped_name (trim s) = n.
Proof.
  rewrite <-name_of_trim. unfold name_of, cookie_pair, stripped_name.
  destruct (split_once 61 (trim s)) as [[m v]|] eqn:E; [|done].
  intros [= <-]. split; [|done]. intros Hnil. by rewrite Hnil in E.
Qed.

Lemma split_on_cons_ne c x s :
  x <> c ->
  split_on c (x :: s) = match split_on c s with w :: ws => (x :: w) :: ws | [] => [[x]] end.
Proof. intros H. simpl. by rewrite (proj2 (Z.eqb_neq x c) H). Qed.

Lemma split_join_spaced c p ps :
  Forall (fun w => c ∉ w) (p :: ps) -> c <> 32 ->
  split_on c (join [c; 32] (p :: ps)) = p :: map (cons 32) ps.
Proof.
  intros H Hc. revert p H. induction ps as [|q ps IH]; intros p [Hp Hps]%Forall_cons_iff.
  - simpl. by apply split_on_absent.
  - change (join [c; 32] (p :: q :: ps)) with (p ++ c :: (32 :: join [c; 32] (q :: ps))).
    rewrite split_on_app by done. f_equal.
    by rewrite split_on_cons_ne, (IH q Hps) by done.
Qed.

Lemma omap_name_of_kept pieces names :
  omap name_of
    (List.filter (fun pair => negb (listed names (stripped_name pair)))
       (List.filter (fun pair => negb (pair ==? [])) (map trim pieces)))
  = List.filter (fun n => negb (listed names n)) (omap name_of pieces).
Proof.
  induction pieces as [|s pieces IH]; [done|]. cbn [map omap list_omap].
  destruct (name_of s) as [n|] eqn:En.
  - destruct (name_of_stripped s n En) as [Hne Hn]. cbn [List.filter].
    rewrite bool_decide_false by done. cbn [negb List.filter]. rewrite Hn.
    destruct (listed names n); cbn [negb omap list_omap]; [done|].
    by rewrite name_of_trim, En, <-IH.
  - cbn [List.filter]. destruct (trim s ==? []); cbn [negb List.filter]; [done|].
    destruct (listed names (stripped_name (trim s))); cbn [negb omap list_omap]; [done|].
    by rewrite name_of_trim, En.
Qed.

Lemma kept_cookies_no_semicolon headers names :
  Forall (fun w => 59 ∉ w) (kept_cookies headers names).
Proof.
  apply Forall_elem. intros w Hw. unfold kept_cookies in Hw.
  apply list_elem_of_In, filter_In in Hw as [[Hw _]%filter_In _].
  apply in_map_iff in Hw as (s & <- & Hs). apply in_concat in Hs as (l & Hl & Hs).
  apply in_map_iff in Hl as (h & <- & _).
  pose proof (split_on_clean 59 h) as Hc. rewrite List.Forall_forall in Hc.
  intros Hx%elem_of_trim. by apply (Hc s Hs).
Qed.

Lemma map_fst_cookie_pairs headers :
  map fst (cookie_pairs headers) = omap name_of (concat (map (split_on 59) headers)).
Proof.
  unfold cookie_pairs. induction (concat (map (split_on 59) headers)) as [|s l IH]; [done|].
  cbn [omap list_omap]. unfold name_of at 1.
  destruct (cookie_pair s); cbn [fmap option_fmap option_map map]; by rewrite IH.
Qed.

Lemma find_cookie_absent pairs n : n ∉ map fst pairs -> find_cookie pairs n = None.
Proof.
  intros H. unfold find_cookie. destruct (List.find _ pairs) as [[m v]|] eqn:E; [|done].
  exfalso. apply find_some in E as [Hin Heq]. simpl in Heq. breflect. subst m.
  apply H. apply list_elem_of_In, in_map_iff. by exists (n, v).
Qed.

Lemma find_map_None {A B} (f : A -> option B) l :
  (forall x, x ∈ l -> f x = None) -> find_map f l = None.
Proof.
  induction l as [|x l IH]; [done|]. intros H. simpl.
  rewrite H by by left. apply IH. intros y Hy. apply H. by right.
Qed.

(** The cookie names a server would read from what [strip_cookies] leaves. *)
Lemma strip_cookies_names headers names v :
  strip_cookies headers names = Some v ->
  map fst (cookie_pairs [v]) =
    List.filter (fun n => negb (listed names n)) (map fst (cookie_pairs headers)).
Proof.
  unfold strip_cookies. case_bool_decide as Hk; [done|]. intros [= <-].
  rewrite !map_fst_cookie_pairs. simpl. rewrite app_nil_r.
  pose proof (kept_cookies_no_semicolon headers names) as Hc.
  rewrite <-omap_name_of_kept.
  fold (kept_cookies headers names).
  destruct (kept_cookies headers names) as [|p ps] eqn:E; [done|].
  rewrite split_join_spaced by done.
  unfold kept_cookies in E. unfold listed. rewrite E. cbn [omap list_omap].
  assert (omap name_of (map (cons 32) ps) = omap name_of ps) as ->; [|done].
  clear. induction ps as [|q ps IH]; [done|].
  cbn [map omap list_omap]. by rewrite name_of_space, IH.
Qed.

(** ** Theorems *)

(** Stripping credential cookies removes exactly them: the names a server
    reads from the forwarded header are those of the request that are not
    listed, in order, and no listed name yields a token any more. *)
Lemma strip_cookies_exact headers names v (H : strip_cookies headers names = Some v) :
  map fst (cookie_pairs [v]) =
    List.filter (fun n => negb (existsb (fun m => m ==? n) names)) (map fst (cookie_pairs headers)) /\
  cookie_token [v] names = None.
Proof.
  pose proof (strip_cookies_names _ _ _ H) as Hn. split; [done|].
  apply find_map_None. intros w Hw. apply find_cookie_absent. rewrite Hn.
  intros [_ Hx]%list_elem_of_In%filter_In. apply negb_true_iff in Hx.
  rewrite (proj2 (listed_spec names w) Hw) in Hx. done.
Qed.

