(* ===== verification/Ip.v ===== *)
(** * Textual addresses

    [str::parse] for [IpAddr] and [SocketAddr] of the standard library and the
    [Display] of [IpAddr], as the gateway uses them.  They follow the parser of
    [core::net::parser]: dotted quads without leading zeros, and colon groups
    of hex digits with at most one [::] and an optional trailing quad. *)

From S2P Require Export Str.

(** A V6 address is its eight 16-bit segments. *)
Inductive IpAddr := V4 (a b c d : Z) | V6 (segments : list Z).
#[export] Instance IpAddr_eq_dec : EqDecision IpAddr.
Proof. solve_decision. Defined.

(** ** Reading *)

Definition digit_value (radix c : Z) : option Z :=
  let v := if is_ascii_digit c then c - 48
           else if in_range 97 122 c then c - 87
           else if in_range 65 90 c then c - 55 else 36 in
  if v <? radix then Some v else None.

(** The digits at the front of a string, and what follows them. *)
Fixpoint read_digits (radix : Z) (s : str) : list Z * str :=
  match s with
  | [] => ([], [])
  | c :: r => match digit_value radix c with
              | Some d => let '(ds, r') := read_digits radix r in (d :: ds, r')
              | None => ([], s)
              end
  end.

Definition read_number (radix : Z) (max_digits : option nat) (allow_zero_prefix : bool) (bound : Z)
    (s : str) : option (Z * str) :=
  let '(ds, r) := read_digits radix s in
  let n := fold_left (fun acc d => acc * radix + d) ds 0 in
  if (ds ==? []) || (match max_digits with Some m => (m <? length ds)%nat | None => false end)
     || (bound <? n) then None
  else if negb allow_zero_prefix && (head ds ==? Some 0) && (1 <? length ds)%nat then None
  else Some (n, r).

Definition read_char (c : Z) (s : str) : option str :=
  match s with x :: r => if x =? c then Some r else None | [] => None end.

(** [read_separator]: a separator first, except before item zero. *)
Definition read_separator {A} (sep : Z) (index : nat) (inner : str -> option (A * str)) (s : str)
  : option (A * str) :=
  if (index =? 0)%nat then inner s else letO r := read_char sep s in inner r.

Definition read_octet : str -> option (Z * str) := read_number 10 (Some 3%nat) false 255.

Definition read_ipv4 (s : str) : option (Z * Z * Z * Z * str) :=
  letO ar := read_separator 46 0 read_octet s in let '(a, r) := ar in
  letO br := read_separator 46 1 read_octet r in let '(b, r) := br in
  letO cr := read_separator 46 2 read_octet r in let '(c, r) := cr in
  letO dr := read_separator 46 3 read_octet r in let '(d, r) := dr in
  Some (a, b, c, d, r).

(** [read_groups]: the 16-bit groups read, whether they end in a dotted quad,
    and what follows. *)
Fixpoint read_groups (fuel i limit : nat) (s : str) : list Z * bool * str :=
  match fuel with
  | O => ([], false, s)
  | S f =>
      match (if (i <? limit - 1)%nat
             then read_separator 58 i (fun s => letO q := read_ipv4 s in
                                                let '(a, b, c, d, r) := q in
                                                Some ([a * 256 + b; c * 256 + d], r)) s
             else None) with
      | Some (two, r) => (two, true, r)
      | None =>
          match read_separator 58 i (read_number 16 (Some 4%nat) true 65535) s with
          | Some (g, r) => let '(gs, quad, r) := read_groups f (S i) limit r in (g :: gs, quad, r)
          | None => ([], false, s)
          end
      end
  end.

Definition read_ipv6 (s : str) : option (list Z * str) :=
  let '(hd, head_ipv4, r) := read_groups 8 0 8 s in
  if (length hd =? 8)%nat then Some (hd, r)
  else if head_ipv4 then None
  else letO r := read_char 58 r in
       letO r := read_char 58 r in
       let limit := (8 - (length hd + 1))%nat in
       let '(tl, _, r) := read_groups limit 0 limit r in
       Some (hd ++ repeat 0 (8 - length hd - length tl) ++ tl, r).

Definition read_ip_addr (s : str) : option (IpAddr * str) :=
  match read_ipv4 s with
  | Some (a, b, c, d, r) => Some (V4 a b c d, r)
  | None => letO gr := read_ipv6 s in Some (V6 gr.1, gr.2)
  end.

Definition at_eof {A} (o : option (A * str)) : option A :=
  letO ar := o in if ar.2 ==? [] then Some ar.1 else None.

(** [s.parse::<IpAddr>()]: nothing may be left over. *)
Definition parse_ip_addr (s : str) : option IpAddr := at_eof (read_ip_addr s).
Definition is_ip_addr (s : str) : bool :=
  match parse_ip_addr s with Some _ => true | None => false end.

Definition read_port (s : str) : option (Z * str) :=
  letO r := read_char 58 s in read_number 10 None true 65535 r.

(** The address of a textual [SocketAddr], and its port. *)
Definition read_socket_addr_v4 (s : str) : option (IpAddr * Z * str) :=
  letO q := read_ipv4 s in
  let '(a, b, c, d, r) := q in
  letO pr := read_port r in
  Some (V4 a b c d, pr.1, pr.2).

Definition read_scope_id (s : str) : option (Z * str) :=
  letO r := read_char 37 s in read_number 10 None true u32_max r.

Definition read_socket_addr_v6 (s : str) : option (IpAddr * Z * str) :=
  letO r := read_char 91 s in
  letO gr := read_ipv6 r in
  let r := match read_scope_id gr.2 with Some (_, r) => r | None => gr.2 end in
  letO r := read_char 93 r in
  letO pr := read_port r in
  Some (V6 gr.1, pr.1, pr.2).

Definition parse_socket_addr (s : str) : option (IpAddr * Z) :=
  at_eof (match read_socket_addr_v4 s with Some x => Some x | None => read_socket_addr_v6 s end).

(** ** Writing *)

(** [{n:x}] of a segment. *)
Definition hex_char (d : Z) : Z := if d <? 10 then 48 + d else 87 + d.
Fixpoint hex_rev (fuel : nat) (n : Z) : str :=
  match fuel with
  | O => []
  | S f => hex_char (n mod 16) :: if n <? 16 then [] else hex_rev f (n / 16)
  end.
Definition show_hex16 (n : Z) : str := reverse (hex_rev 4 n).

(** The first longest run of zero segments: where it starts, how long it is. *)
Fixpoint zero_span (i start len best_start best_len : nat) (segs : list Z) : nat * nat :=
  match segs with
  | [] => (best_start, best_len)
  | s :: rest =>
      if s =? 0 then
        let start := if (len =? 0)%nat then i else start in
        let len := S len in
        if (best_len <? len)%nat then zero_span (S i) start len start len rest
        else zero_span (S i) start len best_start best_len rest
      else zero_span (S i) 0 0 best_start best_len rest
  end.

Definition show_subslice (chunk : list Z) : str := join [58] (map show_hex16 chunk).

Definition show_ipv4 (a b c d : Z) : str := join [46] (map show_u64 [a; b; c; d]).

Definition show_ip_addr (ip : IpAddr) : str :=
  match ip with
  | V4 a b c d => show_ipv4 a b c d
  | V6 segs =>
      match segs with
      | [0; 0; 0; 0; 0; 65535; g; h] => "::ffff:" ++ show_ipv4 (g / 256) (g mod 256) (h / 256) (h mod 256)
      | _ =>
          let '(start, len) := zero_span 0 0 0 0 0 segs in
          if (1 <? len)%nat
          then show_subslice (take start segs) ++ "::" ++ show_subslice (drop (start + len) segs)
          else show_subslice segs
      end
  end.

Example ip_cases :
  map is_ip_addr
    ["10.0.0.1"; "256.1.1.1"; "01.2.3.4"; "1.2.3"; "::1"; "2001:db8::ff00:42:8329";
     "1:2:3:4:5:6:7:8"; "1:2:3:4:5:6:7:8:9"; "::ffff:1.2.3.4"; "1::2::3"; "unknown"; ""; "::";
     "10.0.0.1 "; "12345::"]
  = [true; false; false; false; true; true; true; false; true; false; false; false; true; false;
     false].
Proof. reflexivity. Qed.

Example show_ip_cases :
  map (fun s => show_ip_addr <$> parse_ip_addr s)
    ["10.0.0.1"; "2001:db8::1"; "1:0:0:2:0:0:0:3"; "::FFFF:1.2.3.4"; "::"; "1:0:2:3:4:5:6:7"]
  = [Some (str_of "10.0.0.1"); Some (str_of "2001:db8::1"); Some (str_of "1:0:0:2::3");
     Some (str_of "::ffff:1.2.3.4"); Some (str_of "::"); Some (str_of "1:0:2:3:4:5:6:7")].
Proof. reflexivity. Qed.
