(* ===== verification/Headers.v ===== *)
(** * Outbound headers and the client address (headers.rs)

    [HeaderPlan] is the list of header mutations decided before any is applied;
    [client_address] and [forwarded_for] resolve [X-Forwarded-For] against the
    number of trusted proxies.  A [HeaderMap] of the [http] crate is read
    through the values of each field, in order; [HeaderValue::to_str] is a
    parameter. *)

From S2P Require Export Ip.

(** The field values of a request, by lower-case name. *)
Abbreviation header_map := (str -> list (list Z)).

Definition HOP_BY_HOP : list str :=
  ["connection"; "keep-alive"; "proxy-authenticate"; "proxy-authorization"; "te"; "trailer";
   "transfer-encoding"; "upgrade"].

(** ** The header plan *)

Record HeaderPlan := { hp_set : list (str * str); hp_remove : gset str }.

Definition plan_new : HeaderPlan := {| hp_set := []; hp_remove := ∅ |}.

Definition plan_set (name value : str) (p : HeaderPlan) : HeaderPlan :=
  let name := to_ascii_lowercase name in
  {| hp_set := List.filter (fun nv => negb (nv.1 ==? name)) (hp_set p) ++ [(name, value)];
     hp_remove := {[name]} ∪ hp_remove p |}.

Definition plan_strip (name : str) (p : HeaderPlan) : HeaderPlan :=
  {| hp_set := hp_set p; hp_remove := {[to_ascii_lowercase name]} ∪ hp_remove p |}.

Definition removals (p : HeaderPlan) : list str := elements (hp_remove p).
Definition additions (p : HeaderPlan) : list (str * str) := hp_set p.

(** ** Applying a plan (the end of upstream_request_filter, proxy.rs)

    [remove_header] drops every value of a field and [insert_header] replaces
    them by one; the fields of an outgoing request are by lower-case name. *)

Definition remove_header (name : str) (h : str -> list str) : str -> list str :=
  fun n => if n ==? name then [] else h n.
Definition insert_header (name value : str) (h : str -> list str) : str -> list str :=
  fun n => if n ==? name then [value] else h n.

Definition apply_plan (p : HeaderPlan) (h : str -> list str) : str -> list str :=
  fold_left (fun h nv => insert_header nv.1 nv.2 h) (additions p)
    (fold_left (fun h n => remove_header n h) (removals p) h).

(** ** The client address *)

Definition trusted_suffix (forwarded_for peer : option str) (trusted_proxies : nat) : list str :=
  match peer with
  | None => []
  | Some peer =>
      let entries := match forwarded_for with
                     | Some value => map trim (split_on 44 value)
                     | None => []
                     end in
      if (trusted_proxies =? 0)%nat || (length entries <? trusted_proxies)%nat then [peer]
      else
        let suffix := drop (length entries - trusted_proxies) entries in
        if negb (forallb is_ip_addr suffix) then [peer]
        else suffix ++ [peer]
  end.

Definition client_address (forwarded_for peer : option str) (trusted_proxies : nat) : option str :=
  head (trusted_suffix forwarded_for peer trusted_proxies).

(** The host of a socket peer: of an [address:port], or of a bare address. *)
Definition socket_peer_ip (peer : str) : option str :=
  match parse_socket_addr peer with
  | Some (ip, _) => Some (show_ip_addr ip)
  | None => show_ip_addr <$> parse_ip_addr peer
  end.

Example socket_peer_ip_cases :
  map socket_peer_ip ["10.1.2.3:443"; "[2001:db8::1]:8080"; "2001:db8::1"; "/run/sock"]
  = [Some (str_of "10.1.2.3"); Some (str_of "2001:db8::1"); Some (str_of "2001:db8::1"); None].
Proof. reflexivity. Qed.

Section HeaderValues.
Context (to_str : list Z -> option str).

Definition forwarded_for_chain (headers : header_map) : option str :=
  letO values := mapM to_str (headers "x-forwarded-for") in
  if values ==? [] then None else Some (join ", " values).

(** The [X-Forwarded-For] and [X-Real-IP] sent upstream. *)
Definition forwarded_for (client_headers : header_map) (peer : option str) (trusted_proxies : nat)
  : option str * option str :=
  let prior := if (0 <? trusted_proxies)%nat then forwarded_for_chain client_headers else None in
  let chain := trusted_suffix prior peer trusted_proxies in
  (if chain ==? [] then None else Some (join ", " chain), head chain).

Definition content_length_over_limit (headers : header_map) (max : Z) : bool :=
  match (letO v := head (headers "content-length") in to_str v) with
  | None => false
  | Some raw => match parse_u64 raw with Some n => max <? n | None => true end
  end.
End HeaderValues.

(** ** Bodies *)

Definition add_body_chunk (already chunk_len max : Z) : option Z :=
  let next := sat_add u64_max already chunk_len in
  if next <=? max then Some next else None.

Definition is_upload_content_type (content_type : option str) : bool :=
  let v := to_ascii_lowercase (default [] content_type) in
  contains_str "multipart/" v || contains_str "application/octet-stream" v
  || starts_with "image/" v || starts_with "application/pdf" v
  || starts_with "video/" v || starts_with "audio/" v.

(** The body filter over a whole body: the total, or [None] from the chunk that
    crosses the cap on. *)
Fixpoint body_total (already : Z) (chunks : list Z) (max : Z) : option Z :=
  match chunks with
  | [] => Some already
  | c :: cs => letO next := add_body_chunk already c max in body_total next cs max
  end.

(** ** Lemmas *)

(** What holds of every plan built by [plan_set] and [plan_strip]: one value
    per name, names in lower case, and every set name is also removed from the
    client's copy. *)
Record plan_ok (p : HeaderPlan) : Prop := {
  po_unique : NoDup (map fst (hp_set p));
  po_lower : forall n v, (n, v) ∈ hp_set p -> to_ascii_lowercase n = n;
  po_removed : forall n v, (n, v) ∈ hp_set p -> n ∈ hp_remove p;
}.

Lemma plan_ok_new : plan_ok plan_new.
Proof. split; simpl; [constructor|by intros ?? ?%elem_of_nil..]. Qed.

Lemma elem_of_plan_set name value p n v :
  (n, v) ∈ hp_set (plan_set name value p) <->
  ((n, v) ∈ hp_set p /\ n <> to_ascii_lowercase name) \/
  (n = to_ascii_lowercase name /\ v = value).
Proof.
  simpl. rewrite elem_of_app, list_elem_of_singleton, elem_of_lfilter. simpl.
  rewrite negb_true_iff, bool_decide_eq_false.
  split; [intros [?|[= -> ->]]; auto|intros [?|[-> ->]]; auto].
Qed.

Lemma map_fst_filter_names (l : list (str * str)) name :
  map fst (List.filter (fun nv => negb (nv.1 ==? name)) l) =
  List.filter (fun n => negb (n ==? name)) (map fst l).
Proof.
  induction l as [|[n v] l IH]; [done|]. simpl. destruct (negb _); simpl; by rewrite IH.
Qed.

Lemma plan_ok_set name value p : plan_ok p -> plan_ok (plan_set name value p).
Proof.
  intros [Hu Hl Hr]. split.
  - simpl. rewrite map_app, map_fst_filter_names. apply list.NoDup_app. split_and!.
    + apply NoDup_ListNoDup, List.NoDup_filter. by apply NoDup_ListNoDup.
    + intros n Hn. apply elem_of_lfilter in Hn as [_ Hn]. breflect.
      simpl. by rewrite list_elem_of_singleton.
    + apply NoDup_singleton.
  - intros n v [[H _]|[-> _]]%elem_of_plan_set; [by eapply Hl|apply to_ascii_lowercase_idem].
  - intros n v [[H _]|[-> _]]%elem_of_plan_set; simpl; [|set_solver].
    apply elem_of_union. right. by eapply Hr.
Qed.

Lemma plan_ok_strip name p : plan_ok p -> plan_ok (plan_strip name p).
Proof.
  intros [Hu Hl Hr]. split; [done|done|]. intros n v H. simpl. apply elem_of_union. right.
  by eapply Hr.
Qed.

#[export] Hint Resolve plan_ok_new plan_ok_set plan_ok_strip : lagos.

(** What the upstream gets under a name: the plan's value, nothing if the name
    is only removed, and otherwise what the request carried. *)
Lemma apply_plan_spec p h n :
  plan_ok p ->
  apply_plan p h n =
    match (list_to_map (hp_set p) : gmap str str) !! n with
    | Some v => [v]
    | None => if decide (n ∈ hp_remove p) then [] else h n
    end.
Proof.
  intros [Hu _ _]. unfold apply_plan, additions.
  assert (fold_left (fun h n => remove_header n h) (removals p) h n =
          if decide (n ∈ hp_remove p) then [] else h n) as Hr.
  { unfold removals. rewrite <- (decide_ext (n ∈ elements (hp_remove p)) (n ∈ hp_remove p))
      by apply elem_of_elements.
    generalize (elements (hp_remove p)). intros l. revert h.
    induction l as [|m l IH]; intros h; simpl; [done|].
    rewrite IH. unfold remove_header.
    destruct (decide (n ∈ l)) as [H1|H1], (decide (n ∈ m :: l)) as [H2|H2]; try case_bool_decide; set_solver. }
  rewrite <- Hr. generalize (fold_left (fun h n => remove_header n h) (removals p) h). clear Hr h. intros h.
  induction (hp_set p) as [|[m v] l IH] using rev_ind; [done|].
  rewrite map_app in Hu. apply list.NoDup_app in Hu as (Hu & Hdis & _).
  rewrite fold_left_app, list_to_map_app. simpl fold_left.
  change (insert_header m v ?k n) with (if n ==? m then [v] else k n). case_bool_decide as Hn.
  - subst m. rewrite lookup_union_r, list_to_map_cons, lookup_insert_eq; [done|].
    apply not_elem_of_list_to_map_1. intros Hin. by apply (Hdis n Hin), list_elem_of_singleton.
  - rewrite IH by done. rewrite lookup_union, list_to_map_cons, lookup_insert_ne, list_to_map_nil, lookup_empty by done.
    by destruct (list_to_map l !! n).
Qed.


Lemma sent_values p h n v : plan_ok p -> n ∈ hp_remove p -> v ∈ apply_plan p h n -> (n, v) ∈ hp_set p.
Proof.
  intros Hok Hn. rewrite apply_plan_spec by done. destruct (_ !! n) as [w|] eqn:E.
  - intros ->%list_elem_of_singleton. by apply elem_of_list_to_map_2 in E.
  - rewrite decide_True by done. by intros ?%elem_of_nil.
Qed.

(** ** Growing a plan *)

(** What a step does to a plan: names are only added to those removed, and the
    values that are new are of [names] and satisfy [from]. *)
Record grows (from : str -> str -> Prop) (names : list str) (p q : HeaderPlan) : Prop := {
  gr_ok : plan_ok p -> plan_ok q;
  gr_remove : hp_remove p ⊆ hp_remove q;
  gr_names : forall n, n ∈ names -> n ∈ hp_remove q;
  gr_set : forall n v, (n, v) ∈ hp_set q -> (n, v) ∈ hp_set p \/ from n v;
  gr_keep : forall n v, (n, v) ∈ hp_set p -> (forall w, ~ from n w) -> (n, v) ∈ hp_set q;
}.

Lemma grows_refl from p : grows from [] p p.
Proof. split; auto. by intros ? ?%elem_of_nil. Qed.

Lemma grows_trans from ns ms p q r : grows from ns p q -> grows from ms q r -> grows from (ns ++ ms) p r.
Proof.
  intros [H1 H2 H3 H4 H5] [G1 G2 G3 G4 G5]. split; [auto|set_solver|..].
  - intros n [Hn|Hn]%elem_of_app; [apply G2; auto|auto].
  - intros n v Hr. apply G4 in Hr as [Hq|?]; [apply H4 in Hq; tauto|auto].
  - intros n v Hp Hf. apply G5; auto.
Qed.

Lemma grows_set from p h v : from (to_ascii_lowercase h) v -> grows from [to_ascii_lowercase h] p (plan_set h v p).
Proof.
  intros Hf. split; [apply plan_ok_set|simpl; set_solver|simpl; set_solver|..]; intros n w; rewrite elem_of_plan_set.
  - intros [[H' _]|[-> ->]]; [by left|by right].
  - intros Hp Hn. left. split; [done|]. intros ->. by apply (Hn v).
Qed.

Lemma grows_strip from p h : grows from [to_ascii_lowercase h] p (plan_strip h p).
Proof. split; [apply plan_ok_strip|simpl; set_solver|simpl; set_solver|auto..]. Qed.

Lemma grows_less from ns ms p q : ms ⊆ ns -> grows from ns p q -> grows from ms p q.
Proof. intros Hs [H1 H2 H3 H4 H5]. split; auto. Qed.

Lemma grows_weaken (from from' : str -> str -> Prop) ns p q :
  (forall n v, from n v -> from' n v) -> grows from ns p q -> grows from' ns p q.
Proof.
  intros Hf [H1 H2 H3 H4 H5]. split; auto.
  - intros n v [?|?]%H4; auto.
  - intros n v Hp Hn. apply H5; [done|]. intros w Hw. by apply (Hn w), Hf.
Qed.

Lemma strip_list_grows from hs p : grows from (map to_ascii_lowercase hs) p (fold_left (fun p h => plan_strip h p) hs p).
Proof.
  revert p. induction hs as [|h hs IH]; intros p; simpl; [apply grows_refl|].
  apply (grows_trans from [to_ascii_lowercase h] _ p (plan_strip h p)); [apply grows_strip|apply IH].
Qed.

Lemma set_list_grows (from : str -> str -> Prop) l p :
  (forall m v, (m, v) ∈ l -> from (to_ascii_lowercase m) v) ->
  grows from (map (fun nv => to_ascii_lowercase nv.1) l) p (fold_left (fun p nv => plan_set nv.1 nv.2 p) l p).
Proof.
  revert p. induction l as [|[m v] l IH]; intros p Hf; simpl; [apply grows_refl|].
  apply (grows_trans from [to_ascii_lowercase m] _ p (plan_set m v p)).
  - apply grows_set, Hf. by left.
  - apply IH. intros m' v' H. apply Hf. by right.
Qed.

(** A conditional clearing of some names. *)
Lemma strip_some_grows from (b : str -> bool) hs p :
  grows from [] p (fold_left (fun p h => if b h then p else plan_strip h p) hs p).
Proof.
  revert p. induction hs as [|h hs IH]; intros p; simpl; [apply grows_refl|].
  apply (grows_trans from [] [] p (if b h then p else plan_strip h p)); [|apply IH].
  destruct (b h); [apply grows_refl|]. eapply grows_less; [|apply grows_strip]. set_solver.
Qed.

Lemma grows_option from (h v : option str) p :
  (forall n w, h = Some n -> v = Some w -> from (to_ascii_lowercase n) w) ->
  grows from [] p (match h, v with Some n, Some w => plan_set n w p | _, _ => p end).
Proof.
  intros Hf. destruct h, v; try apply grows_refl. eapply grows_less; [|apply grows_set; by apply Hf]. set_solver.
Qed.

(** ** Plans that say the same under a name *)

Record agree (n : str) (p q : HeaderPlan) : Prop := {
  ag_set : forall v, (n, v) ∈ hp_set p <-> (n, v) ∈ hp_set q;
  ag_remove : n ∈ hp_remove p <-> n ∈ hp_remove q;
}.

#[export] Instance agree_equivalence n : Equivalence (agree n).
Proof.
  split.
  - by intros p.
  - by intros p q [H1 H2].
  - intros p q r [H1 H2] [G1 G2]. split; [intros v; by rewrite H1|by rewrite H2].
Qed.

#[export] Instance plan_set_agree n h v : Proper (agree n ==> agree n) (plan_set h v).
Proof.
  intros p q [H1 H2]. split; [|cbn; by rewrite !elem_of_union, H2].
  intros w. by rewrite !elem_of_plan_set, H1.
Qed.
#[export] Instance plan_strip_agree n h : Proper (agree n ==> agree n) (plan_strip h).
Proof. intros p q [H1 H2]. split; [done|cbn; by rewrite !elem_of_union, H2]. Qed.

(** A step about another name. *)
Lemma agree_set_other n h v p : n <> to_ascii_lowercase h -> agree n (plan_set h v p) p.
Proof. intros Hn. split; [intros w; rewrite elem_of_plan_set; naive_solver|cbn; set_solver]. Qed.
Lemma agree_strip_other n h p : n <> to_ascii_lowercase h -> agree n (plan_strip h p) p.
Proof. intros Hn. split; [done|cbn; set_solver]. Qed.

Lemma agree_fold {A} n (f : HeaderPlan -> A -> HeaderPlan) l p q :
  (forall a, Proper (agree n ==> agree n) (fun p => f p a)) -> agree n p q -> agree n (fold_left f l p) (fold_left f l q).
Proof. intros Hf. revert p q. induction l as [|a l IH]; intros p q H; simpl; [done|]. apply IH. by apply (Hf a). Qed.

(** Plans that clear a name and agree on it send the same under it, whatever
    the two requests held. *)
Lemma agree_apply n p q sent sent' :
  plan_ok p -> plan_ok q -> n ∈ hp_remove p -> agree n p q -> apply_plan p sent n = apply_plan q sent' n.
Proof.
  intros Hp Hq Hn [H1 H2]. rewrite !apply_plan_spec by done. rewrite !decide_True by tauto.
  assert ((list_to_map (hp_set p) : gmap str str) !! n = (list_to_map (hp_set q) : gmap str str) !! n) as ->; [|done].
  apply option_eq. intros v. by rewrite <-!elem_of_list_to_map by (apply po_unique; done).
Qed.

(** Two results: plans that agree, or the same error. *)
Definition agree_results {E} (n : str) (r r' : result HeaderPlan E) : Prop :=
  match r, r' with Ok p, Ok q => agree n p q | Err e, Err e' => e = e' | _, _ => False end.

Lemma agree_bind {E} n (r r' : result HeaderPlan E) (k : HeaderPlan -> result HeaderPlan E) :
  agree_results n r r' -> (forall p q, agree n p q -> agree_results n (k p) (k q)) ->
  agree_results n (let? p := r in k p) (let? p := r' in k p).
Proof. intros H Hk. destruct r, r'; cbn in *; try done; auto. Qed.

Lemma split_on_app_any c s t : split_on c (s ++ c :: t) = split_on c s ++ split_on c t.
Proof.
  induction s as [|x s IH]; simpl; [by rewrite Z.eqb_refl|]. rewrite IH.
  destruct (Z.eqb_spec x c); [done|].
  destruct (split_on_cons c s) as (w & ws & E). rewrite E. done.
Qed.

(** The text ends with the entries: it is their text, or has it after a comma,
    with or without a space. *)
Definition ends_with_entries (appended text : str) : Prop :=
  text = appended \/ exists forged : str, text = forged ++ 44 :: appended \/ text = forged ++ 44 :: 32 :: appended.

Lemma entries_space s : map trim (split_on 44 (32 :: s)) = map trim (split_on 44 s).
Proof. simpl. destruct (split_on_cons 44 s) as (w & ws & ->). done. Qed.

(** Trusted proxies count from the right: what is before the entries they
    appended has no part in it. *)
Lemma ends_with_address appended text peer trusted_proxies :
  ends_with_entries appended text -> (trusted_proxies <= length (split_on 44 appended))%nat ->
  client_address (Some text) peer trusted_proxies = client_address (Some appended) peer trusted_proxies.
Proof.
  intros [->|(forged & H)] Hhops; [done|]. unfold client_address, trusted_suffix. destruct peer as [peer|]; [|done].
  assert (map trim (split_on 44 text) = map trim (split_on 44 forged) ++ map trim (split_on 44 appended)) as ->.
  { destruct H as [-> | ->]; by rewrite split_on_app_any, map_app, ?entries_space. }
  set (a := map trim (split_on 44 forged)).
  assert (length (map trim (split_on 44 appended)) = length (split_on 44 appended)) as Hl by apply length_map.
  set (b := map trim (split_on 44 appended)) in *. rewrite length_app.
  destruct (trusted_proxies =? 0)%nat; [done|]. simpl. rewrite !(proj2 (Nat.ltb_ge _ _)) by lia.
  replace (length a + length b - trusted_proxies)%nat with (length a + (length b - trusted_proxies))%nat by lia.
  by rewrite drop_app_add.
Qed.

Lemma join_app sep l1 l2 : l1 <> [] -> l2 <> [] -> join sep (l1 ++ l2) = join sep l1 ++ sep ++ join sep l2.
Proof.
  intros H1 H2. induction l1 as [|w l1 IH]; [done|]. destruct l1 as [|w' l1].
  - destruct l2; [done|]. done.
  - change ((w :: w' :: l1) ++ l2) with (w :: (w' :: l1) ++ l2).
    change (join sep (w :: (w' :: l1) ++ l2)) with (w ++ sep ++ join sep ((w' :: l1) ++ l2)).
    rewrite IH by done. change (join sep (w :: w' :: l1)) with (w ++ sep ++ join sep (w' :: l1)). by rewrite <-!app_assoc.
Qed.

Lemma ends_with_join appended t1 t2 :
  t2 <> [] -> ends_with_entries appended (join ", " t2) -> ends_with_entries appended (join ", " (t1 ++ t2)).
Proof.
  intros H2 H. destruct t1 as [|w t1]; [done|]. rewrite join_app by done.
  revert H. generalize (join ", " (w :: t1)), (join ", " t2). intros pre text H.
  change (str_of ", ") with ([44; 32] : str). right. destruct H as [->|(forged & [-> | ->])].
  - exists pre. by right.
  - exists (pre ++ [44; 32] ++ forged). left. by rewrite <-!app_assoc.
  - exists (pre ++ [44; 32] ++ forged). right. by rewrite <-!app_assoc.
Qed.

Lemma mapM_readable {A B} (f : A -> option B) l :
  match mapM f l with
  | Some _ => forallb (fun v => bool_decide (is_Some (f v))) l = true
  | None => forallb (fun v => bool_decide (is_Some (f v))) l = false
  end.
Proof.
  induction l as [|a l IH]; [done|]. simpl. destruct (f a) as [b|] eqn:E; simpl.
  - by destruct (mapM f l).
  - done.
Qed.

Lemma mapM_app_Some {A B} (f : A -> option B) l1 l2 l :
  mapM f (l1 ++ l2) = Some l -> exists k1 k2, l = k1 ++ k2 /\ mapM f l1 = Some k1 /\ mapM f l2 = Some k2.
Proof.
  rewrite !mapM_Some. intros H. apply Forall2_app_inv_l in H as (k1 & k2 & H1 & H2 & ->).
  exists k1, k2. by rewrite !mapM_Some.
Qed.

Lemma client_address_none peer n : client_address None peer n = peer.
Proof. unfold client_address, trusted_suffix. destruct peer, n; done. Qed.

(** The address [n] proxies vouch for: the [n]th of their entries from the right,
    if these are addresses. *)
Definition vouched_address (appended : str) (n : nat) : option str :=
  let entries := map trim (split_on 44 appended) in
  let i := (length entries - n)%nat in
  if (0 <? n)%nat && forallb is_ip_addr (drop i entries) then entries !! i else None.

Lemma client_address_vouched appended peer n : (n <= length (split_on 44 appended))%nat ->
  client_address (Some appended) (Some peer) n = Some (default peer (vouched_address appended n)).
Proof.
  intros Hn. unfold client_address, trusted_suffix, vouched_address.
  assert (length (map trim (split_on 44 appended)) = length (split_on 44 appended)) as Hl by apply length_map.
  set (entries := map trim (split_on 44 appended)) in *. rewrite (proj2 (Nat.ltb_ge _ _)), orb_false_r by lia.
  destruct n as [|n]; [done|]. cbn [Nat.eqb Nat.ltb Nat.leb andb].
  destruct (forallb is_ip_addr _); [|done]. cbn [negb]. rewrite <-(Nat.add_0_r (length entries - S n)) at 2. rewrite <-lookup_drop.
  destruct (drop (length entries - S n) entries) eqn:E; [|done].
  apply (f_equal length) in E. rewrite length_drop in E. cbn in E. lia.
Qed.

Lemma body_total_from already chunks max :
  0 <= already <= max -> max < u64_max -> Forall (fun c => 0 <= c) chunks ->
  body_total already chunks max =
    if decide (already + foldr Z.add 0 chunks <= max)
    then Some (already + foldr Z.add 0 chunks) else None.
Proof.
  intros Ha Hmax. revert already Ha. induction chunks as [|c cs IH]; intros already Ha Hc; simpl.
  - case_decide; [by rewrite Z.add_0_r|lia].
  - apply Forall_cons_iff in Hc as [Hc Hcs].
    assert (0 <= foldr Z.add 0 cs) as Hs.
    { clear -Hcs. induction Hcs; simpl; lia. }
    unfold add_body_chunk, sat_add.
    destruct (Z.leb_spec (Z.min u64_max (already + c)) max); simpl.
    + rewrite Z.min_r by lia. rewrite IH by (done || lia). by rewrite !Z.add_assoc.
    + case_decide; [lia|done].
Qed.

(** ** Theorems *)

(** C35: a caller cannot choose the address its request is attributed to.
    [caller] are the [X-Forwarded-For] fields it wrote that came through as they
    were, [own] those the trusted proxies added or extended, whose text ends with
    the entries [appended] they vouch for, at least one for each of them. If
    every field is readable the caller's text changes nothing: with [n] trusted
    proxies the address is the [n]th entry of [appended] from the right, where it
    and what follows it are addresses, and the socket peer's where they are not
    or no proxy is trusted. If any field is unreadable, the caller's included, the
    whole chain is dropped and the address is the socket peer's. *)
Theorem client_address_unforgeable to_str (headers : header_map) caller own appended peer trusted_proxies
    (Hfields : headers "x-forwarded-for" = caller ++ own) (Hsome : own <> [])
    (Hown : forall texts, mapM to_str own = Some texts -> ends_with_entries appended (join ", " texts))
    (Hhops : (trusted_proxies <= length (split_on 44 appended))%nat) :
  client_address (if (0 <? trusted_proxies)%nat then forwarded_for_chain to_str headers else None) peer trusted_proxies =
  (fun p => if forallb (fun v => bool_decide (is_Some (to_str v))) (caller ++ own)
            then default p (vouched_address appended trusted_proxies) else p) <$> peer.
Proof.
  destruct peer as [peer|]; [|done]. cbn [fmap option_fmap option_map].
  destruct (Nat.ltb_spec 0 trusted_proxies) as [Hn|Hn].
  - unfold forwarded_for_chain. rewrite Hfields. pose proof (mapM_readable to_str (caller ++ own)) as Hr.
    destruct (mapM to_str (caller ++ own)) as [texts|] eqn:E; rewrite Hr; [|apply client_address_none]. cbn [mbind option_bind].
    apply mapM_app_Some in E as (t1 & t2 & -> & E1 & E2). apply Hown in E2 as He.
    assert (t2 <> []) as Ht2.
    { apply mapM_Some, Forall2_length in E2. by destruct own, t2. }
    rewrite bool_decide_false by (by destruct t1, t2). rewrite <-client_address_vouched by done.
    apply ends_with_address; [|done]. by apply ends_with_join.
  - assert (trusted_proxies = 0%nat) as -> by lia. by destruct (forallb _ _).
Qed.

(** Two proxies behind each other, the first of which extends the caller's field. *)
Lemma client_address_unforgeable_witness :
  let headers := fun n : str => if n ==? "x-forwarded-for"
                                then [str_of "8.8.8.8"; str_of "6.6.6.6,10.0.0.7"; str_of "10.0.0.2"] else [] in
  client_address (forwarded_for_chain (fun v => Some v) headers) (Some (str_of "10.0.0.1")) 2 = Some (str_of "10.0.0.7").
Proof.
  intros headers.
  pose proof (client_address_unforgeable (fun v => Some v) headers [str_of "8.8.8.8"] [str_of "6.6.6.6,10.0.0.7"; str_of "10.0.0.2"]
    "10.0.0.7, 10.0.0.2" (Some (str_of "10.0.0.1")) 2) as H. cbn [Nat.ltb Nat.leb] in H.
  rewrite H; [by vm_compute|by vm_compute|done| |vm_compute; lia].
  intros texts [= <-]. right. exists (str_of "6.6.6.6"). left. by vm_compute.
Defined.

(** A caller that sends one field that is not visible ASCII is attributed to the
    proxy in front of the gateway: its own address is lost, although the proxy
    appended it. *)
Lemma unreadable_field_hides_the_client :
  let to_str := fun v => if forallb (in_range 32 126) v then Some v else None in
  let chain := fun fields => forwarded_for_chain to_str (fun n => if n ==? "x-forwarded-for" then fields else []) in
  client_address (chain [str_of "10.0.0.7"]) (Some (str_of "10.0.0.1")) 1 = Some (str_of "10.0.0.7") /\
  client_address (chain [[255]; str_of "10.0.0.7"]) (Some (str_of "10.0.0.1")) 1 = Some (str_of "10.0.0.1").
Proof. split; by vm_compute. Qed.

(** What the upstream is told is what the gateway counts: [X-Real-IP] is
    the address [client_address] resolves for the same request, it is the first
    entry of the [X-Forwarded-For] that is sent, and that chain holds nothing
    but valid addresses vouched for by trusted proxies before the socket peer. *)
Lemma forwarded_for_consistent to_str headers peer trusted_proxies :
  let prior := if (0 <? trusted_proxies)%nat then forwarded_for_chain to_str headers else None in
  let '(xff, real_ip) := forwarded_for to_str headers peer trusted_proxies in
  real_ip = client_address prior peer trusted_proxies /\
  (forall x, xff = Some x -> exists hops p,
     peer = Some p /\ x = join ", " (hops ++ [p]) /\ real_ip = head (hops ++ [p]) /\
     Forall (fun h => is_ip_addr h = true) hops /\
     (hops = [] \/ length hops = trusted_proxies)) /\
  (xff = None <-> peer = None).
Proof.
  simpl. set (prior := if (0 <? trusted_proxies)%nat then _ else _).
  unfold client_address. split_and!; [done|..]; unfold trusted_suffix;
    destruct peer as [p|]; try done; clearbody prior.
  - set (entries := match prior with Some _ => _ | None => _ end). intros x.
    destruct ((trusted_proxies =? 0)%nat || (length entries <? trusted_proxies)%nat) eqn:Eg.
    { simpl. intros [= <-]. exists [], p. by repeat split; [..|constructor|left]. }
    apply orb_false_iff in Eg as [Hz Hlt]. apply Nat.ltb_ge in Hlt.
    destruct (negb (forallb _ _)) eqn:Ef.
    { simpl. intros [= <-]. exists [], p. by repeat split; [..|constructor|left]. }
    rewrite bool_decide_false by (by destruct (drop _ _)). intros [= <-].
    exists (drop (length entries - trusted_proxies) entries), p. split_and!; try done.
    + apply Forall_elem. apply negb_false_iff in Ef. by apply forallb_In.
    + right. rewrite length_drop. lia.
  - set (entries := match prior with Some _ => _ | None => _ end).
    split; [|done]. repeat case_match; simpl; rewrite ?bool_decide_false; try done.
    by destruct (drop _ _).
Qed.

(** A header plan never lets a client's copy travel with the gateway's: in
    every plan built from the empty one by [set] and [strip], each name has one
    value, and every name that is set is also removed from the request. *)
Lemma plan_ops_ok (ops : list (str * option str)) :
  let plan := fold_left (fun p op => match op with
                                     | (n, Some v) => plan_set n v p
                                     | (n, None) => plan_strip n p end) ops plan_new in
  plan_ok plan /\
  (forall n v, (n, Some v) ∈ ops -> exists v', (to_ascii_lowercase n, v') ∈ hp_set plan) /\
  (forall n o, (n, o) ∈ ops -> to_ascii_lowercase n ∈ hp_remove plan).
Proof.
  cbv zeta. induction ops as [|[n o] ops IH] using rev_ind.
  - split_and!; [apply plan_ok_new|by intros ?? ?%elem_of_nil..].
  - rewrite fold_left_app. simpl. destruct IH as (Hok & Hset & Hrem).
    set (p := fold_left _ ops plan_new) in *. destruct o as [v|]; split_and!.
    + by apply plan_ok_set.
    + intros n' v'. rewrite elem_of_app, list_elem_of_singleton. intros [H|[= -> ->]].
      * destruct (Hset _ _ H) as (w & Hw).
        destruct (decide (to_ascii_lowercase n' = to_ascii_lowercase n)) as [->|Hne].
        -- exists v. apply elem_of_plan_set. by right.
        -- exists w. apply elem_of_plan_set. by left.
      * exists v. apply elem_of_plan_set. by right.
    + intros n' o'. rewrite elem_of_app, list_elem_of_singleton. simpl.
      intros [H|[= -> ->]]; [|set_solver]. apply elem_of_union. right. by eapply Hrem.
    + by apply plan_ok_strip.
    + intros n' v'. rewrite elem_of_app, list_elem_of_singleton. intros [H|[= -> ->]].
      by apply (Hset n' v').
    + intros n' o'. rewrite elem_of_app, list_elem_of_singleton. simpl.
      intros [H|[= -> ->]]; [|set_solver]. apply elem_of_union. right. by eapply Hrem.
Qed.

(** The running body count accepts a body exactly when its chunks add up to
    at most the cap, and then reports their sum; below the largest [u64] as a
    cap, the saturation of the count never lets a longer body through. *)
Lemma body_cap_exact chunks max
    (Hmax : 0 <= max < u64_max) (Hchunks : Forall (fun c => 0 <= c) chunks) :
  body_total 0 chunks max =
    if decide (foldr Z.add 0 chunks <= max) then Some (foldr Z.add 0 chunks) else None.
Proof. rewrite body_total_from by (done || lia). done. Qed.

Lemma body_cap_exact_witness : body_total 0 [3; 4] 7 = Some 7 /\ body_total 0 [3; 5] 7 = None.
Proof.
  split.
  - apply (body_cap_exact [3; 4] 7); [unfold u64_max; lia|repeat constructor; lia].
  - apply (body_cap_exact [3; 5] 7); [unfold u64_max; lia|repeat constructor; lia].
Defined.
