(* ===== verification/Identity.v ===== *)
(** * The verified caller's headers (identity.rs)

    [identity_apply] writes who the caller is into the header plan, and
    [strip_all] only clears the names.  JSON rendering, base64 and the signing
    of the [jsonwebtoken] crate are parameters. *)

From S2P Require Export Auth Headers Config.

Inductive IdentityError := ClaimError (detail : str) | MintError (detail : str).
#[export] Instance IdentityError_eq_dec : EqDecision IdentityError.
Proof. solve_decision. Defined.

Record IdentityClaims := {
  tc_sub : str;
  tc_iss : str;
  tc_tenant : str;
  tc_iat : Z;
  tc_exp : Z;
  tc_aud : option str;
}.

(** Visible ASCII, spaces and tabs, on the characters of the value. *)
Definition is_header_safe (value : str) : bool :=
  forallb (fun c => (c =? b_tab) || in_range 32 126 c) (chars value).

Section Identity.
Context {N : Type} `{HN : JsonNumber N}.
(** [serde_json::to_vec] of the claims, and [URL_SAFE_NO_PAD.encode]. *)
Context (json_to_vec : list (str * value N) -> option (list Z)) (b64url_encode : list Z -> str).
(** [jsonwebtoken::encode] with HS256. *)
Context (jwt_encode : IdentityClaims -> list Z -> result str str).

(** [mint], [now] being the seconds since the epoch. *)
Definition mint (cfg : IdentityTokenConfig) (secret : list Z) (id : Identity N) (now : Z) : result str str :=
  jwt_encode {| tc_sub := subject id; tc_iss := issuer id; tc_tenant := audience id; tc_iat := now;
                tc_exp := sat_add u64_max now (as_secs (it_ttl cfg)); tc_aud := it_audience cfg |} secret.

Definition unrepresentable (what header : str) : IdentityError :=
  ClaimError ("`" ++ what ++ "` contains a character that cannot appear in header `" ++ header ++ "`").

(** The text of a claim, [None] where the header is left out. *)
Definition render_claim (when_null : option str) (v : value N) : result (option str) unit :=
  match v with
  | VString s => Ok (Some s)
  | Number n => Ok (Some (num_to_string n))
  | Bool b => Ok (Some (show_bool b))
  | Null => Ok when_null
  | Array _ | Object _ => Err tt
  end.

(** One mapping of [apply_claim_headers]. *)
Definition apply_claim_header (plan : HeaderPlan) (id : Identity N) (header : str) (m : ClaimMapping)
  : result HeaderPlan IdentityError :=
  if header ==? [] then Ok plan
  else
    let plan := plan_strip header plan in
    match claim_at id (cm_claim m) with
    | None => Ok plan
    | Some v =>
        match render_claim (cm_when_null m) v with
        | Err _ =>
            Err (ClaimError ("claim `" ++ cm_claim m ++ "` is a structure and cannot become header `"
                             ++ header ++ "`"))
        | Ok None => Ok plan
        | Ok (Some rendered) =>
            if negb (is_header_safe rendered) then
              Err (ClaimError ("claim `" ++ cm_claim m
                ++ "` contains a character that cannot appear in header `" ++ header ++ "`"))
            else Ok (plan_set header rendered plan)
        end
    end.

Fixpoint apply_claim_headers (plan : HeaderPlan) (id : Identity N) (claims : list (str * ClaimMapping))
  : result HeaderPlan IdentityError :=
  match claims with
  | [] => Ok plan
  | (header, m) :: rest => let? plan := apply_claim_header plan id header m in apply_claim_headers plan id rest
  end.

(** One of [sub] and [iss]. *)
Definition apply_plain (plan : HeaderPlan) (header what value : str) : result HeaderPlan IdentityError :=
  if header ==? [] then Ok plan
  else if negb (is_header_safe value) then Err (unrepresentable what header)
  else Ok (plan_set header value plan).

Definition apply_all_claims (plan : HeaderPlan) (header : str) (id : Identity N) : HeaderPlan :=
  if header ==? [] then plan
  else match json_to_vec (claims id) with
       | Some json => plan_set header (b64url_encode json) plan
       | None => plan
       end.

Definition apply_token (plan : HeaderPlan) (token : option IdentityTokenConfig) (secret : option (list Z))
    (id : Identity N) (now : Z) : result HeaderPlan IdentityError :=
  match token, secret with
  | Some cfg, Some secret =>
      match mint cfg secret id now with
      | Ok token => Ok (plan_set (it_header cfg) token plan)
      | Err e => Err (MintError e)
      end
  | Some cfg, None => Ok (plan_strip (it_header cfg) plan)
  | None, _ => Ok plan
  end.

Definition identity_apply (plan : HeaderPlan) (cfg : IdentityConfig) (secret : option (list Z))
    (id : Identity N) (now : Z) : result HeaderPlan IdentityError :=
  let? plan := apply_plain plan (ic_subject_header cfg) "sub" (subject id) in
  let? plan := apply_plain plan (ic_issuer_header cfg) "iss" (issuer id) in
  let plan := apply_all_claims plan (ic_claims_header cfg) id in
  let? plan := apply_claim_headers plan id (ic_claims cfg) in
  apply_token plan (ic_token cfg) secret id now.

Definition strip_nonempty (plan : HeaderPlan) (h : str) : HeaderPlan :=
  if h ==? [] then plan else plan_strip h plan.

Definition strip_all (plan : HeaderPlan) (cfg : IdentityConfig) : HeaderPlan :=
  let plan := fold_left strip_nonempty [ic_subject_header cfg; ic_issuer_header cfg; ic_claims_header cfg] plan in
  let plan := fold_left strip_nonempty (map fst (ic_claims cfg)) plan in
  match ic_token cfg with Some t => plan_strip (it_header t) plan | None => plan end.

(** ** Lemmas *)

(** Every name the configuration gives identity to, in lower case. *)
Definition identity_names (cfg : IdentityConfig) : list str :=
  map to_ascii_lowercase
    (List.filter (fun h => negb (h ==? []))
       (ic_subject_header cfg :: ic_issuer_header cfg :: ic_claims_header cfg :: map fst (ic_claims cfg))
     ++ match ic_token cfg with Some t => [it_header t] | None => [] end).

Definition named (h : str) : list str := if h ==? [] then [] else [to_ascii_lowercase h].

Lemma strip_nonempty_grows from p h : grows from (named h) p (strip_nonempty p h).
Proof using. clear b64url_encode. unfold strip_nonempty, named. case_bool_decide; [apply grows_refl|apply grows_strip]. Qed.

Lemma strip_names_grows from hs p : grows from (concat (map named hs)) p (fold_left strip_nonempty hs p).
Proof using. clear b64url_encode.
  revert p. induction hs as [|h hs IH]; intros p; simpl; [apply grows_refl|].
  eapply grows_trans; [apply strip_nonempty_grows|apply IH].
Qed.

Lemma elem_of_named n h : n ∈ named h <-> h <> [] /\ n = to_ascii_lowercase h.
Proof using. clear b64url_encode. unfold named. case_bool_decide; rewrite ?elem_of_nil, ?list_elem_of_singleton; tauto. Qed.

Lemma identity_names_spec cfg n :
  n ∈ identity_names cfg <->
  n ∈ named (ic_subject_header cfg) \/ n ∈ named (ic_issuer_header cfg) \/ n ∈ named (ic_claims_header cfg) \/
  n ∈ concat (map named (map fst (ic_claims cfg))) \/
  n ∈ match ic_token cfg with Some t => [to_ascii_lowercase (it_header t)] | None => [] end.
Proof using. clear b64url_encode.
  unfold identity_names. rewrite map_app, elem_of_app.
  assert (forall l, n ∈ map to_ascii_lowercase (List.filter (fun h => negb (h ==? [])) l) <->
                    n ∈ concat (map named l)) as Hf.
  { induction l as [|h l IH]; [done|]. simpl. rewrite elem_of_app, elem_of_named, <- IH.
    case_bool_decide; simpl; [|rewrite elem_of_cons]; tauto. }
  rewrite Hf. simpl. rewrite !elem_of_app. by destruct (ic_token cfg); simpl; tauto.
Qed.

Lemma strip_all_grows from p cfg : grows from (identity_names cfg) p (strip_all p cfg).
Proof using. clear b64url_encode.
  set (last := match ic_token cfg with Some t => [to_ascii_lowercase (it_header t)] | None => [] end).
  assert (forall q, grows from last q (match ic_token cfg with Some t => plan_strip (it_header t) q | None => q end))
    as Hlast by (intros q; unfold last; destruct (ic_token cfg); [apply grows_strip|apply grows_refl]).
  eapply grows_less; [|eapply grows_trans; [eapply grows_trans; apply strip_names_grows|apply Hlast]].
  intros n Hn%identity_names_spec. simpl. rewrite !elem_of_app. fold last in Hn. tauto.
Qed.

(** Where a value under an identity name comes from. *)
Definition asserted (cfg : IdentityConfig) (secret : option (list Z)) (id : Identity N) (now : Z) (n v : str) : Prop :=
  (n ∈ named (ic_subject_header cfg) /\ v = subject id /\ is_header_safe v = true) \/
  (n ∈ named (ic_issuer_header cfg) /\ v = issuer id /\ is_header_safe v = true) \/
  (n ∈ named (ic_claims_header cfg) /\ exists json, json_to_vec (claims id) = Some json /\ v = b64url_encode json) \/
  (exists h m c, (h, m) ∈ ic_claims cfg /\ n ∈ named h /\ claim_at id (cm_claim m) = Some c /\
     render_claim (cm_when_null m) c = Ok (Some v) /\ is_header_safe v = true) \/
  (exists t s, ic_token cfg = Some t /\ secret = Some s /\ n = to_ascii_lowercase (it_header t) /\
     mint t s id now = Ok v).

Lemma apply_plain_grows from p h what v q :
  (forall n, n ∈ named h -> is_header_safe v = true -> from n v) ->
  apply_plain p h what v = Ok q -> grows from (named h) p q.
Proof.
  intros Hf. unfold apply_plain, named. pose proof (elem_of_named (to_ascii_lowercase h) h) as Hn.
  case_bool_decide; [intros [= <-]; apply grows_refl|].
  destruct (negb (is_header_safe v)) eqn:E; [done|]. apply negb_false_iff in E. intros [= <-].
  apply grows_set. apply Hf; [by apply Hn|done].
Qed.

(** What identity says under a name does not depend on the plan it is written to. *)
Lemma apply_plain_agree n h what v p q : agree n p q -> agree_results n (apply_plain p h what v) (apply_plain q h what v).
Proof using. clear b64url_encode json_to_vec jwt_encode. intros H. unfold apply_plain. case_match; [done|]. case_match; [done|]. cbn. by rewrite H. Qed.

Lemma apply_claim_headers_agree n id l p q :
  agree n p q -> agree_results n (apply_claim_headers p id l) (apply_claim_headers q id l).
Proof using.
  clear b64url_encode json_to_vec jwt_encode.
  revert p q. induction l as [|[h m] l IH]; intros p q H; [done|]. cbn [apply_claim_headers].
  apply agree_bind; [|apply IH]. unfold apply_claim_header. repeat case_match; cbn; try done; by rewrite H.
Qed.

Lemma identity_apply_agree n cfg secret id now p q :
  agree n p q -> agree_results n (identity_apply p cfg secret id now) (identity_apply q cfg secret id now).
Proof using.
  intros H. unfold identity_apply. apply agree_bind; [by apply apply_plain_agree|].
  clear p q H. intros p q H. apply agree_bind; [by apply apply_plain_agree|].
  clear p q H. intros p q H. apply agree_bind.
  - apply apply_claim_headers_agree. unfold apply_all_claims. repeat case_match; try done. by rewrite H.
  - clear p q H. intros p q H. unfold apply_token. repeat case_match; cbn; try done; by rewrite H.
Qed.

Lemma strip_all_agree n cfg p q : agree n p q -> agree n (strip_all p cfg) (strip_all q cfg).
Proof using.
  clear b64url_encode json_to_vec jwt_encode.
  assert (forall h, Proper (agree n ==> agree n) (fun p => strip_nonempty p h)) as Hs.
  { intros h p' q' H'. unfold strip_nonempty. case_match; [done|]. by rewrite H'. }
  intros H. unfold strip_all. assert (forall l p q, agree n p q -> agree n (fold_left strip_nonempty l p) (fold_left strip_nonempty l q)) as Hf.
  { intros l p' q'. by apply agree_fold. }
  apply (Hf [ic_subject_header cfg; ic_issuer_header cfg; ic_claims_header cfg]) in H.
  apply (Hf (map fst (ic_claims cfg))) in H. destruct (ic_token cfg); [by rewrite H|done].
Qed.

Lemma apply_claim_header_grows from p id h m q :
  (forall n v c, n ∈ named h -> claim_at id (cm_claim m) = Some c -> render_claim (cm_when_null m) c = Ok (Some v) ->
     is_header_safe v = true -> from n v) ->
  apply_claim_header p id h m = Ok q -> grows from (named h) p q.
Proof.
  intros Hf. unfold apply_claim_header, named. pose proof (elem_of_named (to_ascii_lowercase h) h) as Hn.
  case_bool_decide; [intros [= <-]; apply grows_refl|].
  destruct (claim_at id (cm_claim m)) as [c|] eqn:Ec; [|intros [= <-]; apply grows_strip].
  destruct (render_claim (cm_when_null m) c) as [[v|]|] eqn:Er; [| |done].
  - destruct (negb (is_header_safe v)) eqn:E; [done|]. apply negb_false_iff in E. intros [= <-].
    apply (grows_trans from [] [to_ascii_lowercase h] p (plan_strip h p)).
    + eapply grows_less; [|apply grows_strip]. set_solver.
    + apply grows_set. eapply Hf; [by apply Hn|done..].
  - intros [= <-]. apply grows_strip.
Qed.

Lemma apply_claim_headers_grows from p id l q :
  (forall h m n v c, (h, m) ∈ l -> n ∈ named h -> claim_at id (cm_claim m) = Some c ->
     render_claim (cm_when_null m) c = Ok (Some v) -> is_header_safe v = true -> from n v) ->
  apply_claim_headers p id l = Ok q -> grows from (concat (map named (map fst l))) p q.
Proof.
  revert p. induction l as [|[h m] l IH]; intros p Hf; cbn [apply_claim_headers]; [intros [= <-]; apply grows_refl|].
  intros (p1 & H1 & H2)%rbind_Ok. simpl. eapply grows_trans.
  - eapply apply_claim_header_grows; [|exact H1]. intros n v c. apply (Hf h m). by left.
  - apply IH; [|done]. intros h' m' n v c Hin. apply (Hf h' m'). by right.
Qed.

Lemma identity_apply_grows cfg secret id now p q :
  (exists json, json_to_vec (claims id) = Some json) ->
  identity_apply p cfg secret id now = Ok q ->
  grows (asserted cfg secret id now) (identity_names cfg) p q.
Proof.
  intros [json Hjson]. unfold identity_apply. intros (p1 & H1 & H)%rbind_Ok. apply rbind_Ok in H as (p2 & H2 & H).
  set (p3 := apply_all_claims p2 (ic_claims_header cfg) id) in *. apply rbind_Ok in H as (p4 & H4 & H5).
  set (from := asserted cfg secret id now).
  assert (grows from (named (ic_subject_header cfg)) p p1) as G1.
  { eapply apply_plain_grows; [|exact H1]. intros. by left. }
  assert (grows from (named (ic_issuer_header cfg)) p1 p2) as G2.
  { eapply apply_plain_grows; [|exact H2]. intros. by right; left. }
  assert (grows from (named (ic_claims_header cfg)) p2 p3) as G3.
  { unfold p3, apply_all_claims, named. pose proof (elem_of_named (to_ascii_lowercase (ic_claims_header cfg))
      (ic_claims_header cfg)) as Hn. case_bool_decide; [apply grows_refl|]. rewrite Hjson. apply grows_set.
    right; right; left. split; [by apply Hn|by eexists]. }
  assert (grows from (concat (map named (map fst (ic_claims cfg)))) p3 p4) as G4.
  { eapply apply_claim_headers_grows; [|exact H4]. intros h m n v c ?????. right; right; right; left.
    exists h, m, c. split_and!; done. }
  assert (grows from (match ic_token cfg with Some t => [to_ascii_lowercase (it_header t)] | None => [] end) p4 q) as G5.
  { unfold apply_token in H5. destruct (ic_token cfg) as [t|] eqn:Et; [|injection H5 as <-; apply grows_refl].
    destruct secret as [s|] eqn:Es; [|injection H5 as <-; apply grows_strip].
    destruct (mint t s id now) as [tok|] eqn:Em; [|done]. injection H5 as <-. apply grows_set.
    right; right; right; right. by exists t, s. }
  eapply grows_less; [|eapply grows_trans; [exact G1|eapply grows_trans; [exact G2|eapply grows_trans;
    [exact G3|eapply grows_trans; [exact G4|exact G5]]]]].
  intros n Hn%identity_names_spec. rewrite !elem_of_app. tauto.
Qed.

(** ** Theorems *)

(** No client speaks for its identity: under every header name the
    configuration gives identity to, what the upstream receives does not depend
    on what the client sent, and each value is one the verified identity
    asserts (its subject, its issuer, all of its claims encoded, the rendering
    of the claim mapped to that header, or a token freshly signed for it), fit
    for a header wherever it is copied; on a route without identity nothing is
    sent under those names at all. *)
Lemma identity_unforgeable cfg secret id now p q
    (Hok : plan_ok p) (Hfresh : forall n v, n ∈ identity_names cfg -> (n, v) ∉ hp_set p)
    (Hjson : exists json, json_to_vec (claims id) = Some json)
    (Hq : identity_apply p cfg secret id now = Ok q) :
  forall n, n ∈ identity_names cfg ->
    (forall sent sent', apply_plan q sent n = apply_plan q sent' n) /\
    (forall sent v, v ∈ apply_plan q sent n -> asserted cfg secret id now n v) /\
    (forall sent, apply_plan (strip_all p cfg) sent n = []).
Proof.
  intros n Hn. pose proof (identity_apply_grows cfg secret id now p q Hjson Hq) as [G1 G2 G3 G4 _].
  pose proof (G1 Hok) as Hokq. split_and!.
  - intros sent sent'. rewrite !apply_plan_spec by done. destruct (_ !! n); [done|].
    by rewrite !decide_True by auto.
  - intros sent v Hv. apply sent_values in Hv; [|done|auto]. apply G4 in Hv as [Hv|Hv]; [|done].
    by apply Hfresh in Hv.
  - intros sent. destruct (strip_all_grows (fun _ _ => False) p cfg) as [S1 _ S3 S4 _].
    destruct (apply_plan (strip_all p cfg) sent n) as [|v l] eqn:E; [done|]. exfalso.
    assert ((n, v) ∈ hp_set (strip_all p cfg)) as Hv.
    { eapply sent_values; [auto|auto|]. rewrite E. by left. }
    apply S4 in Hv as [Hv|[]]. by apply Hfresh in Hv.
Qed.

(** The names identity is given to otherwise than by one mapping. *)
Definition sole_mapping (cfg : IdentityConfig) (h : str) (before after : list (str * ClaimMapping)) : Prop :=
  let n := to_ascii_lowercase h in
  (n ∉ named (ic_subject_header cfg)) /\ (n ∉ named (ic_issuer_header cfg)) /\ (n ∉ named (ic_claims_header cfg)) /\
  (forall h', h' ∈ map fst (before ++ after) -> to_ascii_lowercase h' <> n) /\
  (forall t, ic_token cfg = Some t -> to_ascii_lowercase (it_header t) <> n).

Lemma apply_claim_headers_split p id before h m after q :
  apply_claim_headers p id (before ++ (h, m) :: after) = Ok q ->
  exists p1 p2, apply_claim_headers p id before = Ok p1 /\ apply_claim_header p1 id h m = Ok p2 /\
    apply_claim_headers p2 id after = Ok q.
Proof.
  revert p. induction before as [|[h' m'] l IH]; intros p; simpl.
  - intros (p2 & ? & ?)%rbind_Ok. by exists p, p2.
  - intros (p1 & H1 & (p2 & p3 & ? & ? & ?)%IH)%rbind_Ok. exists p2, p3. split_and!; [|done..].
    apply rbind_Ok. eauto.
Qed.

Lemma identity_apply_around cfg secret id now p q h m before after :
  ic_claims cfg = before ++ (h, m) :: after -> sole_mapping cfg h before after ->
  identity_apply p cfg secret id now = Ok q ->
  exists p1 p2, grows (fun n _ => n <> to_ascii_lowercase h) [] p p1 /\
    apply_claim_header p1 id h m = Ok p2 /\ grows (fun n _ => n <> to_ascii_lowercase h) [] p2 q.
Proof.
  intros Hc (Hs & Hi & Hcl & Hother & Ht). set (n := to_ascii_lowercase h) in *.
  set (R := fun m (_ : str) => m <> n).
  assert (forall l x y, (forall h' m', (h', m') ∈ l -> h' ∈ map fst (before ++ after)) ->
    apply_claim_headers x id l = Ok y -> grows R [] x y) as Hclaims.
  { intros l x y Hl Hy. eapply grows_less; [|eapply apply_claim_headers_grows; [|exact Hy]]; [set_solver|].
    intros h' m' n' v c Hin (_ & ->)%elem_of_named _ _ _. apply Hother. by eapply Hl. }
  unfold identity_apply. rewrite Hc. intros (p1 & H1 & H)%rbind_Ok. apply rbind_Ok in H as (p2 & H2 & H).
  set (p3 := apply_all_claims p2 (ic_claims_header cfg) id) in *. apply rbind_Ok in H as (p6 & H4 & H5).
  assert (exists p4 p5, apply_claim_headers p3 id before = Ok p4 /\ apply_claim_header p4 id h m = Ok p5 /\
            apply_claim_headers p5 id after = Ok p6) as (p4 & p5 & Hb & Hm & Ha).
  { by apply apply_claim_headers_split. }
  exists p4, p5. split_and!; [|done|].
  - assert (grows R [] p p1) as G1.
    { eapply grows_less; [|eapply apply_plain_grows; [|exact H1]]; [set_solver|]. intros ? ? _ ->. done. }
    assert (grows R [] p1 p2) as G2.
    { eapply grows_less; [|eapply apply_plain_grows; [|exact H2]]; [set_solver|]. intros ? ? _ ->. done. }
    assert (grows R [] p2 p3) as G3.
    { unfold p3, apply_all_claims. unfold named in Hcl. case_bool_decide; [apply grows_refl|].
      destruct (json_to_vec _); [|apply grows_refl]. eapply grows_less; [|apply grows_set]; [set_solver|].
      unfold R. set_solver. }
    exact (grows_trans R [] [] _ _ _ G1 (grows_trans R [] [] _ _ _ G2 (grows_trans R [] [] _ _ _ G3
      (Hclaims before p3 p4 ltac:(intros h' m' Hin; apply list_elem_of_In, in_map_iff; exists (h', m');
         split; [done|]; apply list_elem_of_In; set_solver) Hb)))).
  - assert (grows R [] p5 p6) as G4.
    { apply (Hclaims after); [|done]. intros h' m' Hin. apply list_elem_of_In, in_map_iff. exists (h', m').
      split; [done|]. apply list_elem_of_In. set_solver. }
    assert (grows R [] p6 q) as G5.
    { unfold apply_token in H5. destruct (ic_token cfg) as [t|]; [|injection H5 as <-; apply grows_refl].
      eapply grows_less; [apply (list_subseteq_nil [to_ascii_lowercase (it_header t)])|].
      destruct secret as [s|]; [|injection H5 as <-; apply grows_strip].
      destruct (mint t s id now); [|done]. injection H5 as <-. apply grows_set. by apply Ht. }
    exact (grows_trans R [] [] _ _ _ G4 G5).
Qed.

(** A claim that is absent stays distinct from one that is null: a header
    mapped to a claim, under a name nothing else is given to, carries the
    claim's scalar, or the configured stand-in for a null, and is absent from
    the request where the claim is absent, or null without a stand-in; a claim
    that is a structure, or would break the header block, fails the request. *)
Lemma claim_header_states cfg secret id now p h m before after
    (Hok : plan_ok p) (Hc : ic_claims cfg = before ++ (h, m) :: after) (Hh : h <> [])
    (Hsole : sole_mapping cfg h before after) (Hp : forall v, (to_ascii_lowercase h, v) ∉ hp_set p) :
  match identity_apply p cfg secret id now with
  | Ok q =>
      (forall sent, apply_plan q sent (to_ascii_lowercase h) =
         match claim_at id (cm_claim m) with
         | None => []
         | Some c => match render_claim (cm_when_null m) c with Ok (Some v) => [v] | _ => [] end
         end) /\
      (forall c, claim_at id (cm_claim m) = Some c -> exists o,
         render_claim (cm_when_null m) c = Ok o /\ forall v, o = Some v -> is_header_safe v = true)
  | Err _ => True
  end.
Proof.
  destruct (identity_apply p cfg secret id now) as [q|] eqn:Hq; [|done].
  destruct (identity_apply_around _ _ _ _ _ _ _ _ _ _ Hc Hsole Hq) as (p1 & p2 & [A1 _ _ A4 _] & H2 & [B1 B2 _ B4 B5]).
  set (n := to_ascii_lowercase h) in *.
  assert (forall v, (n, v) ∉ hp_set p1) as Hp1 by (intros v [Hv|Hv]%A4; [by eapply Hp|done]).
  assert (plan_ok p1) as Hok1 by auto.
  assert (plan_ok q) as Hokq.
  { apply B1. destruct (apply_claim_header_grows (fun _ _ => True) p1 id h m p2) as [G _ _ _ _]; auto. }
  assert (n ∈ hp_remove q) as Hrem.
  { apply B2. destruct (apply_claim_header_grows (fun _ _ => True) p1 id h m p2) as [_ _ G _ _]; auto.
    apply G. by apply elem_of_named. }
  assert (forall v, (n, v) ∈ hp_set q <-> (n, v) ∈ hp_set p2) as Hset.
  { intros v. split; [intros [?|?]%B4; done|]. intros Hv. by apply B5; [|intros w Hw]. }
  assert (forall sent, apply_plan q sent n =
    match (list_to_map (hp_set q) : gmap str str) !! n with Some v => [v] | None => [] end) as Hsent.
  { intros sent. rewrite apply_plan_spec by done. by rewrite decide_True. }
  assert ((forall v, (n, v) ∉ hp_set p2) -> (list_to_map (hp_set q) : gmap str str) !! n = None) as Hnone.
  { intros Hn. apply not_elem_of_list_to_map_1. intros ([n' v] & -> & Hin)%list_elem_of_fmap.
    by apply Hset, Hn in Hin. }
  unfold apply_claim_header in H2. rewrite bool_decide_false in H2 by done.
  destruct (claim_at id (cm_claim m)) as [c|].
  2: { injection H2 as <-. split; [|done]. intros sent. by rewrite Hsent, Hnone. }
  destruct (render_claim (cm_when_null m) c) as [[v|]|] eqn:Er; [..|done].
  - destruct (negb (is_header_safe v)) eqn:Es; [done|]. injection H2 as <-. apply negb_false_iff in Es.
    assert ((list_to_map (hp_set q) : gmap str str) !! n = Some v) as Hv.
    { apply elem_of_list_to_map_1; [apply Hokq|]. apply Hset, elem_of_plan_set. by right. }
    split; [intros sent; by rewrite Hsent, Hv|]. intros c' [= <-]. exists (Some v). split; [done|].
    by intros v' [= <-].
  - injection H2 as <-. split; [intros sent; by rewrite Hsent, Hnone|].
    intros c' [= <-]. by exists None.
Qed.
End Identity.

(** ** Witnesses *)

Definition sample_identity : Identity Z :=
  {| subject := "4821"; issuer := "https://id"; audience := "app";
     claims := [(str_of "company", Null); (str_of "role", VString "admin")] |}.
Definition sample_identity_config : IdentityConfig :=
  {| ic_subject_header := "X-User"; ic_issuer_header := ""; ic_claims_header := "x-claims";
     ic_claims := [(str_of "X-Company", {| cm_claim := "company"; cm_when_null := Some (str_of "none") |});
                   (str_of "X-Team", {| cm_claim := "team"; cm_when_null := None |})];
     ic_token := None |}.
Definition sample_apply := identity_apply (fun _ => Some [123; 125]) (fun _ => str_of "e30")
  (fun c _ => Ok (tc_sub c)) plan_new sample_identity_config None sample_identity 0.

Lemma identity_unforgeable_witness :
  match sample_apply with
  | Ok q => forall sent, apply_plan q sent "x-user" = apply_plan q (fun _ => []) "x-user"
  | Err _ => False
  end.
Proof.
  destruct sample_apply as [q|] eqn:E; [|vm_compute in E; discriminate]. intros sent.
  assert (str_of "x-user" ∈ identity_names sample_identity_config) as Hn
    by (apply (bool_decide_eq_true_1 (_ ∈ _)); reflexivity).
  refine (proj1 (identity_unforgeable _ _ _ _ _ _ _ _ _ plan_ok_new _ _ E (str_of "x-user") Hn) _ _).
  - intros n v _. apply not_elem_of_nil.
  - eexists. reflexivity.
Defined.

