(* ===== verification/Binding.v ===== *)
(** * Binding a request value to the verified caller (binding.rs)

    A binding [source: target] lets a request through only if the value the
    client supplied equals the one its identity proves.  [percent_decode] is
    the [percent_encoding] crate's decoder, a parameter. *)

From S2P Require Export Auth.

Inductive Source := Query (name : str) | Header (name : str).
Inductive Target := Subject | Claim (path : str).
#[export] Instance Source_eq_dec : EqDecision Source.
Proof. solve_decision. Defined.
#[export] Instance Target_eq_dec : EqDecision Target.
Proof. solve_decision. Defined.

Record Binding := { source : Source; target : Target }.
#[export] Instance Binding_eq_dec : EqDecision Binding.
Proof. solve_decision. Defined.

Definition parse_source (s : str) : result Source str :=
  let refused := Err ("`" ++ s ++ "` is not a bindable source; expected `query.<name>` or `header.<name>`") in
  match split_once b_dot s with
  | Some (kind, name) =>
      if (kind ==? "query") && negb (name ==? []) then Ok (Query name)
      else if (kind ==? "header") && negb (name ==? []) then Ok (Header (to_ascii_lowercase name))
      else refused
  | None => refused
  end.

Definition parse_target (t : str) : result Target str :=
  let refused := Err ("`" ++ t ++ "` is not a bindable target; expected `identity.subject` "
                      ++ "or `identity.<claim>`") in
  if (t ==? "identity.subject") || (t ==? "identity.sub") then Ok Subject
  else match strip_prefix "identity." t with
       | Some claim => if negb (claim ==? []) then Ok (Claim claim) else refused
       | None => refused
       end.

Definition binding_parse (s t : str) : result Binding str :=
  let? src := parse_source s in
  let? tgt := parse_target t in
  Ok {| source := src; target := tgt |}.

(** The two halves of [describe], and their concatenation. *)
Definition show_source (s : Source) : str :=
  match s with Query n => "query." ++ n | Header n => "header." ++ n end.
Definition show_target (t : Target) : str :=
  match t with Subject => "identity.subject" | Claim c => "identity." ++ c end.
Definition describe (b : Binding) : str :=
  show_source (source b) ++ " == " ++ show_target (target b).

Section Permits.
Context {N : Type} `{JsonNumber N}.
Context (percent_decode : str -> option str).

(** [value] rendered as an identifier; structures have no rendering. *)
Definition scalar_to_string (v : value N) : option str :=
  match v with
  | VString s => Some s
  | Number n => Some (num_to_string n)
  | Bool b => Some (show_bool b)
  | Null | Array _ | Object _ => None
  end.

(** [str::replace('+', " ")] and the decoder. *)
Definition query_decode (s : str) : option str :=
  percent_decode (map (fun c => if c =? 43 then b_space else c) s).

(** The key and value of one pair of a query string. *)
Definition query_pair (piece : str) : str * str := default (piece, []) (split_once 61 piece).

Fixpoint query_scan (pairs : list str) (name : str) (found : option str) : option str :=
  match pairs with
  | [] => found
  | piece :: rest =>
      let '(k, v) := query_pair piece in
      letO key := query_decode k in
      if key ==? name then
        match found with
        | Some _ => None
        | None => letO v := query_decode v in query_scan rest name (Some v)
        end
      else query_scan rest name found
  end.

Definition query_param (query name : str) : option str :=
  query_scan (split_on 38 query) name None.

Definition supplied (b : Binding) (query : option str) (header : str -> option str) : option str :=
  match source b with
  | Query name => letO q := query in query_param q name
  | Header name => header name
  end.

Definition proven (b : Binding) (id : Identity N) : option str :=
  match target b with
  | Subject => Some (subject id)
  | Claim path => letO v := claim_at id path in scalar_to_string v
  end.

Definition permits (b : Binding) (id : Identity N) (query : option str)
    (header : str -> option str) : bool :=
  match supplied b query header, proven b id with
  | Some s, Some p => s ==? p
  | _, _ => false
  end.

(** ** Lemmas *)

(** The pairs of a query whose key decodes to [name]. *)
Definition occurrences (query name : str) : list str :=
  List.filter (fun piece => query_decode (query_pair piece).1 ==? Some name) (split_on 38 query).

Lemma query_scan_Some pairs name found v :
  query_scan pairs name found = Some v ->
  let hits := List.filter (fun piece => query_decode (query_pair piece).1 ==? Some name) pairs in
  (found = Some v /\ hits = []) \/
  (found = None /\ exists piece, hits = [piece] /\ query_decode (query_pair piece).2 = Some v).
Proof.
  revert found. induction pairs as [|piece pairs IH]; intros found; simpl.
  - intros ->. by left.
  - destruct (query_pair piece) as [k w] eqn:Ep. simpl.
    destruct (query_decode k) as [key|] eqn:Ek; simpl; [|done].
    destruct (decide (key = name)) as [->|Hne].
    + rewrite !bool_decide_true by done. destruct found; [done|].
      destruct (query_decode w) as [u|] eqn:Ew; simpl; [|done].
      intros [([= ->] & Hh)|([=] & _)]%IH. right. split; [done|].
      exists piece. rewrite Hh, Ep. done.
    + rewrite !bool_decide_false by congruence. apply IH.
Qed.
End Permits.

Lemma parse_show_source s src : parse_source s = Ok src -> parse_source (show_source src) = Ok src.
Proof.
  unfold parse_source at 1. destruct (split_once b_dot s) as [[k n]|]; [|done].
  destruct ((k ==? "query") && negb (n ==? [])) eqn:Eq.
  { intros [= <-]. breflect. unfold parse_source. simpl. by rewrite bool_decide_false. }
  destruct ((k ==? "header") && negb (n ==? [])) eqn:Eh; [|done].
  intros [= <-]. breflect. unfold parse_source. simpl. rewrite to_ascii_lowercase_idem.
  rewrite (bool_decide_false (to_ascii_lowercase n = [])); [done|]. by destruct n.
Qed.

Lemma parse_show_target t tgt : parse_target t = Ok tgt -> parse_target (show_target tgt) = Ok tgt.
Proof.
  unfold parse_target at 1. destruct ((t ==? _) || _) eqn:E; [by intros [= <-]|].
  destruct (strip_prefix _ t) as [c|] eqn:Ec; [|done]. apply strip_prefix_Some in Ec as ->.
  destruct (negb (c ==? [])) eqn:En; [|done]. intros [= <-].
  unfold parse_target, show_target. rewrite E.
  by rewrite (proj2 (strip_prefix_Some _ _ c) eq_refl), En.
Qed.

(** ** Theorems *)

(** A permitted request proved ownership: the binding's value was supplied
    (for a query parameter, under exactly one spelling of its name), the
    identity holds a scalar for it, and the two are the same string.  An absent
    parameter, an ambiguous one, a missing claim, a structured claim or a
    mismatch all refuse. *)
Lemma permits_proves_ownership {N} `{JsonNumber N} percent_decode b (id : Identity N) query header
    (Hp : permits percent_decode b id query header = true) :
  exists v,
    match target b with
    | Subject => subject id = v
    | Claim path => exists w, claim_at id path = Some w /\ scalar_to_string w = Some v
    end /\
    match source b with
    | Header name => header name = Some v
    | Query name => exists q piece,
        query = Some q /\ occurrences percent_decode q name = [piece] /\
        query_decode percent_decode (query_pair piece).2 = Some v
    end.
Proof.
  unfold permits in Hp. destruct (supplied _ _ _ _) as [s|] eqn:Es; [|done].
  destruct (proven _ _) as [p|] eqn:Epr; [|done]. breflect. subst p. exists s. split.
  - unfold proven in Epr. destruct (target b); [by injection Epr|].
    by apply bind_Some in Epr.
  - unfold supplied in Es. destruct (source b) as [name|name]; [|done].
    apply bind_Some in Es as (q & -> & Hq). apply query_scan_Some in Hq as [[? _]|(_ & piece & Hh & Hv)];
      [done|]. by exists q, piece.
Qed.

(** A query of two parameters, one of them the caller's own identifier. *)
Lemma permits_proves_ownership_witness :
  let id := {| Auth.subject := str_of "u1"; issuer := []; audience := []; claims := [] |} : Identity Z in
  let b := {| source := Query "user"; target := Subject |} in
  permits Some b id (Some (str_of "a=1&user=u1")) (fun _ => None) = true /\
  exists v : str, subject id = v /\ exists q piece : str, Some (str_of "a=1&user=u1") = Some q /\
    occurrences Some q "user" = [piece] /\ query_decode Some (query_pair piece).2 = Some v.
Proof.
  intros id b. assert (permits Some b id (Some (str_of "a=1&user=u1")) (fun _ => None) = true) as H
    by by vm_compute.
  split; [exact H|]. exact (permits_proves_ownership Some b id _ _ H).
Defined.

(** What [describe] prints of a parsed binding reads back as the same
    binding: its two halves, on either side of [==], parse to it again, though
    the first parse folded the case of header names and the alias of the
    subject. *)
Lemma describe_parse_roundtrip b s t (Hb : binding_parse s t = Ok b) :
  exists s' t' : str, describe b = s' ++ " == " ++ t' /\ binding_parse s' t' = Ok b.
Proof.
  exists (show_source (source b)), (show_target (target b)).
  split; [done|]. unfold binding_parse in Hb |- *.
  apply rbind_Ok in Hb as (src & Hs & Hb). apply rbind_Ok in Hb as (tgt & Ht & [= <-]).
  simpl. by rewrite (parse_show_source s), (parse_show_target t).
Qed.
