(* ===== verification/F64.v ===== *)
(** * IEEE 754 double precision

    Rust's [f64] as the specification floats of the standard library, with 53
    bits of precision and exponents below 1024: every operation below is the
    correctly rounded one, computed.  The lemmas give the order facts the rate
    limiter rests on: sums of non-negative floats do not fall below an exactly
    represented term, and integers below 2^53 convert exactly. *)

From S2P Require Export Prelude.
From Stdlib Require Export Floats.SpecFloat.

Abbreviation f64 := spec_float.
Abbreviation prec := 53.
Abbreviation emax := 1024.

(** [n as f64]. *)
Definition f64_of_u64 (n : Z) : f64 := binary_normalize prec emax n 0 false.
Definition f64_add : f64 -> f64 -> f64 := SFadd prec emax.
Definition f64_sub : f64 -> f64 -> f64 := SFsub prec emax.
Definition f64_mul : f64 -> f64 -> f64 := SFmul prec emax.
Definition f64_div : f64 -> f64 -> f64 := SFdiv prec emax.
Definition f64_lt (a b : f64) : bool := SFltb a b.
(** [a >= b]: false when either is NaN. *)
Definition f64_ge (a b : f64) : bool := SFleb b a.

Definition f64_zero : f64 := S754_zero false.
Definition f64_one : f64 := f64_of_u64 1.
(** [f64::MIN_POSITIVE], 2^-1022. *)
Definition f64_min_positive : f64 := S754_finite false 4503599627370496 (-1074).

(** [f64::max]: the other operand when one is NaN. *)
Definition f64_max (a b : f64) : f64 :=
  match a, b with
  | S754_nan, _ => b
  | _, S754_nan => a
  | _, _ => if SFltb a b then b else a
  end.
(** [f64::clamp]. *)
Definition f64_clamp (x lo hi : f64) : f64 :=
  if SFltb x lo then lo else if SFltb hi x then hi else x.

(** The integer part of a float towards zero, and its ceiling, for finite
    non-negative ones; the cast [as u64] saturates. *)
Definition f64_trunc (x : f64) : Z :=
  match x with
  | S754_finite false m e => if 0 <=? e then Zpos m * 2 ^ e else Zpos m / 2 ^ (- e)
  | S754_infinity false => u64_max
  | _ => 0
  end.
Definition f64_as_u64 (x : f64) : Z := Z.min u64_max (f64_trunc x).
Definition f64_ceil (x : f64) : Z :=
  match x with
  | S754_finite false m e => if 0 <=? e then Zpos m * 2 ^ e else - (- Zpos m / 2 ^ (- e))
  | _ => 0
  end.

(** ** Digits *)

Lemma digits2_pos_log2 p : Zpos (digits2_pos p) = Z.log2 (Zpos p) + 1.
Proof.
  induction p as [p IH|p IH|]; [..|done]; cbn [digits2_pos]; rewrite Pos2Z.inj_succ, IH.
  - rewrite Pos2Z.inj_xI, Z.log2_succ_double by lia. lia.
  - rewrite Pos2Z.inj_xO, Z.log2_double by lia. lia.
Qed.

Lemma Zdigits2_pos m : 0 < m -> Zdigits2 m = Z.log2 m + 1.
Proof. destruct m as [|p|p]; try lia. intros _. apply digits2_pos_log2. Qed.

Lemma fexp_eq e : fexp prec emax e = Z.max (e - 53) (-1074).
Proof. done. Qed.

(** ** Shifting *)

Lemma pow2_xO p : 2 ^ Zpos p~0 = 2 ^ Zpos p * 2 ^ Zpos p.
Proof. rewrite <-Z.pow_add_r by lia. f_equal. lia. Qed.

Lemma pow2_xI p : 2 ^ Zpos p~1 = 2 * 2 ^ Zpos p * 2 ^ Zpos p.
Proof.
  rewrite <-Z.mul_assoc, <-Z.pow_add_r, <-Z.pow_succ_r by lia. f_equal. lia.
Qed.

Lemma shr_1_m r : 0 <= shr_m r -> shr_m (shr_1 r) = shr_m r / 2 /\ 0 <= shr_m (shr_1 r).
Proof.
  destruct r as [[|[p|p|]|p] b s]; simpl; intros H; try lia; split; try lia; try done.
  - change (Zpos p~1) with (2 * Zpos p + 1). rewrite <-Z.div2_div. done.
  - change (Zpos p~0) with (2 * Zpos p). rewrite <-Z.div2_div. done.
Qed.

Lemma iter_shr_1_m p r :
  0 <= shr_m r -> shr_m (iter_pos shr_1 p r) = shr_m r / 2 ^ Zpos p /\ 0 <= shr_m (iter_pos shr_1 p r).
Proof.
  revert r. induction p as [p IH|p IH|]; intros r Hr; cbn [iter_pos].
  - destruct (shr_1_m r Hr) as [E1 H1]. destruct (IH _ H1) as [E2 H2].
    destruct (IH _ H2) as [E3 H3]. split; [|done].
    rewrite E3, E2, E1, !Z.div_div by (try apply Z.pow_pos_nonneg; lia).
    rewrite pow2_xI. f_equal. lia.
  - destruct (IH _ Hr) as [E2 H2]. destruct (IH _ H2) as [E3 H3]. split; [|done].
    rewrite E3, E2, !Z.div_div by (try apply Z.pow_pos_nonneg; lia).
    by rewrite pow2_xO.
  - destruct (shr_1_m r Hr) as [E1 H1]. split; [|done]. by rewrite E1.
Qed.

Lemma shr_m_of_loc m l : shr_m (shr_record_of_loc m l) = m.
Proof. by destruct l as [|[]]. Qed.

(** One rounding shift: floor of the mantissa by the exponent's increase. *)
Definition rshift (m e : Z) : Z := Z.max 0 (fexp prec emax (Zdigits2 m + e) - e).

Lemma shr_fexp_spec m e l :
  0 <= m ->
  shr_m (fst (shr_fexp prec emax m e l)) = m / 2 ^ rshift m e /\
  snd (shr_fexp prec emax m e l) = e + rshift m e.
Proof.
  intros Hm. unfold shr_fexp, shr, rshift.
  destruct (fexp prec emax (Zdigits2 m + e) - e) as [|p|p] eqn:E; simpl fst; simpl snd.
  - rewrite Z.max_id, Z.pow_0_r, Z.div_1_r, shr_m_of_loc. lia.
  - rewrite Z.max_r by lia.
    destruct (iter_shr_1_m p (shr_record_of_loc m l)) as [E1 H1]; rewrite shr_m_of_loc in *; auto.
  - rewrite Z.max_l, Z.pow_0_r, Z.div_1_r, shr_m_of_loc by lia. lia.
Qed.

Lemma round_nearest_even_bounds m l : m <= round_nearest_even m l <= m + 1.
Proof. destruct l as [|[]]; simpl; [lia| |lia..]. destruct (Z.even m); lia. Qed.

(** ** Rounding of non-negative values *)

(** What rounding [m * 2^e] gives: zero only below the least exponent's unit,
    otherwise a mantissa of at most 53 bits at an exponent at least that of the
    format, and at that exponent at least the floor; or an overflow. *)
Definition rounds_to (m e : Z) (x : f64) : Prop :=
  let E0 := Z.max e (fexp prec emax (Zdigits2 m + e)) in
  let F := m / 2 ^ (E0 - e) in
  match x with
  | S754_zero s => s = false /\ F = 0
  | S754_infinity s => s = false /\ 970 < E0
  | S754_finite s M E => s = false /\ E0 <= E /\ (E = E0 -> F <= Zpos M) /\ Zpos M < 2 ^ 53
                         /\ E <= E0 + 1
                         /\ (e <= fexp prec emax (Zdigits2 m + e) -> 2 ^ 52 <= Zpos M \/ E = -1074)
  | S754_nan => False
  end.

(** Floor division by the rounding shift leaves at most 53 digits. *)
Lemma shifted_lt m e : 0 <= m -> 0 <= m / 2 ^ rshift m e < 2 ^ 53.
Proof.
  intros Hm. split; [apply Z.div_pos; [done|apply Z.pow_pos_nonneg; unfold rshift; lia]|].
  unfold rshift. rewrite fexp_eq.
  destruct (Z.eq_dec m 0) as [->|]; [by rewrite Z.div_0_l by (apply Z.pow_nonzero; lia)|].
  rewrite Zdigits2_pos by lia. set (sh := Z.max 0 _).
  apply Z.div_lt_upper_bound; [apply Z.pow_pos_nonneg; lia|].
  rewrite <-Z.pow_add_r by lia.
  apply Z.log2_lt_pow2; lia.
Qed.

(** The second shift, of a rounded mantissa: at most one place, and only for
    2^53. *)
Lemma rshift_rounded R e1 :
  0 <= R <= 2 ^ 53 -> -1074 <= e1 ->
  (rshift R e1 = 0 /\ R < 2 ^ 53) \/ (rshift R e1 = 1 /\ R = 2 ^ 53).
Proof.
  intros HR He. unfold rshift. rewrite fexp_eq.
  destruct (Z.eq_dec R 0) as [->|]; [simpl; lia|]. rewrite Zdigits2_pos by lia.
  destruct (Z.eq_dec R (2 ^ 53)) as [->|]; [change (Z.log2 (2 ^ 53)) with 53; lia|].
  assert (Z.log2 R < 53) by (apply Z.log2_lt_pow2; lia). lia.
Qed.

(** A value that is not shifted up fills the 53 bits, unless it is below the
    least exponent. *)
Lemma shifted_full m e :
  0 <= m -> e <= fexp prec emax (Zdigits2 m + e) ->
  2 ^ 52 <= m / 2 ^ rshift m e \/ e + rshift m e = -1074.
Proof.
  unfold rshift. rewrite fexp_eq. intros Hm He.
  destruct (Z.eq_dec m 0) as [->|]; [simpl in *; lia|].
  rewrite Zdigits2_pos in * by lia.
  destruct (Z.le_gt_cases (Z.log2 m + 1 + e - 53) (-1074)); [right; lia|left].
  apply Z.div_le_lower_bound; [apply Z.pow_pos_nonneg; lia|].
  rewrite <-Z.pow_add_r by lia. etransitivity; [|apply Z.log2_spec; lia].
  apply Z.pow_le_mono_r; lia.
Qed.

Lemma round_aux_spec m e l : 0 <= m -> rounds_to m e (binary_round_aux prec emax false m e l).
Proof.
  intros Hm. unfold binary_round_aux.
  destruct (shr_fexp_spec m e l Hm) as [Hr1 He1]. pose proof (shifted_lt m e Hm) as HF.
  destruct (shr_fexp prec emax m e l) as [r1 e1]. simpl in Hr1, He1. subst e1.
  set (R := round_nearest_even _ _).
  assert (shr_m r1 <= R <= shr_m r1 + 1) as HR by apply round_nearest_even_bounds.
  clearbody R. rewrite Hr1 in HR.
  assert (Z.max e (fexp prec emax (Zdigits2 m + e)) = e + rshift m e) as HE0 by (unfold rshift; lia).
  assert (-1074 <= e + rshift m e) as Hemin by (rewrite <-HE0, fexp_eq; lia).
  unfold rounds_to. rewrite HE0. replace (e + rshift m e - e) with (rshift m e) by lia.
  pose proof (shifted_full m e Hm) as Hfull.
  set (E0 := e + rshift m e) in *. set (F := m / 2 ^ rshift m e) in *.
  destruct (shr_fexp_spec R E0 loc_Exact) as [Hr2 He2]; [lia|].
  destruct (shr_fexp prec emax R E0 loc_Exact) as [r2 e2]. simpl in Hr2, He2. subst e2.
  change (emax - prec) with 971. clearbody E0 F.
  destruct (rshift_rounded R E0) as [[E2 HR2]|[E2 HR2]]; [lia|done|..]; rewrite E2 in *.
  - rewrite Z.pow_0_r, Z.div_1_r in Hr2. rewrite Hr2.
    destruct R as [|M|M]; [split; [done|lia]| |lia]. destruct (Z.leb_spec (E0 + 0) 971); [|split; [done|lia]].
    split_and!; try done; lia.
  - rewrite HR2 in Hr2. change (2 ^ 53 / 2 ^ 1) with 4503599627370496 in Hr2. rewrite Hr2.
    destruct (Z.leb_spec (E0 + 1) 971); [|split; [done|lia]]. split_and!; try done; lia.
Qed.

(** ** The order of non-negative floats *)

(** Non-negative, not NaN, with a mantissa at the format's exponent. *)
Definition nneg (x : f64) : Prop :=
  match x with
  | S754_zero _ => True
  | S754_infinity s => s = false
  | S754_finite s m e => s = false /\ Zpos m < 2 ^ 53 /\ -1074 <= e /\ (2 ^ 52 <= Zpos m \/ e = -1074)
  | S754_nan => False
  end.

Lemma rounds_to_nneg m e x :
  e <= fexp prec emax (Zdigits2 m + e) -> rounds_to m e x -> nneg x.
Proof.
  intros He. unfold rounds_to. rewrite Z.max_r by lia. rewrite fexp_eq in *.
  destruct x as [s|s| |s M E]; cbn [nneg]; [done|naive_solver|done|].
  intros (-> & HE & _ & HM & _ & Hfull). split_and!; auto; lia.
Qed.

Definition sf_le (x y : f64) : Prop := SFleb x y = true.

Lemma SFleb_finite m1 e1 m2 e2 :
  sf_le (S754_finite false m1 e1) (S754_finite false m2 e2) <->
  e1 < e2 \/ (e1 = e2 /\ Zpos m1 <= Zpos m2).
Proof.
  unfold sf_le, SFleb, SFcompare.
  destruct (Z.compare_spec e1 e2) as [->|H|H]; [|split; intros; (done || lia)..].
  change (Pos.compare_cont Eq m1 m2) with (Pos.compare m1 m2).
  destruct (Pos.compare_spec m1 m2) as [->|H|H]; split; intros; try done; try lia.
Qed.

Lemma sf_le_trans x y z : nneg x -> nneg y -> nneg z -> sf_le x y -> sf_le y z -> sf_le x z.
Proof.
  destruct x as [sx|[]| |[] mx ex], y as [sy|[]| |[] my ey], z as [sz|[]| |[] mz ez];
    cbn [nneg]; try (intros; done || (by destruct_and!)).
  rewrite !SFleb_finite. lia.
Qed.

(** For non-negative floats, [<] is the negation of [>=]. *)
Lemma SFltb_negb x y : nneg x -> nneg y -> SFltb x y = negb (SFleb y x).
Proof.
  destruct x as [sx|[]| |[] mx ex], y as [sy|[]| |[] my ey]; cbn [nneg]; intros;
    try done; try (by destruct_and!).
  unfold SFltb, SFleb, SFcompare. rewrite (Z.compare_antisym ex ey).
  destruct (Z.compare_spec ex ey) as [->|H'|H']; try done.
  change (Pos.compare_cont Eq) with Pos.compare. rewrite (Pos.compare_antisym mx my).
  by destruct (Pos.compare mx my).
Qed.

(** A mantissa at its canonical exponent. *)
Definition canonical53 (m : positive) (e : Z) : Prop :=
  fexp prec emax (Zdigits2 (Zpos m) + e) = e.

(** Rounding is monotone against a represented number: what is at least
    [mc * 2^ec] does not round below it. *)
Lemma rounds_to_ge m e x mc ec :
  canonical53 mc ec -> e <= ec -> Zpos mc * 2 ^ (ec - e) <= m ->
  rounds_to m e x -> sf_le (S754_finite false mc ec) x.
Proof.
  unfold canonical53. intros Hc He Hm.
  assert (0 < Zpos mc * 2 ^ (ec - e)) as Hpos by (apply Z.mul_pos_pos; [lia|apply Z.pow_pos_nonneg; lia]).
  assert (Zdigits2 (Zpos mc) + ec <= Zdigits2 m + e) as Hd.
  { rewrite !Zdigits2_pos by lia. apply Z.log2_le_mono in Hm.
    rewrite Z.log2_mul_pow2 in Hm by lia. lia. }
  unfold rounds_to. set (f := fexp prec emax (Zdigits2 m + e)).
  assert (ec <= f) as Hf by (subst f; rewrite fexp_eq in *; lia).
  rewrite Z.max_r by lia. set (F := m / 2 ^ (f - e)).
  assert (f = ec -> Zpos mc <= F) as HF.
  { intros E. subst F. rewrite E. apply Z.div_le_lower_bound; [apply Z.pow_pos_nonneg; lia|lia]. }
  assert (ec < f -> 0 < F) as HF2.
  { intros E. apply Z.div_str_pos. split; [apply Z.pow_pos_nonneg; lia|].
    subst f. rewrite fexp_eq in *. rewrite (Zdigits2_pos m) in * by lia.
    transitivity (2 ^ Z.log2 m); [apply Z.pow_le_mono_r; lia|apply Z.log2_spec; lia]. }
  destruct x as [s|s| |s M E]; [|by intros [-> _]|done|].
  - intros [-> H0]. lia.
  - intros (-> & HE & HM & _). apply SFleb_finite. lia.
Qed.

(** ** Normalization *)

Lemma iter_xO_mul m d : Zpos (Pos.iter xO m d) = Zpos m * 2 ^ Zpos d.
Proof.
  induction d as [|d IH] using Pos.peano_ind; [simpl; lia|].
  rewrite Pos.iter_succ, Pos2Z.inj_xO, IH, Pos2Z.inj_succ, Z.pow_succ_r by lia. lia.
Qed.

(** Aligning to a lower exponent multiplies the mantissa; never otherwise. *)
Lemma shl_align_spec m e e' :
  Zpos (fst (shl_align m e e')) = Zpos m * 2 ^ Z.max 0 (e - e') /\
  snd (shl_align m e e') = Z.min e e'.
Proof.
  unfold shl_align. destruct (e' - e) as [|p|p] eqn:E; cbn [fst snd].
  - rewrite Z.max_l by lia. lia.
  - rewrite Z.max_l by lia. lia.
  - rewrite iter_xO_mul. rewrite Z.max_r by lia. split; [do 2 f_equal; lia|lia].
Qed.

Lemma Zdigits2_shift m k : 0 < m -> 0 <= k -> Zdigits2 (m * 2 ^ k) = Zdigits2 m + k.
Proof.
  intros. rewrite !Zdigits2_pos, Z.log2_mul_pow2 by
    (try apply Z.mul_pos_pos; try apply Z.pow_pos_nonneg; lia). lia.
Qed.

(** What is rounded: the same value at an exponent not above the format's. *)
Lemma normalize_spec m e :
  0 < m ->
  exists e1, e1 = Z.min e (fexp prec emax (Zdigits2 m + e)) /\
    binary_normalize prec emax m e false
    = binary_round_aux prec emax false (m * 2 ^ (e - e1)) e1 loc_Exact /\
    Zdigits2 (m * 2 ^ (e - e1)) + e1 = Zdigits2 m + e.
Proof.
  intros Hm. eexists. split; [done|].
  destruct m as [|p|p]; try lia. cbn [binary_normalize]. unfold binary_round.
  change (Zpos (digits2_pos p)) with (Zdigits2 (Zpos p)).
  set (f := fexp prec emax (Zdigits2 (Zpos p) + e)).
  destruct (shl_align_spec p e f) as [H1 H2].
  destruct (shl_align p e f) as [m1 e1]. cbn [fst snd] in *. subst e1. rewrite H1.
  replace (e - Z.min e f) with (Z.max 0 (e - f)) by lia. split; [done|].
  rewrite Zdigits2_shift by lia. lia.
Qed.

Lemma normalize_nneg m e : 0 <= m -> nneg (binary_normalize prec emax m e false).
Proof.
  intros Hm. destruct (Z.eq_dec m 0) as [->|Hm0]; [done|].
  destruct (normalize_spec m e) as (e1 & He1 & -> & Hd); [lia|].
  eapply rounds_to_nneg; [|apply round_aux_spec].
  - rewrite Hd. lia.
  - apply Z.mul_nonneg_nonneg; [lia|apply Z.pow_nonneg; lia].
Qed.

Lemma nneg_canonical m e : nneg (S754_finite false m e) -> canonical53 m e.
Proof.
  intros (_ & Hm & He & Hf). unfold canonical53. rewrite fexp_eq, Zdigits2_pos by lia.
  assert (Z.log2 (Zpos m) < 53) by (apply Z.log2_lt_pow2; lia).
  destruct Hf as [Hf| ->]; [|lia].
  assert (52 <= Z.log2 (Zpos m)) by (apply Z.log2_le_pow2; lia). lia.
Qed.

Lemma normalize_ge m e mc ec :
  nneg (S754_finite false mc ec) -> e <= ec -> Zpos mc * 2 ^ (ec - e) <= m ->
  sf_le (S754_finite false mc ec) (binary_normalize prec emax m e false).
Proof.
  intros Hc%nneg_canonical He Hm.
  assert (0 < Zpos mc * 2 ^ (ec - e)) as Hpos by (apply Z.mul_pos_pos; [lia|apply Z.pow_pos_nonneg; lia]).
  destruct (normalize_spec m e) as (e1 & He1 & -> & Hd); [lia|].
  eapply rounds_to_ge; [done| |..|apply round_aux_spec].
  - lia.
  - replace (ec - e1) with ((ec - e) + (e - e1)) by lia. rewrite Z.pow_add_r by lia.
    rewrite Z.mul_assoc. apply Z.mul_le_mono_nonneg_r; [apply Z.pow_nonneg; lia|done].
  - apply Z.mul_nonneg_nonneg; [lia|apply Z.pow_nonneg; lia].
Qed.

(** ** Exactness *)

Lemma iter_shr_exact p M :
  0 <= M ->
  iter_pos shr_1 p {| shr_m := M * 2 ^ Zpos p; shr_r := false; shr_s := false |}
  = {| shr_m := M; shr_r := false; shr_s := false |}.
Proof.
  assert (forall N, 0 <= N -> shr_1 {| shr_m := N * 2; shr_r := false; shr_s := false |}
    = {| shr_m := N; shr_r := false; shr_s := false |}) as Hone.
  { intros [|q|q] HN; simpl; try done; try lia. by rewrite Pos.mul_comm. }
  revert M. induction p as [p IH|p IH|]; intros M HM; cbn [iter_pos].
  - rewrite pow2_xI. replace (M * (2 * 2 ^ Zpos p * 2 ^ Zpos p)) with (M * 2 ^ Zpos p * 2 ^ Zpos p * 2) by lia.
    assert (0 <= 2 ^ Zpos p) by (apply Z.pow_nonneg; lia).
    rewrite Hone, !IH by (repeat apply Z.mul_nonneg_nonneg; lia). done.
  - rewrite pow2_xO, Z.mul_assoc.
    assert (0 <= 2 ^ Zpos p) by (apply Z.pow_nonneg; lia).
    rewrite !IH by (repeat apply Z.mul_nonneg_nonneg; lia). done.
  - by apply Hone.
Qed.

(** Rounding an exactly represented value gives that representation. *)
Lemma round_aux_exact M E e :
  nneg (S754_finite false M E) -> E <= 971 -> e <= E ->
  binary_round_aux prec emax false (Zpos M * 2 ^ (E - e)) e loc_Exact = S754_finite false M E.
Proof.
  intros Hn HE He. pose proof (nneg_canonical _ _ Hn) as Hc. unfold canonical53 in Hc.
  assert (shr_fexp prec emax (Zpos M) E loc_Exact
    = ({| shr_m := Zpos M; shr_r := false; shr_s := false |}, E)) as H2.
  { unfold shr_fexp. rewrite Hc, Z.sub_diag. done. }
  assert (shr_fexp prec emax (Zpos M * 2 ^ (E - e)) e loc_Exact
    = ({| shr_m := Zpos M; shr_r := false; shr_s := false |}, E)) as H1.
  { unfold shr_fexp. rewrite Zdigits2_shift by lia.
    replace (Zdigits2 (Zpos M) + (E - e) + e) with (Zdigits2 (Zpos M) + E) by lia.
    rewrite Hc. unfold shr. destruct (E - e) as [|p|p] eqn:Ep.
    - rewrite Z.pow_0_r, Z.mul_1_r. cbn [shr_record_of_loc]. repeat f_equal. lia.
    - cbn [shr_record_of_loc]. rewrite iter_shr_exact by lia. repeat f_equal. lia.
    - lia. }
  unfold binary_round_aux. rewrite H1. cbn [loc_of_shr_record shr_m round_nearest_even].
  rewrite H2. cbn [shr_m]. change (emax - prec) with 971.
  destruct (Z.leb_spec E 971); [done|lia].
Qed.

(** The canonical representation of a positive integer below 2^53. *)
Lemma f64_of_u64_scaled n k :
  0 < n < 2 ^ 53 -> 0 <= k <= 1074 ->
  exists M E, binary_normalize prec emax (n * 2 ^ k) (- k) false = S754_finite false M E /\
    nneg (S754_finite false M E) /\ -52 <= E <= 0 /\ E = Z.log2 n - 52 /\ Zpos M = n * 2 ^ (- E).
Proof.
  intros Hn Hk.
  assert (0 <= Z.log2 n < 53) as Hlog by (split; [apply Z.log2_nonneg|apply Z.log2_lt_pow2; lia]).
  pose proof (Z.log2_spec n ltac:(lia)) as [Hlo Hhi].
  set (E := Z.log2 n - 52).
  assert (0 < n * 2 ^ (- E)) as Hpos by (apply Z.mul_pos_pos; [|apply Z.pow_pos_nonneg]; lia).
  destruct (n * 2 ^ (- E)) as [|M|M] eqn:HM; try lia.
  assert (nneg (S754_finite false M E)) as Hnn.
  { assert (2 ^ Z.log2 n * 2 ^ (- E) = 2 ^ 52) as H52.
    { rewrite <-Z.pow_add_r by lia. f_equal. lia. }
    assert (2 ^ Z.succ (Z.log2 n) * 2 ^ (- E) = 2 ^ 53) as H53.
    { rewrite <-Z.pow_add_r by lia. f_equal. lia. }
    assert (0 < 2 ^ (- E)) by (apply Z.pow_pos_nonneg; lia).
    cbn [nneg]. rewrite <-HM, <-H52, <-H53. split_and!; [done|nia|lia|left; nia]. }
  exists M, E. split_and!; try done; try lia.
  assert (0 < n * 2 ^ k) as Hp by (apply Z.mul_pos_pos; [|apply Z.pow_pos_nonneg]; lia).
  destruct (normalize_spec (n * 2 ^ k) (- k) Hp) as (e1 & He1 & -> & _).
  rewrite Zdigits2_shift, Zdigits2_pos, fexp_eq in He1 by lia.
  assert (e1 <= E) as HeE by lia.
  replace (n * 2 ^ k * 2 ^ (- k - e1)) with (Zpos M * 2 ^ (E - e1)).
  - apply round_aux_exact; [done|lia..].
  - rewrite <-HM, <-!Z.mul_assoc, <-!Z.pow_add_r by lia. do 2 f_equal. lia.
Qed.

Lemma f64_of_u64_spec n :
  0 < n < 2 ^ 53 ->
  exists M E, f64_of_u64 n = S754_finite false M E /\ nneg (S754_finite false M E) /\
    -52 <= E <= 0 /\ E = Z.log2 n - 52 /\ Zpos M = n * 2 ^ (- E).
Proof.
  intros Hn. destruct (f64_of_u64_scaled n 0 Hn ltac:(lia)) as (M & E & HE & H).
  exists M, E. split; [|done]. rewrite <-HE, Z.pow_0_r, Z.mul_1_r. done.
Qed.

(** The representation does not depend on how the value is scaled. *)
Lemma f64_of_u64_unscale n k :
  0 <= n < 2 ^ 53 -> 0 <= k <= 1074 ->
  binary_normalize prec emax (n * 2 ^ k) (- k) false = f64_of_u64 n.
Proof.
  intros Hn Hk. destruct (Z.eq_dec n 0) as [->|Hn0]; [done|].
  destruct (f64_of_u64_scaled n k) as (M & E & -> & _ & _ & HE & HM); [lia..|].
  destruct (f64_of_u64_spec n) as (M' & E' & -> & _ & _ & HE' & HM'); [lia..|].
  subst E'. subst E. f_equal. lia.
Qed.

Lemma f64_of_u64_nneg n : 0 <= n -> nneg (f64_of_u64 n).
Proof. intros. by apply normalize_nneg. Qed.

(** Integers below 2^53 compare as floats the way they compare. *)
Lemma f64_of_u64_le a b :
  0 <= a < 2 ^ 53 -> 0 <= b < 2 ^ 53 -> sf_le (f64_of_u64 a) (f64_of_u64 b) <-> a <= b.
Proof.
  intros Ha Hb. destruct (Z.eq_dec a 0) as [->|Ha0].
  { destruct (Z.eq_dec b 0) as [->|Hb0]; [done|].
    destruct (f64_of_u64_spec b) as (M & E & -> & _); [lia|]. split; [lia|done]. }
  destruct (f64_of_u64_spec a) as (Ma & Ea & -> & _ & HEa & HLa & HMa); [lia|].
  destruct (Z.eq_dec b 0) as [->|Hb0]; [split; [done|lia]|].
  destruct (f64_of_u64_spec b) as (Mb & Eb & -> & _ & HEb & HLb & HMb); [lia|].
  rewrite SFleb_finite. split.
  - intros [H|[H1 H2]].
    + destruct (Z.le_gt_cases a b) as [|H']; [done|].
      pose proof (Z.log2_le_mono b a). lia.
    + rewrite HMa, HMb, H1 in H2.
      assert (0 < 2 ^ (- Eb)) by (apply Z.pow_pos_nonneg; lia). nia.
  - intros H. pose proof (Z.log2_le_mono a b H).
    destruct (Z.eq_dec Ea Eb) as [He|He]; [right|left; lia]. split; [done|].
    rewrite HMa, HMb, He. assert (0 < 2 ^ (- Eb)) by (apply Z.pow_pos_nonneg; lia). nia.
Qed.

Lemma f64_of_u64_lt a b :
  0 <= a < 2 ^ 53 -> 0 <= b < 2 ^ 53 -> f64_lt (f64_of_u64 a) (f64_of_u64 b) = (a <? b).
Proof.
  intros Ha Hb. unfold f64_lt. rewrite SFltb_negb by (apply f64_of_u64_nneg; lia).
  pose proof (f64_of_u64_le b a Hb Ha) as Hle. unfold sf_le in Hle.
  destruct (SFleb _ _), (Z.ltb_spec a b); simpl; try done.
  - destruct Hle as [Hle _]. specialize (Hle eq_refl). lia.
  - destruct Hle as [_ Hle]. specialize (Hle ltac:(lia)). done.
Qed.

(** ** Finiteness *)

Definition is_finite (x : f64) : Prop :=
  match x with S754_zero _ | S754_finite _ _ _ => True | _ => False end.

(** A float below 2^(b + 53). *)
Definition below (b : Z) (x : f64) : Prop :=
  match x with
  | S754_zero _ => True
  | S754_finite _ m e => Zpos m < 2 ^ 53 /\ e <= b
  | _ => False
  end.

Lemma below_finite b x : below b x -> is_finite x.
Proof. by destruct x. Qed.

Lemma rounds_to_below m e x b :
  rounds_to m e x -> e <= b -> Zdigits2 m + e <= b -> -1074 <= b < 970 -> below (b + 1) x.
Proof.
  unfold rounds_to. rewrite fexp_eq. destruct x as [s|s| |s M E]; cbn [below]; lia.
Qed.

Lemma normalize_below m e b :
  0 <= m -> e <= b -> Zdigits2 m + e <= b -> -1074 <= b < 970 ->
  below (b + 1) (binary_normalize prec emax m e false).
Proof.
  intros Hm He Hd Hb. destruct (Z.eq_dec m 0) as [->|Hm0]; [done|].
  destruct (normalize_spec m e) as (e1 & He1 & -> & Hdig); [lia|].
  eapply rounds_to_below; [apply round_aux_spec|..]; lia.
Qed.

Lemma f64_of_int_below n k : 0 <= n < 2 ^ k -> 0 <= k < 900 -> below (k + 1) (f64_of_u64 n).
Proof.
  intros Hn Hk. apply (normalize_below n 0 k); [lia..| |lia].
  destruct (Z.eq_dec n 0) as [->|Hn0]; [simpl; lia|].
  rewrite Zdigits2_pos by lia. assert (Z.log2 n < k) by (apply Z.log2_lt_pow2; lia). lia.
Qed.

Lemma f64_of_u64_below n : 0 <= n <= u64_max -> below 65 (f64_of_u64 n).
Proof. intros Hn. apply (f64_of_int_below n 64); unfold u64_max in Hn; lia. Qed.

(** The float of a positive integer is a positive one. *)
Lemma f64_of_int_finite n :
  0 < n < 2 ^ 128 -> exists m e, f64_of_u64 n = S754_finite false m e.
Proof.
  intros Hn. pose proof (f64_of_int_below n 128 ltac:(lia) ltac:(lia)) as Hb.
  pose proof (normalize_nneg n 0 ltac:(lia)) as Hnn. unfold f64_of_u64 in *.
  destruct (normalize_spec n 0) as (e1 & He1 & Heq & Hd); [lia|]. rewrite Heq in *.
  pose proof (round_aux_spec (n * 2 ^ (0 - e1)) e1 loc_Exact
    ltac:(apply Z.mul_nonneg_nonneg; [lia|apply Z.pow_nonneg; lia])) as Hr.
  destruct (binary_round_aux _ _ _ _ _ _) as [s|s| |[] m e]; try done; [|by destruct Hnn as [? _]|by eexists _, _].
  unfold rounds_to in Hr. rewrite Hd, fexp_eq in *. rewrite Zdigits2_pos in * by lia.
  destruct Hr as [_ Hr]. exfalso. revert Hr. apply Z.neq_sym, Z.lt_neq, Z.div_str_pos.
  assert (0 <= Z.log2 n) by apply Z.log2_nonneg.
  split; [apply Z.pow_pos_nonneg; lia|].
  transitivity (2 ^ Z.log2 n * 2 ^ (0 - e1)).
  - rewrite <-Z.pow_add_r by lia. apply Z.pow_le_mono_r; lia.
  - apply Z.mul_le_mono_nonneg_r; [apply Z.pow_nonneg; lia|apply Z.log2_spec; lia].
Qed.

(** Integers from 2^53 on have a positive exponent. *)
Lemma f64_of_u64_large n :
  2 ^ 53 <= n < 2 ^ 128 -> exists m e, f64_of_u64 n = S754_finite false m e /\ 1 <= e.
Proof.
  intros Hn. destruct (f64_of_int_finite n) as (m & e & Hf); [lia|].
  exists m, e. split; [done|]. unfold f64_of_u64 in Hf.
  destruct (normalize_spec n 0) as (e1 & He1 & Heq & Hd); [lia|]. rewrite Heq in Hf.
  pose proof (round_aux_spec (n * 2 ^ (0 - e1)) e1 loc_Exact
    ltac:(apply Z.mul_nonneg_nonneg; [lia|apply Z.pow_nonneg; lia])) as Hr.
  rewrite Hf in Hr. destruct Hr as (_ & HE & _). rewrite Hd, fexp_eq, Zdigits2_pos in HE by lia.
  assert (53 <= Z.log2 n) by (apply Z.log2_le_pow2; lia). lia.
Qed.

(** Conversion is monotone over an exactly represented integer. *)
Lemma f64_of_u64_mono a b :
  0 <= a < 2 ^ 53 -> a <= b < 2 ^ 128 -> sf_le (f64_of_u64 a) (f64_of_u64 b).
Proof.
  intros Ha Hb. destruct (Z.lt_ge_cases b (2 ^ 53)); [apply f64_of_u64_le; lia|].
  destruct (f64_of_u64_large b) as (m & e & -> & He); [lia|].
  destruct (Z.eq_dec a 0) as [->|Ha0]; [done|].
  destruct (f64_of_u64_spec a) as (ma & ea & -> & _ & Hea & _); [lia|].
  apply SFleb_finite. lia.
Qed.

(** ** The operations *)

(** Aligned operands, as the sums compute them. *)
Lemma aligned m e e' : e' <= e -> Zpos (fst (shl_align m e e')) = Zpos m * 2 ^ (e - e').
Proof. intros H. destruct (shl_align_spec m e e') as [-> _]. do 2 f_equal. lia. Qed.

Lemma f64_add_nneg x y : nneg x -> nneg y -> nneg (f64_add x y).
Proof.
  destruct x as [[]|[]| |[] mx ex], y as [[]|[]| |[] my ey]; cbn [nneg]; intros;
    try done; try (by destruct_and!).
  by apply normalize_nneg.
Qed.

(** A sum of non-negative floats is not below either represented term. *)
Lemma f64_add_ge x y : nneg x -> nneg y -> sf_le y (f64_add x y).
Proof.
  destruct x as [sx|[]| |[] mx ex], y as [sy|[]| |[] my ey]; cbn [nneg]; intros Hx Hy;
    try done; try (by destruct_and!).
  - by destruct sx, sy.
  - apply SFleb_finite. lia.
  - apply normalize_ge; [done|lia|]. cbn [cond_Zopp]. rewrite !aligned by lia.
    assert (0 < 2 ^ (ex - Z.min ex ey)) by (apply Z.pow_pos_nonneg; lia). lia.
Qed.

Lemma f64_zero_add x : nneg x -> f64_add f64_zero x = x \/ f64_add f64_zero x = f64_zero.
Proof. destruct x as [[]|[]| |[] mx ex]; cbn; auto. Qed.

(** Differences of integers below 2^53 are exact. *)
Lemma f64_sub_exact a b :
  0 <= b <= a -> a < 2 ^ 53 -> f64_sub (f64_of_u64 a) (f64_of_u64 b) = f64_of_u64 (a - b).
Proof.
  intros Hb Ha. destruct (Z.eq_dec b 0) as [->|Hb0].
  { rewrite Z.sub_0_r. destruct (Z.eq_dec a 0) as [->|Ha0]; [done|].
    by destruct (f64_of_u64_spec a) as (M & E & -> & _); [lia|]. }
  destruct (f64_of_u64_spec a) as (Ma & Ea & -> & _ & HEa & HLa & HMa); [lia|].
  destruct (f64_of_u64_spec b) as (Mb & Eb & -> & _ & HEb & HLb & HMb); [lia|].
  unfold f64_sub, SFsub, cond_Zopp. rewrite !aligned by lia.
  set (k := - Z.min Ea Eb).
  rewrite <-(f64_of_u64_unscale (a - b) k) by lia.
  replace (Z.min Ea Eb) with (- k) by lia. f_equal.
  rewrite HMa, HMb, <-!Z.mul_assoc, <-!Z.pow_add_r, Z.mul_sub_distr_r by lia.
  f_equal; do 2 f_equal; lia.
Qed.

Lemma f64_one_finite : f64_one = S754_finite false 4503599627370496 (-52).
Proof. by vm_compute. Qed.

(** A clamped float lies in the unit interval. *)
Lemma f64_clamp_unit x :
  nneg x -> nneg (f64_clamp x f64_zero f64_one) /\ sf_le (f64_clamp x f64_zero f64_one) f64_one.
Proof.
  intros Hx. unfold f64_clamp. rewrite f64_one_finite.
  rewrite SFltb_negb by done. destruct (SFleb f64_zero x) eqn:E0; [|done]. cbn [negb].
  rewrite SFltb_negb by (try done; cbn; lia).
  destruct (SFleb x _) eqn:E1; cbn [negb]; [done|cbn; split; [lia|done]].
Qed.

(** The weight left of a window: [1.0 - progress]. *)
Lemma f64_one_minus p :
  nneg p -> sf_le p f64_one -> nneg (f64_sub f64_one p) /\ below 2 (f64_sub f64_one p).
Proof.
  rewrite f64_one_finite.
  destruct p as [s|[]| |[] m e]; cbn [nneg]; try done; try (by intros; destruct_and!).
  { intros _ _. split; [cbn; lia|by vm_compute]. }
  intros Hp. rewrite SFleb_finite. intros Hle.
  unfold f64_sub, SFsub, cond_Zopp. rewrite !aligned by lia. replace (Z.min (-52) e) with e by lia.
  rewrite Z.sub_diag, Z.pow_0_r, Z.mul_1_r.
  set (d := 4503599627370496 * 2 ^ (-52 - e) - Zpos m).
  assert (0 <= d) as Hd.
  { subst d. destruct Hle as [Hle|[-> Hle]]; [|rewrite Z.sub_diag; lia].
    assert (2 ^ 1 <= 2 ^ (-52 - e)) by (apply Z.pow_le_mono_r; lia).
    change 4503599627370496 with (2 ^ 52). lia. }
  split; [by apply normalize_nneg|].
  destruct (Z.eq_dec d 0) as [->|Hd0]; [done|].
  assert (Zdigits2 d + e <= 1) as Hub.
  { rewrite Zdigits2_pos by lia.
    assert (Z.log2 d <= - e); [|lia].
    transitivity (Z.log2 (2 ^ (- e))); [|rewrite Z.log2_pow2; lia].
    apply Z.log2_le_mono. replace (- e) with (52 + (-52 - e)) by lia.
    rewrite Z.pow_add_r by lia. subst d. change 4503599627370496 with (2 ^ 52). lia. }
  apply (normalize_below d e 1); lia.
Qed.

Lemma f64_mul_nneg x y : nneg x -> nneg y -> is_finite x -> is_finite y -> nneg (f64_mul x y).
Proof.
  destruct x as [sx|[]| |[] mx ex], y as [sy|[]| |[] my ey]; cbn [nneg is_finite];
    intros Hx Hy Fx Fy; try done; try (by destruct_and!).
  unfold f64_mul, SFmul. cbn [xorb]. eapply rounds_to_nneg; [|by apply round_aux_spec].
  rewrite fexp_eq, Pos2Z.inj_mul, Zdigits2_pos by lia.
  destruct Hx as (_ & Hx & Hex & Hfx), Hy as (_ & Hy & Hey & Hfy).
  assert (2 ^ 52 <= Zpos mx \/ 2 ^ 52 <= Zpos my -> 52 <= Z.log2 (Zpos mx * Zpos my)).
  { intros H. change 52 with (Z.log2 (2 ^ 52)). apply Z.log2_le_mono. nia. }
  pose proof (Z.log2_nonneg (Zpos mx * Zpos my)). lia.
Qed.

(** The quotient's digits reach the precision before the remainder is cut. *)
Lemma f64_div_nneg x y :
  nneg x -> nneg y -> is_finite x ->
  match y with S754_finite _ _ _ => True | _ => False end -> nneg (f64_div x y).
Proof.
  destruct x as [sx|[]| |[] mx ex], y as [sy|[]| |[] my ey]; cbn [nneg is_finite];
    intros Hx Hy Fx Fy; try done; try (by destruct_and!).
  unfold f64_div, SFdiv, SFdiv_core_binary. cbn [xorb].
  set (e' := Z.min _ _). set (s := ex - ey - e').
  assert (0 <= s) as Hs by lia.
  replace (match s with Z0 => Zpos mx | Zpos _ => Z.shiftl (Zpos mx) s | Zneg _ => 0 end)
    with (Zpos mx * 2 ^ s) by (destruct s; [lia|by rewrite Z.shiftl_mul_pow2|lia]).
  pose proof (Z.div_mod (Zpos mx * 2 ^ s) (Zpos my) ltac:(lia)) as Hdm.
  pose proof (Z.mod_pos_bound (Zpos mx * 2 ^ s) (Zpos my) ltac:(lia)) as Hmod.
  unfold Z.div, Z.modulo in Hdm, Hmod.
  assert (0 < 2 ^ s) by (apply Z.pow_pos_nonneg; lia).
  destruct (Z.div_eucl (Zpos mx * 2 ^ s) (Zpos my)) as [q r]. cbn beta iota in Hdm, Hmod.
  assert (0 <= q) as Hq by nia.
  eapply rounds_to_nneg; [|by apply round_aux_spec].
  enough (Zdigits2 (Zpos mx) + s - Zdigits2 (Zpos my) <= Zdigits2 q) as HD.
  { assert (e' <= fexp prec emax (Zdigits2 (Zpos mx) + ex - (Zdigits2 (Zpos my) + ey))) as Hle by lia.
    rewrite fexp_eq in *. subst s. lia. }
  destruct (Z.eq_dec q 0) as [->|Hq0].
  - assert (Zpos mx * 2 ^ s <= Zpos my) as Hle by lia.
    apply Z.log2_le_mono in Hle. rewrite Z.log2_mul_pow2 in Hle by lia.
    rewrite !(Zdigits2_pos (Zpos _)) by lia. change (Zdigits2 0) with 0. lia.
  - rewrite !Zdigits2_pos by lia.
    assert (Zpos mx * 2 ^ s < 2 ^ (Z.log2 q + 1 + (Z.log2 (Zpos my) + 1))) as Hlt.
    { rewrite Z.pow_add_r by (pose proof (Z.log2_nonneg q); pose proof (Z.log2_nonneg (Zpos my)); lia).
      pose proof (Z.log2_spec q ltac:(lia)) as [_ H1]. unfold Z.succ in H1.
      pose proof (Z.log2_spec (Zpos my) ltac:(lia)) as [_ H2]. unfold Z.succ in H2. nia. }
    apply Z.log2_lt_pow2 in Hlt; [|lia]. rewrite Z.log2_mul_pow2 in Hlt by lia. lia.
Qed.

(** ** Bounds of the operations *)

Lemma f64_add_below x y b :
  nneg x -> nneg y -> below b x -> below b y -> -1074 <= b < 900 -> below (b + 55) (f64_add x y).
Proof.
  destruct x as [[]|[]| |[] mx ex], y as [[]|[]| |[] my ey]; cbn [nneg below]; intros Hx Hy Bx By Hb;
    try done; try lia; try (by destruct_and!); try (cbn; lia).
  replace (b + 55) with (b + 54 + 1) by lia.
  unfold f64_add, SFadd, cond_Zopp. rewrite !aligned by lia. set (ez := Z.min ex ey).
  assert (0 < 2 ^ (ex - ez) <= 2 ^ (b - ez) /\ 0 < 2 ^ (ey - ez) <= 2 ^ (b - ez)).
  { repeat split; try (apply Z.pow_pos_nonneg; lia); apply Z.pow_le_mono_r; lia. }
  apply normalize_below; [lia..| |lia].
  rewrite Zdigits2_pos by lia.
  assert (Zpos mx * 2 ^ (ex - ez) + Zpos my * 2 ^ (ey - ez) < 2 ^ (54 + (b - ez))) as Hlt.
  { rewrite Z.pow_add_r by lia. nia. }
  apply Z.log2_lt_pow2 in Hlt; lia.
Qed.

(** A quotient of integers below 2^53. *)
Lemma f64_div_u64_below a b :
  0 <= a < 2 ^ 53 -> 0 < b < 2 ^ 53 -> below 108 (f64_div (f64_of_u64 a) (f64_of_u64 b)).
Proof.
  intros Ha Hb. destruct (f64_of_u64_spec b) as (my & ey & -> & _ & Hey & _); [lia|].
  destruct (Z.eq_dec a 0) as [->|Ha0]; [done|].
  destruct (f64_of_u64_spec a) as (mx & ex & -> & (_ & Hmx & _) & Hex & _); [lia|].
  unfold f64_div, SFdiv, SFdiv_core_binary. cbn [xorb].
  set (e' := Z.min _ _). set (s := ex - ey - e').
  assert (0 <= s) as Hs by lia.
  replace (match s with Z0 => Zpos mx | Zpos _ => Z.shiftl (Zpos mx) s | Zneg _ => 0 end)
    with (Zpos mx * 2 ^ s) by (destruct s; [lia|by rewrite Z.shiftl_mul_pow2|lia]).
  pose proof (Z.div_mod (Zpos mx * 2 ^ s) (Zpos my) ltac:(lia)) as Hdm.
  pose proof (Z.mod_pos_bound (Zpos mx * 2 ^ s) (Zpos my) ltac:(lia)) as Hmod.
  unfold Z.div, Z.modulo in Hdm, Hmod.
  assert (0 < 2 ^ s) by (apply Z.pow_pos_nonneg; lia).
  destruct (Z.div_eucl (Zpos mx * 2 ^ s) (Zpos my)) as [q r]. cbn beta iota in Hdm, Hmod.
  assert (0 <= q) as Hq by nia.
  replace 108 with (107 + 1) by done.
  eapply rounds_to_below; [by apply round_aux_spec|lia| |lia].
  destruct (Z.eq_dec q 0) as [->|Hq0]; [change (Zdigits2 0) with 0; lia|].
  rewrite Zdigits2_pos by lia.
  assert (q < 2 ^ (53 + s)) as Hlt by (rewrite Z.pow_add_r by lia; nia).
  apply Z.log2_lt_pow2 in Hlt; lia.
Qed.

Lemma f64_mul_below x y a b :
  nneg x -> nneg y -> below a x -> below b y -> -500 <= a < 400 -> -500 <= b < 400 ->
  below (a + b + 107) (f64_mul x y).
Proof.
  destruct x as [sx|[]| |[] mx ex], y as [sy|[]| |[] my ey]; cbn [nneg below]; intros;
    try done; try (by destruct_and!).
  replace (a + b + 107) with (a + b + 106 + 1) by lia.
  unfold f64_mul, SFmul. cbn [xorb]. rewrite Pos2Z.inj_mul.
  eapply rounds_to_below; [by apply round_aux_spec|lia| |lia].
  rewrite Zdigits2_pos by lia.
  assert (Zpos mx * Zpos my < 2 ^ 106) as Hlt by (change (2 ^ 106) with (2 ^ 53 * 2 ^ 53); nia).
  apply Z.log2_lt_pow2 in Hlt; lia.
Qed.

(** Ceilings of floats from one on. *)
Lemma f64_ceil_ge_one x : nneg x -> is_finite x -> sf_le f64_one x -> 1 <= f64_ceil x.
Proof.
  rewrite f64_one_finite. destruct x as [s|[]| |[] m e]; cbn [nneg is_finite]; try done; try naive_solver.
  intros Hn _ Hle%SFleb_finite. cbn [f64_ceil]. destruct (Z.leb_spec 0 e) as [He|He].
  - assert (0 < 2 ^ e) by (apply Z.pow_pos_nonneg; lia). nia.
  - assert (0 < 2 ^ (- e)) by (apply Z.pow_pos_nonneg; lia).
    enough (- Zpos m / 2 ^ (- e) < 0) by lia. apply Z.div_lt_upper_bound; lia.
Qed.

(** Multiplying by one. *)
Lemma f64_mul_one n : 0 <= n < 2 ^ 53 -> f64_mul (f64_of_u64 n) f64_one = f64_of_u64 n.
Proof.
  intros Hn. rewrite f64_one_finite. destruct (Z.eq_dec n 0) as [->|Hn0]; [done|].
  destruct (f64_of_u64_spec n) as (M & E & -> & Hnn & HE & _); [lia|].
  unfold f64_mul, SFmul. cbn [xorb]. rewrite Pos2Z.inj_mul.
  change 4503599627370496 with (2 ^ 52). replace 52 with (E - (E + -52)) at 1 by lia.
  apply round_aux_exact; [done|lia..].
Qed.

(** The integer a float stands for. *)
Lemma f64_trunc_u64 n : 0 <= n < 2 ^ 53 -> f64_trunc (f64_of_u64 n) = n.
Proof.
  intros Hn. destruct (Z.eq_dec n 0) as [->|Hn0]; [done|].
  destruct (f64_of_u64_spec n) as (M & E & -> & Hnn & HE & _ & HM); [lia|].
  cbn [f64_trunc]. rewrite HM. destruct (Z.leb_spec 0 E).
  - replace E with 0 by lia. simpl. lia.
  - apply Z.div_mul, Z.pow_nonzero; lia.
Qed.
