(* ===== verification/Store.v ===== *)
(** * The bounded store of shared cells

    The limiters and the circuit breakers keep [moka::sync::Cache<String,
    Arc<Mutex<V>>>]: a cache from keys to shared cells, from which the cache may
    evict an entry at any time while a request still holds the cell.  A [store]
    is the cache's table of references together with the heap of the cells.
    [get_with] is [get_with_by_ref], [modify] one critical section on a cell,
    and [evict] what the cache does on its own (capacity, idle time). *)

From S2P Require Export Prelude.

Definition loc := positive.

Record store (V : Type) := { st_keys : gmap str loc; st_heap : gmap loc V }.
Arguments st_keys {V}.
Arguments st_heap {V}.

Section Store.
Context {V : Type}.
Implicit Types (s : store V) (k : str) (l : loc).

Definition store_empty : store V := {| st_keys := ∅; st_heap := ∅ |}.

Definition get_with s k (init : V) : store V * loc :=
  match st_keys s !! k with
  | Some l => (s, l)
  | None => let l := fresh (dom (st_heap s)) in
            ({| st_keys := <[k:=l]> (st_keys s); st_heap := <[l:=init]> (st_heap s) |}, l)
  end.

Definition modify {R} s l (f : V -> V * R) : store V * option R :=
  match st_heap s !! l with
  | Some v => let '(v', r) := f v in
              ({| st_keys := st_keys s; st_heap := <[l:=v']> (st_heap s) |}, Some r)
  | None => (s, None)
  end.

Definition evict s k : store V := {| st_keys := delete k (st_keys s); st_heap := st_heap s |}.

(** The cell a key refers to now. *)
Definition cell s k : option V := letO l := st_keys s !! k in st_heap s !! l.

(** Distinct keys never share a cell, and every reference is to a cell. *)
Record store_wf s : Prop := {
  sw_live : forall k l, st_keys s !! k = Some l -> is_Some (st_heap s !! l);
  sw_inj : forall k k' l, st_keys s !! k = Some l -> st_keys s !! k' = Some l -> k = k';
}.

Lemma store_wf_empty : store_wf store_empty.
Proof. split; simpl; intros *; by rewrite lookup_empty. Qed.

Lemma get_with_spec s k init s' l :
  store_wf s -> get_with s k init = (s', l) ->
  store_wf s' /\ st_keys s' !! k = Some l /\
  (forall k', k' <> k -> cell s' k' = cell s k') /\
  cell s' k = Some (default init (cell s k)).
Proof.
  intros [Hlive Hinj]. unfold get_with, cell.
  destruct (st_keys s !! k) as [l0|] eqn:E; intros [= <- <-].
  { split_and!; [done|done|done|]. rewrite E. simpl. by destruct (Hlive _ _ E) as [v ->]. }
  set (lf := fresh (dom (st_heap s))).
  assert (st_heap s !! lf = None) as Hf by (apply not_elem_of_dom, is_fresh).
  split_and!; simpl.
  - assert (forall k', st_keys s !! k' <> Some lf) as Hnew.
    { intros k' [v Hv]%Hlive. congruence. }
    split; simpl.
    + intros k' l'. rewrite !lookup_insert. repeat case_decide; eauto; congruence.
    + intros k1 k2 l'. rewrite !lookup_insert. repeat case_decide; intros; simplify_eq; eauto;
        by exfalso; eapply Hnew.
  - by rewrite lookup_insert_eq.
  - intros k' Hk. rewrite lookup_insert_ne by done.
    destruct (st_keys s !! k') as [l'|] eqn:E'; [|done]. simpl.
    rewrite lookup_insert_ne; [done|]. intros <-. apply Hlive in E' as [v Hv]. congruence.
  - rewrite lookup_insert_eq. simpl. by rewrite lookup_insert_eq.
Qed.

Lemma modify_spec {R} s l (f : V -> V * R) v :
  store_wf s -> st_heap s !! l = Some v ->
  store_wf (modify s l f).1 /\ (modify s l f).2 = Some (f v).2 /\
  (forall k, st_keys s !! k = Some l -> cell (modify s l f).1 k = Some (f v).1) /\
  (forall k, st_keys s !! k <> Some l -> cell (modify s l f).1 k = cell s k).
Proof.
  intros [Hlive Hinj] Hv. unfold modify, cell. rewrite Hv. destruct (f v) as [v' r]. simpl.
  split_and!; [split; simpl; [|done]|done|..].
  - intros k l' Hk. rewrite lookup_insert. case_decide; eauto.
  - intros k ->. simpl. by rewrite lookup_insert_eq.
  - intros k Hk. destruct (st_keys s !! k) as [l'|]; [|done]. simpl.
    rewrite lookup_insert_ne; [done|congruence].
Qed.

Lemma evict_wf s k : store_wf s -> store_wf (evict s k).
Proof.
  intros [Hlive Hinj]. split; simpl.
  - intros k' l [_ H]%lookup_delete_Some. eauto.
  - intros k1 k2 l [_ H1]%lookup_delete_Some [_ H2]%lookup_delete_Some. eauto.
Qed.

(** A predicate of every cell, live or detached. *)
Definition all_cells (P : V -> Prop) s : Prop := map_Forall (fun _ => P) (st_heap s).

Lemma all_cells_get P s k init : all_cells P s -> P init -> all_cells P (get_with s k init).1.
Proof.
  intros H Hi. unfold get_with. destruct (st_keys s !! k); [done|]. by apply map_Forall_insert_2.
Qed.

Lemma all_cells_modify {R} P s l (f : V -> V * R) :
  all_cells P s -> (forall v, P v -> P (f v).1) -> all_cells P (modify s l f).1.
Proof.
  intros H Hf. unfold modify. destruct (st_heap s !! l) as [v|] eqn:E; [|done].
  specialize (Hf v (H _ _ E)). destruct (f v) as [v' r]. by apply map_Forall_insert_2.
Qed.

Lemma all_cells_evict P s k : all_cells P s -> all_cells P (evict s k).
Proof. done. Qed.
End Store.
