(* ===== verification/RateLimit.v ===== *)
(** * The sliding-window counter (ratelimit/mod.rs)

    [decide] is the quota arithmetic both counting backends share, on IEEE
    doubles; [Window] counts one key inside the process, and [WindowStore] is
    the capacity-limited store of windows.  An [Instant] is its reading in
    nanoseconds, a [Duration] its number of nanoseconds. *)

From S2P Require Export F64 Store Config.

Record Decision := {
  allowed : bool;
  limit : Z;
  remaining : Z;
  retry_after : Z;
}.
#[export] Instance Decision_eq_dec : EqDecision Decision.
Proof. solve_decision. Defined.

Definition allow (l r : Z) : Decision :=
  {| allowed := true; limit := l; remaining := r; retry_after := 0 |}.
Definition refuse (l r : Z) : Decision :=
  {| allowed := false; limit := l; remaining := 0; retry_after := Z.max r (from_secs 1) |}.

(** [Duration::as_secs_f64]. *)
Definition as_secs_f64 (d : Z) : f64 :=
  f64_add (f64_of_u64 (as_secs d))
    (f64_div (f64_of_u64 (d mod nanos_per_sec)) (f64_of_u64 nanos_per_sec)).

(** [Duration::from_secs_f64] of a float without fraction. *)
Definition from_whole_secs_f64 (x : f64) : Z := from_secs (f64_ceil x).

Definition interval_secs (interval : Z) : f64 := f64_max (as_secs_f64 interval) f64_min_positive.

Definition estimated (previous current : Z) (progress : f64) : f64 :=
  f64_add (f64_mul (f64_of_u64 previous) (f64_sub f64_one progress)) (f64_of_u64 current).

Definition decide (previous current : Z) (progress : f64) (l interval : Z) : Decision :=
  let progress := f64_clamp progress f64_zero f64_one in
  let est := estimated previous current progress in
  if f64_ge est (f64_of_u64 l) then
    let remaining_window := f64_mul (interval_secs interval) (f64_sub f64_one progress) in
    {| allowed := false; limit := l; remaining := 0;
       retry_after := from_whole_secs_f64 (f64_max remaining_window f64_one) |}
  else
    let r := f64_as_u64 (f64_max (f64_sub (f64_sub (f64_of_u64 l) est) f64_one) f64_zero) in
    {| allowed := true; limit := l; remaining := r; retry_after := 0 |}.

(** ** One key's window *)

Record Window := { w_start : Z; w_current : Z; w_previous : Z }.

Definition window_new (now : Z) : Window := {| w_start := now; w_current := 0; w_previous := 0 |}.

Definition window_roll (now interval : Z) (w : Window) : Window * Z :=
  let elapsed := saturating_duration_since now (w_start w) in
  if sat_mul duration_max interval 2 <=? elapsed then (window_new now, 0)
  else if interval <=? elapsed then
    ({| w_start := w_start w + interval; w_current := 0; w_previous := w_current w |},
     sat_sub elapsed interval)
  else (w, elapsed).

Definition window_check (now l interval : Z) (w : Window) : Window * Decision :=
  let '(w, elapsed) := window_roll now interval w in
  let progress :=
    f64_clamp (f64_div (as_secs_f64 elapsed) (interval_secs interval)) f64_zero f64_one in
  let d := decide (w_previous w) (w_current w) progress l interval in
  (if allowed d
   then {| w_start := w_start w; w_current := sat_add u64_max (w_current w) 1;
           w_previous := w_previous w |}
   else w, d).

(** A sequence of checks of one window, at the given times. *)
Fixpoint window_run (l interval : Z) (w : Window) (times : list Z) : Window * list Decision :=
  match times with
  | [] => (w, [])
  | t :: ts => let '(w1, d) := window_check t l interval w in
               let '(w2, ds) := window_run l interval w1 ts in (w2, d :: ds)
  end.

(** ** The store of windows *)

Module WindowStore.
Definition windows := store Window.

(** [Limiter::check_exact]: the cell is looked up or made, then checked under
    its lock. *)
Definition check_exact (l interval : Z) (s : windows) (key : str) (now : Z)
  : windows * option Decision :=
  let '(s, c) := get_with s key (window_new now) in
  modify s c (window_check now l interval).

(** A request that was let through: the cell that counted it, the start of the
    window it was counted in, and the time the request read. *)
Record Admission := { ad_cell : loc; ad_window : Z; ad_time : Z }.

Definition admission (s : windows) (c : loc) (now : Z) (d : option Decision) : list Admission :=
  match d, st_heap s !! c with
  | Some d, Some w => if allowed d then [{| ad_cell := c; ad_window := w_start w; ad_time := now |}] else []
  | _, _ => []
  end.

(** What concurrent requests and the cache do to the store, one atomic action
    at a time: a lookup, a critical section on any cell that was looked up
    (evicted since or not), an eviction; with the requests let through so far,
    the latest first. *)
Inductive run (l interval : Z) : windows -> list Admission -> Prop :=
| run_empty : run l interval store_empty []
| run_get s log key now : run l interval s log -> run l interval (get_with s key (window_new now)).1 log
| run_check s log c now s' d : run l interval s log -> modify s c (window_check now l interval) = (s', d) ->
    run l interval s' (admission s' c now d ++ log)
| run_evict s log key : run l interval s log -> run l interval (evict s key) log.

(** The requests let through that a cell counted in one window. *)
Definition admissions (log : list Admission) (c : loc) (start : Z) : Z :=
  Z.of_nat (length (filter (fun a => ad_cell a = c /\ ad_window a = start) log)).
End WindowStore.

(** ** The arithmetic of the estimate *)

Lemma as_secs_f64_nneg d : 0 <= d -> nneg (as_secs_f64 d).
Proof.
  intros Hd. unfold as_secs_f64. apply f64_add_nneg.
  - apply f64_of_u64_nneg. unfold as_secs, nanos_per_sec. by apply Z.div_pos.
  - pose proof (Z.mod_pos_bound d nanos_per_sec ltac:(done)).
    apply f64_div_nneg; [| | |exact I].
    + apply f64_of_u64_nneg. lia.
    + by apply f64_of_u64_nneg.
    + eapply below_finite, f64_of_u64_below. unfold u64_max. change nanos_per_sec with 1000000000 in *. lia.
Qed.

Lemma as_secs_f64_below d : 0 <= d <= duration_max -> below 163 (as_secs_f64 d).
Proof.
  intros Hd. unfold as_secs_f64.
  pose proof (Z.mod_pos_bound d nanos_per_sec ltac:(done)).
  assert (0 <= as_secs d <= u64_max).
  { unfold as_secs, duration_max, nanos_per_sec in *. split; [apply Z.div_pos; lia|].
    enough (d / 10 ^ 9 < u64_max + 1) by lia. apply Z.div_lt_upper_bound; lia. }
  change nanos_per_sec with 1000000000 in *.
  assert (forall b x, below 65 x -> 65 <= b -> below b x) as Hup.
  { intros b []; simpl; lia || done. }
  apply (f64_add_below _ _ 108); [apply f64_of_u64_nneg; lia| |apply Hup; [by apply f64_of_u64_below|done]| |lia].
  - apply f64_div_nneg; [apply f64_of_u64_nneg; lia|by apply f64_of_u64_nneg|..|by vm_compute].
    eapply below_finite, f64_of_u64_below. unfold u64_max. lia.
  - apply f64_div_u64_below; lia.
Qed.

Lemma interval_secs_ok i :
  0 <= i <= duration_max ->
  nneg (interval_secs i) /\ below 163 (interval_secs i) /\
  match interval_secs i with S754_finite _ _ _ => True | _ => False end.
Proof.
  intros Hi. pose proof (as_secs_f64_nneg i ltac:(lia)) as Hn.
  pose proof (as_secs_f64_below i Hi) as Hb. unfold interval_secs, f64_max.
  destruct (as_secs_f64 i) as [s|[]| |s m e]; cbn [below] in Hb; try done.
  { cbn. split_and!; done || lia. }
  destruct (SFltb _ _); [|done]. unfold f64_min_positive. cbn. split_and!; done || lia.
Qed.

Lemma progress_nneg elapsed i :
  0 <= elapsed <= duration_max -> 0 <= i <= duration_max ->
  nneg (f64_clamp (f64_div (as_secs_f64 elapsed) (interval_secs i)) f64_zero f64_one).
Proof.
  intros He Hi. destruct (interval_secs_ok i Hi) as (H1 & _ & H3).
  apply f64_clamp_unit, f64_div_nneg; [apply as_secs_f64_nneg; lia|done| |done].
  eapply below_finite, as_secs_f64_below; lia.
Qed.

(** The weight of the previous window. *)
Lemma weight_ok progress :
  nneg progress ->
  nneg (f64_sub f64_one (f64_clamp progress f64_zero f64_one)) /\
  below 2 (f64_sub f64_one (f64_clamp progress f64_zero f64_one)).
Proof. intros [H1 H2]%f64_clamp_unit. by apply f64_one_minus. Qed.

Lemma estimated_nneg previous current progress :
  nneg progress -> 0 <= previous <= u64_max -> 0 <= current ->
  nneg (estimated previous current (f64_clamp progress f64_zero f64_one)) /\
  sf_le (f64_of_u64 current) (estimated previous current (f64_clamp progress f64_zero f64_one)).
Proof.
  intros Hp Hprev Hcur. destruct (weight_ok _ Hp) as [W1 W2].
  assert (nneg (f64_mul (f64_of_u64 previous) (f64_sub f64_one (f64_clamp progress f64_zero f64_one)))).
  { apply f64_mul_nneg; [apply f64_of_u64_nneg; lia|done| |by eapply below_finite].
    eapply below_finite, f64_of_u64_below; lia. }
  pose proof (f64_of_u64_nneg current Hcur).
  split; [by apply f64_add_nneg|by apply f64_add_ge].
Qed.

(** An admitted request's window counts less than the limit. *)
Lemma decide_allowed previous current progress l interval :
  nneg progress -> 0 <= previous <= u64_max -> 0 <= current <= u64_max -> 0 <= l < 2 ^ 53 ->
  allowed (decide previous current progress l interval) = true -> current < l.
Proof.
  intros Hp Hprev Hcur Hl. destruct (estimated_nneg previous current progress) as [E1 E2]; [done|lia..|].
  unfold decide. destruct (f64_ge _ _) eqn:Hge; [done|]. intros _.
  destruct (Z.lt_ge_cases current l) as [|Hle]; [done|].
  assert (sf_le (f64_of_u64 l) (f64_of_u64 current)) as Hlc.
  { apply f64_of_u64_mono; [lia|unfold u64_max in *; lia]. }
  pose proof (f64_of_u64_nneg l ltac:(lia)). pose proof (f64_of_u64_nneg current ltac:(lia)).
  pose proof (sf_le_trans (f64_of_u64 l) (f64_of_u64 current) _ ltac:(done) ltac:(done) E1 Hlc E2) as H1.
  unfold f64_ge in Hge. unfold sf_le in H1. congruence.
Qed.

(** With nothing left of the previous window the decision is the count's. *)
Lemma estimated_fresh current progress :
  nneg progress -> 0 <= current < 2 ^ 53 ->
  estimated 0 current (f64_clamp progress f64_zero f64_one) = f64_of_u64 current.
Proof.
  intros Hp Hc. destruct (weight_ok _ Hp) as [W1 W2]. unfold estimated.
  change (f64_of_u64 0) with f64_zero. set (w := f64_sub _ _) in *.
  assert (exists s, f64_mul f64_zero w = S754_zero s) as [s ->].
  { destruct w as [[]|[]| |[]]; try done; eexists; done. }
  destruct (Z.eq_dec current 0) as [->|Hc0]; [by destruct s|].
  by destruct (f64_of_u64_spec current) as (m & e & -> & _); [lia|].
Qed.

Lemma decide_fresh current progress l interval :
  nneg progress -> 0 <= current < 2 ^ 53 -> 0 <= l < 2 ^ 53 ->
  let d := decide 0 current progress l interval in
  allowed d = (current <? l) /\ remaining d = Z.max 0 (l - current - 1).
Proof.
  intros Hp Hc Hl. unfold decide. cbn zeta. rewrite estimated_fresh by done.
  assert (f64_ge (f64_of_u64 current) (f64_of_u64 l) = negb (current <? l)) as ->.
  { rewrite <-f64_of_u64_lt by lia. unfold f64_ge, f64_lt.
    rewrite SFltb_negb, negb_involutive by (apply f64_of_u64_nneg; lia). done. }
  destruct (Z.ltb_spec current l); simpl; [|split; [done|lia]]. split; [done|].
  change f64_one with (f64_of_u64 1). rewrite !f64_sub_exact by lia.
  assert (f64_max (f64_of_u64 (l - current - 1)) f64_zero = f64_of_u64 (l - current - 1)) as ->.
  { pose proof (f64_of_u64_lt (l - current - 1) 0 ltac:(lia) ltac:(lia)) as Hlt.
    change (f64_of_u64 0) with f64_zero in Hlt. unfold f64_lt in Hlt. unfold f64_max.
    destruct (Z.ltb_spec (l - current - 1) 0); [lia|]. rewrite Hlt.
    pose proof (f64_of_u64_nneg (l - current - 1) ltac:(lia)) as Hn.
    by destruct (f64_of_u64 (l - current - 1)). }
  unfold f64_as_u64. rewrite f64_trunc_u64 by lia. unfold u64_max. lia.
Qed.

(** A refusal asks the client to wait at least a second. *)
Lemma decide_refused previous current progress l interval :
  nneg progress -> 0 <= interval <= duration_max ->
  let d := decide previous current progress l interval in
  allowed d = false -> remaining d = 0 /\ from_secs 1 <= retry_after d.
Proof.
  intros Hp Hi. unfold decide. destruct (f64_ge _ _); [|done]. simpl. intros _. split; [done|].
  destruct (weight_ok _ Hp) as [W1 W2]. destruct (interval_secs_ok interval Hi) as (I1 & I2 & _).
  set (x := f64_mul _ _).
  assert (nneg x) as Hx by (apply f64_mul_nneg; try done; by eapply below_finite).
  assert (is_finite x) as Hf by (eapply below_finite, (f64_mul_below _ _ 163 2); done || lia).
  enough (1 <= f64_ceil (f64_max x f64_one)).
  { unfold from_whole_secs_f64, from_secs, nanos_per_sec. lia. }
  assert (f64_max x f64_one = if SFltb x f64_one then f64_one else x) as -> by (by destruct x).
  rewrite SFltb_negb by (try done; rewrite f64_one_finite; cbn; lia).
  destruct (SFleb f64_one x) eqn:E; simpl; [|by vm_compute]. by apply f64_ceil_ge_one.
Qed.

(** ** Windows *)

(** The counters of a window whose limit is [l]. *)
Definition window_ok (l : Z) (w : Window) : Prop :=
  0 <= w_current w <= l /\ 0 <= w_previous w <= l.

Lemma window_roll_elapsed now interval w :
  0 < interval <= duration_max ->
  let '(_, elapsed) := window_roll now interval w in 0 <= elapsed <= duration_max.
Proof.
  intros Hi. unfold window_roll, sat_mul, saturating_duration_since, sat_sub.
  assert (0 <= duration_max) by by vm_compute.
  destruct (Z.leb_spec (Z.min duration_max (interval * 2)) (Z.max 0 (now - w_start w))); [lia|].
  destruct (Z.leb_spec interval (Z.max 0 (now - w_start w))); lia.
Qed.

Lemma window_roll_ok now interval l w :
  0 <= l -> window_ok l w -> window_ok l (window_roll now interval w).1.
Proof.
  intros Hl [H1 H2]. unfold window_roll. destruct (_ <=? _); [split; simpl; lia|].
  destruct (_ <=? _); split; simpl; lia.
Qed.

Section Limit.
Context (l interval : Z).
Context (Hl : 0 <= l < 2 ^ 53) (Hi : 0 < interval <= duration_max).

Lemma window_roll_start now w :
  let w1 := (window_roll now interval w).1 in
  now < w_start w1 + interval /\
  ((w_start w1 = w_start w /\ w_current w1 = w_current w) \/ (w_start w + interval <= w_start w1 /\ w_current w1 = 0)).
Proof using Hi.
  unfold window_roll, saturating_duration_since, sat_sub, sat_mul.
  destruct (Z.leb_spec (Z.min duration_max (interval * 2)) (Z.max 0 (now - w_start w))).
  { cbn. split; [lia|]. right. split; [|done]. unfold duration_max in *. lia. }
  destruct (Z.leb_spec interval (Z.max 0 (now - w_start w))); cbn; split; lia.
Qed.

(** A check keeps the counters within the limit and counts the request it lets
    through, in the window it leaves behind. *)
Lemma window_check_counts now w :
  window_ok l w ->
  let (w', d) := window_check now l interval w in
  window_ok l w' /\ now < w_start w' + interval /\
  ((w_start w' = w_start w /\ w_current w' = w_current w + Z.b2z (allowed d)) \/
   (w_start w + interval <= w_start w' /\ w_current w' = Z.b2z (allowed d))).
Proof using Hl Hi.
  intros Hw. unfold window_check. pose proof (window_roll_ok now interval l w ltac:(lia) Hw) as Hr.
  pose proof (window_roll_elapsed now interval w Hi) as He. pose proof (window_roll_start now w) as [Hs Hc].
  destruct (window_roll now interval w) as [w1 elapsed]. cbn [fst] in *. destruct Hr as [Hr1 Hr2].
  destruct (allowed _) eqn:Ha; [|split_and!; [by split|done|cbn; lia]].
  apply decide_allowed in Ha; [|apply progress_nneg; lia|unfold u64_max; lia..].
  assert (sat_add u64_max (w_current w1) 1 = w_current w1 + 1) as E by (unfold sat_add, u64_max; lia).
  unfold window_ok. cbn [w_start w_current w_previous]. rewrite E. split_and!; try lia. cbn. lia.
Qed.

Import WindowStore.

Lemma admissions_nil c start : admissions [] c start = 0.
Proof using. done. Qed.
Lemma admissions_cons a log c start :
  admissions (a :: log) c start =
  admissions log c start + if bool_decide (ad_cell a = c /\ ad_window a = start) then 1 else 0.
Proof using. unfold admissions. rewrite filter_cons. case_decide; case_bool_decide; simpl; try done; lia. Qed.

(** The log and the cells agree: a window counts what was let through in it,
    no later window has counted anything, and no cell that was never made. *)
Definition logged (s : windows) (log : list Admission) : Prop :=
  forall c, match st_heap s !! c with
            | Some w => admissions log c (w_start w) = w_current w /\
                        forall start, w_start w < start -> admissions log c start = 0
            | None => forall start, admissions log c start = 0
            end.

Record within (s : windows) (log : list Admission) : Prop := {
  wi_cells : all_cells (window_ok l) s;
  wi_logged : logged s log;
  wi_windows : forall c start, admissions log c start <= l;
  wi_times : Forall (fun a => ad_time a < ad_window a + interval) log;
  wi_before : forall a, a ∈ log -> exists w, st_heap s !! ad_cell a = Some w /\
    (ad_window a = w_start w \/ ad_window a + interval <= w_start w);
  wi_apart : forall a b, a ∈ log -> b ∈ log -> ad_cell a = ad_cell b -> ad_window a < ad_window b ->
    ad_window a + interval <= ad_window b;
}.

Lemma within_get s log key now : within s log -> within (get_with s key (window_new now)).1 log.
Proof using Hl.
  intros [Hc Hg Hw Ht Hb Ha]. split; [|intros c; specialize (Hg c)|done|done| |done].
  - apply all_cells_get; [done|]. split; simpl; lia.
  - unfold get_with. destruct (st_keys s !! key); [done|]. simpl. rewrite lookup_insert.
    case_decide as E; [|done]. subst c. rewrite (proj1 (not_elem_of_dom _ _) (is_fresh _)) in Hg. by split.
  - intros a (w & E & Hs)%Hb. exists w. split; [|done]. unfold get_with. destruct (st_keys s !! key); [done|]. cbn.
    rewrite lookup_insert_ne; [done|]. intros Ef. rewrite <-Ef, (proj1 (not_elem_of_dom _ _) (is_fresh _)) in E. done.
Qed.

(** A check of a cell leaves it in the window it was in, or in one that begins an
    interval later at the earliest. *)
Lemma within_apart s log c w w' new :
  within s log -> st_heap s !! c = Some w -> w_start w' = w_start w \/ w_start w + interval <= w_start w' ->
  (forall a, a ∈ new -> ad_cell a = c /\ ad_window a = w_start w') ->
  (forall a, a ∈ new ++ log -> exists w1, <[c := w']> (st_heap s) !! ad_cell a = Some w1 /\
    (ad_window a = w_start w1 \/ ad_window a + interval <= w_start w1)) /\
  (forall a b, a ∈ new ++ log -> b ∈ new ++ log -> ad_cell a = ad_cell b -> ad_window a < ad_window b ->
    ad_window a + interval <= ad_window b).
Proof using Hi.
  intros [_ _ _ _ Hb Ha] E Hs Hnew.
  assert (forall a, a ∈ log -> ad_cell a = c -> ad_window a = w_start w \/ ad_window a + interval <= w_start w) as Hc.
  { intros a (w1 & E1 & H1)%Hb <-. rewrite E in E1. by injection E1 as <-. }
  split.
  - intros a [[-> ->]%Hnew|Hin]%elem_of_app; [exists w'; rewrite lookup_insert_eq; split; [done|by left]|].
    destruct (stdpp.base.decide (ad_cell a = c)) as [Ec|Ec].
    + exists w'. rewrite Ec, lookup_insert_eq. split; [done|]. destruct (Hc a Hin Ec); lia.
    + rewrite lookup_insert_ne by congruence. by apply Hb.
  - intros a b [[Ea Wa]%Hnew|Hina]%elem_of_app [[Eb Wb]%Hnew|Hinb]%elem_of_app Ecell Hlt; [lia| | |by apply Ha].
    + destruct (Hc b Hinb ltac:(congruence)); lia.
    + destruct (Hc a Hina ltac:(congruence)); lia.
Qed.

Lemma within_check s log c now s' d :
  within s log -> modify s c (window_check now l interval) = (s', d) -> within s' (admission s' c now d ++ log).
Proof using Hl Hi.
  unfold modify. destruct (st_heap s !! c) as [w|] eqn:E; [|by intros ? [= <- <-]].
  intros Hin. pose proof Hin as [Hc Hg Hw Ht _ _]. pose proof (window_check_counts now w (Hc _ _ E)) as H.
  destruct (window_check now l interval w) as [w' b]. intros [= <- <-]. destruct H as (Hok & Hn & Hs).
  pose proof (Hg c) as Hgc. rewrite E in Hgc. destruct Hgc as [G1 G2].
  unfold admission. cbn [st_heap]. rewrite lookup_insert_eq.
  set (new := if allowed b then _ else _).
  destruct (within_apart s log c w w' new Hin E) as [B1 B2];
    [destruct Hs as [[? _]|[? _]]; auto|unfold new; destruct (allowed b); [by intros a ->%list_elem_of_singleton|by intros a []%elem_of_nil]|].
  assert (forall c' start, admissions (new ++ log) c' start =
    admissions log c' start + if bool_decide (c = c' /\ w_start w' = start) then Z.b2z (allowed b) else 0) as A.
  { intros c' start. unfold new. destruct (allowed b); cbn [app Z.b2z]; [by rewrite admissions_cons|].
    case_bool_decide; lia. }
  assert (admissions (new ++ log) c (w_start w') = w_current w') as A1.
  { rewrite A, bool_decide_eq_true_2 by done. destruct Hs as [[-> ->]|[Hs ->]]; [by rewrite G1|]. rewrite G2; lia. }
  split; [| | | |done|done].
  - by apply map_Forall_insert_2.
  - intros c'. cbn [st_heap]. rewrite lookup_insert. specialize (Hg c'). case_decide as Ec.
    + subst c'. split; [done|]. intros start Hst. rewrite A, bool_decide_eq_false_2 by lia.
      rewrite G2; destruct Hs as [[Hs _]|[Hs _]]; lia.
    + destruct (st_heap s !! c'); setoid_rewrite A; rewrite ?bool_decide_eq_false_2 by naive_solver.
      * split; [lia|]. intros start Hst. rewrite bool_decide_eq_false_2 by naive_solver. rewrite (proj2 Hg); lia.
      * intros start. rewrite bool_decide_eq_false_2 by naive_solver. rewrite Hg; lia.
  - intros c' start. destruct (stdpp.base.decide (c = c' /\ w_start w' = start)) as [[<- <-]|Hne]; [rewrite A1; apply Hok|].
    rewrite A, bool_decide_eq_false_2 by done. specialize (Hw c' start). lia.
  - apply Forall_app. split; [|done]. unfold new. destruct (allowed b); by repeat constructor.
Qed.

Lemma run_within s log : run l interval s log -> within s log.
Proof using Hl Hi.
  induction 1 as [|s log key now _ IH|s log c now s' d _ IH Hm|s log key _ IH].
  - split; [apply map_Forall_empty|intros c; simpl; by rewrite lookup_empty|intros; rewrite admissions_nil; lia|done| |].
    + by intros a []%elem_of_nil.
    + by intros a b []%elem_of_nil.
  - by apply within_get.
  - by eapply within_check.
  - by destruct IH.
Qed.

(** C12: whatever the interleaving of lookups, checks and evictions, and
    whatever the rounding of the estimate, at most as many requests as the limit
    are let through in one window of one cell, live or evicted; the window's own
    counter is exactly their number, so a check cannot let one through
    uncounted; a request counted in a window was made before that window ended,
    one interval after it began; and of two windows of a cell the later begins no
    sooner than the earlier ended. The limit is below 2^53, where it is
    exact as a double, and the interval positive and a [Duration]. *)
Theorem window_never_exceeds_limit s log (Hrun : run l interval s log) :
  (forall c start, admissions log c start <= l) /\
  (forall c w, st_heap s !! c = Some w -> w_current w = admissions log c (w_start w)) /\
  Forall (fun a => ad_time a < ad_window a + interval) log /\
  (forall a b, a ∈ log -> b ∈ log -> ad_cell a = ad_cell b -> ad_window a < ad_window b ->
     ad_window a + interval <= ad_window b).
Proof using Hl Hi.
  destruct (run_within s log Hrun) as [_ Hg Hw Ht _ Ha]. split_and!; [done| |done|done].
  intros c w E. specialize (Hg c). rewrite E in Hg. by destruct Hg as [-> _].
Qed.
End Limit.

Lemma window_never_exceeds_limit_witness :
  exists s log, WindowStore.run 2 nanos_per_sec s log /\ length log = 1%nat /\
    cell s "k" = Some {| w_start := 5; w_current := 1; w_previous := 0 |} /\
    forall c start, WindowStore.admissions log c start <= 2.
Proof.
  pose proof (WindowStore.run_get 2 nanos_per_sec _ _ "k" 5 (WindowStore.run_empty 2 nanos_per_sec)) as H.
  eapply (WindowStore.run_check 2 nanos_per_sec _ _ (get_with store_empty "k" (window_new 5)).2 7) in H;
    [|apply surjective_pairing].
  eexists _, _. split; [exact H|]. split; [by vm_compute|]. split; [by vm_compute|].
  apply (window_never_exceeds_limit 2 nanos_per_sec) in H as [H _]; [exact H|lia|by vm_compute].
Defined.

(** The requests of one key inside its first window. *)
Lemma window_run_fresh l interval start current times :
  0 <= l < 2 ^ 53 -> 0 < interval <= duration_max -> 0 <= current <= l ->
  Forall (fun t => start <= t < start + interval) times ->
  map (fun d => (allowed d, remaining d))
    (window_run l interval {| w_start := start; w_current := current; w_previous := 0 |} times).2 =
  map (fun i => (current + Z.of_nat i <? l, Z.max 0 (l - (current + Z.of_nat i) - 1)))
    (seq 0 (length times)).
Proof.
  intros Hl Hi. revert current. induction times as [|t ts IH]; intros current Hc Ht; [done|].
  apply Forall_cons_iff in Ht as [Ht Hts]. cbn [window_run].
  destruct (window_check t l interval _) as [w1 d] eqn:E.
  destruct (window_run l interval w1 ts) as [w2 ds] eqn:E2.
  unfold window_check, window_roll, saturating_duration_since, sat_sub, sat_mul in E.
  simpl w_start in E. rewrite Z.max_r in E by lia.
  destruct (Z.leb_spec (Z.min duration_max (interval * 2)) (t - start)); [lia|].
  destruct (Z.leb_spec interval (t - start)); [lia|]. simpl in E. injection E as Hw Hd.
  set (p := f64_clamp _ _ _) in *.
  destruct (decide_fresh current p l interval) as [D1 D2];
    [apply progress_nneg; lia|lia..|]. rewrite Hd in D1, D2, Hw. rewrite D1 in Hw.
  cbn [snd map length seq]. f_equal.
  { rewrite D1, D2, Z.add_0_r. done. }
  replace ds with (window_run l interval w1 ts).2 by (by rewrite E2).
  rewrite <-seq_shift, map_map. destruct (Z.ltb_spec current l); subst w1.
  - unfold sat_add, u64_max. rewrite Z.min_r by lia. rewrite IH by (done || lia).
    apply map_ext. intros i. do 2 f_equal; lia.
  - rewrite IH by (done || lia). apply map_ext. intros i.
    assert (current = l) as -> by lia. f_equal; [|lia].
    transitivity false; [|symmetry]; apply Z.ltb_ge; lia.
Qed.

(** A key first seen is admitted exactly the limit inside its first
    window, told each time how many requests are left, and then refused. *)
Lemma fresh_key_admits_exactly_the_limit l interval start times
  (Hl : 0 <= l < 2 ^ 53) (Hi : 0 < interval <= duration_max)
  (Ht : Forall (fun t => start <= t < start + interval) times) :
  map (fun d => (allowed d, remaining d)) (window_run l interval (window_new start) times).2 =
  map (fun i => (Z.of_nat i <? l, Z.max 0 (l - Z.of_nat i - 1))) (seq 0 (length times)).
Proof. by apply window_run_fresh; [..|lia|]. Qed.

Lemma fresh_key_admits_exactly_the_limit_witness :
  map (fun d => (allowed d, remaining d))
    (window_run 2 nanos_per_sec (window_new 10) [10; 11; 12; 1000]).2 =
  [(true, 1); (true, 0); (false, 0); (false, 0)].
Proof.
  rewrite (fresh_key_admits_exactly_the_limit 2 nanos_per_sec 10); [done|lia|by vm_compute|].
  repeat constructor; lia || by vm_compute.
Defined.

(** A refusal leaves the counts as they were after the window rolled, so
    being refused does not extend a caller's block, reports nothing remaining
    and asks for a wait of at least a second. *)
Lemma refusal_counts_nothing now l interval w
  (Hi : 0 < interval <= duration_max)
  (Hr : allowed (window_check now l interval w).2 = false) :
  (window_check now l interval w).1 = (window_roll now interval w).1 /\
  remaining (window_check now l interval w).2 = 0 /\
  from_secs 1 <= retry_after (window_check now l interval w).2.
Proof.
  revert Hr. unfold window_check. pose proof (window_roll_elapsed now interval w Hi) as He.
  destruct (window_roll now interval w) as [w1 elapsed]. simpl. intros Hr. rewrite Hr.
  split; [done|]. apply decide_refused; [apply progress_nneg; lia|lia|done].
Qed.

Lemma refusal_counts_nothing_witness :
  let w := {| w_start := 0; w_current := 3; w_previous := 0 |} in
  allowed (window_check 500000000 3 nanos_per_sec w).2 = false /\
  (window_check 500000000 3 nanos_per_sec w).1 = w /\
  from_secs 1 <= retry_after (window_check 500000000 3 nanos_per_sec w).2.
Proof.
  intros w. destruct (refusal_counts_nothing 500000000 3 nanos_per_sec w) as (H1 & _ & H3);
    [by vm_compute|by vm_compute|].
  split_and!; [by vm_compute|exact H1|exact H3].
Defined.

(** A caller that spent the whole limit is still refused at the moment its
    window ends: sending a full quota on either side of a boundary is not
    possible, since the previous window then weighs in full. *)
Lemma boundary_not_gamed l interval start previous
  (Hl : 0 <= l < 2 ^ 53) (Hi : 0 < interval <= duration_max) (Hd : interval * 2 <= duration_max) :
  allowed (window_check (start + interval) l interval
    {| w_start := start; w_current := l; w_previous := previous |}).2 = false.
Proof.
  unfold window_check, window_roll, saturating_duration_since, sat_sub, sat_mul.
  cbn [w_start w_current]. rewrite Z.min_r by lia.
  replace (Z.max 0 (start + interval - start)) with interval by lia.
  destruct (Z.leb_spec (interval * 2) interval); [lia|]. rewrite Z.leb_refl, Z.sub_diag, Z.max_id.
  cbn [w_current w_previous].
  destruct (interval_secs_ok interval ltac:(lia)) as (I1 & _ & I3).
  assert (f64_div (as_secs_f64 0) (interval_secs interval) = f64_zero) as ->.
  { change (as_secs_f64 0) with f64_zero. revert I1 I3.
    destruct (interval_secs interval) as [s|s| |[] m e]; try done. by intros [? _]. }
  change (f64_clamp f64_zero f64_zero f64_one) with f64_zero.
  unfold decide. change (f64_clamp f64_zero f64_zero f64_one) with f64_zero. unfold estimated.
  change (f64_sub f64_one f64_zero) with f64_one. rewrite f64_mul_one by done.
  assert (f64_ge (f64_add (f64_of_u64 l) (f64_of_u64 0)) (f64_of_u64 l) = true) as ->; [|done].
  destruct (Z.eq_dec l 0) as [->|Hl0]; [done|].
  destruct (f64_of_u64_spec l) as (m & e & -> & _); [lia|]. by apply SFleb_finite; right.
Qed.

(** Counting one key leaves every other key's window alone, whatever the
    store holds. *)
Lemma keys_are_independent l interval s key now other
  (Hs : store_wf s) (Hne : other <> key) :
  let '(s', d) := WindowStore.check_exact l interval s key now in
  is_Some d /\ store_wf s' /\ cell s' other = cell s other /\
  cell s' key = Some (window_check now l interval (default (window_new now) (cell s key))).1.
Proof.
  unfold WindowStore.check_exact.
  destruct (get_with s key (window_new now)) as [s1 c] eqn:E.
  destruct (get_with_spec _ _ _ _ _ Hs E) as (Hwf & Hk & Hother & Hself).
  assert (st_heap s1 !! c = Some (default (window_new now) (cell s key))) as Hc.
  { unfold cell in Hself at 1. by rewrite Hk in Hself. }
  destruct (modify_spec s1 c (window_check now l interval) _ Hwf Hc) as (M1 & M2 & M3 & M4).
  destruct (modify s1 c _) as [s2 d]. simpl in *. rewrite M2. split_and!; [by eexists|done| |by apply M3].
  rewrite M4, Hother; [done..|]. intros Ho. apply Hne. by eapply (sw_inj _ Hwf).
Qed.
