(* ===== verification/Limiter.v ===== *)
(** * The rate limiter and its keys (ratelimit/mod.rs)

    [Limiter] puts the three counting backends behind one call: the exact store
    of windows, the sketch of the [pingora_limits] crate (a parameter), and the
    shared counters.  [key_for], [header_key] and [admission_key] derive the key
    a request is counted under. *)

From S2P Require Export Headers Shared.

(** ** The sketch *)

(** [pingora_limits::rate::Rate]: the components [rate_with] hands to its
    closure, and [observe]. *)
Record RateComponents := {
  prev_samples : Z;
  curr_samples : Z;
  current_interval_fraction : f64;
}.

Class RateSketch (R : Type) := {
  rate_components : R -> str -> RateComponents;
  observe : R -> str -> Z -> R;
  rate_new : Z -> R;
}.

Section Limiter.
Context {R B : Type} `{RateSketch R} `{Backend B}.

Inductive Counters :=
| CountExact (w : WindowStore.windows)
| CountSketch (r : R)
| CountShared (c : SharedCounters).

Record Limiter := {
  counters : Counters;
  lim_limit : Z;
  lim_interval : Z;
  lim_mode : LimitMode;
}.

Definition limiter_new (cfg : RateLimitConfig) : Limiter :=
  {| counters := match rl_counter cfg with
                 | CounterExact => CountExact store_empty
                 | CounterSketch | CounterShared => CountSketch (rate_new (rl_interval cfg))
                 end;
     lim_limit := rl_requests cfg; lim_interval := rl_interval cfg; lim_mode := ModeApproximate |}.

Definition limiter_shared (cfg : RateLimitConfig) (shared : SharedCountersConfig) : Limiter :=
  {| counters := CountShared (shared_new cfg shared);
     lim_limit := rl_requests cfg; lim_interval := rl_interval cfg; lim_mode := rl_mode cfg |}.

Definition with_counters (c : Counters) (m : Limiter) : Limiter :=
  {| counters := c; lim_limit := lim_limit m; lim_interval := lim_interval m; lim_mode := lim_mode m |}.

Definition reconciled_counters (m : Limiter) : option SharedCounters :=
  match counters m, lim_mode m with
  | CountShared c, ModeApproximate => Some c
  | _, _ => None
  end.

Definition check_sketch (l interval : Z) (r : R) (key : str) : R * Decision :=
  let c := rate_components r key in
  let weighted := f64_add (f64_mul (f64_of_u64 (prev_samples c))
                             (f64_sub f64_one (current_interval_fraction c)))
                    (f64_of_u64 (curr_samples c)) in
  if f64_ge weighted (f64_of_u64 l) then (r, refuse l interval)
  else
    let remaining := f64_as_u64 (f64_max (f64_sub (f64_sub (f64_of_u64 l) weighted) f64_one) f64_zero) in
    (observe r key 1, allow l remaining).

(** [Limiter::check_at]: [now] is the monotonic reading, [wall] the wall
    clock's, [v4] a fresh identifier. *)
Definition check_at (v4 : uuid) (key : str) (now wall : Z) (m : Limiter) : Limiter * Decision :=
  match counters m with
  | CountExact w =>
      let '(w, d) := WindowStore.check_exact (lim_limit m) (lim_interval m) w key now in
      (with_counters (CountExact w) m, default (allow (lim_limit m) 0) d)
  | CountSketch r =>
      let '(r, d) := check_sketch (lim_limit m) (lim_interval m) r key in
      (with_counters (CountSketch r) m, d)
  | CountShared c =>
      let '(c, d) := shared_check_at v4 key wall c in (with_counters (CountShared c) m, d)
  end.

(** [Limiter::decide]: the exact mode asks the backend, and decides locally
    when it cannot answer. *)
Definition limiter_decide (v4 : uuid) (key : str) (now wall : Z) (b : B) (m : Limiter)
  : B * (Limiter * Decision) :=
  match lim_mode m, counters m with
  | ModeExact, CountShared c =>
      let '(b, answer) := shared_check_exact b c key in
      match answer with
      | Some d => (b, (m, d))
      | None => (b, check_at v4 key now wall m)
      end
  | _, _ => (b, check_at v4 key now wall m)
  end.
End Limiter.
Arguments Counters : clear implicits.
Arguments Limiter : clear implicits.

(** ** Keys *)

Inductive KeyError := KeyMissing | KeyInvalid.
#[export] Instance KeyError_eq_dec : EqDecision KeyError.
Proof. solve_decision. Defined.

Definition key_for (key : RateLimitKey) (trusted_proxies : nat) (route_id : str)
    (subject forwarded_for peer : option str) (header : str -> option str) : option str :=
  letO raw := match key with
              | KeyIp => client_address forwarded_for peer trusted_proxies
              | KeyIdentity => letO s := subject in if s ==? [] then None else Some s
              | KeyRoute => Some []
              | KeyHeader name => header name
              end in
  Some (route_id ++ "|" ++ raw).

Definition ows (b : Z) : bool := (b =? b_space) || (b =? b_tab).
Definition bad_key_byte (b : Z) : bool := negb (in_range 33 126 b) || (b =? 44).

Section Keys.
Context (to_str : list Z -> option str).

Definition header_key (headers : header_map) (name : str) : result (option str) KeyError :=
  match headers (to_ascii_lowercase name) with
  | [] => Ok None
  | [v] =>
      let? value := ok_or (to_str v) KeyInvalid in
      let value := trim_matches ows value in
      if (value ==? []) || existsb bad_key_byte value then Err KeyInvalid else Ok (Some value)
  | _ => Err KeyInvalid
  end.

Definition admission_key (key : RateLimitKey) (missing : MissingKey) (trusted_proxies : nat)
    (route_id : str) (subject forwarded_for peer : option str) (headers : header_map)
  : result (option str) KeyError :=
  let? value := match key with KeyHeader name => header_key headers name | _ => Ok None end in
  match key_for key trusted_proxies route_id subject forwarded_for peer (fun _ => value) with
  | Some k => Ok (Some k)
  | None =>
      match missing with
      | MissingReject => Err KeyMissing
      | MissingRoute => Ok (Some (route_id ++ "|"))
      | MissingIp => ok_or ((fun ip => Some (route_id ++ "|" ++ ip)) <$> peer) KeyMissing
      | MissingSkip => Ok None
      end
  end.
End Keys.

(** ** Theorems *)

(** An admission key belongs to one route and comes from where the policy
    says: it is the route's identifier, a bar, and for the address the one
    [client_address] attributes the request to, for the identity the verified
    and non-empty subject, for a header its only value, trimmed and free of
    blanks, commas and control or non-ASCII bytes, or else what the policy for a missing key
    substitutes; an ambiguous header is an error, whatever that policy. *)
Lemma admission_key_provenance to_str key missing trusted_proxies route_id subject forwarded_for
    peer headers k
  (Hk : admission_key to_str key missing trusted_proxies route_id subject forwarded_for peer headers
    = Ok (Some k)) :
  exists raw : str, k = route_id ++ "|" ++ raw /\
    match key with
    | KeyIp => client_address forwarded_for peer trusted_proxies = Some raw
               \/ (client_address forwarded_for peer trusted_proxies = None /\ raw = [] /\ missing = MissingRoute)
    | KeyIdentity => (subject = Some raw /\ raw <> [])
                     \/ ((subject = None \/ subject = Some []) /\
                         ((missing = MissingRoute /\ raw = []) \/ (missing = MissingIp /\ peer = Some raw)))
    | KeyRoute => raw = []
    | KeyHeader name =>
        (exists v s : str, headers (to_ascii_lowercase name) = [v] /\ to_str v = Some s /\
           raw = trim_matches ows s /\ raw <> [] /\ Forall (fun b => 33 <= b <= 126 /\ b <> 44) raw)
        \/ (headers (to_ascii_lowercase name) = [] /\
            ((missing = MissingRoute /\ raw = []) \/ (missing = MissingIp /\ peer = Some raw)))
    end.
Proof.
  unfold admission_key in Hk. apply rbind_Ok in Hk as (value & Hv & Hk).
  destruct key as [| | |name]; cbn [key_for mbind option_bind] in Hk.
  - unfold key_for in Hk. destruct (client_address _ _ _) as [a|] eqn:Ea; simpl in Hk.
    { injection Hk as <-. eauto. }
    assert (peer = None) as ->.
    { revert Ea. unfold client_address, trusted_suffix. destruct peer; [|done].
      repeat case_match; try done. all: by destruct (drop _ _). }
    destruct missing; simplify_eq/=. exists []. eauto.
  - unfold key_for in Hk. destruct subject as [s|]; simpl in Hk.
    + case_bool_decide as Hs; simpl in Hk.
      * destruct missing, peer; simplify_eq/=; eexists; (split; [done|]); eauto 10.
      * injection Hk as <-. exists s. split; [done|]. by left.
    + destruct missing, peer; simplify_eq/=; eexists; (split; [done|]); eauto 10.
  - injection Hk as <-. by exists [].
  - unfold header_key in Hv. destruct (headers (to_ascii_lowercase name)) as [|v [|]] eqn:Eh; [| |done].
    + injection Hv as <-. cbn in Hk. destruct missing, peer; simplify_eq/=; eexists; (split; [done|]); eauto 10.
    + apply rbind_Ok in Hv as (s & Hs & Hv). destruct (to_str v) as [s'|] eqn:Et; [|done].
      injection Hs as ->. destruct (_ || _) eqn:Eb; [done|]. injection Hv as <-.
      apply orb_false_iff in Eb as [E1 E2]. cbn in Hk. injection Hk as <-.
      exists (trim_matches ows s). split; [done|]. left. exists v, s. split_and!; try done.
      * by apply bool_decide_eq_false in E1.
      * apply Forall_elem. intros b Hb. pose proof (proj1 (existsb_none _ _) E2 b Hb) as Hbad.
        unfold bad_key_byte, in_range in Hbad. breflect. lia.
Qed.

(** Quotas are per route: two routes whose identifiers hold no bar never
    count a request under the same key, so a caller's quota on one is not spent
    on the other. *)
Lemma keys_are_scoped_per_route key1 key2 hops1 hops2 r1 r2 s1 s2 f1 f2 p1 p2 h1 h2 k
  (H1 : key_for key1 hops1 r1 s1 f1 p1 h1 = Some k) (H2 : key_for key2 hops2 r2 s2 f2 p2 h2 = Some k)
  (B1 : 124 ∉ r1) (B2 : 124 ∉ r2) : r1 = r2.
Proof.
  unfold key_for in *. apply bind_Some in H1 as (raw1 & _ & [= <-]).
  apply bind_Some in H2 as (raw2 & _ & [= E]).
  pose proof (proj2 (split_once_Some 124 (r1 ++ 124 :: raw1) r1 raw1) (conj eq_refl B1)) as E1.
  pose proof (proj2 (split_once_Some 124 (r2 ++ 124 :: raw2) r2 raw2) (conj eq_refl B2)) as E2.
  change (r2 ++ 124 :: raw2 = r1 ++ 124 :: raw1) in E. congruence.
Qed.

Lemma keys_are_scoped_per_route_witness :
  key_for KeyIdentity 0 "orders" (Some (str_of "u")) None None (fun _ => None) = Some (str_of "orders|u") /\
  str_of "orders" = str_of "orders".
Proof.
  assert (key_for KeyIdentity 0 "orders" (Some (str_of "u")) None None (fun _ => None)
    = Some (str_of "orders|u")) as H by by vm_compute.
  split; [exact H|]. apply (keys_are_scoped_per_route _ _ _ _ _ _ _ _ _ _ _ _ _ _ _ H H);
    by vm_compute; set_solver.
Defined.

(** A cache outage never stops traffic or waives the limit: when the
    backend of an [exact] limiter cannot answer, the decision and the counting
    are those of the local window, exactly as in a mode that never asks. *)
Lemma exact_mode_degrades_to_local {R B} `{RateSketch R} `{Backend B} v4 key now wall (b : B)
    (m : Limiter R) c e b'
  (Hm : counters m = CountShared c)
  (He : backend_check_exact b (cache_key c key) (sh_limit c) (sh_interval c) = (b', Err e)) :
  lim_mode m = ModeExact ->
  (limiter_decide v4 key now wall b m).2 = check_at v4 key now wall m /\
  (check_at v4 key now wall m).2 = (shared_check_at v4 key wall c).2.
Proof.
  intros Hmode. unfold limiter_decide, check_at. rewrite Hmode, Hm. unfold shared_check_exact.
  rewrite He. simpl. by destruct (shared_check_at v4 key wall c).
Qed.

(** A sketch without collisions that never forgets, for concrete inputs. *)
#[export] Instance exact_sketch : RateSketch (gmap str Z) := {
  rate_components r k := {| prev_samples := 0; curr_samples := default 0 (r !! k);
                            current_interval_fraction := f64_zero |};
  observe r k n := <[k := default 0 (r !! k) + n]> r;
  rate_new _ := ∅;
}.

