(* ===== verification/Concurrency.v ===== *)
(** * Requests in flight (concurrency.rs)

    [InFlight] holds one atomic counter per route-wide cap and the
    count-min sketch of the [pingora_limits] crate, a parameter, for caps per
    caller.  A slot is released when it is dropped. *)

From S2P Require Export Store Config.

(** [pingora_limits::inflight::Inflight]: [incr] returns the estimate after the
    increment, an [isize]; a guard dropped gives its increment back. *)
Class Inflight (I : Type) := {
  incr : I -> str -> Z -> I * Z;
  guard_drop : I -> str -> I;
}.

(** The crate's contract: the estimate of a key never falls below what is in
    flight for it. *)
Class InflightLaws (I : Type) `{Inflight I} := {
  in_flight : I -> str -> Z;
  incr_counts : forall i k k', in_flight (incr i k 1).1 k' = in_flight i k' + (if k' ==? k then 1 else 0);
  incr_never_under : forall i k, in_flight (incr i k 1).1 k <= (incr i k 1).2;
  drop_counts : forall i k k', in_flight (guard_drop i k) k' = in_flight i k' - (if k' ==? k then 1 else 0);
}.

Inductive Slot := RouteSlot (l : loc) | Caller (key : str).
#[export] Instance Slot_eq_dec : EqDecision Slot.
Proof. solve_decision. Defined.

Section InFlight.
Context {I : Type} `{Inflight I}.

Record InFlight := { routes : store Z; callers : I }.

(** The compare-and-swap on a route's counter. *)
Definition bump (max : Z) (n : Z) : Z * bool :=
  if n <? max then (sat_add u64_max n 1, true) else (n, false).

(** [AtomicU64::fetch_sub], which wraps. *)
Definition fetch_sub (n : Z) : Z * unit := ((n - 1) mod 2 ^ 64, ()).

Definition inflight_take (key : str) (max : Z) (caller : bool) (f : InFlight) : InFlight * option Slot :=
  if caller then
    let '(c, count) := incr (callers f) key 1 in
    let count := if 0 <=? count then count else 0 in
    if count <=? max then ({| routes := routes f; callers := c |}, Some (Caller key))
    else ({| routes := routes f; callers := guard_drop c key |}, None)
  else
    let '(r, l) := get_with (routes f) key 0 in
    let '(r, ok) := modify r l (bump max) in
    ({| routes := r; callers := callers f |}, if ok ==? Some true then Some (RouteSlot l) else None).

Definition slot_drop (s : Slot) (f : InFlight) : InFlight :=
  match s with
  | RouteSlot l => {| routes := (modify (routes f) l fetch_sub).1; callers := callers f |}
  | Caller key => {| routes := routes f; callers := guard_drop (callers f) key |}
  end.

(** The slots held by running requests, with the gateway's store. *)
Inductive held_step (cap : str -> Z) : InFlight * list Slot -> InFlight * list Slot -> Prop :=
| hs_take key max caller f f' held s :
    0 <= max <= cap key -> inflight_take key max caller f = (f', Some s) ->
    held_step cap (f, held) (f', s :: held)
| hs_refused key max caller f f' held :
    0 <= max -> inflight_take key max caller f = (f', None) -> held_step cap (f, held) (f', held)
| hs_drop s f held1 held2 :
    held_step cap (f, held1 ++ s :: held2) (slot_drop s f, held1 ++ held2).
End InFlight.
Arguments InFlight : clear implicits.

(** ** Counting *)

(** How many of the held slots are of one counter, of one caller. *)
Definition on_route (l : loc) (held : list Slot) : Z :=
  Z.of_nat (length (List.filter (fun s => s ==? RouteSlot l) held)).
Definition of_caller (key : str) (held : list Slot) : Z :=
  Z.of_nat (length (List.filter (fun s => s ==? Caller key) held)).

Section Invariant.
Context {I : Type} {sketch : Inflight I} {laws : InflightLaws I}.
Context (cap : str -> Z) (Hcap : forall k, cap k < u64_max).

(** Every counter is the number of slots held on it, and within its key's cap;
    the sketch counts the slots held by each caller, within the cap. *)
Record held_ok (f : InFlight I) (held : list Slot) : Prop := {
  ho_wf : store_wf (routes f);
  ho_cells : forall l, st_heap (routes f) !! l = Some (on_route l held) \/
                       (st_heap (routes f) !! l = None /\ on_route l held = 0);
  ho_cap : forall k l, st_keys (routes f) !! k = Some l -> 0 <= on_route l held <= Z.max 0 (cap k);
  ho_live : forall l, is_Some (st_heap (routes f) !! l) -> exists k, st_keys (routes f) !! k = Some l;
  ho_callers : forall k, in_flight (callers f) k = of_caller k held;
  ho_caller_cap : forall k, of_caller k held <= Z.max 0 (cap k);
}.

Lemma on_route_cons l s held :
  on_route l (s :: held) = on_route l held + (if s ==? RouteSlot l then 1 else 0).
Proof. unfold on_route. simpl. case_bool_decide; simpl; lia. Qed.
Lemma of_caller_cons k s held :
  of_caller k (s :: held) = of_caller k held + (if s ==? Caller k then 1 else 0).
Proof. unfold of_caller. simpl. case_bool_decide; simpl; lia. Qed.
Lemma on_route_middle l s h1 h2 : on_route l (h1 ++ s :: h2) = on_route l (s :: h1 ++ h2).
Proof.
  unfold on_route. simpl. rewrite !List.filter_app, !length_app. simpl.
  case_bool_decide; simpl; rewrite ?List.filter_app, ?length_app; lia.
Qed.
Lemma of_caller_middle k s h1 h2 : of_caller k (h1 ++ s :: h2) = of_caller k (s :: h1 ++ h2).
Proof.
  unfold of_caller. simpl. rewrite !List.filter_app, !length_app. simpl.
  case_bool_decide; simpl; rewrite ?List.filter_app, ?length_app; lia.
Qed.
Lemma on_route_nonneg l held : 0 <= on_route l held.
Proof. unfold on_route. lia. Qed.
Lemma of_caller_nonneg k held : 0 <= of_caller k held.
Proof. unfold of_caller. lia. Qed.

(** The order of the held slots does not matter. *)
Lemma held_ok_middle f s h1 h2 : held_ok f (h1 ++ s :: h2) -> held_ok f (s :: h1 ++ h2).
Proof using.
  intros [H1 H2 H3 H4 H5 H6]. split; try done; intros *.
  - rewrite <-on_route_middle. apply H2.
  - rewrite <-on_route_middle. apply H3.
  - rewrite <-of_caller_middle. apply H5.
  - rewrite <-of_caller_middle. apply H6.
Qed.

Lemma held_ok_new i : (forall k, in_flight i k = 0) -> held_ok {| routes := store_empty; callers := i |} [].
Proof using.
  intros Hi. split; cbn [routes callers]; [apply store_wf_empty|..|done|]; simpl.
  - intros l. right. by rewrite lookup_empty.
  - intros k l. by rewrite lookup_empty.
  - intros l [x Hx]. by rewrite lookup_empty in Hx.
  - intros k. unfold of_caller. simpl. lia.
Qed.

(** Looking a counter up, or making it, keeps the invariant. *)
Lemma held_ok_get f held key :
  held_ok f held -> held_ok {| routes := (get_with (routes f) key 0).1; callers := callers f |} held.
Proof using.
  intros [H1 H2 H3 H4 H5 H6].
  destruct (get_with (routes f) key 0) as [r l] eqn:E.
  destruct (get_with_spec _ _ _ _ _ H1 E) as (W & Hk & _ & _).
  unfold get_with in E. destruct (st_keys (routes f) !! key) as [l0|] eqn:Ek; injection E as <- <-.
  { by split. }
  set (lf := fresh (dom (st_heap (routes f)))) in *.
  assert (st_heap (routes f) !! lf = None) as Hf by (apply not_elem_of_dom, is_fresh).
  assert (on_route lf held = 0) as H0 by (destruct (H2 lf) as [?|[_ ?]]; [congruence|done]).
  split; cbn [routes callers st_keys st_heap fst]; try done.
  - intros l. rewrite lookup_insert. case_decide as Hl; [left; subst l; by rewrite H0|apply H2].
  - intros k l. rewrite lookup_insert. case_decide; [intros [= <-]; lia|by apply H3].
  - intros l. rewrite lookup_insert. case_decide as Hl.
    + intros _. exists key. subst l. by rewrite lookup_insert_eq.
    + intros Hlive. destruct (H4 l Hlive) as [k Hkl]. exists k. rewrite lookup_insert_ne; [done|].
      intros <-. congruence.
Qed.

(** A slot more on a counter whose value is below its key's cap. *)
Lemma held_ok_bump f held key l max :
  held_ok f held -> st_keys (routes f) !! key = Some l -> on_route l held < max -> max <= cap key ->
  held_ok {| routes := (modify (routes f) l (bump max)).1; callers := callers f |} (RouteSlot l :: held).
Proof using Hcap.
  intros [H1 H2 H3 H4 H5 H6] Hk Hlt Hmax.
  destruct (H2 l) as [Hl|[Hl _]]; [|by destruct (sw_live _ H1 _ _ Hk) as [x Hx]; congruence].
  pose proof (modify_spec (routes f) l (bump max) _ H1 Hl) as (W & _ & _ & _).
  unfold modify in *. rewrite Hl in *. unfold bump in *.
  destruct (Z.ltb_spec (on_route l held) max) as [_|]; [|lia]. cbn [fst] in *.
  assert (sat_add u64_max (on_route l held) 1 = on_route l held + 1) as Esat.
  { pose proof (Hcap key). unfold sat_add. lia. }
  rewrite Esat in *. pose proof (on_route_nonneg l held).
  split; cbn [routes callers st_keys st_heap]; try done.
  - intros l'. rewrite lookup_insert, on_route_cons. case_decide as Hl'.
    + subst l'. left. rewrite bool_decide_true by done. f_equal; lia.
    + rewrite bool_decide_false by congruence. rewrite Z.add_0_r. apply H2.
  - intros k l' Hk'. rewrite on_route_cons. pose proof (H3 _ _ Hk'). case_bool_decide as Hs; [|lia].
    injection Hs as <-. assert (k = key) as -> by (by eapply (sw_inj _ H1)). lia.
  - intros l'. rewrite lookup_insert. case_decide; [|by apply H4]. subst. intros _. by exists key.
Qed.

(** A route slot given back. *)
Lemma held_ok_drop_route f held l :
  held_ok f (RouteSlot l :: held) ->
  held_ok {| routes := (modify (routes f) l fetch_sub).1; callers := callers f |} held.
Proof using Hcap.
  intros [H1 H2 H3 H4 H5 H6]. pose proof (on_route_cons l (RouteSlot l) held) as Hc.
  rewrite bool_decide_true in Hc by done. pose proof (on_route_nonneg l held).
  destruct (H2 l) as [Hl|[_ Hz]]; [|lia].
  destruct (H4 l ltac:(by eexists)) as [key Hkey]. pose proof (H3 _ _ Hkey). pose proof (Hcap key).
  pose proof (modify_spec (routes f) l fetch_sub _ H1 Hl) as (W & _ & _ & _).
  unfold modify in *. rewrite Hl in *. cbn [fetch_sub fst] in *.
  assert ((on_route l (RouteSlot l :: held) - 1) mod 2 ^ 64 = on_route l held) as E.
  { rewrite Z.mod_small; unfold u64_max in *; lia. }
  rewrite E in *. split; cbn [routes callers st_keys st_heap]; try done.
  - intros l'. rewrite lookup_insert. case_decide as Hl'; [subst; by left|].
    pose proof (H2 l') as H2'. rewrite on_route_cons, bool_decide_false, Z.add_0_r in H2' by congruence.
    done.
  - intros k l' Hk'. pose proof (H3 _ _ Hk') as H3'. rewrite on_route_cons in H3'.
    pose proof (on_route_nonneg l' held). case_bool_decide; lia.
  - intros l'. rewrite lookup_insert. case_decide; [|by apply H4]. subst. intros _. by exists key.
Qed.

(** The callers' side of the store changes alone. *)
Lemma held_ok_callers f held held' c :
  held_ok f held -> (forall l, on_route l held' = on_route l held) ->
  (forall k, in_flight c k = of_caller k held') -> (forall k, of_caller k held' <= Z.max 0 (cap k)) ->
  held_ok {| routes := routes f; callers := c |} held'.
Proof using.
  intros [H1 H2 H3 H4 H5 H6] Hr Hc Hcap'. split; cbn [routes callers]; try done; intros *; rewrite Hr;
    [apply H2|apply H3].
Qed.

Lemma held_step_ok x y : held_step cap x y -> held_ok x.1 x.2 -> held_ok y.1 y.2.
Proof using Hcap.
  intros [key max caller f f' held s Hmax Ht|key max caller f f' held Hmax Ht|s f h1 h2]; simpl; intros Hok.
  - unfold inflight_take in Ht. destruct caller.
    + pose proof (incr_counts (callers f) key) as Hc. pose proof (incr_never_under (callers f) key) as Hu.
      destruct (incr (callers f) key 1) as [c n]. simpl in Hc, Hu.
      destruct (_ <=? max) eqn:El; [|done]. injection Ht as <- <-. apply Z.leb_le in El.
      apply (held_ok_callers _ _ _ _ Hok).
      * intros l. rewrite on_route_cons, bool_decide_false by done. lia.
      * intros k. rewrite Hc, of_caller_cons, (ho_callers _ _ Hok).
        destruct (base.decide (k = key)) as [->|]; [by rewrite !bool_decide_true|].
        by rewrite !bool_decide_false by congruence.
      * intros k. rewrite of_caller_cons. pose proof (ho_caller_cap _ _ Hok k).
        case_bool_decide as Hs; [|lia]. injection Hs as ->.
        specialize (Hc k). rewrite (ho_callers _ _ Hok), bool_decide_true in Hc by done.
        pose proof (of_caller_nonneg k held).
        destruct (Z.leb_spec 0 n); lia.
    + pose proof (held_ok_get f held key Hok) as Hg.
      pose proof (get_with_spec (routes f) key 0) as Hsp.
      destruct (get_with (routes f) key 0) as [r l]. destruct (Hsp _ _ (ho_wf _ _ Hok) eq_refl) as (_ & Hk & _).
      pose proof (held_ok_bump _ _ key l max Hg Hk) as Hb. cbn [routes callers fst] in Hb, Hg.
      destruct (modify r l (bump max)) as [r2 ok] eqn:Em. case_bool_decide as Ho; [|done].
      injection Ht as <- <-. apply Hb; [|lia].
      unfold modify in Em. destruct (ho_cells _ _ Hg l) as [Hl|[Hl _]]; cbn [routes] in Hl; rewrite Hl in Em.
      * unfold bump in Em. destruct (Z.ltb_spec (on_route l held) max); [done|congruence].
      * congruence.
  - unfold inflight_take in Ht. destruct caller.
    + pose proof (incr_counts (callers f) key) as Hc.
      destruct (incr (callers f) key 1) as [c n]. simpl in Hc.
      destruct (_ <=? max); [done|]. injection Ht as <-.
      apply (held_ok_callers _ _ _ _ Hok); [done| |apply (ho_caller_cap _ _ Hok)].
      intros k. rewrite drop_counts, Hc, (ho_callers _ _ Hok). lia.
    + pose proof (held_ok_get f held key Hok) as Hg.
      destruct (get_with (routes f) key 0) as [r l]. cbn [fst] in Hg.
      destruct (modify r l (bump max)) as [r2 ok] eqn:Em. case_bool_decide as Ho; [done|].
      injection Ht as <-. unfold modify in Em.
      destruct (st_heap r !! l) as [n|] eqn:En; [|by injection Em as <- <-].
      unfold bump in Em. destruct (n <? max); injection Em as <- <-; [done|].
      rewrite insert_id by done. by destruct r.
  - apply held_ok_middle in Hok. destruct s as [l|key]; cbn [slot_drop].
    + by apply held_ok_drop_route.
    + apply (held_ok_callers _ _ _ _ Hok).
      * intros l. rewrite on_route_cons, bool_decide_false by done. lia.
      * intros k. rewrite drop_counts, (ho_callers _ _ Hok), of_caller_cons.
        destruct (base.decide (k = key)) as [->|]; [rewrite !bool_decide_true by done; lia|].
        rewrite !bool_decide_false by congruence. lia.
      * intros k. pose proof (ho_caller_cap _ _ Hok k) as Hk. rewrite of_caller_cons in Hk.
        case_bool_decide; lia.
Qed.

(** C36: caps hold and no slot is lost or invented: however requests take, are
    refused and drop their slots, across reloads, the counter of a key is the
    number of slots running requests hold on it, and that number stays within
    the largest cap its key was taken under, for routes and for callers. *)
Theorem caps_hold i x
  (Hi : forall k, in_flight i k = 0)
  (Hr : rtc (held_step cap) ({| routes := store_empty; callers := i |}, []) x) :
  (forall key l, st_keys (routes x.1) !! key = Some l ->
     st_heap (routes x.1) !! l = Some (on_route l x.2) /\ on_route l x.2 <= Z.max 0 (cap key)) /\
  (forall key, in_flight (callers x.1) key = of_caller key x.2 /\ of_caller key x.2 <= Z.max 0 (cap key)).
Proof using Hcap.
  pose proof (held_ok_new i Hi) as H0.
  assert (held_ok x.1 x.2) as [H1 H2 H3 H4 H5 H6].
  { remember (_, _) as x0 eqn:E. assert (held_ok x0.1 x0.2) as Hx0 by by subst x0. clear H0 E.
    induction Hr as [|x y z Hs _ IH]; [done|]. by eapply IH, held_step_ok. }
  split; [|auto]. intros key l Hk. split; [|by apply H3].
  destruct (H2 l) as [?|[Hn _]]; [done|]. destruct (sw_live _ H1 _ _ Hk) as [v Hv]. congruence.
Qed.
End Invariant.

(** A sketch without collisions, for concrete inputs. *)
Definition bump_key (i : gmap str Z) (k : str) (n : Z) : gmap str Z := <[k := default 0 (i !! k) + n]> i.
#[export] Instance exact_inflight : Inflight (gmap str Z) := {
  incr i k n := (bump_key i k n, default 0 (i !! k) + n);
  guard_drop i k := bump_key i k (-1);
}.

Lemma bump_key_lookup i k n k' :
  default 0 (bump_key i k n !! k') = default 0 (i !! k') + (if k' ==? k then n else 0).
Proof.
  unfold bump_key. rewrite lookup_insert. case_decide as E.
  - subst. by rewrite bool_decide_true.
  - rewrite bool_decide_false by congruence. lia.
Qed.

#[export] Instance exact_inflight_laws : InflightLaws (gmap str Z).
Proof.
  refine {| in_flight i k := default 0 (i !! k) |}; intros i k; simpl.
  - intros k'. apply bump_key_lookup.
  - rewrite bump_key_lookup, bool_decide_true by done. lia.
  - intros k'. rewrite bump_key_lookup. case_bool_decide; lia.
Defined.

Lemma caps_hold_witness :
  let f0 : InFlight (gmap str Z) := {| routes := store_empty; callers := ∅ |} in
  let f1 := (inflight_take "r" 1 false f0).1 in
  (inflight_take "r" 1 false f0).2 = Some (RouteSlot 1%positive) /\
  (inflight_take "r" 1 false f1).2 = None /\
  st_heap (routes f1) !! 1%positive = Some 1 /\ on_route 1%positive [RouteSlot 1%positive] <= 1.
Proof.
  intros f0 f1.
  assert (rtc (held_step (fun _ => 1)) (f0, []) (f1, [RouteSlot 1%positive])) as Hr.
  { eapply rtc_l; [|apply rtc_refl].
    apply (hs_take (fun _ => 1) "r" 1 false f0 f1 [] (RouteSlot 1%positive)); [lia|by vm_compute]. }
  destruct (caps_hold (fun _ => 1) ltac:(done) ∅ (f1, [RouteSlot 1%positive]) ltac:(done) Hr) as [H _].
  destruct (H "r" 1%positive ltac:(by vm_compute)) as [H1 H2].
  split_and!; [by vm_compute|by vm_compute|exact H1|exact H2].
Defined.
