(* ===== verification/Cors.v ===== *)
(** * Cross-origin policy (cors.rs, csrf.rs)

    [Cors] is the response-side policy compiled from the configuration: which
    [Access-Control-*] headers an origin is given.  [CookieProtection] is the
    request-side policy that refuses unsafe requests whose credential came from
    a cookie unless their origin is listed; the URL parser of the [url] crate is
    a parameter. *)

From S2P Require Export Config Headers.

(** ** Origin rules *)

Inductive OriginRule :=
| Any
| Exact (want : str)
| Suffix (scheme suffix : str).
#[export] Instance OriginRule_eq_dec : EqDecision OriginRule.
Proof. solve_decision. Defined.

Definition origin_rule_parse (raw : str) : result OriginRule str :=
  let raw := trim raw in
  if raw ==? "*" then Ok Any
  else
    let? sr := ok_or (split_once_str "://" raw)
      ("origin `" ++ raw ++ "` has no scheme; write `https://example.com`") in
    let '(scheme, rest) := sr in
    if rest ==? [] then Err ("origin `" ++ raw ++ "` has no host")
    else if contains_byte b_slash rest then
      Err ("origin `" ++ raw ++ "` has a path; an origin is scheme, host and port only")
    else match strip_prefix "*." rest with
         | Some suffix =>
             if negb (suffix ==? []) then
               Ok (Suffix (to_ascii_lowercase scheme) (to_ascii_lowercase suffix))
             else Err ("origin `" ++ raw ++ "` has an empty wildcard suffix")
         | None => Ok (Exact (to_ascii_lowercase raw))
         end.

Definition rule_matches (r : OriginRule) (origin : str) : bool :=
  let origin := to_ascii_lowercase (trim origin) in
  match r with
  | Any => true
  | Exact want => origin ==? want
  | Suffix scheme suffix =>
      match split_once_str "://" origin with
      | None => false
      | Some (got_scheme, host) =>
          (got_scheme ==? scheme) && (length suffix + 1 <? length host)%nat && ends_with suffix host
          && ends_with "." (take (length host - length suffix) host)
      end
  end.

(** ** The compiled policy *)

Record Cors := {
  rules : list OriginRule;
  methods : list str;
  allow_headers : list str;
  expose : list str;
  credentials : bool;
  max_age : Z;
  wildcard_without_credentials : bool;
}.

Definition cors_compile (cfg : CorsConfig) : result Cors str :=
  if cors_origins cfg ==? [] then Err "cors.origins is empty; no cross-origin request could succeed"
  else
    let? rs := collect_results origin_rule_parse (cors_origins cfg) in
    let any := existsb (fun r => r ==? Any) rs in
    if any && cors_credentials cfg then
      Err ("cors sets `credentials: true` with origin `*`. Browsers refuse that "
           ++ "combination, and honouring it would let any site read authenticated "
           ++ "responses. List the origins that may send credentials.")
    else
      Ok {| rules := rs;
            methods := map to_ascii_uppercase (cors_methods cfg);
            allow_headers := map to_ascii_lowercase (cors_headers cfg);
            expose := map to_ascii_lowercase (cors_expose cfg);
            credentials := cors_credentials cfg;
            max_age := as_secs (cors_max_age cfg);
            wildcard_without_credentials := any && negb (cors_credentials cfg) |}.

Definition cors_allows (c : Cors) (origin : str) : bool :=
  existsb (fun r => rule_matches r origin) (rules c).

Definition allow_origin (c : Cors) (origin : str) : option (str * bool) :=
  if negb (cors_allows c origin) then None
  else if wildcard_without_credentials c then Some (str_of "*", false)
  else Some (origin, true).

Abbreviation header_list := (list (str * str)).
Definition h (name : String.string) (value : str) : str * str := (str_of name, value).

Definition preflight (c : Cors) (origin requested_method : str) : option header_list :=
  letO vv := allow_origin c origin in
  let '(value, varies) := vv : str * bool in
  let method := to_ascii_uppercase (trim requested_method) in
  if negb (existsb (fun m => m ==? method) (methods c)) then None
  else Some (
    [h "access-control-allow-origin" value;
     h "access-control-allow-methods" (join ", " (methods c));
     h "access-control-max-age" (show_u64 (max_age c))]
    ++ (if allow_headers c ==? [] then []
        else [h "access-control-allow-headers" (join ", " (allow_headers c))])
    ++ (if credentials c then [h "access-control-allow-credentials" "true"] else [])
    ++ (if varies then [h "vary" "Origin, Access-Control-Request-Method"] else [])).

Definition response (c : Cors) (origin : str) : option header_list :=
  letO vv := allow_origin c origin in
  let '(value, varies) := vv : str * bool in
  Some (
    [h "access-control-allow-origin" value]
    ++ (if credentials c then [h "access-control-allow-credentials" "true"] else [])
    ++ (if expose c ==? [] then [] else [h "access-control-expose-headers" (join ", " (expose c))])
    ++ (if varies then [h "vary" "Origin"] else [])).

(** ** Cookie protection *)

(** What [url::Url] tells of a parsed URL; [origin] is
    [origin().ascii_serialization()]. *)
Record Url := {
  url_scheme : str;
  url_host : option str;
  url_username : str;
  url_password : option str;
  url_path : str;
  url_query : option str;
  url_fragment : option str;
  url_origin : str;
}.

Record CookieProtection := { cp_allowed : list str; cp_fallback : bool }.

Section Csrf.
Context (url_parse : str -> option Url).
Context (to_str : list Z -> option str).

Definition origin (raw : str) (referer : bool) : option str :=
  if contains_byte 42 raw || (2048 <? Z.of_nat (length raw))
     || existsb (fun b => (b <=? 32) || (b =? 127) || (b =? b_backslash)) raw
  then None
  else
    letO url := url_parse raw in
    if negb ((url_scheme url ==? "http") || (url_scheme url ==? "https"))
       || (url_host url ==? None)
       || negb (url_username url ==? [])
       || negb (url_password url ==? None)
       || (negb referer && (negb (url_path url ==? "/") || negb (url_query url ==? None)
                            || negb (url_fragment url ==? None)))
    then None
    else Some (url_origin url).

Definition single (headers : header_map) (name : str) : result (option str) str :=
  match headers name with
  | [] => Ok None
  | [v] => match to_str v with Some s => Ok (Some s) | None => Err "cookie_origin_denied" end
  | _ => Err "cookie_origin_ambiguous"
  end.

Definition cookie_compile (cfg : CookieProtectionConfig) : result CookieProtection str :=
  if cp_origins cfg ==? [] then Err "origins must not be empty"
  else
    let? origins := collect_results (fun raw => ok_or (origin raw false)
      (str_of "origins must be exact HTTP(S) origins without credentials, paths or wildcards"))
      (cp_origins cfg) in
    Ok {| cp_allowed := origins; cp_fallback := cp_referer_fallback cfg |}.

Definition safe_methods : list str :=
  [("GET" : str); ("HEAD" : str); ("OPTIONS" : str); ("TRACE" : str)].

Definition cookie_check (p : CookieProtection) (headers : header_map) (method : str)
  : result unit str :=
  if existsb (fun m => m ==? method) safe_methods then Ok tt
  else
    let? o := single headers "origin" in
    let? candidate :=
      match o with
      | Some raw => Ok (origin raw false)
      | None =>
          if cp_fallback p then
            let? r := single headers "referer" in
            Ok (letO raw := r in origin raw true)
          else Err (str_of "cookie_origin_required")
      end in
    let? candidate := ok_or candidate (str_of "cookie_origin_denied") in
    if existsb (fun o => o ==? candidate) (cp_allowed p) then Ok tt
    else Err (str_of "cookie_origin_denied").
End Csrf.

(** ** Lemmas *)

Lemma allow_origin_Some c origin v varies :
  allow_origin c origin = Some (v, varies) ->
  (exists r, r ∈ rules c /\ rule_matches r origin = true) /\
  ((wildcard_without_credentials c = true /\ v = str_of "*" /\ varies = false) \/
   (wildcard_without_credentials c = false /\ v = origin /\ varies = true)).
Proof.
  unfold allow_origin. destruct (cors_allows c origin) eqn:E; [|done]. cbn [negb].
  intros H. split; [by apply existsb_In|].
  destruct (wildcard_without_credentials c); injection H as <- <-; auto.
Qed.

(** What compiling establishes. *)
Lemma cors_compile_Ok cfg c :
  cors_compile cfg = Ok c ->
  Forall2 (fun o r => origin_rule_parse o = Ok r) (cors_origins cfg) (rules c) /\
  credentials c = cors_credentials cfg /\
  (credentials c = true -> wildcard_without_credentials c = false /\ Any ∉ rules c) /\
  (wildcard_without_credentials c = false -> Any ∉ rules c \/ credentials c = true).
Proof.
  unfold cors_compile. case_bool_decide; [done|]. intros (rs & Hrs & Hc)%rbind_Ok.
  apply collect_results_Ok in Hrs.
  assert (existsb (fun r => r ==? Any) rs = false <-> Any ∉ rs) as Hany.
  { rewrite existsb_none. split.
    - intros H1 Hin. specialize (H1 _ Hin). by rewrite bool_decide_true in H1.
    - intros Hn x Hx. apply bool_decide_false. by intros ->. }
  destruct (existsb _ rs) eqn:Ea, (cors_credentials cfg) eqn:Ec; simpl in Hc; try done;
    injection Hc as <-; cbn; rewrite ?Ec; split_and!; try done; naive_solver.
Qed.

(** ** Theorems *)

(** C37: what a compiled policy sends is safe to cache and to obey.  Any header
    list it produces answers an origin that some configured rule matches; it
    allows either the literal [*], and then never with credentials, or the
    very origin that asked, and then it carries [Vary: Origin]; and with
    credentials the rule that matched is not the wildcard. *)
Theorem cors_headers_sound cfg c origin hs
  (Hc : cors_compile cfg = Ok c)
  (Hh : response c origin = Some hs \/ exists m, preflight c origin m = Some hs) :
  (exists r, r ∈ rules c /\ rule_matches r origin = true /\ (credentials c = true -> r <> Any)) /\
  exists v, h "access-control-allow-origin" v ∈ hs /\
    ((v = str_of "*" /\ (h "access-control-allow-credentials" "true" ∉ hs) /\ credentials c = false) \/
     (v = origin /\ exists vary : str, h "vary" vary ∈ hs /\ starts_with "Origin" vary = true)) /\
    ((h "access-control-allow-credentials" "true" ∈ hs) -> credentials c = true).
Proof.
  destruct (cors_compile_Ok _ _ Hc) as (_ & _ & Hcred & _).
  assert (exists v varies, allow_origin c origin = Some (v, varies) /\
    h "access-control-allow-origin" v ∈ hs /\
    (varies = true -> exists vary : str, h "vary" vary ∈ hs /\ starts_with "Origin" vary = true) /\
    ((h "access-control-allow-credentials" "true" ∈ hs) -> credentials c = true))
    as (v & varies & Ha & Hv & Hvary & Hc').
  { destruct Hh as [Hh|[m Hh]]; unfold response, preflight in Hh;
      apply bind_Some in Hh as ([v varies] & Ha & Hh).
    - injection Hh as <-. exists v, varies. split_and!; [done|by left|..].
      + intros ->. exists (str_of "Origin"). split; [|by vm_compute].
        rewrite ?elem_of_cons, ?elem_of_app, ?elem_of_cons, ?elem_of_app, ?elem_of_cons. auto 10.
      + destruct (credentials c); [done|]. intros Hin%(list_elem_of_fmap_2 fst). exfalso. revert Hin.
        case_bool_decide; destruct varies; cbn [fmap list_fmap fst h app];
          by apply (bool_decide_eq_false_1 (_ ∈ _)).
    - destruct (negb _); [done|]. injection Hh as <-. exists v, varies. split_and!; [done|by left|..].
      + intros ->. exists (str_of "Origin, Access-Control-Request-Method"). split; [|by vm_compute].
        rewrite ?elem_of_cons, ?elem_of_app, ?elem_of_cons, ?elem_of_app, ?elem_of_cons. auto 10.
      + destruct (credentials c); [done|]. intros Hin%(list_elem_of_fmap_2 fst). exfalso. revert Hin.
        case_bool_decide; destruct varies; cbn [fmap list_fmap fst h app];
          by apply (bool_decide_eq_false_1 (_ ∈ _)). }
  apply allow_origin_Some in Ha as ((r & Hr & Hm) & Hw).
  split.
  { exists r. split_and!; try done. intros Hcr ->. by apply Hcred in Hcr as [_ ?]. }
  exists v. split_and!; [done| |done]. destruct Hw as [(Hwild & -> & _)|(Hwild & -> & ->)].
  - left. destruct (credentials c) eqn:Ec; [by destruct (Hcred eq_refl); congruence|].
    split_and!; [done| |done]. intros H1%Hc'. congruence.
  - right. auto.
Qed.

Definition sample_cors : CorsConfig :=
  {| cors_origins := [("https://app.example.com" : str); ("https://*.preview.example.com" : str)];
     cors_methods := [("GET" : str)]; cors_headers := [("Content-Type" : str)]; cors_expose := [];
     cors_credentials := true; cors_max_age := from_secs 600 |}.

Lemma cors_headers_sound_witness :
  exists c hs, cors_compile sample_cors = Ok c /\
    preflight c "https://pr-7.preview.example.com" " get " = Some hs /\
    (exists v : str, h "access-control-allow-origin" v ∈ hs) /\
    exists r, r ∈ rules c /\ rule_matches r "https://pr-7.preview.example.com" = true.
Proof.
  destruct (cors_compile sample_cors) as [c|] eqn:Ec; [|by vm_compute in Ec].
  destruct (preflight c "https://pr-7.preview.example.com" " get ") as [hs|] eqn:Eh;
    [|vm_compute in Ec; injection Ec as <-; by vm_compute in Eh].
  exists c, hs. split; [done|]. split; [done|].
  destruct (cors_headers_sound _ _ _ _ Ec (or_intror (ex_intro _ _ Eh))) as ((r & Hr & Hm & _) & v & Hv & _).
  split; [by exists v|by exists r].
Defined.

(** A wildcard rule matches sub-domains and nothing else: the origin,
    trimmed and in lower case, is the rule's scheme, a non-empty label, a dot
    and the suffix, so neither the bare domain nor a name that merely ends in
    it passes. *)
Lemma suffix_rule_exact scheme suffix o
  (Hs : 58 ∉ scheme) :
  rule_matches (Suffix scheme suffix) o = true <->
  exists label : str, label <> [] /\
    to_ascii_lowercase (trim o) = scheme ++ "://" ++ label ++ "." ++ suffix.
Proof.
  unfold rule_matches. set (lo := to_ascii_lowercase (trim o)).
  change (str_of "://") with ([58; 47; 47] : str). change (str_of ".") with ([46] : str). split.
  - destruct (split_once_str [58; 47; 47] lo) as [[got host]|] eqn:E; [|done].
    rewrite <-!andb_assoc. intros [Hg H]%andb_true_iff. rewrite andb_assoc in H. apply bool_decide_eq_true in Hg as ->.
    apply split_once_str_Some in E. rewrite E.
    destruct (proj1 (dotted_suffix_spec suffix host)) as (label & Hl & ->); [exact H|].
    by exists label.
  - intros (label & Hl & ->). rewrite (split_once_str_barrier 58 [47; 47]) by done.
    rewrite bool_decide_true by done. cbn [andb]. apply dotted_suffix_spec. by exists label.
Qed.

Lemma suffix_rule_exact_witness :
  rule_matches (Suffix "https" "example.com") "https://evil-example.com" = false /\
  rule_matches (Suffix "https" "example.com") "HTTPS://a.Example.com" = true.
Proof.
  split; [by vm_compute|]. apply suffix_rule_exact; [by vm_compute; set_solver|].
  exists "a". split; [done|by vm_compute].
Defined.

(** An unsafe request authenticated by a cookie passes only with proof of
    its origin: one [Origin] header, or, where the policy falls back and there is
    none, one [Referer], that parses as an HTTP URL without credentials whose
    serialized origin is on the list; a second value, a missing one, or an
    unreadable one refuses. *)
Lemma cookie_check_proves_origin url_parse to_str p headers method
  (Hok : cookie_check url_parse to_str p headers method = Ok tt)
  (Hunsafe : method ∉ safe_methods) :
  exists (v : list Z) (raw o : str) referer,
    headers (if referer : bool then str_of "referer" else str_of "origin") = [v] /\
    (referer = true -> cp_fallback p = true /\ headers (str_of "origin") = []) /\
    to_str v = Some raw /\ origin url_parse raw referer = Some o /\ o ∈ cp_allowed p /\
    exists url, url_parse raw = Some url /\ o = url_origin url /\ url_username url = [] /\
      url_password url = None /\ (url_scheme url = str_of "http" \/ url_scheme url = str_of "https").
Proof.
  assert (forall raw referer o, origin url_parse raw referer = Some o ->
    exists url, url_parse raw = Some url /\ o = url_origin url /\ url_username url = [] /\
      url_password url = None /\ (url_scheme url = str_of "http" \/ url_scheme url = str_of "https"))
    as Horigin.
  { intros raw referer o Ho. unfold origin in Ho. destruct (_ || _); [done|].
    apply bind_Some in Ho as (url & Hu & Ho). destruct (_ || _) eqn:E; [done|]. injection Ho as <-.
    exists url. breflect. split_and!; try done.
    match goal with H : _ || _ = true |- _ => apply orb_true_iff in H as [H|H] end; breflect; auto. }
  assert (forall name s, single to_str headers name = Ok (Some s) ->
    exists v, headers name = [v] /\ to_str v = Some s) as Hsingle.
  { intros name s H. unfold single in H. destruct (headers name) as [|v [|]]; try done.
    destruct (to_str v) eqn:E; [|done]. injection H as ->. eauto. }
  unfold cookie_check in Hok. destruct (existsb (fun m => m ==? method) safe_methods) eqn:Es.
  { apply existsb_In in Es as (m & Hm & He). breflect. by subst m. }
  apply rbind_Ok in Hok as (o & Ho & Hok). apply rbind_Ok in Hok as (cand & Hc & Hok).
  apply rbind_Ok in Hok as (c & Hcand & Hok). destruct cand as [c'|]; [|done]. injection Hcand as ->.
  destruct (existsb _ (cp_allowed p)) eqn:Ea; [|done].
  apply existsb_In in Ea as (w & Hw & Ew). breflect. subst w.
  destruct o as [raw|].
  - injection Hc as Hc. destruct (Hsingle _ _ Ho) as (v & Hv & Hr).
    exists v, raw, c, false. split_and!; eauto; done.
  - destruct (cp_fallback p) eqn:Ef; [|done]. apply rbind_Ok in Hc as (r & Hr & Hc).
    injection Hc as Hc. apply bind_Some in Hc as (raw & -> & Hc).
    destruct (Hsingle _ _ Hr) as (v & Hv & Hs). exists v, raw, c, true. split_and!; eauto.
    intros _. split; [done|]. unfold single in Ho. destruct (headers (str_of "origin")) as [|? [|]]; try done.
    by destruct (to_str _).
Qed.

Lemma cookie_check_proves_origin_witness :
  let url_parse s := Some {| url_scheme := "https"; url_host := Some s; url_username := [];
    url_password := None; url_path := "/"; url_query := None; url_fragment := None; url_origin := s |} in
  let p := {| cp_allowed := [("https://a.example" : str)]; cp_fallback := false |} in
  let headers : header_map := fun n => if n ==? str_of "origin" then [str_of "https://a.example"] else [] in
  cookie_check url_parse Some p headers "POST" = Ok tt /\
  exists o : str, o ∈ cp_allowed p.
Proof.
  intros url_parse p headers.
  assert (cookie_check url_parse Some p headers "POST" = Ok tt) as H by by vm_compute.
  split; [exact H|].
  assert (str_of "POST" ∉ safe_methods) as Hn by by apply (bool_decide_eq_false_1 (_ ∈ _)).
  destruct (cookie_check_proves_origin _ _ _ _ _ H Hn)
    as (v & raw & o & referer & _ & _ & _ & _ & Ho & _).
  exists o. exact Ho.
Defined.
