(* ===== verification/Trace.v ===== *)
(** * W3C trace context (trace.rs)

    The gateway continues an incoming trace: the trace identifier and flags are
    kept, and this hop's own span identifier goes upstream.  The identifiers
    drawn by [uuid::Uuid::new_v4] are arguments. *)

From S2P Require Export Str.

Definition FLAG_SAMPLED : Z := 1.
Definition ZERO_TRACE : list Z := repeat 0 16.
Definition ZERO_SPAN : list Z := repeat 0 8.

Record TraceContext := {
  trace_id : list Z;
  span_id : list Z;
  parent_span_id : option (list Z);
  flags : Z;
}.

(** [{b:02x}]. *)
Definition hex_digit (n : Z) : Z := if n <? 10 then 48 + n else 87 + n.
Definition hex2 (b : Z) : str := [hex_digit (b / 16); hex_digit (b mod 16)].
Definition write_hex (bytes : list Z) : str := concat (map hex2 bytes).

(** The value of a hexadecimal digit, and [u8::from_str_radix(s, 16)]. *)
Definition hex_val (c : Z) : option Z :=
  if is_ascii_digit c then Some (c - 48)
  else if in_range 97 102 c then Some (c - 87)
  else if in_range 65 70 c then Some (c - 55)
  else None.
Fixpoint hex_digits (acc : Z) (s : str) : option Z :=
  match s with
  | [] => Some acc
  | c :: rest => letO d := hex_val c in
                 let acc := acc * 16 + d in
                 if 255 <? acc then None else hex_digits acc rest
  end.
Definition u8_from_hex (s : str) : option Z :=
  match s with
  | [] => None
  | 43 :: [] => None
  | 43 :: rest => hex_digits 0 rest
  | _ => hex_digits 0 s
  end.

Definition is_hex (s : str) : bool := negb (s ==? []) && forallb is_ascii_hexdigit s.

(** [hex16] and [hex8]: [n] bytes, two digits each. *)
Fixpoint hex_bytes (n : nat) (s : str) : option (list Z) :=
  match n with
  | O => Some []
  | S n => match s with
           | a :: b :: rest =>
               letO v := u8_from_hex [a; b] in
               letO vs := hex_bytes n rest in
               Some (v :: vs)
           | _ => None
           end
  end.

Definition parse_traceparent (raw : str) : option (list Z * list Z * Z) :=
  match split_on 45 (trim raw) with
  | version :: trace_id :: parent_id :: flags :: more =>
      if negb (length version =? 2)%nat || negb (is_hex version) || (version ==? "ff") then None
      else if (version ==? "00") && negb (more ==? []) then None
      else if negb (length trace_id =? 32)%nat || negb (is_hex trace_id) then None
      else if negb (length parent_id =? 16)%nat || negb (is_hex parent_id) then None
      else if negb (length flags =? 2)%nat || negb (is_hex flags) then None
      else
        letO trace := hex_bytes 16 trace_id in
        letO parent := hex_bytes 8 parent_id in
        if (trace ==? ZERO_TRACE) || (parent ==? ZERO_SPAN) then None
        else letO flags := u8_from_hex flags in Some (trace, parent, flags)
  | _ => None
  end.

(** [random_span_id]: the first eight bytes of a fresh identifier. *)
Definition random_span_id (v4 : list Z) : list Z := take 8 v4.

Definition continue_from (v4_trace v4_span : list Z) (incoming : option str) (sampled : bool)
  : TraceContext :=
  match (letO s := incoming in parse_traceparent s) with
  | Some (t, p, f) =>
      {| trace_id := t; span_id := random_span_id v4_span; parent_span_id := Some p; flags := f |}
  | None =>
      {| trace_id := v4_trace; span_id := random_span_id v4_span; parent_span_id := None;
         flags := if sampled then FLAG_SAMPLED else 0 |}
  end.

Definition ctx_sampled (c : TraceContext) : bool := negb (Z.land (flags c) FLAG_SAMPLED =? 0).

Definition to_header (c : TraceContext) : str :=
  "00-" ++ write_hex (trace_id c) ++ "-" ++ write_hex (span_id c) ++ "-" ++ hex2 (flags c).

(** ** Hexadecimal *)

Definition is_byte (b : Z) : Prop := 0 <= b < 256.

Lemma hex_digit_spec n : 0 <= n < 16 ->
  hex_val (hex_digit n) = Some n /\ is_ascii_hexdigit (hex_digit n) = true /\
  hex_digit n <> 43 /\ hex_digit n <> 45 /\ 0 <= hex_digit n < 128 /\ 32 < hex_digit n.
Proof.
  intros Hn. assert (n ∈ map Z.of_nat (seq 0 16)) as Hin.
  { replace n with (Z.of_nat (Z.to_nat n)) by lia. apply (list_elem_of_fmap_2 Z.of_nat).
    apply list_elem_of_In, in_seq. lia. }
  revert n Hn Hin. cbn. intros n _ Hin.
  repeat (apply elem_of_cons in Hin as [->|Hin]; [by vm_compute|]). by apply elem_of_nil in Hin.
Qed.

Lemma u8_hex2 b : is_byte b -> u8_from_hex (hex2 b) = Some b.
Proof.
  intros Hb. unfold is_byte in Hb.
  destruct (hex_digit_spec (b / 16)) as (H1 & _ & H43 & _); [split; [apply Z.div_pos; lia|apply Z.div_lt_upper_bound; lia]|].
  destruct (hex_digit_spec (b mod 16)) as (H2 & _); [apply Z.mod_pos_bound; lia|].
  assert (u8_from_hex (hex2 b) = hex_digits 0 (hex2 b)) as ->.
  { unfold hex2, u8_from_hex. set (d := hex_digit (b / 16)) in *. clearbody d.
    destruct d as [|p|p]; try done. by repeat (destruct p as [p|p|]; try done). }
  unfold hex2. cbn [hex_digits]. rewrite H1. cbn [mbind option_bind].
  assert (0 <= b / 16 < 16) by (split; [apply Z.div_pos; lia|apply Z.div_lt_upper_bound; lia]).
  destruct (Z.ltb_spec 255 (0 * 16 + b / 16)); [lia|]. rewrite H2. cbn [mbind option_bind].
  pose proof (Z.div_mod b 16 ltac:(lia)).
  destruct (Z.ltb_spec 255 ((0 * 16 + b / 16) * 16 + b mod 16)); [lia|]. f_equal. lia.
Qed.

Lemma write_hex_cons b bs : write_hex (b :: bs) = hex2 b ++ write_hex bs.
Proof. done. Qed.

Lemma hex_bytes_write bs : Forall is_byte bs -> hex_bytes (length bs) (write_hex bs) = Some bs.
Proof.
  induction 1 as [|b bs Hb _ IH]; [done|]. rewrite write_hex_cons. pose proof (u8_hex2 b Hb) as Hu. unfold hex2 in *.
  cbn [app length hex_bytes]. rewrite Hu. cbn [mbind option_bind]. by rewrite IH.
Qed.

Lemma length_write_hex bs : length (write_hex bs) = (2 * length bs)%nat.
Proof. induction bs; [done|]. rewrite write_hex_cons, length_app. simpl. lia. Qed.

Lemma elem_of_write_hex bs c : Forall is_byte bs -> c ∈ write_hex bs ->
  is_ascii_hexdigit c = true /\ c <> 45 /\ 0 <= c < 128 /\ 32 < c.
Proof.
  induction 1 as [|b bs Hb _ IH]; [by intros ?%elem_of_nil|]. rewrite write_hex_cons, elem_of_app.
  intros [Hc|Hc]; [|by apply IH]. unfold is_byte in Hb. unfold hex2 in Hc.
  assert (0 <= b / 16 < 16) by (split; [apply Z.div_pos; lia|apply Z.div_lt_upper_bound; lia]).
  pose proof (Z.mod_pos_bound b 16 ltac:(lia)).
  destruct (hex_digit_spec (b / 16)) as (? & ? & ? & ? & ? & ?); [lia|].
  destruct (hex_digit_spec (b mod 16)) as (? & ? & ? & ? & ? & ?); [lia|].
  apply elem_of_cons in Hc as [->|Hc]; [auto|]. apply elem_of_cons in Hc as [->|Hc]; [auto|].
  by apply elem_of_nil in Hc.
Qed.

Lemma is_hex_write bs : Forall is_byte bs -> bs <> [] -> is_hex (write_hex bs) = true.
Proof.
  intros Hb Hne. unfold is_hex. apply andb_true_iff. split.
  - rewrite bool_decide_false; [done|]. by destruct bs.
  - apply forallb_In. intros c Hc. by apply (elem_of_write_hex bs).
Qed.

(** ** Theorems *)

(** A context as the gateway holds it. *)
Record ctx_ok (c : TraceContext) : Prop := {
  co_trace : length (trace_id c) = 16%nat /\ Forall is_byte (trace_id c) /\ trace_id c <> ZERO_TRACE;
  co_span : length (span_id c) = 8%nat /\ Forall is_byte (span_id c) /\ span_id c <> ZERO_SPAN;
  co_flags : is_byte (flags c);
}.

Lemma to_header_split c :
  to_header c = join [45] [str_of "00"; write_hex (trace_id c); write_hex (span_id c); hex2 (flags c)].
Proof. unfold to_header. simpl. by rewrite <-?app_assoc. Qed.

Lemma hex2_write b : hex2 b = write_hex [b].
Proof. done. Qed.

Lemma split_header c :
  ctx_ok c -> split_on 45 (trim (to_header c)) =
    [str_of "00"; write_hex (trace_id c); write_hex (span_id c); hex2 (flags c)].
Proof.
  intros [(_ & Ht & _) (_ & Hs & _) Hf].
  assert (trim (to_header c) = to_header c) as ->.
  { unfold to_header, hex2. change (str_of "00-") with ([48; 48; 45] : str). cbn [app].
    change (str_of "-") with ([45] : str). unfold is_byte in Hf.
    destruct (hex_digit_spec (flags c mod 16)) as (_ & _ & _ & _ & Hr & Hl); [apply Z.mod_pos_bound; lia|].
    set (d := hex_digit (flags c mod 16)) in *. set (e := hex_digit (flags c / 16)) in *.
    match goal with |- trim ?x = _ => assert (x =
      48 :: (48 :: 45 :: write_hex (trace_id c) ++ 45 :: write_hex (span_id c) ++ [45; e]) ++ [d]) as -> end.
    { cbn [app]. do 3 f_equal. rewrite <-app_assoc. f_equal. cbn [app]. f_equal. by rewrite <-app_assoc. }
    apply trim_id; try done; [lia|]. unfold ws1, in_range.
    destruct (Z.leb_spec d 13), (Z.eqb_spec d 32); rewrite ?andb_false_r; try done; lia. }
  rewrite to_header_split. apply split_join; [done|].
  assert (forall bs, Forall is_byte bs -> 45 ∉ write_hex bs) as Hno.
  { intros bs Hb Hin. destruct (elem_of_write_hex bs 45 Hb Hin) as (_ & ? & _). done. }
  constructor; [by apply (bool_decide_eq_false_1 (_ ∈ _))|].
  constructor; [by apply Hno|]. constructor; [by apply Hno|]. constructor; [|constructor].
  rewrite hex2_write. apply Hno. by apply Forall_singleton.
Qed.

(** Round trip: the header sent upstream reads back as this hop's trace,
    span and flags. *)
Lemma traceparent_roundtrip c (Hc : ctx_ok c) :
  parse_traceparent (to_header c) = Some (trace_id c, span_id c, flags c).
Proof.
  unfold parse_traceparent. rewrite split_header by done.
  destruct Hc as [(Lt & Ht & Nt) (Ls & Hs & Ns) Hf].
  change ((str_of "00" ==? str_of "ff")) with false. change (is_hex (str_of "00")) with true.
  change (length (str_of "00") =? 2)%nat with true. change (str_of "00" ==? str_of "00") with true.
  cbn [negb orb andb]. rewrite (bool_decide_true ([] = [])) by done. cbn [negb].
  rewrite !length_write_hex, Lt, Ls. change ((2 * 16 =? 32)%nat) with true. change ((2 * 8 =? 16)%nat) with true.
  assert (trace_id c <> []) by (intros E; by rewrite E in Lt).
  assert (span_id c <> []) by (intros E; by rewrite E in Ls).
  rewrite !is_hex_write by done.
  change (length (hex2 (flags c)) =? 2)%nat with true.
  rewrite (hex2_write (flags c)), is_hex_write, <-hex2_write by (done || by apply Forall_singleton).
  cbn [negb orb]. pose proof (hex_bytes_write _ Ht) as E1. pose proof (hex_bytes_write _ Hs) as E2.
  rewrite Lt in E1. rewrite Ls in E2. rewrite E1, E2. cbn [mbind option_bind].
  rewrite !bool_decide_false by done. cbn [orb]. by rewrite u8_hex2.
Qed.

(** What is read from a header is a valid context. *)
Lemma hex_val_range c v : hex_val c = Some v -> 0 <= v < 16.
Proof.
  unfold hex_val, is_ascii_digit, in_range. repeat case_match; intros; simplify_eq; breflect; lia.
Qed.
Lemma hex_digits_range s acc v : 0 <= acc < 256 -> hex_digits acc s = Some v -> 0 <= v < 256.
Proof.
  revert acc. induction s as [|c s IH]; intros acc Ha; cbn [hex_digits]; [by intros [= <-]|].
  destruct (hex_val c) as [d|] eqn:E; [|done]. cbn [mbind option_bind]. apply hex_val_range in E.
  destruct (Z.ltb_spec 255 (acc * 16 + d)); [done|]. apply IH. lia.
Qed.
Lemma u8_from_hex_range s v : u8_from_hex s = Some v -> is_byte v.
Proof.
  unfold u8_from_hex. intros H.
  assert (exists s', hex_digits 0 s' = Some v) as [s' Hs] by (repeat case_match; simplify_eq; eauto).
  by eapply hex_digits_range in Hs.
Qed.
Lemma hex_bytes_ok n s bs : hex_bytes n s = Some bs -> length bs = n /\ Forall is_byte bs.
Proof.
  revert s bs. induction n as [|n IH]; intros s bs; cbn [hex_bytes]; [by intros [= <-]|].
  destruct s as [|a [|b s]]; [done..|]. intros (v & Hv & (vs & Hvs & [= <-])%bind_Some)%bind_Some.
  apply IH in Hvs as [<- Hf]. split; [done|]. constructor; [by eapply u8_from_hex_range|done].
Qed.
Lemma parse_traceparent_ok raw t p f :
  parse_traceparent raw = Some (t, p, f) ->
  (length t = 16%nat /\ Forall is_byte t /\ t <> ZERO_TRACE) /\
  (length p = 8%nat /\ Forall is_byte p /\ p <> ZERO_SPAN) /\ is_byte f.
Proof.
  unfold parse_traceparent. destruct (split_on 45 (trim raw)) as [|v [|t' [|p' [|f' more]]]]; try done.
  destruct (_ || _ || _); [done|]. destruct (_ && _); [done|].
  do 3 (destruct (_ || _); [done|]).
  intros (t1 & Ht & (p1 & Hp & H)%bind_Some)%bind_Some.
  destruct (_ || _) eqn:E; [done|]. breflect. apply bind_Some in H as (f1 & Hf & [= <- <- <-]).
  apply hex_bytes_ok in Ht, Hp. apply u8_from_hex_range in Hf. destruct Ht, Hp. by split_and!.
Qed.

(** The gateway is a hop of the trace: continuing a valid header keeps its
    trace identifier and its flags, so its sampling decision, records its span
    as the parent, and names this hop's own span to the upstream, whose header
    then reads as that same trace below this hop; an absent or malformed header
    starts a trace instead of failing the request. *)
Lemma hop_continues_the_trace v4_trace v4_span incoming sampled
  (Ht : length v4_trace = 16%nat /\ Forall is_byte v4_trace /\ v4_trace <> ZERO_TRACE)
  (Hs : (8 <= length v4_span)%nat /\ Forall is_byte v4_span /\ random_span_id v4_span <> ZERO_SPAN) :
  let c := continue_from v4_trace v4_span incoming sampled in
  parse_traceparent (to_header c) = Some (trace_id c, random_span_id v4_span, flags c) /\
  match (letO s := incoming in parse_traceparent s) with
  | Some (t, p, f) => trace_id c = t /\ parent_span_id c = Some p /\ flags c = f /\
                      ctx_sampled c = negb (Z.land f 1 =? 0)
  | None => trace_id c = v4_trace /\ parent_span_id c = None /\ ctx_sampled c = sampled
  end.
Proof.
  intros c. destruct Hs as (Ls & Fs & Ns).
  assert (length (random_span_id v4_span) = 8%nat /\ Forall is_byte (random_span_id v4_span)) as [Lr Fr].
  { unfold random_span_id. rewrite length_take. split; [lia|]. by apply Forall_take. }
  assert (ctx_ok c /\ span_id c = random_span_id v4_span) as [Hok Hspan].
  { subst c. unfold continue_from. destruct (mbind _ _) as [[[t p] f]|] eqn:E.
    - apply bind_Some in E as (s & -> & E). apply parse_traceparent_ok in E as (? & ? & ?). done.
    - split; [|done]. split; cbn [trace_id span_id flags]; [done|done|].
      unfold is_byte, FLAG_SAMPLED. destruct sampled; lia. }
  split; [rewrite traceparent_roundtrip by done; by rewrite Hspan|].
  subst c. unfold continue_from. destruct (mbind _ _) as [[[t p] f]|]; [done|].
  by destruct sampled.
Qed.

Lemma hop_continues_the_trace_witness :
  let v4_trace := 9 :: repeat 0 15 in
  let v4_span := 5 :: repeat 0 15 in
  let c := continue_from v4_trace v4_span
    (Some (str_of "00-4bf92f3577b34da6a3ce929d0e0e4736-00f067aa0ba902b7-01")) false in
  ctx_sampled c = true /\
  parse_traceparent (to_header c) = Some (trace_id c, 5 :: repeat 0 7, flags c).
Proof.
  intros v4_trace v4_span c.
  destruct (hop_continues_the_trace v4_trace v4_span
    (Some (str_of "00-4bf92f3577b34da6a3ce929d0e0e4736-00f067aa0ba902b7-01")) false) as [H1 H2].
  - split_and!; [done| |done]. apply Forall_elem. intros b Hb. unfold is_byte.
    repeat (apply elem_of_cons in Hb as [->|Hb]; [lia|]). by apply elem_of_nil in Hb.
  - split_and!; [simpl; lia| |done]. apply Forall_elem. intros b Hb. unfold is_byte.
    repeat (apply elem_of_cons in Hb as [->|Hb]; [lia|]). by apply elem_of_nil in Hb.
  - split; [by vm_compute|exact H1].
Defined.
