(* ===== verification/Routes.v ===== *)
(** * The route table (routes/mod.rs)

    Deserialized routes ([RouteInput]), the effective routes of a table
    ([RouteConfig], built by [build_with]), the deny-list, host patterns, the
    match of a request and the reload of a shared table.  The predicates of
    matching are here with the linear scan; the segment trie that replaces the
    scan for larger tables is in RouteIndex.v.

    A limiter is shared by reference, so a route holds the reference, named by
    the table build that made it and its position there, with what
    [same_backend] compares.  A [uuid] drawn for a table is an argument. *)

From S2P Require Export Path Binding Retry Limiter.

(** ** Tiers and hosts *)

Inductive AuthTier := Public | Optional | Machine | Required.
#[export] Instance AuthTier_eq_dec : EqDecision AuthTier.
Proof. solve_decision. Defined.

Definition verifies (t : AuthTier) : bool :=
  match t with Optional | Required => true | _ => false end.
Definition is_machine (t : AuthTier) : bool := t ==? Machine.
Definition group (t : AuthTier) : str :=
  match t with
  | Public => "public" | Optional => "optional" | Machine => "machine" | Required => "authenticated"
  end.

Inductive HostPattern := ExactHost (want : str) | SuffixHost (suffix : str).
#[export] Instance HostPattern_eq_dec : EqDecision HostPattern.
Proof. solve_decision. Defined.

Definition host_parse (raw : str) : result HostPattern str :=
  let raw := to_ascii_lowercase (trim raw) in
  if raw ==? [] then Err "host pattern is empty"
  else if contains_byte b_slash raw then
    Err ("host `" ++ raw ++ "` looks like a URL; a host is a name, optionally with a port")
  else match strip_prefix "*." raw with
       | Some suffix => if negb (suffix ==? []) then Ok (SuffixHost suffix)
                        else Err ("host `" ++ raw ++ "` has an empty wildcard suffix")
       | None => Ok (ExactHost raw)
       end.

Definition host_matches (p : HostPattern) (host : str) : bool :=
  match p with
  | ExactHost want => host ==? want
  | SuffixHost suffix =>
      (length suffix + 1 <? length host)%nat && ends_with suffix host
      && ends_with "." (take (length host - length suffix) host)
  end.

(** Whether one host can satisfy both patterns. *)
Definition dot_under (a b : str) : bool :=
  match strip_suffix b a with Some pre => ends_with "." pre | None => false end.
Definition overlaps (p q : HostPattern) : bool :=
  match p, q with
  | ExactHost a, ExactHost b => a ==? b
  | ExactHost a, SuffixHost _ => host_matches q a
  | SuffixHost _, ExactHost b => host_matches p b
  | SuffixHost a, SuffixHost b => (a ==? b) || dot_under a b || dot_under b a
  end.

Definition normalize_host (raw : str) : str :=
  let host := trim raw in
  match host with
  | 91 :: _ =>
      match find_str [93] host with
      | Some e => take (S e) host
      | None => host
      end
  | _ => match split_once 58 host with Some (h, _) => h | None => host end
  end.

(** ** Routes *)

Inductive PolicyOrigin := OriginRoute | OriginGlobalDefaults | OriginBuiltIn.
#[export] Instance PolicyOrigin_eq_dec : EqDecision PolicyOrigin.
Proof. solve_decision. Defined.
Definition label (o : PolicyOrigin) : str :=
  match o with
  | OriginRoute => "route" | OriginGlobalDefaults => "global defaults" | OriginBuiltIn => "built-in"
  end.

Record PolicyOrigins := {
  po_methods : PolicyOrigin;
  po_retry : PolicyOrigin;
  po_rate_limit : PolicyOrigin;
}.

(** A reference to a limiter and what [Limiter::same_backend] compares: the
    kind of its counters and, for shared ones, the backend's reference, the
    prefix and the batch size. *)
Inductive LimiterKind := LimExact | LimSketch | LimShared (backend : Z) (prefix : str) (batch : nat).
#[export] Instance LimiterKind_eq_dec : EqDecision LimiterKind.
Proof. solve_decision. Defined.
Record LimiterRef := { lr_table : Z; lr_position : nat; lr_kind : LimiterKind }.
#[export] Instance LimiterRef_eq_dec : EqDecision LimiterRef.
Proof. solve_decision. Defined.
Definition same_backend (a b : LimiterRef) : bool := lr_kind a ==? lr_kind b.

(** [SharedCounterFactory]: the backend's reference and its configuration. *)
Record Factory := { fa_backend : Z; fa_cfg : SharedCountersConfig }.

Record RouteConfig := {
  r_id : str;
  r_host : list str;
  r_hosts : list HostPattern;
  r_prefix : str;
  r_upstream : str;
  r_methods : list str;
  r_sse : bool;
  r_strip_prefix : bool;
  r_enabled : bool;
  r_client_key : option bool;
  r_bind : list (str * str);
  r_bindings : list Binding;
  r_cache : bool;
  r_cache_authenticated : bool;
  r_retry : option RetryConfig;
  r_retry_policy : option Policy;
  r_rate_limit : option RateLimitConfig;
  r_limiter : option LimiterRef;
  r_concurrency : option ConcurrencyConfig;
  r_extensions : list str;
  r_auth : AuthTier;
  r_policy_origins : PolicyOrigins;
}.

Record RouteInput := {
  in_id : str;
  in_host : list str;
  in_prefix : str;
  in_upstream : str;
  in_methods : option (list str);
  in_sse : bool;
  in_strip_prefix : bool;
  in_enabled : bool;
  in_client_key : option bool;
  in_bind : list (str * str);
  in_cache : bool;
  in_cache_authenticated : bool;
  in_retry : option (option RetryConfig);
  in_rate_limit : option (option RateLimitConfig);
  in_concurrency : option ConcurrencyConfig;
  in_extensions : list str;
}.

Definition declared {A} (o : option A) : PolicyOrigin :=
  match o with Some _ => OriginRoute | None => OriginBuiltIn end.

(** [impl From<RouteInput> for RouteConfig]. *)
Definition route_of_input (i : RouteInput) : RouteConfig :=
  {| r_id := in_id i; r_host := in_host i; r_hosts := []; r_prefix := in_prefix i;
     r_upstream := in_upstream i; r_methods := default [] (in_methods i); r_sse := in_sse i;
     r_strip_prefix := in_strip_prefix i; r_enabled := in_enabled i; r_client_key := in_client_key i;
     r_bind := in_bind i; r_bindings := []; r_cache := in_cache i;
     r_cache_authenticated := in_cache_authenticated i;
     r_retry := mjoin (in_retry i); r_retry_policy := None;
     r_rate_limit := mjoin (in_rate_limit i); r_limiter := None;
     r_concurrency := in_concurrency i; r_extensions := in_extensions i; r_auth := Required;
     r_policy_origins := {| po_methods := declared (in_methods i); po_retry := declared (in_retry i);
                            po_rate_limit := declared (in_rate_limit i) |} |}.

Definition matches_method (r : RouteConfig) (normalized : str) : bool :=
  (r_methods r ==? []) || existsb (fun m => m ==? normalized) (r_methods r).

Definition matches_host (r : RouteConfig) (normalized : option str) : bool :=
  (match r_hosts r with [] => true | _ => false end)
  || match normalized with
     | Some host => existsb (fun p => host_matches p host) (r_hosts r)
     | None => false
     end.

Definition upstream_path (r : RouteConfig) (path : str) : str :=
  if negb (r_strip_prefix r) then path
  else match strip_prefix (r_prefix r) path with
       | Some [] => []
       | Some rest => default path (strip_prefix [b_slash] rest)
       | None => path
       end.

(** ** Prefixes *)

Definition at_boundary (rest : str) : bool := (rest ==? []) || starts_with [b_slash] rest.

Definition under_prefix (path prefix : str) : bool :=
  match strip_prefix prefix path with Some rest => at_boundary rest | None => false end.

Definition fold_case (c : Z) : Z :=
  if (c =? 304) || (c =? 305) then 105
  else if c =? 383 then 115
  else if c =? 8490 then 107
  else lower_byte c.

(** On the characters of the path and of the prefix. *)
Fixpoint chars_under_prefix (rest p : list Z) {struct p} : bool :=
  match p with
  | [] => at_boundary rest
  | b :: p =>
      match rest with
      | c :: rest => if fold_case c =? fold_case b then chars_under_prefix rest p else false
      | [] => false
      end
  end.
Definition under_prefix_ignore_case (path prefix : str) : bool :=
  chars_under_prefix (chars path) (chars prefix).

(** ** Building a table *)

Record RouteGroups := {
  g_internal : list str;
  g_machine : list RouteConfig;
  g_public : list RouteConfig;
  g_optional : list RouteConfig;
  g_authenticated : list RouteConfig;
}.

(** The policy a route gets: its own, or the global one where it declared none. *)
Definition inherit {A} (o : PolicyOrigin) (own : A) (global : option A) : A * PolicyOrigin :=
  match o, global with
  | OriginBuiltIn, Some g => (g, OriginGlobalDefaults)
  | _, _ => (own, o)
  end.

Definition derived_id (r : RouteConfig) (prefix : str) : str :=
  if trim (r_id r) ==? [] then
    if r_host r ==? [] then prefix else join "," (r_host r) ++ "/" ++ prefix
  else r_id r.

Definition resolve (defaults : RouteDefaults) (tr : AuthTier * RouteConfig) : RouteConfig :=
  let '(tier, r) := tr in
  let o := r_policy_origins r in
  let '(methods, om) := inherit (po_methods o) (r_methods r) (rd_methods defaults) in
  let '(retry, ort) := inherit (po_retry o) (r_retry r) (Some <$> rd_retry defaults) in
  let '(rate, orl) := inherit (po_rate_limit o) (r_rate_limit r) (Some <$> rd_rate_limit defaults) in
  let prefix := normalize_proxy_path (r_prefix r) in
  {| r_id := derived_id r prefix; r_host := r_host r; r_hosts := r_hosts r; r_prefix := prefix;
     r_upstream := r_upstream r; r_methods := map to_ascii_uppercase methods; r_sse := r_sse r;
     r_strip_prefix := r_strip_prefix r; r_enabled := r_enabled r; r_client_key := r_client_key r;
     r_bind := r_bind r; r_bindings := r_bindings r; r_cache := r_cache r;
     r_cache_authenticated := r_cache_authenticated r; r_retry := retry;
     r_retry_policy := r_retry_policy r; r_rate_limit := rate; r_limiter := r_limiter r;
     r_concurrency := r_concurrency r; r_extensions := r_extensions r; r_auth := tier;
     r_policy_origins := {| po_methods := om; po_retry := ort; po_rate_limit := orl |} |}.

Definition oks {A E} (l : list (result A E)) : list A :=
  omap (fun r => match r with Ok a => Some a | Err _ => None end) l.
Definition errs {A E} (l : list (result A E)) : list E :=
  omap (fun r => match r with Ok _ => None | Err e => Some e end) l.

Definition refuses_all (what : str) (r : RouteConfig) : str :=
  "route `" ++ r_id r ++ "`: " ++ what ++ " is 0, which would refuse every request. "
  ++ "Remove the route instead, or set `enabled: false`.".

(** The kind of limiter [build_with] makes for a rate limit. *)
Definition limiter_kind (rl : RateLimitConfig) (shared : option Factory) : LimiterKind :=
  match rl_counter rl, shared with
  | CounterShared, Some f => LimShared (fa_backend f) (sc_prefix (fa_cfg f)) (sc_max_keys_per_sync (fa_cfg f))
  | CounterExact, _ => LimExact
  | CounterSketch, _ | CounterShared, None => LimSketch
  end.

(** The second pass: host patterns, retry policy, limiter and bindings, with
    the specifications that do not hold as errors. *)
Definition derive (table : Z) (shared : option Factory) (position : nat) (r : RouteConfig)
  : RouteConfig * list str :=
  let in_route e := "route `" ++ r_id r ++ "`: " ++ e in
  let hosts := map host_parse (r_host r) in
  let binds := map (fun st => binding_parse st.1 st.2) (r_bind r) in
  let zero_rate := match r_rate_limit r with Some rl => rl_requests rl =? 0 | None => false end in
  let zero_conc := match r_concurrency r with Some c => cc_max c =? 0 | None => false end in
  let limiter :=
    letO rl := r_rate_limit r in
    if rl_requests rl =? 0 then r_limiter r
    else Some {| lr_table := table; lr_position := position; lr_kind := limiter_kind rl shared |} in
  ({| r_id := r_id r; r_host := r_host r; r_hosts := r_hosts r ++ oks hosts; r_prefix := r_prefix r;
      r_upstream := r_upstream r; r_methods := r_methods r; r_sse := r_sse r;
      r_strip_prefix := r_strip_prefix r; r_enabled := r_enabled r; r_client_key := r_client_key r;
      r_bind := r_bind r; r_bindings := r_bindings r ++ oks binds; r_cache := r_cache r;
      r_cache_authenticated := r_cache_authenticated r; r_retry := r_retry r;
      r_retry_policy := match r_retry r with Some rt => Some (policy_from_config rt)
                                           | None => r_retry_policy r end;
      r_rate_limit := r_rate_limit r;
      r_limiter := match r_rate_limit r with Some _ => limiter | None => r_limiter r end;
      r_concurrency := r_concurrency r; r_extensions := r_extensions r; r_auth := r_auth r;
      r_policy_origins := r_policy_origins r |},
   map in_route (errs hosts)
   ++ (if zero_rate then [refuses_all "rate_limit.requests" r] else [])
   ++ (if zero_conc then [refuses_all "concurrency.max" r] else [])
   ++ map in_route (errs binds)).

(** [sort_by_key], which is stable: routes of a host before routes of any, the
    longer prefix first. *)
Definition host_specific (r : RouteConfig) : bool := match r_hosts r with [] => false | _ => true end.
Definition more_specific (a b : RouteConfig) : bool :=
  match host_specific a, host_specific b with
  | true, false => true
  | false, true => false
  | _, _ => (length (r_prefix b) <? length (r_prefix a))%nat
  end.
(** [a] stays before the elements it does not have to follow. *)
Fixpoint insert_route (a : RouteConfig) (l : list RouteConfig) : list RouteConfig :=
  match l with
  | [] => [a]
  | b :: rest => if more_specific b a then b :: insert_route a rest else a :: l
  end.
Definition sort_routes (l : list RouteConfig) : list RouteConfig := foldr insert_route [] l.

(** ** Prefixes as lists of segments *)

(** The segments of a prefix or of a path; the empty one has none. *)
Definition segments (p : str) : list str := match p with [] => [] | _ => split_on b_slash p end.

Lemma starts_with_slash rest : starts_with [b_slash] rest = match rest with c :: _ => c =? 47 | [] => false end.
Proof.
  destruct rest as [|c rest]; [done|]. destruct (Z.eqb_spec c 47) as [->|Hne].
  - apply starts_with_spec. by exists rest.
  - by apply starts_with_head.
Qed.

Lemma under_prefix_trans a b c : under_prefix a b = true -> under_prefix b c = true -> under_prefix a c = true.
Proof.
  unfold under_prefix. destruct (strip_prefix b a) as [r1|] eqn:E1; [|done].
  destruct (strip_prefix c b) as [r2|] eqn:E2; [|done]. apply strip_prefix_Some in E1, E2. subst b a.
  rewrite <-app_assoc. rewrite (proj2 (strip_prefix_Some c _ (r2 ++ r1)) eq_refl). unfold at_boundary.
  destruct r2 as [|x r2]; [done|]. by rewrite !starts_with_slash.
Qed.

Lemma split_on_nonempty c s : split_on c s <> [].
Proof. by destruct (split_on_cons c s) as (w & ws & ->). Qed.

(** A prefix at a segment boundary is a prefix of the list of segments. *)
Lemma under_prefix_split path prefix :
  under_prefix path prefix = true ->
  exists more, split_on 47 path = split_on 47 prefix ++ more /\ (prefix = [] -> path = [] \/ exists t, path = 47 :: t).
Proof.
  unfold under_prefix. destruct (strip_prefix prefix path) as [rest|] eqn:E; [|done].
  apply strip_prefix_Some in E as ->. unfold at_boundary.
  rewrite starts_with_slash. destruct rest as [|c rest]; simpl.
  - intros _. exists []. rewrite !app_nil_r. split; [done|]. intros ->. by left.
  - intros Hc. apply Z.eqb_eq in Hc as ->. exists (split_on 47 rest). split.
    + clear. induction prefix as [|x p IH]; simpl; [done|].
      destruct (Z.eqb_spec x 47); [by rewrite IH|]. rewrite IH.
      by destruct (split_on_cons 47 p) as (w & ws & ->).
    + intros ->. right. by exists rest.
Qed.

Lemma split_prefix_under path prefix more :
  split_on 47 path = split_on 47 prefix ++ more -> under_prefix path prefix = true.
Proof.
  intros H. unfold under_prefix.
  assert (exists rest, path = prefix ++ rest /\ (rest = [] \/ exists t, rest = 47 :: t)) as (rest & -> & Hr).
  { assert (forall l, l <> [] -> exists rest, join [47] (l ++ more) = join [47] l ++ rest /\
      (rest = [] \/ exists t, rest = 47 :: t)) as Hj; [|].
    2: { destruct (Hj (split_on 47 prefix) (split_on_nonempty _ _)) as (rest & E & Hr).
         exists rest. split; [|done]. by rewrite <-H, !join_split in E. }
    clear H. intros l Hl.
    induction l as [|w l IH]; [done|]. destruct l as [|w' l].
    - destruct more as [|m more]; [exists []; rewrite !app_nil_r; by auto|].
      exists (47 :: join [47] (m :: more)). split; [|eauto]. simpl. by rewrite <-?app_assoc.
    - destruct IH as (rest & E & Hr); [done|]. exists rest. split; [|done].
      change (join [47] ((w :: w' :: l) ++ more)) with (w ++ [47] ++ join [47] ((w' :: l) ++ more)).
      rewrite E. change (join [47] (w :: w' :: l)) with (w ++ [47] ++ join [47] (w' :: l)).
      by rewrite <-!app_assoc. }
  rewrite (proj2 (strip_prefix_Some _ _ rest) eq_refl). unfold at_boundary.
  rewrite starts_with_slash. by destruct Hr as [->|[t ->]].
Qed.

(** For paths without a leading slash, as every normalized path is. *)
Lemma under_prefix_segments path prefix :
  (forall t, path <> 47 :: t) ->
  under_prefix path prefix = true <->
  (exists more, segments path = segments prefix ++ more) /\ (prefix = [] -> path = []).
Proof.
  intros Hp. split.
  - intros H. destruct (under_prefix_split _ _ H) as (more & E & He).
    destruct prefix as [|c p].
    { destruct (He eq_refl) as [->|[t ->]]; [|by destruct (Hp t)]. split; [by exists []|done]. }
    split; [|done]. destruct path as [|d path]; [|by exists more].
    unfold under_prefix in H. by destruct (strip_prefix (c :: p) []) eqn:E1.
  - intros [[more E] He]. destruct prefix as [|c p].
    { rewrite (He eq_refl). by vm_compute. }
    destruct path as [|d path].
    { unfold segments in E. destruct (split_on_cons b_slash (c :: p)) as (w & ws & E1). by rewrite E1 in E. }
    by apply (split_prefix_under _ _ more).
Qed.

Lemma normalized_no_leading_slash s t : normalize_proxy_path s <> 47 :: t.
Proof. intros E. by apply trim_matches_head in E. Qed.
