(* ===== verification/RouteIndex.v ===== *)
(** * The segment trie (routes/index.rs)

    [PrefixIndex] is an arena of nodes, each with its children by segment and
    the positions of the routes whose prefix ends there.  [find] walks the
    segments of a path and keeps the smallest position that serves the request.
    The refinement theorem says it is the linear scan of the table. *)

From S2P Require Export Routes.
From Stdlib Require Import Sorted.

Record Node := { children : gmap str nat; node_routes : list nat }.
Definition node_default : Node := {| children := ∅; node_routes := [] |}.

Abbreviation arena := (list Node).

(** One step of the insertion: the child of [current] for a segment, pushed at
    the end of the arena when it is new. *)
Definition child_or_push (nodes : arena) (current : nat) (segment : str) : arena * nat :=
  match (letO n := nodes !! current in children n !! segment) with
  | Some child => (nodes, child)
  | None =>
      let child := length nodes in
      let nodes := nodes ++ [node_default] in
      (alter (fun parent => {| children := <[segment := child]> (children parent);
                               node_routes := node_routes parent |}) current nodes, child)
  end.

Fixpoint insert_segments (nodes : arena) (current : nat) (segs : list str) : arena * nat :=
  match segs with
  | [] => (nodes, current)
  | s :: rest => let '(nodes, child) := child_or_push nodes current s in insert_segments nodes child rest
  end.

Definition insert_position (nodes : arena) (prefix : str) (position : nat) : arena :=
  let '(nodes, current) := insert_segments nodes 0 (segments prefix) in
  alter (fun n => {| children := children n; node_routes := node_routes n ++ [position] |}) current nodes.

Fixpoint insert_all (nodes : arena) (position : nat) (prefixes : list str) : arena :=
  match prefixes with
  | [] => nodes
  | p :: rest => insert_all (insert_position nodes p position) (S position) rest
  end.

Definition index_build (routes : list RouteConfig) : option arena :=
  if (length routes <=? 32)%nat then None
  else Some (insert_all [node_default] 0 (map r_prefix routes)).

(** Whether the route at a position serves the request's method and host. *)
Definition serves (routes : list RouteConfig) (method : str) (host : option str) (position : nat) : bool :=
  match routes !! position with
  | Some r => matches_method r method && matches_host r host
  | None => false
  end.

(** The loop of [consider]. *)
Fixpoint consider_positions (serve : nat -> bool) (positions : list nat) (best : option nat) : option nat :=
  match positions with
  | [] => best
  | p :: rest =>
      if (match best with Some b => (b <=? p)%nat | None => false end) then best
      else if serve p then Some p
      else consider_positions serve rest best
  end.

Definition consider (nodes : arena) (serve : nat -> bool) (node : nat) (best : option nat) : option nat :=
  match nodes !! node with
  | None => best
  | Some n => consider_positions serve (node_routes n) best
  end.

Fixpoint find_walk (nodes : arena) (serve : nat -> bool) (current : nat) (segs : list str)
    (best : option nat) : option nat :=
  match segs with
  | [] => best
  | s :: rest =>
      match (letO n := nodes !! current in children n !! s) with
      | None => best
      | Some child => find_walk nodes serve child rest (consider nodes serve child best)
      end
  end.

Definition index_find (nodes : arena) (routes : list RouteConfig) (path method : str) (host : option str)
  : option RouteConfig :=
  let serve := serves routes method host in
  let best := match path with
              | [] => consider nodes serve 0 None
              | _ => find_walk nodes serve 0 (split_on b_slash path) None
              end in
  letO p := best in routes !! p.

(** The linear scan it stands for. *)
Definition scan (routes : list RouteConfig) (path method : str) (host : option str) : option RouteConfig :=
  List.find (fun r => under_prefix path (r_prefix r) && matches_method r method && matches_host r host) routes.

(** ** The arena as a tree *)

Definition child (nodes : arena) (n : nat) (s : str) : option nat :=
  letO x := nodes !! n in children x !! s.

Fixpoint walk (nodes : arena) (n : nat) (segs : list str) : option nat :=
  match segs with
  | [] => Some n
  | s :: rest => letO c := child nodes n s in walk nodes c rest
  end.

(** Every node but the root has one parent and one segment leading to it, and
    children come after their parents. *)
Record tree (nodes : arena) : Prop := {
  tr_root : (0 < length nodes)%nat;
  tr_child : forall n s c, child nodes n s = Some c -> (n < c < length nodes)%nat;
  tr_parent : forall n s m t c, child nodes n s = Some c -> child nodes m t = Some c -> n = m /\ s = t;
}.

Lemma walk_app nodes n a b : walk nodes n (a ++ b) = letO m := walk nodes n a in walk nodes m b.
Proof.
  revert n. induction a as [|s a IH]; intros n; [done|]. simpl.
  destruct (child nodes n s); simpl; [apply IH|done].
Qed.

Lemma walk_snoc nodes n a s : walk nodes n (a ++ [s]) = letO m := walk nodes n a in child nodes m s.
Proof. rewrite walk_app. destruct (walk nodes n a); simpl; [|done]. by destruct (child _ _ _). Qed.

Lemma walk_bound nodes segs n m :
  tree nodes -> (n < length nodes)%nat -> walk nodes n segs = Some m -> (n <= m < length nodes)%nat.
Proof.
  intros T. revert n. induction segs as [|s segs IH]; intros n Hn; simpl; [intros [= <-]; lia|].
  destruct (child nodes n s) as [c|] eqn:E; [|done]. simpl. apply (tr_child _ T) in E.
  intros H. apply IH in H; lia.
Qed.

(** Two walks from the root that meet took the same way. *)
Lemma walk_inj nodes a b m :
  tree nodes -> walk nodes 0 a = Some m -> walk nodes 0 b = Some m -> a = b.
Proof.
  intros T. revert b m. induction a as [|s a IH] using rev_ind; intros b m Ha Hb.
  - destruct b as [|t b _] using rev_ind; [done|]. rewrite walk_snoc in Hb.
    injection Ha as <-. apply bind_Some in Hb as (x & _ & Hx). apply (tr_child _ T) in Hx. lia.
  - rewrite walk_snoc in Ha. apply bind_Some in Ha as (x & Hx & Hc).
    destruct b as [|t b _] using rev_ind.
    + injection Hb as <-. apply (tr_child _ T) in Hc. lia.
    + rewrite walk_snoc in Hb. apply bind_Some in Hb as (y & Hy & Hd).
      destruct (tr_parent _ T _ _ _ _ _ Hc Hd) as [<- <-]. by rewrite (IH b x).
Qed.

(** ** What the trie holds *)

Definition routes_at (nodes : arena) (n : nat) : list nat :=
  match nodes !! n with Some x => node_routes x | None => [] end.

(** The positions under a list of segments. *)
Definition view (nodes : arena) (segs : list str) : list nat :=
  match walk nodes 0 segs with Some n => routes_at nodes n | None => [] end.

Lemma child_or_push_spec nodes current s :
  tree nodes -> (current < length nodes)%nat ->
  let '(nodes', c) := child_or_push nodes current s in
  tree nodes' /\ child nodes' current s = Some c /\ (length nodes <= length nodes')%nat /\
  (c < length nodes')%nat /\
  (forall n t, child nodes' n t = if base.decide (n = current /\ t = s) then Some c else child nodes n t) /\
  (child nodes current s = Some c \/
   child nodes current s = None /\ forall t, child nodes' c t = None /\ routes_at nodes' c = []) /\
  (forall n, routes_at nodes' n = routes_at nodes n).
Proof.
  intros T Hcur. unfold child_or_push. fold (child nodes current s).
  destruct (child nodes current s) as [c|] eqn:E.
  { split_and!; try done; [apply (tr_child _ T) in E; lia| |by left].
    intros n t. case_decide as Hn; [|done]. by destruct Hn as [-> ->]. }
  set (f := fun parent => _). set (c := length nodes).
  destruct (lookup_lt_is_Some_2 nodes current Hcur) as [x Hx].
  assert (forall n, alter f current (nodes ++ [node_default]) !! n =
    if base.decide (n = current) then Some (f x)
    else if base.decide (n = c) then Some node_default else nodes !! n) as Hlook.
  { intros n. case_decide as Hn.
    - subst n. rewrite list_lookup_alter_eq. rewrite lookup_app_l by done. by rewrite Hx.
    - rewrite list_lookup_alter_ne by done. case_decide as Hc.
      + subst n. rewrite lookup_app_r by (unfold c; lia). unfold c. by rewrite Nat.sub_diag.
      + destruct (Nat.lt_ge_cases n c); [by rewrite lookup_app_l|].
        rewrite !lookup_ge_None_2; [done|unfold c in *; lia|rewrite length_app; simpl; unfold c in *; lia]. }
  assert (forall n t, child (alter f current (nodes ++ [node_default])) n t =
    if base.decide (n = current /\ t = s) then Some c else child nodes n t) as Hchild.
  { intros n t. unfold child at 1. rewrite Hlook. destruct (base.decide (n = current)) as [->|Hn].
    - cbn [mbind option_bind f children]. rewrite lookup_insert. unfold child. rewrite Hx.
      cbn [mbind option_bind]. repeat case_decide; naive_solver.
    - rewrite (decide_False (P := _ /\ _)) by tauto. case_decide as Hc.
      + subst n. unfold child. by rewrite lookup_ge_None_2 by (unfold c; lia).
      + done. }
  assert (forall n t d, child nodes n t = Some d -> (n < d < c)%nat) as Hold by (intros; by eapply tr_child).
  assert (length (alter f current (nodes ++ [node_default])) = S c) as Hlen.
  { rewrite length_alter, length_app. unfold c. simpl. lia. }
  split_and!.
  - split.
    + lia.
    + intros n t d. rewrite Hchild, Hlen. case_decide as Hd; [intros [= <-]; unfold c in *; lia|].
      intros Hn%Hold. lia.
    + intros n t m u d. rewrite !Hchild. repeat case_decide; intros H1 H2.
      * naive_solver.
      * injection H1 as <-. apply Hold in H2. lia.
      * injection H2 as <-. apply Hold in H1. lia.
      * by eapply tr_parent.
  - by rewrite Hchild, decide_True.
  - unfold c in *. lia.
  - lia.
  - done.
  - right. split; [done|]. intros t. rewrite Hchild, decide_False by (unfold c; lia). split.
    + unfold child. by rewrite lookup_ge_None_2 by (unfold c; lia).
    + unfold routes_at. rewrite Hlook, decide_False, decide_True by (unfold c; lia). done.
  - intros n. unfold routes_at. rewrite Hlook. repeat case_decide; subst; [by rewrite Hx| |done].
    by rewrite lookup_ge_None_2 by (unfold c; lia).
Qed.

Lemma walk_child_or_push nodes current s k segs :
  tree nodes -> (current < length nodes)%nat ->
  let nodes' := (child_or_push nodes current s).1 in
  match walk nodes k segs with
  | Some x => walk nodes' k segs = Some x
  | None => match walk nodes' k segs with Some x => routes_at nodes' x = [] | None => True end
  end.
Proof.
  intros T Hcur. pose proof (child_or_push_spec nodes current s T Hcur) as H.
  destruct (child_or_push nodes current s) as [nodes' c]. cbn [fst].
  destruct H as (_ & Hc & _ & _ & Hchild & Hnew & Hroutes).
  revert k. induction segs as [|t segs IH]; intros k; [done|]. cbn [walk].
  rewrite Hchild. destruct (child nodes k t) as [d|] eqn:E; cbn [mbind option_bind].
  - case_decide as Hk; [|apply IH]. destruct Hk as [-> ->].
    destruct Hnew as [Hnew|[Hnew _]]; [|congruence]. rewrite E in Hnew. injection Hnew as ->. apply IH.
  - case_decide as Hk; [|done]. destruct Hk as [-> ->].
    destruct Hnew as [Hnew|[_ Hnew]]; [congruence|]. cbn [mbind option_bind].
    destruct segs as [|u segs]; [apply (Hnew s)|]. cbn [walk]. by rewrite (proj1 (Hnew u)).
Qed.

(** Inserting the segments of a prefix makes its node and moves nothing. *)
Lemma insert_segments_spec nodes current segs :
  tree nodes -> (current < length nodes)%nat ->
  let '(nodes', m) := insert_segments nodes current segs in
  tree nodes' /\ walk nodes' current segs = Some m /\
  (forall path, view nodes' path = view nodes path) /\
  (forall k path x, walk nodes k path = Some x -> walk nodes' k path = Some x).
Proof.
  revert nodes current. induction segs as [|s segs IH]; intros nodes current T Hcur; cbn [insert_segments].
  { by split_and!. }
  pose proof (child_or_push_spec nodes current s T Hcur) as H.
  pose proof (fun k p => walk_child_or_push nodes current s k p T Hcur) as Hw.
  destruct (child_or_push nodes current s) as [n1 c]. cbn [fst] in Hw.
  destruct H as (T1 & Hc & _ & Hlt & _ & _ & Hroutes).
  specialize (IH n1 c T1 Hlt). destruct (insert_segments n1 c segs) as [n2 m].
  destruct IH as (T2 & W2 & V2 & M2). split_and!; [done|..].
  - pose proof (M2 current [s] c) as Hs. cbn [walk] in *. rewrite Hc in Hs. specialize (Hs eq_refl).
    destruct (child n2 current s) as [d|]; [|done]. cbn [mbind option_bind] in *. by injection Hs as ->.
  - intros path. rewrite V2. unfold view. specialize (Hw 0%nat path).
    destruct (walk nodes 0 path) as [x|]; [by rewrite Hw, Hroutes|].
    destruct (walk n1 0 path); done.
  - intros k path x Hx. apply M2. specialize (Hw k path). by rewrite Hx in Hw.
Qed.

Lemma insert_position_spec nodes prefix position :
  tree nodes ->
  tree (insert_position nodes prefix position) /\
  forall segs, view (insert_position nodes prefix position) segs =
    view nodes segs ++ (if base.decide (segs = segments prefix) then [position] else []).
Proof.
  intros T. unfold insert_position. pose proof (insert_segments_spec nodes 0 (segments prefix) T (tr_root _ T)) as H.
  destruct (insert_segments nodes 0 (segments prefix)) as [n1 m]. destruct H as (T1 & W & V & _).
  set (f := fun n => _).
  assert (forall n s, child (alter f m n1) n s = child n1 n s) as Hchild.
  { intros n s. unfold child. destruct (base.decide (n = m)) as [->|Hn].
    - rewrite list_lookup_alter_eq. by destruct (n1 !! m).
    - by rewrite list_lookup_alter_ne. }
  assert (forall p k, walk (alter f m n1) k p = walk n1 k p) as Hwalk.
  { induction p as [|s p IH]; intros k; [done|]. cbn [walk]. rewrite Hchild.
    destruct (child n1 k s); [apply IH|done]. }
  split.
  - split.
    + rewrite length_alter. apply (tr_root _ T1).
    + intros n s c. rewrite Hchild, length_alter. apply (tr_child _ T1).
    + intros n s n' t c. rewrite !Hchild. apply (tr_parent _ T1).
  - intros segs. rewrite <-V. unfold view. rewrite Hwalk.
    assert (exists x, n1 !! m = Some x) as [x Hx].
    { apply lookup_lt_is_Some_2. by apply (walk_bound _ _ _ _ T1 (tr_root _ T1)) in W as []. }
    destruct (walk n1 0 segs) as [k|] eqn:E.
    + unfold routes_at. destruct (base.decide (k = m)) as [->|Hn].
      * rewrite list_lookup_alter_eq, Hx. cbn. rewrite decide_True; [done|]. by eapply walk_inj.
      * rewrite list_lookup_alter_ne, decide_False by (done || intros ->; congruence). by rewrite app_nil_r.
    + rewrite decide_False; [done|]. intros ->. congruence.
Qed.

Lemma tree_root : tree [node_default].
Proof.
  assert (forall n s, child [node_default] n s = None) as H.
  { intros [|[|n]] s; done. }
  split; [simpl; lia|..]; intros *; rewrite H; done.
Qed.

(** The positions of the routes with a given prefix. *)
Fixpoint positions (position : nat) (prefixes : list str) (segs : list str) : list nat :=
  match prefixes with
  | [] => []
  | p :: rest => (if base.decide (segs = segments p) then [position] else []) ++ positions (S position) rest segs
  end.

Lemma insert_all_view nodes position prefixes segs :
  tree nodes ->
  view (insert_all nodes position prefixes) segs = view nodes segs ++ positions position prefixes segs.
Proof.
  revert nodes position. induction prefixes as [|p prefixes IH]; intros nodes position T; cbn [insert_all positions].
  - by rewrite app_nil_r.
  - destruct (insert_position_spec nodes p position T) as [T1 V1]. rewrite IH by done.
    by rewrite V1, <-app_assoc.
Qed.

Lemma index_view prefixes segs :
  view (insert_all [node_default] 0 prefixes) segs = positions 0 prefixes segs.
Proof.
  rewrite insert_all_view by apply tree_root. unfold view.
  destruct segs as [|s segs]; [done|]. unfold walk, child. cbn. by rewrite lookup_empty.
Qed.

(** ** The walk finds the least position *)

(** [o] is the least number with a property, if any has it. *)
Definition least (P : nat -> Prop) (o : option nat) : Prop :=
  match o with
  | Some b => P b /\ forall p, P p -> (b <= p)%nat
  | None => forall p, ~ P p
  end.

Lemma least_ext P Q o : (forall p, P p <-> Q p) -> least P o -> least Q o.
Proof. intros H. destruct o as [b|]; simpl; [intros [H1 H2]|intros H1 p]; rewrite <-H; naive_solver. Qed.

Lemma consider_positions_least serve positions P best :
  StronglySorted lt positions -> least P best ->
  least (fun p => P p \/ (p ∈ positions /\ serve p = true)) (consider_positions serve positions best).
Proof.
  induction 1 as [|p ps Hs IH Hp]; intros HP; cbn [consider_positions].
  { eapply least_ext; [|exact HP]. intros q. rewrite elem_of_nil. tauto. }
  rewrite Forall_elem in Hp.
  destruct best as [b|].
  - destruct (Nat.leb_spec b p) as [Hb|Hb].
    + destruct HP as [H1 H2]. split; [by left|]. intros q [Hq|[[->|Hq]%elem_of_cons _]]; [auto|lia|].
      specialize (Hp q Hq). lia.
    + destruct (serve p) eqn:E.
      * destruct HP as [H1 H2]. split; [right; split; [by left|done]|].
        intros q [Hq|[[->|Hq]%elem_of_cons _]]; [specialize (H2 q Hq); lia|lia|specialize (Hp q Hq); lia].
      * eapply least_ext; [|by apply IH]. intros q. simpl. rewrite elem_of_cons.
        split; [intros [?|[? ?]]; auto|intros [?|[[->|?] ?]]; auto; congruence].
  - destruct (serve p) eqn:E.
    + split; [right; split; [by left|done]|]. intros q [Hq|[[->|Hq]%elem_of_cons _]];
        [by apply HP in Hq|lia|specialize (Hp q Hq); lia].
    + eapply least_ext; [|by apply IH]. intros q. simpl. rewrite elem_of_cons.
        split; [intros [?|[? ?]]; auto|intros [?|[[->|?] ?]]; auto; congruence].
Qed.

Section Walk.
Context (nodes : arena) (serve : nat -> bool).
Context (Hsorted : forall segs, StronglySorted lt (view nodes segs)).

(** The positions a walk has seen: under a non-empty part of its segments. *)
Definition seen (segs : list str) (p : nat) : Prop :=
  exists pre more, pre <> [] /\ segs = pre ++ more /\ p ∈ view nodes pre /\ serve p = true.

Lemma seen_snoc segs s p :
  seen (segs ++ [s]) p <-> seen segs p \/ (p ∈ view nodes (segs ++ [s]) /\ serve p = true).
Proof using.
  split.
  - intros (pre & more & Hne & E & Hp & Hs). destruct more as [|m more _] using rev_ind.
    + rewrite app_nil_r in E. subst pre. by right.
    + rewrite app_assoc in E. apply app_inj_tail in E as [-> ->]. left. by exists pre, more.
  - intros [(pre & more & Hne & -> & Hp & Hs)|[Hp Hs]].
    + exists pre, (more ++ [s]). by rewrite app_assoc.
    + exists (segs ++ [s]), []. rewrite app_nil_r. split_and!; try done. by destruct segs.
Qed.

(** Past the end of the trie nothing more is seen. *)
Lemma seen_dead segs rest p : walk nodes 0 segs = None -> seen (segs ++ rest) p -> seen segs p.
Proof using.
  intros Hw (pre & more & Hne & E & Hp & Hs).
  destruct (app_eq_inv _ _ _ _ E) as [(k & -> & ->)|(k & -> & ->)].
  - by exists pre, k.
  - exfalso. revert Hp. unfold view. rewrite walk_app, Hw. simpl. by rewrite elem_of_nil.
Qed.

Lemma find_walk_least done current segs best :
  walk nodes 0 done = Some current -> least (seen done) best ->
  least (seen (done ++ segs)) (find_walk nodes serve current segs best).
Proof using Hsorted.
  revert done current best. induction segs as [|s segs IH]; intros done current best Hw Hb; cbn [find_walk].
  { by rewrite app_nil_r. }
  fold (child nodes current s). destruct (child nodes current s) as [c|] eqn:E.
  - replace (done ++ s :: segs) with ((done ++ [s]) ++ segs) by by rewrite <-app_assoc.
    assert (walk nodes 0 (done ++ [s]) = Some c) as Hw'.
    { rewrite walk_snoc, Hw. exact E. }
    apply IH; [done|]. unfold consider.
    assert (view nodes (done ++ [s]) = match nodes !! c with Some n => node_routes n | None => [] end) as Hv.
    { unfold view. by rewrite Hw'. }
    pose proof (Hsorted (done ++ [s])) as Hso. rewrite Hv in Hso.
    eapply (least_ext (fun p => seen done p \/ (p ∈ view nodes (done ++ [s]) /\ serve p = true))).
    { intros p. by rewrite seen_snoc. }
    rewrite Hv. destruct (nodes !! c) as [n|]; [by apply consider_positions_least|].
    eapply least_ext; [|exact Hb]. intros p. rewrite elem_of_nil. tauto.
  - eapply least_ext; [|exact Hb]. intros p. split.
    + intros (pre & more & ? & -> & ? & ?). exists pre, (more ++ s :: segs). by rewrite app_assoc.
    + intros Hp. assert (seen (done ++ [s]) p) as Hp'.
      { apply (seen_dead _ segs); [by rewrite walk_snoc, Hw|by rewrite <-app_assoc]. }
      apply seen_snoc in Hp' as [Hp'|[Hp' _]]; [done|].
      unfold view in Hp'. rewrite walk_snoc, Hw in Hp'. cbn [mbind option_bind] in Hp'.
      rewrite E in Hp'. by apply elem_of_nil in Hp'.
Qed.
End Walk.

Lemma elem_of_positions position prefixes segs p :
  p ∈ positions position prefixes segs <->
  (position <= p)%nat /\ exists q, prefixes !! (p - position)%nat = Some q /\ segs = segments q.
Proof.
  revert position. induction prefixes as [|q prefixes IH]; intros position; cbn [positions].
  { rewrite elem_of_nil. split; [done|]. intros (_ & ? & ? & _). done. }
  rewrite elem_of_app, IH. split.
  - intros [H|(Hp & q' & Hq & ->)].
    + case_decide as Hs; [|by apply elem_of_nil in H]. apply list_elem_of_singleton in H as ->.
      split; [done|]. exists q. by rewrite Nat.sub_diag.
    + split; [lia|]. exists q'. replace (p - position)%nat with (S (p - S position)) by lia. done.
  - intros (Hp & q' & Hq & ->). destruct (Nat.eq_dec p position) as [->|Hne].
    + left. rewrite Nat.sub_diag in Hq. injection Hq as <-. rewrite decide_True by done.
      by apply list_elem_of_singleton.
    + right. split; [lia|]. exists q'. replace (p - position)%nat with (S (p - S position)) in Hq by lia. done.
Qed.

Lemma positions_sorted position prefixes segs : StronglySorted lt (positions position prefixes segs).
Proof.
  revert position. induction prefixes as [|q prefixes IH]; intros position; cbn [positions]; [constructor|].
  case_decide; [|apply IH]. simpl. constructor; [apply IH|]. apply Forall_elem.
  intros p Hp%elem_of_positions. lia.
Qed.

(** A least position that satisfies a predicate of the routes is the first. *)
Lemma least_is_find {A} (l : list A) (f : A -> bool) o :
  least (fun p => exists r, l !! p = Some r /\ f r = true) o ->
  (letO p := o in l !! p) = List.find f l.
Proof.
  revert o. induction l as [|x l IH]; intros o H.
  - destruct o as [b|]; [|done]. by destruct H as [(r & ? & _) _].
  - cbn [List.find]. destruct (f x) eqn:E.
    + destruct o as [b|].
      * destruct H as [_ H]. specialize (H 0%nat ltac:(by exists x)). by replace b with 0%nat by lia.
      * destruct (H 0%nat). by exists x.
    + specialize (IH (pred <$> o)). destruct o as [[|b]|]; simpl in *.
      * destruct H as [(r & [= <-] & Hf) _]. congruence.
      * apply IH. destruct H as [H1 H2]. split; [done|]. intros p Hp. specialize (H2 (S p) Hp). lia.
      * apply IH. intros p Hp. by apply (H (S p)).
Qed.

(** ** Refinement *)

Lemma index_find_scan routes nodes raw method host :
  index_build routes = Some nodes ->
  index_find nodes routes (normalize_proxy_path raw) method host =
  scan routes (normalize_proxy_path raw) method host.
Proof.
  intros Hb. unfold index_build in Hb. destruct (_ <=? _)%nat; [done|]. injection Hb as <-.
  set (nodes := insert_all _ _ _). set (path := normalize_proxy_path raw).
  assert (forall t, path <> 47 :: t) as Hslash by apply normalized_no_leading_slash.
  assert (forall segs, view nodes segs = positions 0 (map r_prefix routes) segs) as Hview by apply index_view.
  assert (forall segs, StronglySorted lt (view nodes segs)) as Hsorted.
  { intros segs. rewrite Hview. apply positions_sorted. }
  clearbody nodes path. unfold index_find, scan. set (serve := serves routes method host).
  apply least_is_find.
  assert (forall p segs, p ∈ view nodes segs /\ serve p = true <->
    exists r, routes !! p = Some r /\ segments (r_prefix r) = segs /\
      matches_method r method && matches_host r host = true) as Hserve.
  { intros p segs. rewrite Hview, elem_of_positions, Nat.sub_0_r. unfold serve, serves. split.
    - intros [(_ & q & Hq & ->) Hs]. rewrite list_lookup_fmap in Hq.
      destruct (routes !! p) as [r|]; [|done]. injection Hq as <-. by exists r.
    - intros (r & Hr & <- & Hm). rewrite Hr. split; [|done]. split; [lia|].
      exists (r_prefix r). by rewrite list_lookup_fmap, Hr. }
  destruct path as [|c path].
  - unfold consider. eapply (least_ext (fun p => False \/ (p ∈ view nodes [] /\ serve p = true))).
    { intros p. rewrite Hserve. split.
      - intros [[]|(r & Hr & Hseg & Hm)]. exists r. split; [done|].
        rewrite <-andb_assoc, Hm, andb_true_r. apply under_prefix_segments; [done|].
        split; [exists []; by rewrite Hseg|done].
      - intros (r & Hr & Hm). rewrite <-andb_assoc in Hm. apply andb_true_iff in Hm as [Hu Hm].
        apply under_prefix_segments in Hu as [[more E] _]; [|done]. right. exists r.
        split_and!; [done| |done].
        symmetry in E. by apply app_eq_nil in E as [? _]. }
    unfold view. cbn [walk]. unfold routes_at. specialize (Hsorted []). unfold view, routes_at in Hsorted.
    cbn [walk] in Hsorted. destruct (nodes !! 0%nat) as [n|].
    + apply consider_positions_least; [done|]. by intros p [].
    + intros p [[]|[Hp _]]. by apply elem_of_nil in Hp.
  - eapply (least_ext (seen nodes serve ([] ++ split_on b_slash (c :: path)))).
    { intros p. split.
      - intros (pre & more & Hne & E & Hp). apply Hserve in Hp as (r & Hr & Hseg & Hm).
        exists r. split; [done|]. rewrite <-andb_assoc, Hm, andb_true_r.
        apply under_prefix_segments; [done|]. split; [exists more; by rewrite Hseg|].
        intros Hp. rewrite Hp in Hseg. by subst pre.
      - intros (r & Hr & Hm). rewrite <-andb_assoc in Hm. apply andb_true_iff in Hm as [Hu Hm].
        apply under_prefix_segments in Hu as [[more E] He]; [|done].
        exists (segments (r_prefix r)), more. split; [|split; [done|apply Hserve; by exists r]].
        intros Hn. destruct (r_prefix r) as [|d q]; [by specialize (He eq_refl)|].
        by apply (split_on_nonempty b_slash (d :: q)). }
    apply find_walk_least; [done|done|]. intros p (pre & more & Hne & E & _).
    by destruct pre.
Qed.

(** C9: the trie is the linear scan: for every table, and every path as the
    matcher normalizes it, method and host, the walk over the arena returns the
    very route the scan of the ordered table finds first. *)
Theorem trie_refines_scan routes nodes raw method host
  (Hb : index_build routes = Some nodes) :
  index_find nodes routes (normalize_proxy_path raw) method host =
  scan routes (normalize_proxy_path raw) method host.
Proof. by apply index_find_scan. Qed.

(** A route that serves everything under a prefix, for concrete tables. *)
Definition sample_input (prefix : str) : RouteInput :=
  {| in_id := []; in_host := []; in_prefix := prefix; in_upstream := "u"; in_methods := None;
     in_sse := false; in_strip_prefix := false; in_enabled := true; in_client_key := None; in_bind := [];
     in_cache := false; in_cache_authenticated := false; in_retry := None; in_rate_limit := None;
     in_concurrency := None; in_extensions := [] |}.
Definition sample_route (prefix : str) : RouteConfig := route_of_input (sample_input prefix).
Definition sample_table : list RouteConfig :=
  map (fun i => sample_route ("svc/" ++ show_u64 (Z.of_nat i))) (seq 0 40).

Lemma trie_refines_scan_witness :
  exists nodes, index_build sample_table = Some nodes /\
    index_find nodes sample_table (normalize_proxy_path "/svc/7/orders") "GET" None
      = scan sample_table (normalize_proxy_path "/svc/7/orders") "GET" None /\
    (r_prefix <$> scan sample_table (normalize_proxy_path "/svc/7/orders") "GET" None) = Some (str_of "svc/7").
Proof.
  destruct (index_build sample_table) as [nodes|] eqn:E; [|by vm_compute in E].
  exists nodes. split; [done|]. split; [|by vm_compute].
  exact (trie_refines_scan sample_table nodes "/svc/7/orders" "GET" None E).
Defined.
