(* ===== verification/RouteTable.v ===== *)
(** * Building, matching and reloading a route table (routes/mod.rs)

    [build_with] flattens the groups of the route file into one ordered table;
    [match_request] finds the route of a request, [is_denied] guards the public
    surface, [partition_by_listener] splits the table between the listeners and
    [store] replaces a shared table while its limiters keep counting. *)

From S2P Require Export RouteIndex.
From Stdlib Require Import Sorted.

Record RouteTable := {
  cache_namespace : Z;
  deny_prefixes : list str;
  table_routes : list RouteConfig;
  lookup_index : option arena;
  table_errors : list str;
}.

Definition tagged (groups : RouteGroups) : list (AuthTier * RouteConfig) :=
  map (pair Public) (g_public groups) ++ map (pair Optional) (g_optional groups)
  ++ map (pair Required) (g_authenticated groups) ++ map (pair Machine) (g_machine groups).

(** [build_with]: [v4] is the identifier drawn for the table. *)
Definition build_with (v4 : Z) (groups : RouteGroups) (defaults : RouteDefaults) (shared : option Factory)
  : RouteTable :=
  let resolved := map (resolve defaults) (List.filter (fun tr => r_enabled tr.2) (tagged groups)) in
  let derived := imap (derive v4 shared) resolved in
  let routes := sort_routes (map fst derived) in
  {| cache_namespace := v4;
     deny_prefixes := map normalize_proxy_path (g_internal groups);
     table_routes := routes;
     lookup_index := index_build routes;
     table_errors := concat (map snd derived) |}.

Definition is_denied (t : RouteTable) (path : str) : bool :=
  let p := normalize_proxy_path path in
  existsb (fun d => under_prefix_ignore_case p d) (deny_prefixes t).

(** [ascii_cased]: folded only where a byte needs it. *)
Definition ascii_cased (needs_fold : Z -> bool) (fold : str -> str) (raw : str) : str :=
  if existsb needs_fold raw then fold raw else raw.

Definition request_method (method : str) : str := ascii_cased is_ascii_lower to_ascii_uppercase method.
Definition request_host (host : option str) : option str :=
  (fun h => ascii_cased is_ascii_upper to_ascii_lowercase (normalize_host h)) <$> host.

Definition match_request (t : RouteTable) (host : option str) (path method : str) : option RouteConfig :=
  let p := normalize_proxy_path path in
  match lookup_index t with
  | Some nodes => index_find nodes (table_routes t) p (request_method method) (request_host host)
  | None => scan (table_routes t) p (request_method method) (request_host host)
  end.

Record RouteCandidate := { cand_route : RouteConfig; host_ok : bool; method_ok : bool }.

Definition prefix_candidates (t : RouteTable) (host : option str) (path method : str) : list RouteCandidate :=
  let p := normalize_proxy_path path in
  let m := to_ascii_uppercase method in
  let h := (fun host => to_ascii_lowercase (normalize_host host)) <$> host in
  map (fun r => {| cand_route := r; host_ok := matches_host r h; method_ok := matches_method r m |})
    (List.filter (fun r => under_prefix p (r_prefix r)) (table_routes t)).

Definition machine_tier (r : RouteConfig) : bool := r_auth r ==? Machine.

Definition partition_by_listener (t : RouteTable) : RouteTable * RouteTable :=
  let machine := List.filter machine_tier (table_routes t) in
  let public := List.filter (fun r => negb (machine_tier r)) (table_routes t) in
  ({| cache_namespace := cache_namespace t; deny_prefixes := deny_prefixes t; table_routes := public;
      lookup_index := index_build public; table_errors := table_errors t |},
   {| cache_namespace := cache_namespace t; deny_prefixes := []; table_routes := machine;
      lookup_index := index_build machine; table_errors := table_errors t |}).

(** ** Reloading *)

Definition with_limiter (l : option LimiterRef) (r : RouteConfig) : RouteConfig :=
  {| r_id := r_id r; r_host := r_host r; r_hosts := r_hosts r; r_prefix := r_prefix r;
     r_upstream := r_upstream r; r_methods := r_methods r; r_sse := r_sse r;
     r_strip_prefix := r_strip_prefix r; r_enabled := r_enabled r; r_client_key := r_client_key r;
     r_bind := r_bind r; r_bindings := r_bindings r; r_cache := r_cache r;
     r_cache_authenticated := r_cache_authenticated r; r_retry := r_retry r;
     r_retry_policy := r_retry_policy r; r_rate_limit := r_rate_limit r; r_limiter := l;
     r_concurrency := r_concurrency r; r_extensions := r_extensions r; r_auth := r_auth r;
     r_policy_origins := r_policy_origins r |}.

(** What has to be unchanged for a limiter to be kept. *)
Definition same_policy (old r : RouteConfig) : bool :=
  (r_auth old ==? r_auth r) && (r_prefix old ==? r_prefix r) && (r_hosts old ==? r_hosts r)
  && (r_methods old ==? r_methods r) && (r_upstream old ==? r_upstream r) && (r_bind old ==? r_bind r)
  && (r_extensions old ==? r_extensions r) && (r_rate_limit old ==? r_rate_limit r).

Definition same_limiter_backend (old r : RouteConfig) : bool :=
  match r_limiter old, r_limiter r with
  | Some a, Some b => same_backend a b
  | _, _ => false
  end.

(** The map by identifier: of routes with one identifier the last is kept. *)
Definition by_id (previous : list RouteConfig) (id : str) : option RouteConfig :=
  List.find (fun r => r_id r ==? id) (reverse previous).

Definition carry_limiter (previous : list RouteConfig) (r : RouteConfig) : RouteConfig :=
  match by_id previous (r_id r) with
  | Some old => if same_policy old r && same_limiter_backend old r then with_limiter (r_limiter old) r else r
  | None => r
  end.

(** [SharedRoutes::store], on the table the handle points to. *)
Definition store (v4 : Z) (previous table : RouteTable) : RouteTable :=
  {| cache_namespace := v4; deny_prefixes := deny_prefixes table;
     table_routes := map (carry_limiter (table_routes previous)) (table_routes table);
     lookup_index := lookup_index table; table_errors := table_errors table |}.

(** [publish_reload]: the new tables of the public handle and, if there is one,
    of the machine handle. *)
Definition publish_reload (v4p v4m : Z) (table public : RouteTable) (machine : option RouteTable)
  : RouteTable * option RouteTable :=
  let '(public_table, machine_table) := partition_by_listener table in
  (store v4p public public_table, (fun m => store v4m m machine_table) <$> machine).

(** ** Ordering *)

(** A route restricted to hosts outranks one that is not, and among equals the
    longer prefix does. *)
Definition outranks (a b : RouteConfig) : Prop :=
  (r_hosts a <> [] /\ r_hosts b = []) \/
  ((r_hosts a = [] <-> r_hosts b = []) /\ (length (r_prefix b) < length (r_prefix a))%nat).

Definition not_after (a b : RouteConfig) : Prop := ~ outranks b a.

Lemma more_specific_spec a b : more_specific a b = true <-> outranks a b.
Proof.
  unfold more_specific, outranks, host_specific.
  destruct (r_hosts a), (r_hosts b); rewrite ?Nat.ltb_lt; naive_solver.
Qed.

Lemma not_after_spec a b : not_after a b <-> more_specific b a = false.
Proof. unfold not_after. by rewrite <- more_specific_spec, not_true_iff_false. Qed.

Lemma more_specific_trans a b c : more_specific c b = false -> more_specific b a = false -> more_specific c a = false.
Proof.
  unfold more_specific. destruct (host_specific a), (host_specific b), (host_specific c); try done;
    intros H1%Nat.ltb_ge H2%Nat.ltb_ge; apply Nat.ltb_ge; lia.
Qed.

Lemma more_specific_asym a b : more_specific a b = true -> more_specific b a = false.
Proof.
  unfold more_specific. destruct (host_specific a), (host_specific b); try done;
    intros H%Nat.ltb_lt; apply Nat.ltb_ge; lia.
Qed.

Lemma insert_route_perm a l : insert_route a l ≡ₚ a :: l.
Proof.
  induction l as [|b l IH]; simpl; [done|]. destruct (more_specific b a); [|done].
  rewrite IH. apply Permutation_swap.
Qed.

Lemma insert_route_sorted a l : StronglySorted not_after l -> StronglySorted not_after (insert_route a l).
Proof.
  induction 1 as [|b l Hs IH Hb]; simpl; [repeat constructor|].
  destruct (more_specific b a) eqn:E.
  - constructor; [done|]. rewrite insert_route_perm. constructor; [|done]. by apply not_after_spec, more_specific_asym.
  - constructor; [by constructor|]. constructor; [by apply not_after_spec|].
    apply Forall_elem. intros c Hc. rewrite Forall_elem in Hb. specialize (Hb c Hc).
    rewrite not_after_spec in *. by eapply more_specific_trans.
Qed.

Lemma sort_routes_perm l : sort_routes l ≡ₚ l.
Proof. induction l as [|a l IH]; simpl; [done|]. by rewrite insert_route_perm, IH. Qed.

Lemma sort_routes_sorted l : StronglySorted not_after (sort_routes l).
Proof. induction l; simpl; [constructor|by apply insert_route_sorted]. Qed.

(** A table in order, with the index of its routes. *)
Record table_ok (t : RouteTable) : Prop := {
  to_sorted : StronglySorted not_after (table_routes t);
  to_index : lookup_index t = index_build (table_routes t);
}.

Lemma build_ok v4 groups defaults shared : table_ok (build_with v4 groups defaults shared).
Proof. split; [apply sort_routes_sorted|done]. Qed.

Lemma sorted_filter f l : StronglySorted not_after l -> StronglySorted not_after (List.filter f l).
Proof.
  induction 1 as [|a l Hs IH Ha]; simpl; [constructor|]. destruct (f a); [|done].
  constructor; [done|]. apply Forall_elem. intros b [Hb _]%elem_of_lfilter.
  rewrite Forall_elem in Ha. by apply Ha.
Qed.

Lemma partition_ok t : table_ok t -> table_ok (partition_by_listener t).1 /\ table_ok (partition_by_listener t).2.
Proof. intros [Hs _]. split; (split; [by apply sorted_filter|done]). Qed.

Lemma match_request_scan t host path method :
  table_ok t ->
  match_request t host path method =
    scan (table_routes t) (normalize_proxy_path path) (request_method method) (request_host host).
Proof.
  intros [_ Hi]. unfold match_request. destruct (lookup_index t) as [nodes|] eqn:E; [|done].
  by apply index_find_scan.
Qed.

(** ** Theorems: matching *)

(** The predicate a request's route satisfies. *)
Definition serves_request (host : option str) (path method : str) (r : RouteConfig) : bool :=
  under_prefix (normalize_proxy_path path) (r_prefix r) && matches_method r (request_method method)
  && matches_host r (request_host host).

Lemma find_first {A} (f : A -> bool) l r :
  List.find f l = Some r <-> exists a b, l = a ++ r :: b /\ f r = true /\ forall x, x ∈ a -> f x = false.
Proof.
  induction l as [|x l IH]; simpl.
  - split; [done|]. by intros ([|] & b & ? & _).
  - destruct (f x) eqn:E.
    + split.
      * intros [= ->]. exists [], l. split_and!; [done|done|]. by intros ? ?%elem_of_nil.
      * intros (a & b & H & Hf & Ha). destruct a as [|y a]; [by injection H as ->|].
        injection H as -> ->. rewrite (Ha y) in E; [done|constructor].
    + rewrite IH. split.
      * intros (a & b & -> & Hf & Ha). exists (x :: a), b. split_and!; [done|done|].
        intros y [->|Hy]%elem_of_cons; auto.
      * intros (a & b & H & Hf & Ha). destruct a as [|y a]; injection H as -> ->; [congruence|].
        exists a, b. split_and!; [done|done|]. intros z Hz. apply Ha. by constructor.
Qed.

(** The scan finds a route that serves the request and that none outranks. *)
Lemma scan_most_specific t host path method :
  table_ok t ->
  match scan (table_routes t) (normalize_proxy_path path) (request_method method) (request_host host) with
  | Some r => r ∈ table_routes t /\ serves_request host path method r = true /\
              forall r', r' ∈ table_routes t -> serves_request host path method r' = true ->
                ~ outranks r' r
  | None => forall r, r ∈ table_routes t -> serves_request host path method r = false
  end.
Proof.
  intros Ht. unfold scan. destruct Ht as [Hs _].
  change (fun r => _) with (serves_request host path method).
  destruct (List.find _ (table_routes t)) as [r|] eqn:E.
  - apply find_first in E as (a & b & Hl & Hf & Ha). rewrite Hl in *.
    split_and!; [apply elem_of_app; right; constructor|done|].
    intros r' [Hr'|[->|Hr']%elem_of_cons]%elem_of_app Hf'.
    + rewrite Ha in Hf'; done.
    + unfold outranks. intros [[? ?]|[_ ?]]; [done|lia].
    + clear -Hs Hr'. induction a as [|x a IH]; simpl in Hs; apply StronglySorted_inv in Hs as [Hs Hx].
      * rewrite Forall_elem in Hx. by apply Hx.
      * by apply IH.
  - intros r Hr. apply find_none with (x := r) in E; [done|]. by apply list_elem_of_In.
Qed.

(** C10: a request gets the most specific route that serves it: the route
    returned is in the table and serves the path, method and host; no other
    route that serves them is more specific, in that a route restricted to
    hosts beats one that is not and then the longer prefix wins; and no route
    is returned only when none serves the request. *)
Theorem match_request_most_specific t host path method (Ht : table_ok t) :
  match match_request t host path method with
  | Some r => r ∈ table_routes t /\ serves_request host path method r = true /\
              forall r', r' ∈ table_routes t -> serves_request host path method r' = true ->
                ~ outranks r' r
  | None => forall r, r ∈ table_routes t -> serves_request host path method r = false
  end.
Proof. rewrite match_request_scan by done. by apply scan_most_specific. Qed.

Definition sample_groups (public machine : list RouteConfig) : RouteGroups :=
  {| g_internal := [("/svc/Internal/" : str)]; g_machine := machine; g_public := public; g_optional := [];
     g_authenticated := [] |}.
Definition sample : RouteTable :=
  build_with 1 (sample_groups [sample_route "/svc"; sample_route "/svc/users"] [sample_route "/jobs"])
    no_defaults None.

Lemma match_request_most_specific_witness :
  table_ok sample /\
  (r_prefix <$> match_request sample None "/svc/users/4" "get") = Some (str_of "svc/users") /\
  forall r, match_request sample None "/svc/users/4" "get" = Some r -> r ∈ table_routes sample.
Proof.
  assert (table_ok sample) as Hok by apply build_ok.
  split; [exact Hok|]. split; [by vm_compute|]. intros r Hr.
  pose proof (match_request_most_specific sample None "/svc/users/4" "get" Hok) as H.
  rewrite Hr in H. apply H.
Defined.

(** The tier of a route is the group it was written in, and nothing in the
    file can change it: every route of a built table is an enabled route of its
    tier's group, under its normalized prefix, with its own policies where it
    declared them (an explicit null too) and the global ones only where it did
    not. *)
Lemma build_keeps_tiers v4 groups defaults shared r
  (Hr : r ∈ table_routes (build_with v4 groups defaults shared)) :
  exists r0, r0 ∈ match r_auth r with
                  | Public => g_public groups | Optional => g_optional groups
                  | Required => g_authenticated groups | Machine => g_machine groups
                  end /\
    r_enabled r0 = true /\ r_prefix r = normalize_proxy_path (r_prefix r0) /\
    r_upstream r = r_upstream r0 /\
    r_rate_limit r = match po_rate_limit (r_policy_origins r0), rd_rate_limit defaults with
                     | OriginBuiltIn, Some g => Some g | _, _ => r_rate_limit r0 end /\
    r_retry r = match po_retry (r_policy_origins r0), rd_retry defaults with
                | OriginBuiltIn, Some g => Some g | _, _ => r_retry r0 end.
Proof.
  cbn [build_with table_routes] in Hr. rewrite sort_routes_perm in Hr.
  apply (list_elem_of_fmap_1 fst) in Hr as ([r1 errs1] & -> & Hr). cbn [fst].
  apply elem_of_lookup_imap in Hr as (i & r2 & Hd & Hi). injection Hd as -> _.
  apply list_elem_of_lookup_2 in Hi. apply (list_elem_of_fmap_1 (resolve defaults)) in Hi as ([tier r0] & -> & Hi).
  apply elem_of_lfilter in Hi as [Hi He]. simpl in He. exists r0.
  unfold resolve. destruct (inherit _ _ _) as [methods om] eqn:E1.
  destruct (inherit (po_retry _) _ _) as [retry ort] eqn:E2.
  destruct (inherit (po_rate_limit _) _ _) as [rate orl] eqn:E3. cbn [fst derive r_auth r_prefix r_upstream r_rate_limit r_retry].
  split_and!; try done.
  - unfold tagged in Hi. rewrite !elem_of_app in Hi.
    destruct Hi as [Hi|[Hi|[Hi|Hi]]];
      (match type of Hi with _ ∈ map (pair ?t) _ => apply (list_elem_of_fmap_1 (pair t)) in Hi as (? & [= -> ->] & ?) end; done).
  - unfold inherit in E3. repeat case_match; simplify_eq/=; done.
  - unfold inherit in E2. repeat case_match; simplify_eq/=; done.
Qed.

Lemma build_keeps_tiers_witness :
  exists r, r ∈ table_routes sample /\ r_auth r = Machine /\ exists r0 : RouteConfig, r0 ∈ [sample_route "/jobs"].
Proof.
  destruct (match_request sample None "/jobs/1" "POST") as [r|] eqn:E; [|by vm_compute in E].
  assert (r ∈ table_routes sample) as Hr.
  { apply list_elem_of_In. apply (find_some (fun r => serves_request None "/jobs/1" "POST" r)).
    rewrite match_request_scan in E by apply build_ok. exact E. }
  assert (r_auth r = Machine) as Hm by (vm_compute in E; by injection E as <-).
  exists r. split; [exact Hr|]. split; [exact Hm|].
  destruct (build_keeps_tiers _ _ _ _ _ Hr) as (r0 & H0 & _). rewrite Hm in H0. by exists r0.
Defined.

(** A reload or a start never puts a machine route on the public listener:
    the two tables split the routes, the public one holds none of the machine
    tier and keeps the deny-list, and both match as the whole table's routes of
    their tier would. *)
Lemma partition_separates_tiers t (Ht : table_ok t) :
  let '(public, machine) := partition_by_listener t in
  (forall r, r ∈ table_routes public <-> r ∈ table_routes t /\ r_auth r <> Machine) /\
  (forall r, r ∈ table_routes machine <-> r ∈ table_routes t /\ r_auth r = Machine) /\
  deny_prefixes public = deny_prefixes t /\ deny_prefixes machine = [] /\
  (forall host path method r, match_request public host path method = Some r -> r_auth r <> Machine) /\
  (forall host path method r, match_request machine host path method = Some r -> r_auth r = Machine).
Proof.
  pose proof (partition_ok t Ht) as [Hp Hm].
  destruct (partition_by_listener t) as [public machine] eqn:E. cbn [fst snd] in Hp, Hm.
  assert (table_routes public = List.filter (fun r => negb (machine_tier r)) (table_routes t)) as Ep
    by by injection E as <- <-.
  assert (table_routes machine = List.filter machine_tier (table_routes t)) as Em by by injection E as <- <-.
  assert (forall r, r ∈ table_routes public <-> r ∈ table_routes t /\ r_auth r <> Machine) as H1.
  { intros r. rewrite Ep, elem_of_lfilter. unfold machine_tier. by rewrite negb_true_iff, bool_decide_eq_false. }
  assert (forall r, r ∈ table_routes machine <-> r ∈ table_routes t /\ r_auth r = Machine) as H2.
  { intros r. rewrite Em, elem_of_lfilter. unfold machine_tier. by rewrite bool_decide_eq_true. }
  split_and!; [done|done|by injection E as <- <-|by injection E as <- <-|..].
  - intros host path method r Hr. rewrite match_request_scan in Hr by done.
    apply find_some in Hr as [Hr _]. apply list_elem_of_In in Hr. by apply H1.
  - intros host path method r Hr. rewrite match_request_scan in Hr by done.
    apply find_some in Hr as [Hr _]. apply list_elem_of_In in Hr. by apply H2.
Qed.

Lemma partition_separates_tiers_witness :
  match_request (partition_by_listener sample).1 None "/jobs/1" "POST" = None /\
  forall host path method r, match_request (partition_by_listener sample).1 host path method = Some r ->
    r_auth r <> Machine.
Proof.
  split; [by vm_compute|]. pose proof (partition_separates_tiers sample (build_ok _ _ _ _)) as H.
  destruct (partition_by_listener sample) as [p m]. apply H.
Defined.

(** ** Theorems: the deny-list *)

Lemma chars_app_utf8 d rest : Utf8 d -> chars (d ++ rest) = chars d ++ chars rest.
Proof.
  induction 1 as [|b s Hb _ IH|c s Hc _ IH]; [done|..].
  - cbn [app chars]. rewrite (proj2 (Z.ltb_lt b 128)) by lia. by rewrite IH.
  - rewrite <-app_assoc. destruct (utf8_multi_chars c Hc) as (u & _ & Hu). rewrite !Hu. by rewrite IH.
Qed.

Lemma lower_byte_high c : 128 <= c -> lower_byte c = c.
Proof. intros H. unfold lower_byte, is_ascii_upper, in_range. by rewrite (proj2 (Z.leb_gt c 90)), andb_false_r by lia. Qed.

Lemma map_lower_high c : Forall (fun b => 128 <= b) c -> map lower_byte c = c.
Proof. induction 1 as [|b c Hb _ IH]; simpl; [done|]. by rewrite lower_byte_high, IH. Qed.

Lemma lower_byte_range b : 0 <= b < 128 -> 0 <= lower_byte b < 128.
Proof. unfold lower_byte, is_ascii_upper, in_range. intros. case_match; breflect; lia. Qed.

Lemma chars_lowercase s : Utf8 s -> chars (to_ascii_lowercase s) = map lower_byte (chars s).
Proof.
  unfold to_ascii_lowercase. induction 1 as [|b s Hb _ IH|c s Hc _ IH]; [done|..].
  - cbn [map chars]. pose proof (lower_byte_range b Hb).
    rewrite (proj2 (Z.ltb_lt b 128)), (proj2 (Z.ltb_lt (lower_byte b) 128)) by lia. cbn [map]. by rewrite IH.
  - destruct (utf8_multi_chars c Hc) as (u & Hu & Hch). destruct (utf8_multi_high c Hc) as [Hhigh _].
    rewrite map_app, (map_lower_high c), !Hch by done. cbn [map]. by rewrite lower_byte_high, IH by lia.
Qed.

Lemma Utf8_lowercase s : Utf8 s -> Utf8 (to_ascii_lowercase s).
Proof.
  unfold to_ascii_lowercase. induction 1 as [|b s Hb _ IH|c s Hc _ IH]; simpl; [constructor|..].
  - constructor; [|done]. by apply lower_byte_range.
  - destruct (utf8_multi_high c Hc) as [Hhigh _]. rewrite map_app, map_lower_high by done. by constructor.
Qed.

Lemma fold_case_lower c : fold_case (lower_byte c) = fold_case c.
Proof.
  unfold lower_byte. destruct (is_ascii_upper c) eqn:E; [|done].
  unfold is_ascii_upper, in_range in E. breflect. unfold fold_case.
  repeat match goal with |- context [?x =? ?k] => rewrite (proj2 (Z.eqb_neq x k)) by lia end. simpl.
  rewrite <-(lower_byte_idem c). unfold lower_byte at 3, is_ascii_upper, in_range.
  by rewrite (proj2 (Z.leb_le 65 c)), (proj2 (Z.leb_le c 90)) by lia.
Qed.

Lemma at_boundary_lower rest : at_boundary (map lower_byte rest) = at_boundary rest.
Proof.
  unfold at_boundary. rewrite !starts_with_slash. destruct rest as [|c rest]; [done|]. cbn [map].
  rewrite !bool_decide_false by done. simpl. unfold lower_byte, is_ascii_upper, in_range.
  destruct (Z.leb_spec 65 c), (Z.leb_spec c 90); simpl; try done.
  by rewrite (proj2 (Z.eqb_neq (c + 32) 47)), (proj2 (Z.eqb_neq c 47)) by lia.
Qed.

Lemma chars_under_prefix_lower rest p :
  chars_under_prefix (map lower_byte rest) (map lower_byte p) = chars_under_prefix rest p.
Proof.
  revert rest. induction p as [|b p IH]; intros rest; simpl; [apply at_boundary_lower|].
  destruct rest as [|c rest]; simpl; [done|]. by rewrite !fold_case_lower, IH.
Qed.

Lemma chars_under_prefix_refl p rest : chars_under_prefix (p ++ rest) p = at_boundary rest.
Proof. induction p as [|b p IH]; simpl; [done|]. by rewrite Z.eqb_refl. Qed.

Lemma under_prefix_folds path prefix :
  Utf8 prefix -> under_prefix path prefix = true -> under_prefix_ignore_case path prefix = true.
Proof.
  intros Hp. unfold under_prefix. destruct (strip_prefix prefix path) as [rest|] eqn:E; [|done].
  apply strip_prefix_Some in E as ->. unfold under_prefix_ignore_case. rewrite chars_app_utf8 by done.
  rewrite chars_under_prefix_refl. unfold at_boundary. rewrite !starts_with_slash.
  destruct rest as [|c rest]; [done|]. rewrite bool_decide_false by done. simpl. intros Hc%Z.eqb_eq.
  by subst c.
Qed.

(** The deny-list cannot be slipped past with letter case: a path below a
    deny-listed prefix in any ASCII casing of either, at a segment boundary, is
    denied, and re-casing a path never changes the answer; so a broad route can
    not expose an internal sub-tree to an upstream that ignores case. *)
Lemma deny_ignores_case t path entry
  (Hin : entry ∈ deny_prefixes t)
  (Hp : Utf8 (normalize_proxy_path path)) (He : Utf8 entry)
  (Hu : under_prefix (to_ascii_lowercase (normalize_proxy_path path)) (to_ascii_lowercase entry) = true) :
  is_denied t path = true /\
  forall other, Utf8 (normalize_proxy_path other) ->
    to_ascii_lowercase (normalize_proxy_path other) = to_ascii_lowercase (normalize_proxy_path path) ->
    is_denied t other = true.
Proof.
  assert (forall other, Utf8 (normalize_proxy_path other) ->
    to_ascii_lowercase (normalize_proxy_path other) = to_ascii_lowercase (normalize_proxy_path path) ->
    is_denied t other = true) as H; [|split; [by apply H|done]].
  intros other Ho E. unfold is_denied. apply existsb_In. exists entry. split; [done|].
  rewrite <-E in Hu. apply under_prefix_folds in Hu; [|by apply Utf8_lowercase].
  unfold under_prefix_ignore_case in *. by rewrite !chars_lowercase, chars_under_prefix_lower in Hu by done.
Qed.

Lemma deny_ignores_case_witness :
  is_denied sample "/SVC/internal/users" = true /\ is_denied sample "/svc/internals" = false.
Proof.
  split; [|by vm_compute].
  assert (forall s : str, forallb (in_range 0 127) s = true -> Utf8 s) as Hascii.
  { intros s H. apply Utf8_of_ascii, Forall_elem. intros b Hb. rewrite forallb_In in H.
    specialize (H b Hb). unfold in_range in H. breflect. lia. }
  refine (proj1 (deny_ignores_case sample "/SVC/internal/users" (normalize_proxy_path "/svc/Internal/")
    _ _ _ _)); [vm_compute; constructor|apply Hascii; by vm_compute|apply Hascii; by vm_compute|by vm_compute].
Defined.

(** ** Theorems: reloading *)

(** A reload keeps spent quota exactly where nothing about the limit or its
    route changed: every stored route is the new table's but for its limiter,
    and a limiter that is not the new one is that of the old table's route of
    the same identifier, with the same tier, prefix, hosts, methods, upstream,
    bindings, extensions and limit, over the same backend; where such a route
    is unambiguous, its limiter is kept. *)
Lemma reload_keeps_limiters v4 previous table i r
  (Hr : table_routes table !! i = Some r) :
  exists r', table_routes (store v4 previous table) !! i = Some r' /\
    with_limiter (r_limiter r) r' = r /\
    (r_limiter r' = r_limiter r \/
     exists old, old ∈ table_routes previous /\ r_id old = r_id r /\ same_policy old r = true /\
       same_limiter_backend old r = true /\ r_limiter r' = r_limiter old) /\
    (forall old, old ∈ table_routes previous -> r_id old = r_id r ->
       NoDup (map r_id (table_routes previous)) -> same_policy old r = true ->
       same_limiter_backend old r = true -> r_limiter r' = r_limiter old).
Proof.
  exists (carry_limiter (table_routes previous) r). cbn [store table_routes].
  split; [by rewrite list_lookup_fmap, Hr|].
  unfold carry_limiter, by_id.
  destruct (List.find _ (reverse (table_routes previous))) as [old|] eqn:E.
  - pose proof E as (a & b & Hl & Hid & _)%find_first. breflect.
    assert (old ∈ table_routes previous) as Hin.
    { rewrite <-elem_of_reverse, Hl. apply elem_of_app. right. constructor. }
    destruct (same_policy old r && same_limiter_backend old r) eqn:Es.
    + apply andb_true_iff in Es as [Es1 Es2]. split; [by destruct r|]. split.
      * right. by exists old.
      * intros old' Hin' Hid' Hnd _ _. cbn [with_limiter r_limiter].
        assert (old' = old) as ->; [|done].
        apply list_elem_of_lookup in Hin as [n1 H1]. apply list_elem_of_lookup in Hin' as [n2 H2].
        assert (n1 = n2) as ->; [|congruence].
        apply (NoDup_lookup _ _ _ (r_id old) Hnd); rewrite list_lookup_fmap; [by rewrite H1|].
        rewrite H2. simpl. congruence.
    + split; [by destruct r|]. split; [by left|].
      intros old' Hin' Hid' Hnd Hs1 Hs2. exfalso.
      assert (old' = old) as ->; [|by rewrite Hs1, Hs2 in Es].
      apply list_elem_of_lookup in Hin as [n1 H1]. apply list_elem_of_lookup in Hin' as [n2 H2].
      assert (n1 = n2) as ->; [|congruence].
      apply (NoDup_lookup _ _ _ (r_id old) Hnd); rewrite list_lookup_fmap; [by rewrite H1|].
      rewrite H2. simpl. congruence.
  - split; [by destruct r|]. split; [by left|]. intros old Hin Hid _ _ _. exfalso.
    assert (old ∈ reverse (table_routes previous)) as Hin' by by rewrite elem_of_reverse.
    apply list_elem_of_In in Hin'. pose proof (find_none _ _ E _ Hin') as H. simpl in H.
    by rewrite bool_decide_true in H.
Qed.

(** A table of one route with a limit, as a file and its reload build it. *)
Definition limited_input (requests : Z) : RouteInput :=
  {| in_id := "r"; in_host := []; in_prefix := "/r"; in_upstream := "u"; in_methods := None;
     in_sse := false; in_strip_prefix := false; in_enabled := true; in_client_key := None; in_bind := [];
     in_cache := false; in_cache_authenticated := false; in_retry := None;
     in_rate_limit := Some (Some {| rl_requests := requests; rl_interval := nanos_per_sec; rl_key := KeyRoute;
       rl_missing_key := MissingReject; rl_trusted_proxies := 0; rl_max_keys := 10;
       rl_counter := CounterExact; rl_mode := ModeApproximate |});
     in_concurrency := None; in_extensions := [] |}.
Definition limited_table (v4 requests : Z) : RouteTable :=
  build_with v4 (sample_groups [route_of_input (limited_input requests)] []) no_defaults None.

Lemma reload_keeps_limiters_witness :
  (r_limiter <$> head (table_routes (store 9 (limited_table 1 2) (limited_table 2 2))))
    = Some (Some {| lr_table := 1; lr_position := 0; lr_kind := LimExact |}) /\
  (r_limiter <$> head (table_routes (store 9 (limited_table 1 2) (limited_table 2 3))))
    = Some (Some {| lr_table := 2; lr_position := 0; lr_kind := LimExact |}).
Proof.
  split; [|by vm_compute].
  destruct (table_routes (limited_table 2 2) !! 0%nat) as [r|] eqn:Hr; [|by vm_compute in Hr].
  destruct (table_routes (limited_table 1 2) !! 0%nat) as [old|] eqn:Ho; [|by vm_compute in Ho].
  destruct (reload_keeps_limiters 9 (limited_table 1 2) (limited_table 2 2) 0 r Hr) as (r' & H1 & _ & _ & H2).
  rewrite head_lookup, H1. cbn [fmap option_fmap option_map]. rewrite (H2 old).
  - by vm_compute in Ho; injection Ho as <-.
  - by apply list_elem_of_lookup_2 in Ho.
  - vm_compute in Ho, Hr. injection Ho as <-. by injection Hr as <-.
  - apply (bool_decide_unpack (NoDup _)). by vm_compute.
  - vm_compute in Ho, Hr. injection Ho as <-. injection Hr as <-. by vm_compute.
  - vm_compute in Ho, Hr. injection Ho as <-. injection Hr as <-. by vm_compute.
Defined.

(** ** Theorems: paths and hosts *)

(** With [strip_prefix] the upstream sees what lies beneath the prefix, cut
    on a segment boundary: the path a route matched is its prefix alone, or its
    prefix, a slash and what is sent; without it the path is sent whole. *)
Lemma upstream_path_beneath r path
  (Hu : under_prefix path (r_prefix r) = true) :
  if r_strip_prefix r
  then (path = r_prefix r /\ upstream_path r path = []) \/
       path = r_prefix r ++ "/" ++ upstream_path r path
  else upstream_path r path = path.
Proof.
  unfold upstream_path, under_prefix in *. destruct (r_strip_prefix r); [|done]. cbn [negb].
  destruct (strip_prefix (r_prefix r) path) as [rest|] eqn:E; [|done].
  apply strip_prefix_Some in E. unfold at_boundary in Hu. rewrite starts_with_slash in Hu.
  destruct rest as [|c rest]; [left; by rewrite E, app_nil_r|]. right.
  rewrite bool_decide_false in Hu by done. simpl in Hu. apply Z.eqb_eq in Hu as ->.
  rewrite E. f_equal.
Qed.

Lemma host_suffix_spec suffix host :
  host_matches (SuffixHost suffix) host = true <->
  exists label : str, label <> [] /\ host = label ++ b_dot :: suffix.
Proof. apply dotted_suffix_spec. Qed.

Lemma dot_under_spec a b : dot_under a b = true <-> exists pre : str, a = pre ++ b_dot :: b.
Proof.
  unfold dot_under. destruct (strip_suffix b a) as [r|] eqn:E.
  - apply strip_suffix_Some in E as ->. change (str_of ".") with [b_dot]. rewrite ends_with_spec. split.
    + intros [pre ->]. exists pre. by rewrite <-app_assoc.
    + intros [pre H]. exists pre. replace (pre ++ b_dot :: b) with ((pre ++ [b_dot]) ++ b) in H
        by by rewrite <-app_assoc. by apply app_inv_tail in H.
  - split; [done|]. intros [pre ->].
    assert (strip_suffix b (pre ++ b_dot :: b) = Some (pre ++ [b_dot])) as H; [|congruence].
    apply strip_suffix_Some. by rewrite <-app_assoc.
Qed.

(** Two host patterns overlap exactly when one host satisfies both, so the
    check for conflicting routes neither misses a conflict nor invents one; and
    a wildcard never matches the bare suffix or a name that merely ends in it. *)
Lemma overlaps_exact p q :
  overlaps p q = true <-> exists host, host_matches p host = true /\ host_matches q host = true.
Proof.
  destruct p as [a|a], q as [b|b]; cbn [overlaps].
  - rewrite bool_decide_eq_true. cbn [host_matches]. split.
    + intros ->. exists b. by rewrite !bool_decide_true.
    + intros (host & H1 & H2). breflect. congruence.
  - split; [intros H; exists a; split; [by apply bool_decide_eq_true|done]|].
    intros (host & H1 & H2). cbn [host_matches] in H1. apply bool_decide_eq_true in H1 as ->. done.
  - split; [intros H; exists b; split; [done|by apply bool_decide_eq_true]|].
    intros (host & H1 & H2). cbn [host_matches] in H2. apply bool_decide_eq_true in H2 as ->. done.
  - rewrite !orb_true_iff, bool_decide_eq_true, !dot_under_spec.
    setoid_rewrite host_suffix_spec. split.
    + intros [[->|[pre ->]]|[pre ->]].
      * exists ([120] ++ b_dot :: b). split; by exists [120].
      * exists ([120] ++ b_dot :: pre ++ b_dot :: b). split; [by exists [120]|].
        exists ([120] ++ b_dot :: pre). split; [done|]. by rewrite <-app_assoc.
      * exists ([120] ++ b_dot :: pre ++ b_dot :: a). split; [|by exists [120]].
        exists ([120] ++ b_dot :: pre). split; [done|]. by rewrite <-app_assoc.
    + intros (host & (l1 & Hl1 & E1) & (l2 & Hl2 & E2)). rewrite E1 in E2.
      destruct (app_eq_inv _ _ _ _ E2) as [(k & -> & H)|(k & -> & H)].
      * destruct k as [|c k]; [left; left; by injection H as ->|].
        injection H as -> ->. right. by exists k.
      * destruct k as [|c k]; [left; left; by injection H as ->|].
        injection H as -> ->. left. right. by exists k.
Qed.
