(* ===== verification/Rejection.v ===== *)
(** * Client-facing rejections (error.rs)

    A [Rejection] is a terminal decision to answer the client instead of
    proxying: a status, a JSON body in the envelope every refusal uses, and the
    event and reason that are logged but never sent. *)

From S2P Require Export Json Limiter.

Section Rejection.
Context {N : Type} `{HN : JsonNumber N}.

Record Rejection := {
  rej_status : Z;
  rej_body : value N;
  rej_event : str;
  rej_reason : str;
}.

Definition rejection_new (status : Z) (body : value N) (event reason : str) : Rejection :=
  {| rej_status := status; rej_body := body; rej_event := event; rej_reason := reason |}.

(** The envelope: [statusCode], [message], [error] and what else a body says. *)
Definition envelope (status : Z) (message error : str) (more : list (str * value N)) : value N :=
  Object ([(str_of "statusCode", Number (num_of_u64 status)); (str_of "message", VString message);
           (str_of "error", VString error)] ++ more).
Definition retry_field (secs : Z) : list (str * value N) := [(str_of "retryAfter", Number (num_of_u64 secs))].
Definition hint_field (hint : str) : list (str * value N) := [(str_of "hint", VString hint)].

Definition not_found (event reason : str) : Rejection :=
  rejection_new 404 (envelope 404 "Not Found" "Not Found" []) event reason.

Definition limit_key (error : KeyError) : Rejection :=
  rejection_new 400 (envelope 400 "A valid policy key is required" "Bad Request" [])
    "gateway.limit_key.rejected"
    (match error with KeyMissing => "missing_limit_key" | KeyInvalid => "invalid_limit_key" end).

Definition rate_limited (retry_after_secs : Z) : Rejection :=
  rejection_new 429 (envelope 429 "Too many requests" "Too Many Requests" (retry_field retry_after_secs))
    "gateway.rate_limited" "rate_limited".

Definition circuit_open (retry_after_secs : Z) : Rejection :=
  rejection_new 503
    (envelope 503 "The upstream service is temporarily unavailable." "Service Unavailable"
       (retry_field retry_after_secs))
    "gateway.circuit_open" "circuit_open".

Definition concurrency_limited (per_caller : bool) (retry_after_secs : Z) : Rejection :=
  let '(status, message, error) :=
    if per_caller then (429, str_of "Too many concurrent requests", str_of "Too Many Requests")
    else (503, str_of "The upstream service is at capacity.", str_of "Service Unavailable") in
  rejection_new status (envelope status message error (retry_field retry_after_secs))
    "gateway.concurrency_limited" "concurrency_limited".

Definition missing_bearer : Rejection :=
  rejection_new 401
    (envelope 401
       "Authentication required. Please provide a valid bearer token in the Authorization header."
       "Unauthorized" (hint_field "Use: Authorization: Bearer <token>"))
    "gateway.auth.rejected" "missing_bearer".

Definition invalid_token (detail : str) : Rejection :=
  rejection_new 401
    (envelope 401 "Invalid token" "Unauthorized"
       (hint_field "Refresh the token or sign in again, then retry."))
    "gateway.auth.rejected" ("invalid_token: " ++ detail).

Definition missing_client_key (header : str) : Rejection :=
  rejection_new 401
    (envelope 401 "Client key required" "Unauthorized"
       (hint_field ("Send the key in the " ++ header ++ " header.")))
    "gateway.client_key.rejected" "missing_client_key".

Definition invalid_client_key : Rejection :=
  rejection_new 401 (envelope 401 "Invalid client key" "Unauthorized" [])
    "gateway.client_key.rejected" "bad_client_key".

Definition forbidden (message reason : str) : Rejection :=
  rejection_new 403 (envelope 403 message "Forbidden" []) "gateway.request.forbidden" reason.

Definition unavailable (message reason : str) : Rejection :=
  rejection_new 503 (envelope 503 message "Service Unavailable" []) "gateway.upstream.unavailable" reason.

Definition gateway_timeout : Rejection :=
  rejection_new 504 (envelope 504 "Gateway Timeout" "Gateway Timeout" [])
    "gateway.upstream.timeout" "upstream_timeout".

Definition payload_too_large : Rejection :=
  rejection_new 413 (envelope 413 "Payload Too Large" "Payload Too Large" [])
    "gateway.request.too_large" "body_too_large".

(** [to_vec] is [serde_json::to_vec]. *)
Definition body_bytes (to_vec : value N -> option (list Z)) (r : Rejection) : list Z :=
  default (str_of "{}") (to_vec (rej_body r)).
End Rejection.
Arguments Rejection : clear implicits.
