(* ===== verification/Upstream.v ===== *)
(** * Upstream targets and pools (upstream.rs)

    A destination is parsed once, at startup.  A pool's member set is built from
    one DNS answer per configured target by [member_set], at startup and at each
    refresh; a refused refresh leaves the set in service.  [http::Uri] is
    parsed by its crate, a parameter, and Pingora's balancer chooses among the
    members, so the backend it chose is an argument of [select]. *)

From S2P Require Export Config Ip Path.

(** ** Targets *)

(** What [http::Uri] tells of a parsed URL. *)
Record Uri := {
  uri_scheme : option str;
  uri_host : option str;
  uri_port : option Z;
  uri_path : str;
}.

Record UpstreamTarget := {
  tg_addr : str;
  tg_tls : bool;
  tg_sni : str;
  tg_base_path : str;
}.
#[export] Instance UpstreamTarget_eq_dec : EqDecision UpstreamTarget.
Proof. solve_decision. Defined.

Section Parse.
(** [str::parse::<http::Uri>], with the text of its error. *)
Context (parse_uri : str -> result Uri str).

Definition target_parse (url : str) : result UpstreamTarget str :=
  let? uri := match parse_uri url with
              | Ok u => Ok u
              | Err e => Err ("upstream URL `" ++ url ++ "` is not a valid URI: " ++ e)
              end in
  let scheme := default (str_of "http") (uri_scheme uri) in
  let? tls := if scheme ==? "http" then Ok false
              else if scheme ==? "https" then Ok true
              else Err ("upstream URL `" ++ url ++ "` has unsupported scheme `" ++ scheme ++ "`") in
  let? host := ok_or (uri_host uri) ("upstream URL `" ++ url ++ "` has no host") in
  let port := default (if tls : bool then 443 else 80) (uri_port uri) in
  Ok {| tg_addr := host ++ ":" ++ show_u64 port; tg_tls := tls; tg_sni := host;
        tg_base_path := normalize_proxy_path (uri_path uri) |}.
End Parse.

(** ** Members *)

Abbreviation SocketAddr := (IpAddr * Z)%type.

#[export] Instance IpAddr_countable : Countable IpAddr.
Proof.
  apply (inj_countable'
    (fun ip => match ip with V4 a b c d => inl (a, b, c, d) | V6 s => inr s end)
    (fun x => match x with inl (a, b, c, d) => V4 a b c d | inr s => V6 s end)).
  by intros [].
Defined.

Definition show_socket_addr (a : SocketAddr) : str :=
  match a.1 with
  | V4 _ _ _ _ => show_ip_addr a.1 ++ ":" ++ show_u64 a.2
  | V6 _ => "[" ++ show_ip_addr a.1 ++ "]:" ++ show_u64 a.2
  end.

Record Answer := { an_index : nat; an_weight : Z; an_addrs : list SocketAddr }.

(** Pingora's [Backend], with the [TargetIndex] of its extensions. *)
Record Backend := { be_addr : SocketAddr; be_weight : Z; be_index : nat }.

(** The members found so far and who owns each address. *)
Record MemberSet := { ms_members : list Backend; ms_owner : gmap SocketAddr nat }.

(** One address of an answer. *)
Definition add_member (owners : option (gmap SocketAddr nat)) (a : Answer) (addr : SocketAddr)
    (m : MemberSet) : result MemberSet str :=
  match ms_owner m !! addr with
  | Some previous =>
      if (previous =? an_index a)%nat then Ok m
      else Err ("multiple targets resolve to backend `" ++ show_socket_addr addr
                ++ "`; each pool member must have a distinct address and port")
  | None =>
      if match (letO o := owners in o !! addr) with
         | Some previous => negb (previous =? an_index a)%nat
         | None => false
         end
      then Err ("backend `" ++ show_socket_addr addr ++ "` moved from one target to another; "
                ++ "restart to apply a change of target ownership")
      else Ok {| ms_members := ms_members m
                   ++ [{| be_addr := addr; be_weight := an_weight a; be_index := an_index a |}];
                 ms_owner := <[addr:=an_index a]> (ms_owner m) |}
  end.

Fixpoint add_members owners (a : Answer) (addrs : list SocketAddr) (m : MemberSet)
  : result MemberSet str :=
  match addrs with
  | [] => Ok m
  | addr :: rest => let? m := add_member owners a addr m in add_members owners a rest m
  end.

Fixpoint add_answers (targets : list UpstreamTarget) owners (answers : list Answer) (m : MemberSet)
  : result MemberSet str :=
  match answers with
  | [] => Ok m
  | a :: rest =>
      let name := match targets !! an_index a with Some t => tg_addr t | None => "?" end in
      if an_addrs a ==? [] then Err ("`" ++ name ++ "` resolved to no addresses")
      else let? m := add_members owners a (an_addrs a) m in add_answers targets owners rest m
  end.

Definition member_set (targets : list UpstreamTarget) (answers : list Answer) (max_members : Z)
    (owners : option (gmap SocketAddr nat)) : result MemberSet str :=
  let? m := add_answers targets owners answers {| ms_members := []; ms_owner := ∅ |} in
  let n := Z.of_nat (length (ms_members m)) in
  if max_members <? n then
    Err ("resolved " ++ show_u64 n ++ " members, more than the limit of " ++ show_u64 max_members)
  else Ok m.

(** ** Selection *)

Inductive Kind := Single (t : UpstreamTarget) | Pool (targets : list UpstreamTarget).

Record Selected := { sel_target : UpstreamTarget; sel_addr : option SocketAddr }.

(** [Upstream::select], with what [Balancer::select] chose. *)
Definition select (k : Kind) (chosen : option Backend) : option Selected :=
  match k with
  | Single t => Some {| sel_target := t; sel_addr := None |}
  | Pool targets =>
      letO b := chosen in
      letO t := targets !! be_index b in
      Some {| sel_target := t; sel_addr := Some (be_addr b) |}
  end.

Definition kind_targets (k : Kind) : list UpstreamTarget :=
  match k with Single t => [t] | Pool targets => targets end.

(** [Upstream::health_counts]: [ready] is the health of a member. *)
Definition health_counts (k : Kind) (members : list Backend) (ready : Backend -> bool) : option (nat * nat) :=
  match k with
  | Single _ => None
  | Pool _ =>
      let healthy := length (List.filter ready members) in
      Some (healthy, length members - healthy)%nat
  end.

(** ** Discovery *)

Definition DISCOVERY_LOOKUP_TIMEOUT : Z := from_secs 5.

(** [DnsDiscovery]: what is fixed, and the state it keeps. *)
Record DnsDiscovery := {
  dd_targets : list UpstreamTarget;
  dd_weights : list Z;
  dd_max_members : Z;
  dd_lookup_timeout : Z;
  dd_primed : option (list Backend);
  dd_owners : gmap SocketAddr nat;
}.

Definition set_owners (o : gmap SocketAddr nat) (d : DnsDiscovery) : DnsDiscovery :=
  {| dd_targets := dd_targets d; dd_weights := dd_weights d; dd_max_members := dd_max_members d;
     dd_lookup_timeout := dd_lookup_timeout d; dd_primed := dd_primed d; dd_owners := o |}.
Definition set_primed (p : option (list Backend)) (d : DnsDiscovery) : DnsDiscovery :=
  {| dd_targets := dd_targets d; dd_weights := dd_weights d; dd_max_members := dd_max_members d;
     dd_lookup_timeout := dd_lookup_timeout d; dd_primed := p; dd_owners := dd_owners d |}.

(** The lookups of a refresh, in order: the first that fails ends it.  [None] is
    a lookup that did not finish in time. *)
Fixpoint gather (targets : list UpstreamTarget) (index : nat) (weights : list Z) (budget : Z)
    (lookup : UpstreamTarget -> option (result (list SocketAddr) str)) : result (list Answer) str :=
  match targets with
  | [] => Ok []
  | t :: rest =>
      let? addrs := match lookup t with
                    | Some (Ok addrs) => Ok addrs
                    | Some (Err e) => Err ("cannot resolve `" ++ tg_addr t ++ "`: " ++ e)
                    | None => Err ("`" ++ tg_addr t ++ "` did not resolve within " ++ show_duration budget)
                    end in
      let? more := gather rest (S index) weights budget lookup in
      Ok ({| an_index := index; an_weight := default 1 (weights !! index); an_addrs := addrs |} :: more)
  end.

(** [ServiceDiscovery::discover]: the startup set first, then a refresh.  An
    error leaves the members in service. *)
Definition discover (lookup : UpstreamTarget -> option (result (list SocketAddr) str)) (d : DnsDiscovery)
  : DnsDiscovery * result (list Backend) str :=
  match dd_primed d with
  | Some first => (set_primed None d, Ok first)
  | None =>
      match (let? answers := gather (dd_targets d) 0 (dd_weights d) (dd_lookup_timeout d) lookup in
             member_set (dd_targets d) answers (dd_max_members d) (Some (dd_owners d))) with
      | Ok m => (set_owners (ms_owner m) d, Ok (ms_members m))
      | Err e => (d, Err e)
      end
  end.

(** ** Building an upstream *)

Section Build.
Context (parse_uri : str -> result Uri str).
(** [ToSocketAddrs], with the text of its error. *)
Context (to_socket_addrs : str -> result (list SocketAddr) str).

Fixpoint resolve_at_startup (name : str) (index : nat) (targets : list (UpstreamTarget * UpstreamTargetConfig))
  : result (list Answer) str :=
  match targets with
  | [] => Ok []
  | (t, c) :: rest =>
      let? addrs := match to_socket_addrs (tg_addr t) with
                    | Ok a => Ok a
                    | Err e => Err ("upstream `" ++ name ++ "`: cannot resolve `" ++ tg_addr t ++ "`: " ++ e)
                    end in
      let? more := resolve_at_startup name (S index) rest in
      Ok ({| an_index := index; an_weight := ut_weight c; an_addrs := addrs |} :: more)
  end.

(** [build_pool] without the health checkers: the pool, its first members, and
    the discovery that will refresh it. *)
Definition build_pool (name : str) (cfg : UpstreamConfig)
  : result (Kind * list Backend * option DnsDiscovery) str :=
  let? targets := collect_results (fun t => target_parse parse_uri (ut_url t)) (up_targets cfg) in
  let max := match up_discovery cfg with Some d => dc_max_members d | None => DEFAULT_MAX_MEMBERS end in
  let? answers := resolve_at_startup name 0 (zip targets (up_targets cfg)) in
  let? m := match member_set targets answers max None with
            | Ok m => Ok m
            | Err e => Err ("upstream `" ++ name ++ "`: " ++ e)
            end in
  Ok (Pool targets, ms_members m,
      (fun d => {| dd_targets := targets; dd_weights := map ut_weight (up_targets cfg);
                   dd_max_members := max;
                   dd_lookup_timeout := Z.min (dc_interval d) DISCOVERY_LOOKUP_TIMEOUT; dd_primed := Some (ms_members m);
                   dd_owners := ms_owner m |}) <$> up_discovery cfg).

Definition resolve_upstream (name : str) (cfg : UpstreamConfig)
  : result (Kind * list Backend * option DnsDiscovery) str :=
  if is_pool cfg then build_pool name cfg
  else
    let? first := ok_or (head (up_targets cfg)) ("upstream `" ++ name ++ "` has no targets") in
    match target_parse parse_uri (ut_url first) with
    | Ok t => Ok (Single t, [], None)
    | Err e => Err ("upstream `" ++ name ++ "`: " ++ e)
    end.
End Build.

(** ** Lemmas *)

(** Members and owners agree, and no address moved from where [owners] had it. *)
Record members_ok (owners : option (gmap SocketAddr nat)) (m : MemberSet) : Prop := {
  mo_unique : NoDup (map be_addr (ms_members m));
  mo_owner : forall x i, ms_owner m !! x = Some i <->
    exists b, b ∈ ms_members m /\ be_addr b = x /\ be_index b = i;
  mo_kept : forall o x i j, owners = Some o -> o !! x = Some i -> ms_owner m !! x = Some j -> i = j;
}.

Lemma members_ok_empty owners : members_ok owners {| ms_members := []; ms_owner := ∅ |}.
Proof.
  split; cbn.
  - constructor.
  - intros x i. rewrite lookup_empty. split; [done|]. by intros (b & []%elem_of_nil & _).
  - intros o x i j _ _. by rewrite lookup_empty.
Qed.

(** A member that answers for an address, with the target and weight of its
    answer. *)
Definition from_answer (a : Answer) (b : Backend) : Prop :=
  be_addr b ∈ an_addrs a /\ be_weight b = an_weight a /\ be_index b = an_index a.

Lemma add_member_ok owners a addr m m' :
  members_ok owners m -> add_member owners a addr m = Ok m' ->
  members_ok owners m' /\ ms_owner m' !! addr = Some (an_index a) /\
  (forall b, b ∈ ms_members m -> b ∈ ms_members m') /\
  (forall b, b ∈ ms_members m' -> b ∈ ms_members m \/
     b = {| be_addr := addr; be_weight := an_weight a; be_index := an_index a |}).
Proof.
  intros [Hu Ho Hk]. unfold add_member. destruct (ms_owner m !! addr) as [p|] eqn:E.
  - destruct (Nat.eqb_spec p (an_index a)) as [->|]; [|done]. intros [= <-]. split_and!; auto; by split.
  - destruct (match _ with Some _ => _ | None => _ end) eqn:Em; [done|]. intros [= <-]. cbn.
    split_and!.
    + split; cbn.
      * rewrite map_app. cbn. apply list.NoDup_app. split_and!; [done| |apply NoDup_singleton].
        intros x Hx ->%list_elem_of_singleton. apply list_elem_of_fmap_1 in Hx as (b & -> & Hb).
        assert (ms_owner m !! be_addr b = Some (be_index b)) by (apply Ho; by exists b). congruence.
      * intros x i. rewrite lookup_insert. case_decide as Hx.
        -- subst x. split.
           ++ intros [= <-]. eexists. split; [apply elem_of_app; right; by apply list_elem_of_singleton|done].
           ++ intros (b & [Hb| ->%list_elem_of_singleton]%elem_of_app & Hbx & Hbi); [|by rewrite <-Hbi].
              assert (ms_owner m !! be_addr b = Some (be_index b)) by (apply Ho; by exists b). congruence.
        -- rewrite Ho. split; intros (b & Hb & Hbx & Hbi); exists b; split_and!; try done.
           ++ apply elem_of_app. by left.
           ++ apply elem_of_app in Hb as [Hb| ->%list_elem_of_singleton]; [done|by cbn in Hbx].
      * intros o x i j -> Hx. rewrite lookup_insert. case_decide as Hxa.
        -- subst x. intros [= <-]. cbn in Em. rewrite Hx in Em. breflect. by apply Nat.eqb_eq in Em.
        -- intros Hj. by eapply Hk.
    + by rewrite lookup_insert_eq.
    + intros b Hb. apply elem_of_app. by left.
    + intros b [Hb| ->%list_elem_of_singleton]%elem_of_app; auto.
Qed.

Lemma add_members_ok owners a addrs m m' :
  members_ok owners m -> add_members owners a addrs m = Ok m' ->
  members_ok owners m' /\
  (forall x, x ∈ addrs -> ms_owner m' !! x = Some (an_index a)) /\
  (forall b, b ∈ ms_members m -> b ∈ ms_members m') /\
  (forall b, b ∈ ms_members m' -> b ∈ ms_members m \/
     (be_addr b ∈ addrs /\ be_weight b = an_weight a /\ be_index b = an_index a)).
Proof.
  revert m. induction addrs as [|x addrs IH]; intros m Hm; simpl.
  - intros [= <-]. split_and!; auto. by intros x []%elem_of_nil.
  - intros (m1 & H1 & H2)%rbind_Ok.
    destruct (add_member_ok _ _ _ _ _ Hm H1) as (Hm1 & Hx & Hin1 & Hout1).
    destruct (IH m1 Hm1 H2) as (Hm2 & Hxs & Hin2 & Hout2). split_and!; [done|..|naive_solver|].
    + intros y [->|Hy]%elem_of_cons; [|auto].
      apply (mo_owner _ _ Hm1) in Hx as (b & Hb & Hbx & Hbi).
      apply (mo_owner _ _ Hm2). exists b. auto.
    + intros b [Hb|(Hb & Hw & Hi)]%Hout2; [|right; split_and!; [by right|done..]].
      apply Hout1 in Hb as [Hb| ->]; [by left|]. right. split_and!; [by left|done..].
Qed.

Lemma add_answers_ok targets owners answers m m' :
  members_ok owners m -> add_answers targets owners answers m = Ok m' ->
  members_ok owners m' /\
  (forall a, a ∈ answers -> an_addrs a <> [] /\
     forall x, x ∈ an_addrs a -> ms_owner m' !! x = Some (an_index a)) /\
  (forall b, b ∈ ms_members m -> b ∈ ms_members m') /\
  (forall b, b ∈ ms_members m' -> b ∈ ms_members m \/ exists a, a ∈ answers /\ from_answer a b).
Proof.
  revert m. induction answers as [|a answers IH]; intros m Hm; simpl.
  - intros [= <-]. split_and!; auto. by intros x []%elem_of_nil.
  - case_bool_decide as Hne; [done|]. intros (m1 & H1 & H2)%rbind_Ok.
    destruct (add_members_ok _ _ _ _ _ Hm H1) as (Hm1 & Hx & Hin1 & Hout1).
    destruct (IH m1 Hm1 H2) as (Hm2 & Hxs & Hin2 & Hout2). split_and!; [done|..|naive_solver|].
    + intros y [->|Hy]%elem_of_cons; [|auto]. split; [done|]. intros x Hx0%Hx.
      apply (mo_owner _ _ Hm1) in Hx0 as (b & Hb & Hbx & Hbi).
      apply (mo_owner _ _ Hm2). exists b. auto.
    + intros b [Hb|(a' & Ha' & Hf)]%Hout2; [|right; exists a'; split; [by right|done]].
      apply Hout1 in Hb as [Hb|Hb]; [by left|]. right. exists a. split; [by left|done].
Qed.

Lemma member_set_ok targets answers max owners m :
  member_set targets answers max owners = Ok m ->
  members_ok owners m /\ Z.of_nat (length (ms_members m)) <= max /\
  (forall a, a ∈ answers -> an_addrs a <> [] /\
     forall x, x ∈ an_addrs a -> ms_owner m !! x = Some (an_index a)) /\
  (forall b, b ∈ ms_members m -> exists a, a ∈ answers /\ from_answer a b).
Proof.
  unfold member_set. intros (m' & H & Hm)%rbind_Ok.
  destruct (Z.ltb_spec max (Z.of_nat (length (ms_members m')))); [done|]. injection Hm as ->.
  destruct (add_answers_ok _ _ _ _ _ (members_ok_empty owners) H) as (H1 & H2 & _ & H4).
  split_and!; auto. intros b Hb%H4. naive_solver set_solver.
Qed.

(** One answer per target, in order. *)
Lemma gather_index targets i weights budget lookup l :
  gather targets i weights budget lookup = Ok l -> map an_index l = seq i (length targets).
Proof.
  revert i l. induction targets as [|t ts IH]; intros i l; simpl; [by intros [= <-]|].
  intros (addrs & _ & (more & Hm%IH & [= <-])%rbind_Ok)%rbind_Ok. simpl. by rewrite Hm.
Qed.

Lemma startup_index to_socket_addrs name i ts l :
  resolve_at_startup to_socket_addrs name i ts = Ok l -> map an_index l = seq i (length ts).
Proof.
  revert i l. induction ts as [|[t c] ts IH]; intros i l; simpl; [by intros [= <-]|].
  intros (addrs & _ & (more & Hm%IH & [= <-])%rbind_Ok)%rbind_Ok. simpl. by rewrite Hm.
Qed.

(** A member set built from one answer per target serves them all, and no
    other. *)
Lemma member_set_whole targets answers max owners m n :
  member_set targets answers max owners = Ok m -> map an_index answers = seq 0 n ->
  (forall b, b ∈ ms_members m -> (be_index b < n)%nat) /\
  (forall i, (i < n)%nat -> exists b, b ∈ ms_members m /\ be_index b = i).
Proof.
  intros (Hok & _ & Hall & Hfrom)%member_set_ok Hidx. split.
  - intros b (a & Ha & _ & _ & ->)%Hfrom. apply (list_elem_of_fmap_2 an_index) in Ha.
    change (an_index <$> answers) with (map an_index answers) in Ha. rewrite Hidx in Ha.
    apply list_elem_of_In, in_seq in Ha. lia.
  - intros i Hi. assert (i ∈ map an_index answers) as Hin.
    { rewrite Hidx. apply list_elem_of_In, in_seq. lia. }
    apply list_elem_of_fmap_1 in Hin as (a & -> & Ha). destruct (Hall a Ha) as [Hne Hx].
    destruct (an_addrs a) as [|x xs]; [done|]. specialize (Hx x ltac:(by left)).
    apply (mo_owner _ _ Hok) in Hx as (b & Hb & _ & Hbi). by exists b.
Qed.

(** ** The life of a pool *)

(** What is in service: the discovery's state and the balancer's members. *)
Abbreviation pool_state := (DnsDiscovery * list Backend)%type.

Inductive refresh : pool_state -> pool_state -> Prop :=
| refresh_ok lookup d d' old new :
    discover lookup d = (d', Ok new) -> refresh (d, old) (d', new)
| refresh_refused lookup d d' old e :
    discover lookup d = (d', Err e) -> refresh (d, old) (d', old).

Record pool_ok (targets : list UpstreamTarget) (s : pool_state) : Prop := {
  pk_targets : dd_targets s.1 = targets;
  pk_primed : dd_primed s.1 = None \/ dd_primed s.1 = Some s.2;
  pk_unique : NoDup (map be_addr s.2);
  pk_bound : Z.of_nat (length s.2) <= dd_max_members s.1;
  pk_owner : forall x i, dd_owners s.1 !! x = Some i <->
    exists b, b ∈ s.2 /\ be_addr b = x /\ be_index b = i;
  pk_index : forall b, b ∈ s.2 -> (be_index b < length targets)%nat;
  pk_whole : forall i, (i < length targets)%nat -> exists b, b ∈ s.2 /\ be_index b = i;
}.

Lemma build_pool_ok parse_uri to_socket_addrs name cfg targets members d :
  build_pool parse_uri to_socket_addrs name cfg = Ok (Pool targets, members, Some d) ->
  pool_ok targets (d, members).
Proof.
  unfold build_pool. intros (ts & Hts & (ans & Hans & (m & Hm & H)%rbind_Ok)%rbind_Ok)%rbind_Ok.
  destruct (up_discovery cfg) as [dc|]; cbn in H; [|done]. injection H as -> <- <-.
  destruct (member_set _ _ _ _) as [m'|] eqn:E in Hm; [|done]. injection Hm as ->.
  destruct (member_set_ok _ _ _ _ _ E) as ([Hu Ho _] & Hb & Hall & Hfrom).
  apply startup_index in Hans.
  assert (length (zip targets (up_targets cfg)) = length targets) as Hlen.
  { apply collect_results_Ok, Forall2_length in Hts. rewrite length_zip. lia. }
  rewrite Hlen in Hans. destruct (member_set_whole _ _ _ _ _ _ E Hans) as [Hi Hw].
  split; cbn [fst snd dd_targets dd_primed dd_max_members dd_owners]; auto.
Qed.

Lemma discover_ok targets lookup d members d' r :
  pool_ok targets (d, members) -> discover lookup d = (d', r) ->
  match r with
  | Ok new => pool_ok targets (d', new) /\
              (forall x i j, dd_owners d !! x = Some i -> dd_owners d' !! x = Some j -> i = j)
  | Err _ => d' = d
  end.
Proof.
  intros [Ht Hp Hu Hb Ho Hi Hw]. cbn [fst snd] in *. unfold discover.
  destruct (dd_primed d) as [first|] eqn:Ep.
  - destruct Hp as [|[= ->]]; [done|]. intros [= <- <-]. split; [|cbn; intros; congruence].
    split; cbn; auto.
  - destruct (rbind _ _) as [m|e] eqn:E; [|by intros [= <- <-]]. intros [= <- <-].
    apply rbind_Ok in E as (ans & Hans%gather_index & Hm).
    destruct (member_set_ok _ _ _ _ _ Hm) as ([Hu' Ho' Hk] & Hb' & _ & Hfrom).
    destruct (member_set_whole _ _ _ _ _ _ Hm Hans) as [Hi' Hw'].
    split; [|intros x i j H1 H2; by eapply Hk].
    subst targets. by split; cbn; auto.
Qed.

Lemma refresh_ok_preserved targets s s' : pool_ok targets s -> refresh s s' -> pool_ok targets s'.
Proof.
  intros Hs H. destruct H as [lookup d d' old new H|lookup d d' old e H].
  - by apply (discover_ok _ _ _ _ _ _ Hs) in H as [? _].
  - by apply (discover_ok _ _ _ _ _ _ Hs) in H as ->.
Qed.

(** ** Theorems *)

(** A pool keeps every promise it started with: whatever the names resolve
    to, refresh after refresh, each configured target keeps at least one
    member, no two members share an address, the set stays within its bound,
    every member selects the target it was resolved for and is dialled at
    exactly its own address, and an address never passes from one target to
    another between two sets in service. *)
Lemma pool_stays_whole parse_uri to_socket_addrs name cfg targets members d s s'
  (Hbuild : build_pool parse_uri to_socket_addrs name cfg = Ok (Pool targets, members, Some d))
  (Hreach : rtc refresh (d, members) s) (Hnext : refresh s s') :
  NoDup (map be_addr s'.2) /\ Z.of_nat (length s'.2) <= dd_max_members s'.1 /\
  (forall i, (i < length targets)%nat -> exists b, b ∈ s'.2 /\ be_index b = i) /\
  (forall b, b ∈ s'.2 -> exists t, targets !! be_index b = Some t /\
     select (Pool targets) (Some b) = Some {| sel_target := t; sel_addr := Some (be_addr b) |}) /\
  (forall b b', b ∈ s.2 -> b' ∈ s'.2 -> be_addr b = be_addr b' -> be_index b = be_index b').
Proof.
  apply build_pool_ok in Hbuild.
  assert (pool_ok targets s) as Hs.
  { clear Hnext. remember (d, members) as s0 eqn:E0. clear E0.
    induction Hreach as [|s0 s1 s2 H1 _ IH]; [done|]. eauto using refresh_ok_preserved. }
  pose proof (refresh_ok_preserved _ _ _ Hs Hnext) as [_ _ Hu Hb Ho Hi Hw].
  split_and!; [done..| |].
  - intros b Hin. destruct (lookup_lt_is_Some_2 targets (be_index b)) as [t Ht]; [auto|].
    exists t. split; [done|]. cbn. by rewrite Ht.
  - intros b b' Hin Hin' Heq.
    destruct Hnext as [lookup d1 d2 old new H|lookup d1 d2 old e H].
    + apply (discover_ok _ _ _ _ _ _ Hs) in H as [_ Hk]. cbn in *.
      apply (Hk (be_addr b)).
      * apply (pk_owner _ _ Hs). by exists b.
      * apply Ho. exists b'. by rewrite Heq.
    + cbn in *. assert (b = b') as ->; [|done].
      apply (discover_ok _ _ _ _ _ _ Hs) in H as ->.
      pose proof (proj2 (Ho (be_addr b) _) (ex_intro _ b (conj Hin (conj eq_refl eq_refl)))) as H1.
      pose proof (proj2 (Ho (be_addr b) _) (ex_intro _ b' (conj Hin' (conj (eq_sym Heq) eq_refl)))) as H2.
      clear - Hu Hin Hin' Heq. revert Hu Hin Hin'. induction old as [|c old IH]; cbn; [set_solver|].
      intros Hu H1 H2. apply list.NoDup_cons in Hu as [Hc Hu].
      apply elem_of_cons in H1 as [->|H1]; apply elem_of_cons in H2 as [->|H2]; auto.
      * exfalso. apply Hc. rewrite Heq. by apply (list_elem_of_fmap_2 be_addr).
      * exfalso. apply Hc. rewrite <-Heq. by apply (list_elem_of_fmap_2 be_addr).
Qed.

(** ** Witnesses *)

Definition sample_parse_uri (u : str) : result Uri str :=
  match strip_prefix "http://" u with
  | Some h => Ok {| uri_scheme := Some "http"; uri_host := Some h; uri_port := None; uri_path := "/" |}
  | None => Err (str_of "no scheme")
  end.
Definition sample_addrs (name : str) : result (list SocketAddr) str :=
  if name ==? "a:80" then Ok [(V4 10 0 0 1, 80); (V4 10 0 0 2, 80)]
  else if name ==? "b:80" then Ok [(V4 10 0 0 3, 80)] else Err (str_of "unknown").
Definition sample_upstream : UpstreamConfig :=
  {| up_targets := [{| ut_url := "http://a"; ut_weight := 1 |}; {| ut_url := "http://b"; ut_weight := 3 |}];
     up_balance := RoundRobin; up_hash_on := HashPath; up_health_check := None;
     up_circuit_breaker := None;
     up_discovery := Some {| dc_interval := from_secs 30; dc_max_members := 4 |} |}.
Definition sample_lookup (t : UpstreamTarget) : option (result (list SocketAddr) str) :=
  Some (if tg_addr t ==? "a:80" then Ok [(V4 10 0 0 2, 80)] else Ok [(V4 10 0 0 3, 80); (V4 10 0 0 4, 80)]).

Definition sample_sizes : option (nat * nat) :=
  match build_pool sample_parse_uri sample_addrs "users" sample_upstream with
  | Ok (Pool _, _, Some d) =>
      let s := discover sample_lookup d in
      match s.2, (discover sample_lookup s.1).2 with
      | Ok m, Ok m' => Some (length m, length m')
      | _, _ => None
      end
  | _ => None
  end.
Lemma sample_refreshes : sample_sizes = Some (3%nat, 3%nat).
Proof. vm_compute. reflexivity. Qed.

Lemma pool_stays_whole_witness :
  match build_pool sample_parse_uri sample_addrs "users" sample_upstream with
  | Ok (Pool targets, members, Some d) =>
      let s := discover sample_lookup d in
      let s' := discover sample_lookup s.1 in
      match s.2, s'.2 with
      | Ok m, Ok m' => length m = 3%nat /\ length m' = 3%nat /\ NoDup (map be_addr m')
      | _, _ => False
      end
  | _ => False
  end.
Proof.
  pose proof sample_refreshes as H. unfold sample_sizes in H.
  destruct (build_pool sample_parse_uri sample_addrs "users" sample_upstream)
    as [[[[t|targets] members] [d|]]|e] eqn:E; try discriminate H.
  cbv zeta in *. destruct (discover sample_lookup d) as [d1 [m|e]] eqn:E1; cbn [fst snd] in *; [|discriminate H].
  destruct (discover sample_lookup d1) as [d2 [m'|e]] eqn:E2; cbn [snd] in *; [|discriminate H].
  injection H as H1 H2. split; [exact H1|]. split; [exact H2|].
  refine (proj1 (pool_stays_whole _ _ _ _ _ _ _ (d1, m) (d2, m') E _ _)).
  - apply rtc_once. by eapply refresh_ok.
  - by eapply refresh_ok.
Defined.
