(* ===== verification/Prog.v ===== *)
(** * Programs with effects

    A request filter reads clocks, draws identifiers, asks limiters, verifiers
    and extensions, and may be suspended at any of these while other requests
    run.  [prog] is the tree of what it asks, so a theorem about every [trace]
    of a program holds whatever the answers are, in particular under any
    interleaving; [run] plays the program against a handler. *)

From S2P Require Export Prelude.

Section Prog.
Context {E : Type -> Type}.

Inductive prog (A : Type) : Type :=
| Ret (a : A)
| Vis {X : Type} (e : E X) (k : X -> prog A).
Arguments Ret {A} & _.
Arguments Vis {A X} _ _.

Fixpoint pbind {A B} (m : prog A) (f : A -> prog B) : prog B :=
  match m with
  | Ret a => f a
  | Vis e k => Vis e (fun x => pbind (k x) f)
  end.

Definition ask {X} (e : E X) : prog X := Vis e Ret.

(** ** Traces *)

(** A question with its answer. *)
Record event := Event { ev_type : Type; ev_ask : E ev_type; ev_answer : ev_type }.
Arguments Event {ev_type} _ _.

Fixpoint traces {A} (m : prog A) (tr : list event) (a : A) : Prop :=
  match m with
  | Ret b => tr = [] /\ a = b
  | Vis e k => exists x tr', tr = Event e x :: tr' /\ traces (k x) tr' a
  end.

Lemma traces_bind {A B} (m : prog A) (f : A -> prog B) tr b :
  traces (pbind m f) tr b <->
  exists t1 t2 a, tr = t1 ++ t2 /\ traces m t1 a /\ traces (f a) t2 b.
Proof.
  revert tr. induction m as [a|X e k IH]; intros tr; simpl.
  - split; [intros H; by exists [], tr, a|]. by intros (t1 & t2 & a' & -> & [-> ->] & H).
  - split.
    + intros (x & tr' & -> & (t1 & t2 & a & -> & H1 & H2)%IH).
      exists (Event e x :: t1), t2, a. split; [done|]. split; [|done]. by exists x, t1.
    + intros (t1 & t2 & a & -> & (x & t & -> & H1) & H2).
      exists x, (t ++ t2). split; [done|]. apply IH. by exists t, t2, a.
Qed.

Lemma traces_ask {X} (e : E X) tr x : traces (ask e) tr x <-> tr = [Event e x].
Proof.
  unfold ask. simpl. split; [by intros (y & tr' & -> & -> & ->)|]. intros ->. by exists x, [].
Qed.

(** ** Runs against a handler *)

Context {W : Type} (handle : forall X, E X -> W -> X * W).

Fixpoint run {A} (m : prog A) (w : W) : A * W :=
  match m with
  | Ret a => (a, w)
  | Vis e k => let '(x, w) := handle _ e w in run (k x) w
  end.

Lemma run_bind {A B} (m : prog A) (f : A -> prog B) w :
  run (pbind m f) w = let '(a, w') := run m w in run (f a) w'.
Proof.
  revert w. induction m as [a|X e k IH]; intros w; simpl; [done|].
  destruct (handle X e w). apply IH.
Qed.

(** What a run asks and is answered. *)
Fixpoint transcript {A} (m : prog A) (w : W) : list event :=
  match m with
  | Ret _ => []
  | Vis e k => let '(x, w) := handle _ e w in Event e x :: transcript (k x) w
  end.

Lemma run_traces {A} (m : prog A) w : traces m (transcript m w) (run m w).1.
Proof.
  revert w. induction m as [a|X e k IH]; intros w; simpl; [done|].
  destruct (handle X e w) as [x w']. by exists x, (transcript (k x) w').
Qed.

(** A relation every answer maintains, the run maintains. *)
Lemma run_invariant {A} (I : W -> Prop) (m : prog A) w :
  (forall X (e : E X) w, I w -> I (handle X e w).2) -> I w -> I (run m w).2.
Proof.
  intros Hstep. revert w. induction m as [a|X e k IH]; intros w HI; simpl; [done|].
  specialize (Hstep X e w HI). destruct (handle X e w). by apply IH.
Qed.
End Prog.
Arguments prog : clear implicits.
Arguments event : clear implicits.
Arguments Ret {E A} & _.
Arguments Vis {E A X} _ _.
Arguments Event {E ev_type} _ _.

Notation "'letP' x ':=' m 'in' k" := (pbind m (fun x => k))
  (at level 10, x pattern, m at level 100, k at level 200) : lagos_scope.

(** ** Early returns and a request's own state *)

(** A step either goes on with a value or has answered the client. *)
Inductive flow (R A : Type) := Stop (r : R) | Go (a : A).
Arguments Stop {R A} & _.
Arguments Go {R A} & _.

Section Filter.
Context {E : Type -> Type} {S R : Type}.

(** A filter's computation: it threads the request's context [S], asks [E] and
    may answer with [R] at any point. *)
Definition action (A : Type) := S -> prog E (flow R A * S).

Definition aret {A} (a : A) : action A := fun s => Ret (Go a, s).
Definition abind {A B} (m : action A) (f : A -> action B) : action B := fun s =>
  pbind (m s) (fun r => match r with
                        | (Go a, s) => f a s
                        | (Stop r, s) => Ret (Stop r, s)
                        end).
Definition answer {A} (r : R) : action A := fun s => Ret (Stop r, s).
Definition read_ctx : action S := fun s => Ret (Go s, s).
Definition update (f : S -> S) : action () := fun s => Ret (Go (), f s).
Definition lift {A} (m : prog E A) : action A := fun s => pbind m (fun a => Ret (Go a, s)).
Definition asks {X} (e : E X) : action X := lift (ask e).

(** What a filter may do from a context: a trace of events, the flow and the
    context it leaves. *)
Definition ftraces {A} (m : action A) s tr (o : flow R A) s' : Prop := traces (m s) tr (o, s').

Lemma ftraces_ret {A} (a : A) s tr o s' : ftraces (aret a) s tr o s' <-> tr = [] /\ o = Go a /\ s' = s.
Proof. unfold ftraces, aret. simpl. split; [intros [-> [= -> ->]]; done|intros (-> & -> & ->); done]. Qed.

Lemma ftraces_answer {A} r s tr (o : flow R A) s' : ftraces (answer r) s tr o s' <-> tr = [] /\ o = Stop r /\ s' = s.
Proof. unfold ftraces, answer. simpl. split; [intros [-> [= -> ->]]; done|intros (-> & -> & ->); done]. Qed.

Lemma ftraces_read_ctx s tr o s' : ftraces read_ctx s tr o s' <-> tr = [] /\ o = Go s /\ s' = s.
Proof. unfold ftraces, read_ctx. simpl. split; [intros [-> [= -> ->]]; done|intros (-> & -> & ->); done]. Qed.

Lemma ftraces_update f s tr o s' : ftraces (update f) s tr o s' <-> tr = [] /\ o = Go () /\ s' = f s.
Proof. unfold ftraces, update. simpl. split; [intros [-> [= -> ->]]; done|intros (-> & -> & ->); done]. Qed.

Lemma ftraces_asks {X} (e : E X) s tr o s' :
  ftraces (asks e) s tr o s' <-> exists x, tr = [Event e x] /\ o = Go x /\ s' = s.
Proof.
  unfold ftraces, asks, lift. rewrite traces_bind. setoid_rewrite traces_ask. split.
  - intros (t1 & t2 & x & -> & -> & [-> [= -> ->]]). by exists x.
  - intros (x & -> & -> & ->). by exists [Event e x], [], x.
Qed.

(** A sequence either stopped in its first part or went through it. *)
Lemma ftraces_bind {A B} (m : action A) (f : A -> action B) s tr o s' :
  ftraces (abind m f) s tr o s' <->
  (exists r, o = Stop r /\ ftraces m s tr (Stop r) s') \/
  (exists t1 t2 a s1, tr = t1 ++ t2 /\ ftraces m s t1 (Go a) s1 /\ ftraces (f a) s1 t2 o s').
Proof.
  unfold ftraces, abind. rewrite traces_bind. split.
  - intros (t1 & t2 & [[r|a] s1] & -> & H1 & H2).
    + destruct H2 as [-> [= -> ->]]. left. exists r. by rewrite app_nil_r.
    + right. by exists t1, t2, a, s1.
  - intros [(r & -> & H)|(t1 & t2 & a & s1 & -> & H1 & H2)].
    + exists tr, [], (Stop r, s'). by rewrite app_nil_r.
    + by exists t1, t2, (Go a, s1).
Qed.

(** ** What holds of every step

    [only P m]: whatever the answers, the events of [m] satisfy [P].
    [keeps f m]: whatever the answers, [m] leaves [f] of the context as it is. *)

Definition only {A} (P : event E -> Prop) (m : action A) : Prop :=
  forall s tr o s', ftraces m s tr o s' -> Forall P tr.
Definition keeps {A F} (f : S -> F) (m : action A) : Prop :=
  forall s tr o s', ftraces m s tr o s' -> f s' = f s.

Lemma only_quiet {A} P (m : action A) :
  (forall s tr o s', ftraces m s tr o s' -> tr = []) -> only P m.
Proof. intros H s tr o s' ->%H. constructor. Qed.

Lemma only_ret {A} P (a : A) : only P (aret a).
Proof. by apply only_quiet; intros s tr o s' [? _]%ftraces_ret. Qed.

Lemma only_answer {A} P r : only P (answer (A:=A) r).
Proof. by apply only_quiet; intros s tr o s' [? _]%ftraces_answer. Qed.

Lemma only_read_ctx P : only P read_ctx.
Proof. by apply only_quiet; intros s tr o s' [? _]%ftraces_read_ctx. Qed.

Lemma only_update P f : only P (update f).
Proof. by apply only_quiet; intros s tr o s' [? _]%ftraces_update. Qed.

Lemma only_asks {X} P (e : E X) : (forall x, P (Event e x)) -> only P (asks e).
Proof. intros H s tr o s' (x & -> & _)%ftraces_asks. by repeat constructor. Qed.

Lemma only_lift {A} (P : event E -> Prop) (m : prog E A) :
  (forall tr a, traces m tr a -> Forall P tr) -> only P (lift m).
Proof.
  intros H s tr o s'. unfold ftraces, lift. rewrite traces_bind.
  intros (t1 & t2 & a & -> & H1%H & [-> _]). by rewrite app_nil_r.
Qed.

Lemma only_bind {A B} P (m : action A) (f : A -> action B) :
  only P m -> (forall a, only P (f a)) -> only P (abind m f).
Proof.
  intros Hm Hf s tr o s' [(r & -> & H%Hm)|(t1 & t2 & a & s1 & -> & H1%Hm & H2%Hf)]%ftraces_bind; [done|].
  by apply Forall_app.
Qed.

Lemma event_not {A} P (m : action A) s t1 ev t2 o s' :
  only P m -> ~ P ev -> ~ ftraces m s (t1 ++ ev :: t2) o s'.
Proof. intros Hm Hev H%Hm. apply Forall_app in H as [_ H]. by apply Forall_inv in H. Qed.

(** An event no step of [m] makes comes from what follows [m]. *)
Lemma event_after {A B} P (m : action A) (f : A -> action B) s t1 ev t2 o s' :
  only P m -> ~ P ev -> ftraces (abind m f) s (t1 ++ ev :: t2) o s' ->
  exists ta tb a s1, t1 = ta ++ tb /\ ftraces m s ta (Go a) s1 /\ ftraces (f a) s1 (tb ++ ev :: t2) o s'.
Proof.
  intros Hm Hev [(r & _ & H%Hm)|(ta & t & a & s1 & Heq & H1 & H2)]%ftraces_bind.
  { apply Forall_app in H as [_ H]. by apply Forall_inv in H. }
  apply app_eq_inv in Heq as [(k & -> & ->)|(k & -> & Heq)]; [by exists ta, k, a, s1|].
  destruct k as [|e k]; simpl in Heq.
  - subst t. rewrite app_nil_r in H1. by exists t1, [], a, s1; rewrite app_nil_r.
  - injection Heq as <- ->. apply Hm in H1. apply Forall_app in H1 as [_ H1]. by apply Forall_inv in H1.
Qed.

(** An event nothing after [m] makes comes from [m]. *)
Lemma event_before {A B} P (m : action A) (f : A -> action B) s t1 ev t2 o s' :
  (forall a, only P (f a)) -> ~ P ev -> ftraces (abind m f) s (t1 ++ ev :: t2) o s' ->
  exists ta tb o1 s1, t2 = ta ++ tb /\ ftraces m s (t1 ++ ev :: ta) o1 s1 /\ Forall P tb.
Proof.
  intros Hf Hev [(r & -> & H)|(ta & t & a & s1 & Heq & H1 & H2)]%ftraces_bind.
  { exists t2, [], (Stop r), s'. by rewrite app_nil_r. }
  apply Hf in H2. apply app_eq_inv in Heq as [(k & -> & ->)|(k & -> & Heq)].
  { apply Forall_app in H2 as [_ H2]. by apply Forall_inv in H2. }
  destruct k as [|e k]; simpl in Heq; [subst t; by apply Forall_inv in H2|].
  injection Heq as <- ->. by exists k, t, (Go a), s1.
Qed.

(** [stops P m]: whatever the answers, [m] ends early only with [P]. *)
Definition stops {A} (P : R -> Prop) (m : action A) : Prop :=
  forall s tr r s', ftraces m s tr (Stop r) s' -> P r.

Lemma stops_ret {A} P (a : A) : stops P (aret a).
Proof. by intros s tr r s' (_ & [=] & _)%ftraces_ret. Qed.

Lemma stops_answer {A} (P : R -> Prop) r : P r -> stops P (answer (A:=A) r).
Proof. by intros H s tr r' s' (_ & [= ->] & _)%ftraces_answer. Qed.

Lemma stops_read_ctx P : stops P read_ctx.
Proof. by intros s tr r s' (_ & [=] & _)%ftraces_read_ctx. Qed.

Lemma stops_update P f : stops P (update f).
Proof. by intros s tr r s' (_ & [=] & _)%ftraces_update. Qed.

Lemma stops_lift {A} P (m : prog E A) : stops P (lift m).
Proof. intros s tr r s'. unfold ftraces, lift. rewrite traces_bind. by intros (t1 & t2 & a & _ & _ & [_ [=]]). Qed.

Lemma stops_bind {A B} P (m : action A) (k : A -> action B) :
  stops P m -> (forall a, stops P (k a)) -> stops P (abind m k).
Proof.
  intros Hm Hk s tr r s' [(r' & [= <-] & H%Hm)|(t1 & t2 & a & s1 & -> & _ & H%Hk)]%ftraces_bind; done.
Qed.

Lemma keeps_ret {A F} (f : S -> F) (a : A) : keeps f (aret a).
Proof. by intros s tr o s' (_ & _ & ->)%ftraces_ret. Qed.

Lemma keeps_answer {A F} (f : S -> F) r : keeps f (answer (A:=A) r).
Proof. by intros s tr o s' (_ & _ & ->)%ftraces_answer. Qed.

Lemma keeps_read_ctx {F} (f : S -> F) : keeps f read_ctx.
Proof. by intros s tr o s' (_ & _ & ->)%ftraces_read_ctx. Qed.

Lemma keeps_update {F} (f : S -> F) u : (forall s, f (u s) = f s) -> keeps f (update u).
Proof. by intros H s tr o s' (_ & _ & ->)%ftraces_update. Qed.

Lemma keeps_lift {A F} (f : S -> F) (m : prog E A) : keeps f (lift m).
Proof. intros s tr o s'. unfold ftraces, lift. rewrite traces_bind. by intros (t1 & t2 & a & _ & _ & [_ [= _ ->]]). Qed.

Lemma keeps_bind {A B F} (f : S -> F) (m : action A) (k : A -> action B) :
  keeps f m -> (forall a, keeps f (k a)) -> keeps f (abind m k).
Proof.
  intros Hm Hk s tr o s' [(r & -> & H%Hm)|(t1 & t2 & a & s1 & -> & H1%Hm & H2%Hk)]%ftraces_bind; congruence.
Qed.
End Filter.
Arguments action : clear implicits.

(** The bases [only] and [keeps] hold what is known of whole stages. *)
Create HintDb only.
Create HintDb keeps.
Create HintDb stops.

(** Structural proofs of [only] and [keeps]: through the binds and the case
    distinctions, down to the single steps. *)
Ltac step_only :=
  repeat first
    [ progress intros
    | apply only_ret | apply only_answer | apply only_read_ctx | apply only_update
    | solve [eauto with only nocore]
    | apply only_asks | apply only_bind | case_match ];
  try done.
Ltac step_keeps :=
  repeat first
    [ apply keeps_ret | apply keeps_answer | apply keeps_read_ctx | apply keeps_lift
    | solve [eauto with keeps nocore]
    | apply keeps_update; intros; repeat case_match; reflexivity
    | apply keeps_bind; intros | case_match ];
  try done.

Notation "'let!' x ':=' m 'in' k" := (abind m (fun x => k))
  (at level 10, x pattern, m at level 100, k at level 200) : lagos_scope.
Notation "'do!' m 'in' k" := (abind m (fun _ => k))
  (at level 10, m at level 100, k at level 200) : lagos_scope.

Ltac step_stops :=
  repeat first
    [ apply stops_ret | apply stops_read_ctx | apply stops_update | apply stops_lift
    | solve [eauto with stops nocore]
    | apply stops_bind; intros | case_match ];
  try done.

(** Take the traces of composed filters apart, step by step. *)
Ltac ftrace_step :=
  match goal with
  | H : ftraces (aret _) _ _ _ _ |- _ => apply ftraces_ret in H as (? & ? & ?)
  | H : ftraces (answer _) _ _ _ _ |- _ => apply ftraces_answer in H as (? & ? & ?)
  | H : ftraces read_ctx _ _ _ _ |- _ => apply ftraces_read_ctx in H as (? & ? & ?)
  | H : ftraces (update _) _ _ _ _ |- _ => apply ftraces_update in H as (? & ? & ?)
  | H : ftraces (asks _) _ _ _ _ |- _ => apply ftraces_asks in H as (? & ? & ? & ?)
  | H : ftraces (abind _ _) _ _ _ _ |- _ =>
      apply ftraces_bind in H as [(? & ? & ?)|(? & ? & ? & ? & ? & ? & ?)]
  end; simplify_eq.
Ltac ftrace_inv := repeat ftrace_step.
