(* ===== verification/Effects.v ===== *)
(** * What a request asks of its surroundings

    The questions the request filters put to the rest of the process, each one
    answered in one step of another component or of the outside: clocks,
    identifiers, the route table in service, the limiters, the token verifier,
    the extensions, the balancers and the circuit breakers.  [Crates] gathers
    the functions of third-party crates the filters call. *)

From S2P Require Export Prog Rejection RouteTable Identity Cors Concurrency Breaker Upstream Trace.

(** ** Third-party functions *)

Class Crates (N : Type) := {
  (** [http::HeaderValue::to_str]. *)
  to_str : list Z -> option str;
  (** The [percent_encoding] crate: [decode_utf8] and [utf8_percent_encode]. *)
  percent_decode : str -> option str;
  percent_encode : (Z -> bool) -> str -> str;
  (** [serde_json::to_vec]. *)
  to_vec : value N -> option (list Z);
  (** [base64]'s URL-safe alphabet without padding. *)
  base64url : list Z -> str;
  (** [jsonwebtoken::encode] with HS256, or the text of its error. *)
  jwt_encode : IdentityClaims -> list Z -> result str str;
  (** [url::Url::parse]. *)
  url_parse : str -> option Url;
  (** [ring]'s SHA-256. *)
  sha256 : list Z -> list Z;
  (** [ipnet::IpNet]: parsing, and [contains]. *)
  IpNet : Type;
  net_parse : str -> option IpNet;
  net_contains : IpNet -> IpAddr -> bool;
  (** [uuid::Uuid]'s [Display], on its sixteen bytes. *)
  uuid_to_string : list Z -> str;
  (** [char::escape_debug]. *)
  escape_debug : Z -> str;
}.

(** Concrete functions in their place, for the witnesses. *)
#[export] Instance sample_crates : Crates Z := {
  to_str v := if forallb (in_range 32 126) v then Some v else None;
  percent_decode s := Some (decode_escapes s);
  percent_encode := sample_encode;
  to_vec _ := Some (str_of "{}");
  base64url _ := str_of "e30";
  jwt_encode _ _ := Ok (str_of "jwt");
  url_parse _ := None;
  sha256 k := k;
  IpNet := IpAddr;
  net_parse := parse_ip_addr;
  net_contains n ip := n ==? ip;
  uuid_to_string b := write_hex b;
  escape_debug c := [c];
}.

(** ** Requests *)

(** What a session tells of its request: the request line and headers as
    [RequestHeader] holds them, and the text of the socket peer. *)
Record Request := {
  rq_method : str;
  rq_path : str;
  rq_query : option str;
  rq_headers : header_map;
  rq_client_addr : option str;
}.

(** [HeaderMap::get] and [get_all], which ignore the case of the name. *)
Definition hget_all (h : header_map) (name : str) : list (list Z) := h (to_ascii_lowercase name).
Definition hget (h : header_map) (name : str) : option (list Z) := head (hget_all h name).

(** What an extension may read of the request. *)
Record ExtensionContext (N : Type) := {
  xc_path : str;
  xc_method : str;
  xc_query : option str;
  xc_route : RouteConfig;
  xc_identity : option (Identity N);
  xc_client_headers : header_map;
}.
Arguments xc_path {N}.
Arguments xc_method {N}.
Arguments xc_query {N}.
Arguments xc_route {N}.
Arguments xc_identity {N}.
Arguments xc_client_headers {N}.

(** An upstream error as Pingora reports it: the types the gateway tells apart,
    where the error comes from, and whether a retry is allowed. *)
Inductive ErrorType :=
| ConnectTimedout | ReadTimedout | WriteTimedout | HTTPStatus (code : Z)
| ConnectError | InternalError | OtherError (name : str).
#[export] Instance ErrorType_eq_dec : EqDecision ErrorType.
Proof. solve_decision. Defined.
Inductive ErrorSource := SrcUpstream | SrcDownstream | SrcInternal | SrcUnset.
#[export] Instance ErrorSource_eq_dec : EqDecision ErrorSource.
Proof. solve_decision. Defined.
Record PError := { pe_type : ErrorType; pe_source : ErrorSource; pe_text : str; pe_retry : bool }.

(** What the gateway sets on a session of Pingora's. *)
Inductive SessionSetting :=
| ReadTimeout (d : Z) | WriteTimeout (d : Z) | TotalDrainTimeout (d : Z) | Keepalive (secs : Z)
| MinSendRate (bytes : Z).

(** ** The questions *)

Inductive gatewayE (N : Type) : Type -> Type :=
(** [uuid::Uuid::new_v4], as its sixteen bytes. *)
| NewUuid : gatewayE N (list Z)
(** [Instant::now], in nanoseconds, and the seconds since the epoch. *)
| InstantNow : gatewayE N Z
| EpochSecs : gatewayE N Z
(** A setting of the downstream session. *)
| SetSession (s : SessionSetting) : gatewayE N ()
(** [SharedRoutes::load]: the table in service. *)
| LoadTable : gatewayE N RouteTable
(** [Limiter::decide]. *)
| Decide (l : LimiterRef) (key : str) : gatewayE N RateLimit.Decision
(** [TokenVerifier::verify]. *)
| Verify (token : str) : gatewayE N (result (Identity N) AuthError)
(** The registry's admission: [get_or_init] gives the capacity it was first
    asked for, [try_acquire] a permit or none, and a permit is given back. *)
| AdmissionInit (capacity : option Z) : gatewayE N (option Z)
| TryAcquire : gatewayE N bool
| ReleasePermit : gatewayE N ()
(** [Extension::on_request] under [timeout_at]: the plan it leaves, and its
    verdict unless the deadline passed first. *)
| OnRequest (name : str) (cx : ExtensionContext N) (plan : HeaderPlan) (deadline : Z)
    : gatewayE N (HeaderPlan * option (result () (Rejection N)))
(** [InFlight::take] and the drop of a slot. *)
| TakeSlot (key : str) (max : Z) (caller : bool) : gatewayE N (option Slot)
| DropSlot (s : Slot) : gatewayE N ()
(** The circuit breaker of an upstream. *)
| BreakerAllow (upstream : str) : gatewayE N bool
| BreakerState (upstream : str) : gatewayE N State
| BreakerCancel (upstream : str) : gatewayE N ()
| BreakerSuccess (upstream : str) : gatewayE N ()
| BreakerFailure (upstream : str) : gatewayE N ()
(** [Balancer::select] of a pool, the rotation of DNS answers, and the
    resolver. *)
| ChooseBackend (upstream key : str) : gatewayE N (option Backend)
| NextDns : gatewayE N Z
| Addresses (addr : str) : gatewayE N (result (list SocketAddr) PError).
Arguments NewUuid {N}.
Arguments InstantNow {N}.
Arguments EpochSecs {N}.
Arguments SetSession {N} _.
Arguments LoadTable {N}.
Arguments Decide {N} _ _.
Arguments Verify {N} _.
Arguments AdmissionInit {N} _.
Arguments TryAcquire {N}.
Arguments ReleasePermit {N}.
Arguments OnRequest {N} _ _ _ _.
Arguments TakeSlot {N} _ _ _.
Arguments DropSlot {N} _.
Arguments BreakerAllow {N} _.
Arguments BreakerState {N} _.
Arguments BreakerCancel {N} _.
Arguments BreakerSuccess {N} _.
Arguments BreakerFailure {N} _.
Arguments ChooseBackend {N} _ _.
Arguments NextDns {N}.
Arguments Addresses {N} _.

Definition gprog N := prog (gatewayE N).
