(* ===== verification/Ext.v ===== *)
(** * The extension seam (ext.rs)

    Extensions are named by routes and run after authentication, in order,
    within a budget per hook and one for the chain, under a process-wide cap on
    chains in progress.  What an extension does is not the gateway's: it is an
    answer to the question [OnRequest]. *)

From S2P Require Export Effects.

Section Ext.
Context {N : Type} `{HN : JsonNumber N} `{HC : Crates N}.
Implicit Types (plan : HeaderPlan) (cx : ExtensionContext N).

(** ** What an extension reads *)

(** [ExtensionContext::query_param]: the first pair whose decoded key is the
    name, if its value decodes; a pair that does not decode is passed over. *)
Definition ext_query_pair (name pair : str) : option str :=
  letO kv := split_once 61 pair in
  letO key := percent_decode kv.1 in
  if key ==? name then percent_decode kv.2 else None.
Definition ext_query_param cx (name : str) : option str :=
  letO q := xc_query cx in find_map (ext_query_pair name) (split_on 38 q).

Definition client_header cx (name : str) : option str :=
  letO v := hget (xc_client_headers cx) name in to_str v.

Definition require_identity cx : result (Identity N) (Rejection N) :=
  ok_or (xc_identity cx) (forbidden "Authenticated user required" "extension_requires_identity").

(** ** The registry *)

(** The names registered. *)
Abbreviation registry := (list str).

Definition registered (reg : registry) (name : str) : bool := existsb (fun n => n ==? name) reg.

Definition missing (reg : registry) (referenced : list str) : list str :=
  dedup (sort_by str_leb (List.filter (fun n => negb (registered reg n)) referenced)).

Definition extension_names (t : RouteTable) : list str := concat (map r_extensions (table_routes t)).

Definition validate (reg : registry) (t : RouteTable) : result () str :=
  let m := missing reg (extension_names t) in
  if m ==? [] then Ok tt
  else Err ("routes reference extensions that are not registered: " ++ join ", " m).

(** [tokio::sync::Semaphore::MAX_PERMITS]. *)
Definition MAX_PERMITS : Z := usize_max / 8.

Definition timed_out (reason : str) : Rejection N := unavailable "Policy execution timed out" reason.

(** ** The chain *)

(** The hooks of a chain, from the one at the front of the list. *)
Fixpoint run_hooks (reg : registry) cx (hook_budget chain_deadline : Z) (names : list str) plan
  : gprog N (result HeaderPlan (Rejection N)) :=
  match names with
  | [] => Ret (Ok plan)
  | name :: rest =>
      if negb (registered reg name) then
        Ret (Err (unavailable "Gateway misconfigured" ("missing_extension_" ++ name)))
      else
        letP hook_start := ask InstantNow in
        if chain_deadline <=? hook_start then Ret (Err (timed_out "extension_chain_timeout"))
        else
          let hook_deadline := default chain_deadline (instant_checked_add hook_start hook_budget) in
          let deadline := Z.min hook_deadline chain_deadline in
          let reason := if chain_deadline <=? hook_deadline then str_of "extension_chain_timeout"
                        else str_of "extension_timeout" in
          letP outcome := ask (OnRequest name cx plan deadline) in
          letP finished := ask InstantNow in
          let expired := deadline <=? finished in
          match outcome.2 with
          | Some r =>
              if expired then Ret (Err (timed_out reason))
              else match r with
                   | Ok _ => run_hooks reg cx hook_budget chain_deadline rest outcome.1
                   | Err rej => Ret (Err rej)
                   end
          | None => Ret (Err (timed_out reason))
          end
  end.

Definition run_started (reg : registry) cx (hook_budget chain_budget : Z) plan
  : gprog N (result HeaderPlan (Rejection N)) :=
  letP started := ask InstantNow in
  match instant_checked_add started chain_budget with
  | None => Ret (Err (unavailable "Invalid policy execution budget" "extension_chain_timeout"))
  | Some chain_deadline =>
      run_hooks reg cx hook_budget chain_deadline (r_extensions (xc_route cx)) plan
  end.

(** [run_chain]: the permit is held while the hooks run and dropped on every
    way out. *)
Definition run_chain (reg : registry) cx (hook_budget chain_budget : Z) (max_inflight : option Z) plan
  : gprog N (result HeaderPlan (Rejection N)) :=
  if r_extensions (xc_route cx) ==? [] then Ret (Ok plan)
  else if (match max_inflight with Some n => (n =? 0) || (MAX_PERMITS <? n) | None => false end) then
    Ret (Err (unavailable "Invalid policy execution capacity" "extension_capacity"))
  else
    letP configured := ask (AdmissionInit max_inflight) in
    if negb (configured ==? max_inflight) then
      Ret (Err (unavailable "Conflicting policy execution capacity" "extension_capacity"))
    else
      match configured with
      | None => run_started reg cx hook_budget chain_budget plan
      | Some _ =>
          letP permit := (ask TryAcquire : gprog N bool) in
          if permit then
            letP outcome := run_started reg cx hook_budget chain_budget plan in
            letP _ := (ask ReleasePermit : gprog N ()) in
            Ret outcome
          else Ret (Err (unavailable "Policy execution is at capacity" "extension_capacity"))
      end.

(** ** Reading a trace *)

(** A hook that ran: its name, the plan it was given, its deadline, and what it
    answered. *)
Record hook_run := {
  hr_name : str;
  hr_given : HeaderPlan;
  hr_deadline : Z;
  hr_left : HeaderPlan;
  hr_verdict : option (result () (Rejection N));
}.

Definition hook_of (ev : event (gatewayE N)) : option hook_run :=
  match ev with
  | Event e x =>
      match e in gatewayE _ T return T -> option hook_run with
      | OnRequest name _ plan deadline => fun x =>
          Some {| hr_name := name; hr_given := plan; hr_deadline := deadline; hr_left := x.1;
                  hr_verdict := x.2 |}
      | _ => fun _ => None
      end x
  end.
Definition hooks (tr : list (event (gatewayE N))) : list hook_run := omap hook_of tr.

(** One for a permit taken, minus one for a permit given back. *)
Definition permit_of (ev : event (gatewayE N)) : Z :=
  match ev with
  | Event e x =>
      match e in gatewayE _ T return T -> Z with
      | TryAcquire => fun x => if x : bool then 1 else 0
      | ReleasePermit => fun _ => -1
      | _ => fun _ => 0
      end x
  end.
Definition permits (tr : list (event (gatewayE N))) : Z := foldr (fun ev n => permit_of ev + n) 0 tr.

Lemma permits_app t1 t2 : permits (t1 ++ t2) = permits t1 + permits t2.
Proof using. induction t1 as [|ev t1 IH]; simpl; [done|]. unfold permits in *. simpl. lia. Qed.

Lemma hooks_app t1 t2 : hooks (t1 ++ t2) = hooks t1 ++ hooks t2.
Proof using. apply omap_app. Qed.

(** The readings of the monotonic clock. *)
Definition instant_of (ev : event (gatewayE N)) : option Z :=
  match ev with
  | Event e x =>
      match e in gatewayE _ T return T -> option Z with
      | InstantNow => fun x => Some x
      | _ => fun _ => None
      end x
  end.
Definition instants (tr : list (event (gatewayE N))) : list Z := omap instant_of tr.

(** Each hook is given the plan the one before it left. *)
Fixpoint threaded (plan : HeaderPlan) (hs : list hook_run) (last : HeaderPlan) : Prop :=
  match hs with
  | [] => last = plan
  | h :: rest => hr_given h = plan /\ threaded (hr_left h) rest last
  end.

(** What a chain asks. *)
Definition hook_event (ev : event (gatewayE N)) : Prop :=
  match ev_ask ev with InstantNow | OnRequest _ _ _ _ => True | _ => False end.
Definition chain_event (ev : event (gatewayE N)) : Prop :=
  match ev_ask ev with
  | InstantNow | OnRequest _ _ _ _ | AdmissionInit _ | TryAcquire | ReleasePermit => True
  | _ => False
  end.

Lemma hook_event_permit ev : hook_event ev -> permit_of ev = 0.
Proof using. destruct ev as [T e x]. unfold hook_event. cbn. by destruct e. Qed.

Lemma hook_event_chain ev : hook_event ev -> chain_event ev.
Proof using. destruct ev as [T e x]. unfold hook_event, chain_event. cbn. by destruct e. Qed.

Lemma run_hooks_events reg cx hb cd names plan tr o :
  traces (run_hooks reg cx hb cd names plan) tr o -> Forall hook_event tr.
Proof using.
  revert plan tr. induction names as [|name names IH]; intros plan tr; cbn [run_hooks].
  - by intros [-> _].
  - destruct (negb _); [by intros [-> _]|]. cbn. intros (start & t1 & -> & H).
    constructor; [done|]. destruct (cd <=? start); cbn in H; [by destruct H as [-> _]|].
    destruct H as ((left & verdict) & t2 & -> & fin & t3 & -> & H). cbn in H.
    do 2 (constructor; [done|]). destruct verdict as [r|]; [|by destruct H as [-> _]].
    destruct (_ <=? fin); [by destruct H as [-> _]|].
    destruct r; [by apply IH in H|by destruct H as [-> _]].
Qed.

Lemma run_started_events reg cx hb cb plan tr o :
  traces (run_started reg cx hb cb plan) tr o -> Forall hook_event tr.
Proof using.
  intros (t0 & t' & -> & H). constructor; [done|].
  cbn [pbind] in H. destruct (instant_checked_add t0 cb); [by apply run_hooks_events in H|by destruct H as [-> _]].
Qed.

Lemma run_chain_events reg cx hb cb max plan tr o :
  traces (run_chain reg cx hb cb max plan) tr o -> Forall chain_event tr.
Proof using.
  assert (forall t o', traces (run_started reg cx hb cb plan) t o' -> Forall chain_event t) as Hs.
  { intros t o' H%run_started_events. eapply List.Forall_impl; [apply hook_event_chain|exact H]. }
  unfold run_chain. case_bool_decide as Hnil; [by intros [-> _]|].
  destruct (match max with Some n => _ | None => _ end); [by intros [-> _]|].
  intros (configured & t1 & -> & H). constructor; [done|]. cbn -[run_started] in H.
  destruct (negb _); [by destruct H as [-> _]|]. destruct configured as [n|]; [|by eapply Hs].
  destruct H as (permit & t2 & -> & H). constructor; [done|]. destruct permit; [|by destruct H as [-> _]].
  cbn -[run_started] in H. apply traces_bind in H as (t3 & t4 & r & -> & H3%Hs & (u & t5 & -> & -> & _)).
  apply Forall_app. split; [done|]. by repeat constructor.
Qed.

Lemma run_started_permits reg cx hb cb plan tr o :
  traces (run_started reg cx hb cb plan) tr o -> Forall (fun ev => permit_of ev = 0) tr.
Proof using. intros H%run_started_events. eapply List.Forall_impl; [apply hook_event_permit|exact H]. Qed.

Lemma permits_zero tr : Forall (fun ev => permit_of ev = 0) tr -> permits tr = 0.
Proof using. induction 1 as [|ev tr H _ IH]; [done|]. unfold permits in *. cbn. lia. Qed.

Lemma run_hooks_ok reg cx hb cd names plan tr last :
  traces (run_hooks reg cx hb cd names plan) tr (Ok last) ->
  map hr_name (hooks tr) = names /\ threaded plan (hooks tr) last /\
  Forall (fun h => hr_verdict h = Some (Ok tt) /\ registered reg (hr_name h) = true /\ hr_deadline h <= cd)
    (hooks tr) /\
  Forall (fun t => t < cd) (instants tr).
Proof using.
  revert plan tr. induction names as [|name names IH]; intros plan tr; cbn [run_hooks].
  - intros [-> [= ->]]. repeat constructor.
  - destruct (registered reg name) eqn:Er; cbn; [|by intros [_ [=]]].
    intros (start & t1 & -> & H).
    destruct (Z.leb_spec cd start); cbn in H; [by destruct H as [_ [=]]|].
    destruct H as ((left & verdict) & t2 & -> & fin & t3 & -> & H). cbn in H.
    destruct verdict as [[[]|rej]|]; [|by destruct (_ <=? fin), H as [_ [=]]|by destruct H as [_ [=]]].
    destruct (_ <=? fin) eqn:Ef in H; [by destruct H as [_ [=]]|]. apply Z.leb_gt in Ef.
    apply IH in H as (Hn & Ht & Hf & Hi). cbn. unfold hooks, instants in *. cbn.
    split_and!.
    + by rewrite Hn.
    + done.
    + done.
    + constructor; [|done]. cbn. split_and!; [done..|lia].
    + do 2 (constructor; [lia|]). done.
Qed.

(** A refusal no extension made is the runner's own: 503. *)
Lemma run_hooks_own_refusal reg cx hb cd names plan tr rej :
  traces (run_hooks reg cx hb cd names plan) tr (Err rej) -> hooks tr = [] -> rej_status rej = 503.
Proof using.
  destruct names as [|name names]; cbn [run_hooks]; [by intros [_ [=]]|].
  destruct (negb _); [by intros [_ [= ->]]|]. cbn. intros (start & t1 & -> & H).
  destruct (cd <=? start); cbn in H; [by destruct H as [_ [= ->]]|].
  by destruct H as ((left & verdict) & t2 & -> & _).
Qed.

Lemma run_started_own_refusal reg cx hb cb plan tr rej :
  traces (run_started reg cx hb cb plan) tr (Err rej) -> hooks tr = [] -> rej_status rej = 503.
Proof using.
  intros (t0 & t' & -> & H). cbn [pbind] in H.
  destruct (instant_checked_add t0 cb); [|by destruct H as [_ [= ->]]].
  intros Hn. by eapply run_hooks_own_refusal.
Qed.

Lemma run_chain_own_refusal reg cx hb cb max plan tr rej :
  traces (run_chain reg cx hb cb max plan) tr (Err rej) -> hooks tr = [] -> rej_status rej = 503.
Proof using.
  unfold run_chain. case_bool_decide as Hnil; [by intros [_ [=]]|].
  destruct (match max with Some n => _ | None => _ end); [by intros [_ [= ->]]|].
  intros (configured & t1 & -> & H). cbn -[run_started] in H.
  destruct (negb _); [by destruct H as [_ [= ->]]|]. destruct configured as [n|].
  - destruct H as (permit & t2 & -> & H). destruct permit; [|by destruct H as [_ [= ->]]].
    cbn -[run_started] in H. apply traces_bind in H as (t3 & t4 & r & -> & H3 & (u & t5 & -> & -> & <-)).
    intros Hn. cbn in Hn. fold (hooks (t3 ++ [Event ReleasePermit u])) in Hn. rewrite hooks_app in Hn.
    apply app_eq_nil in Hn as [Hn _]. by eapply run_started_own_refusal.
  - intros Hn. by eapply run_started_own_refusal.
Qed.

(** A chain that ends well ran every extension of the route. *)
Lemma run_chain_ok reg cx hook_budget chain_budget max_inflight plan tr last
  (Hok : traces (run_chain reg cx hook_budget chain_budget max_inflight plan) tr (Ok last)) :
  map hr_name (hooks tr) = r_extensions (xc_route cx) /\ threaded plan (hooks tr) last /\
  Forall (fun h => hr_verdict h = Some (Ok tt) /\ registered reg (hr_name h) = true) (hooks tr) /\
  (r_extensions (xc_route cx) <> [] -> exists t0 later, instants tr = t0 :: later /\
     Forall (fun t => t < t0 + chain_budget) later).
Proof using.
  unfold run_chain in Hok. case_bool_decide as Hnil.
  { destruct Hok as [-> [= <-]]. rewrite Hnil. repeat constructor. by intros H. }
  destruct (match max_inflight with Some n => _ | None => _ end); [by destruct Hok as [_ [=]]|].
  cbn -[run_started] in Hok. destruct Hok as (configured & t1 & -> & H).
  destruct (negb _); [by destruct H as [_ [=]]|].
  assert (forall t, traces (run_started reg cx hook_budget chain_budget plan) t (Ok last) ->
    map hr_name (hooks t) = r_extensions (xc_route cx) /\ threaded plan (hooks t) last /\
    Forall (fun h => hr_verdict h = Some (Ok tt) /\ registered reg (hr_name h) = true) (hooks t) /\
    exists t0 later, instants t = t0 :: later /\ Forall (fun x => x < t0 + chain_budget) later) as Hrun.
  { clear. unfold run_started. intros t (t0 & t' & -> & H). cbn [pbind] in H. unfold instant_checked_add in H. destruct (_ <=? instant_max); [|by destruct H as [_ [=]]].
    apply run_hooks_ok in H as (Hn & Ht & Hf & Hi). split_and!; [done..| |].
    - eapply List.Forall_impl; [|exact Hf]. cbn. tauto.
    - exists t0, (instants t'). split; [reflexivity|]. exact Hi. }
  destruct configured as [c|].
  - destruct H as (permit & t2 & -> & H). destruct permit; [|by destruct H as [_ [=]]].
    cbn -[run_started] in H. apply traces_bind in H as (t3 & t4 & o & -> & H3 & H4). cbn in H4.
    destruct H4 as (u & t5 & -> & -> & <-). apply Hrun in H3 as (Hn & Ht & Hf & t0 & later & Hi & Hb).
    unfold hooks, instants in *. cbn. rewrite !omap_app. cbn. rewrite !app_nil_r.
    split_and!; [done..|]. intros _. by exists t0, later.
  - apply Hrun in H as (Hn & Ht & Hf & t0 & later & Hi & Hb).
    unfold hooks, instants in *. cbn. split_and!; [done..|]. intros _. by exists t0, later.
Qed.

(** ** Theorems *)

(** No extension is skipped: a chain ends well only if every extension the
    route names is registered and ran, in the order the route gives, each one
    on the plan the one before left, each answered yes, and, counting from the
    first reading of the clock, the last answer came within the chain's
    budget. *)
Lemma extensions_all_run reg cx hook_budget chain_budget max_inflight plan tr last
  (Hok : traces (run_chain reg cx hook_budget chain_budget max_inflight plan) tr (Ok last)) :
  map hr_name (hooks tr) = r_extensions (xc_route cx) /\ threaded plan (hooks tr) last /\
  Forall (fun h => hr_verdict h = Some (Ok tt) /\ registered reg (hr_name h) = true) (hooks tr) /\
  (r_extensions (xc_route cx) <> [] -> exists t0 later, instants tr = t0 :: later /\
     Forall (fun t => t < t0 + chain_budget) later).
Proof using. exact (run_chain_ok _ _ _ _ _ _ _ _ Hok). Qed.

(** No chain leaks or invents capacity: whether it ends well, is refused by
    an extension, times out or finds one missing, a chain gives back exactly
    the permits it took, at most one. *)
Lemma permits_returned reg cx hook_budget chain_budget max_inflight plan tr o
  (Hrun : traces (run_chain reg cx hook_budget chain_budget max_inflight plan) tr o) :
  permits tr = 0 /\ forall t1 t2, tr = t1 ++ t2 -> 0 <= permits t1 <= 1.
Proof using.
  assert (Forall (fun ev => permit_of ev = 0) tr ->
    permits tr = 0 /\ forall t1 t2, tr = t1 ++ t2 -> 0 <= permits t1 <= 1) as Hquiet.
  { intros H. split; [by apply permits_zero|]. intros t1 t2 ->.
    apply Forall_app in H as [H _]. rewrite (permits_zero _ H). lia. }
  unfold run_chain in Hrun. case_bool_decide; [destruct Hrun as [-> _]; by apply Hquiet|].
  destruct (match max_inflight with Some n => _ | None => _ end); [destruct Hrun as [-> _]; by apply Hquiet|].
  destruct Hrun as (configured & tr1 & -> & Hc).
  cbn -[run_started] in Hc. destruct (negb _); [destruct Hc as [-> _]; apply Hquiet; by constructor|].
  destruct configured as [c|]; [|apply Hquiet; constructor; [done|]; by eapply run_started_permits].
  destruct Hc as (permit & tr2 & -> & Hc).
  destruct permit; [|destruct Hc as [-> _]; apply Hquiet; by repeat constructor].
  cbn -[run_started] in Hc. apply traces_bind in Hc as (t3 & t4 & r & -> & H3%run_started_permits & (u & t5 & -> & -> & ->)).
  clear Hquiet. split.
  - unfold permits. cbn. fold (permits (t3 ++ [Event ReleasePermit u])). rewrite permits_app, (permits_zero _ H3). done.
  - intros [|e1 [|e2 t1]] t2; [cbn; lia|intros [= <- _]; cbn; lia|]. intros [= <- <- Hk].
    unfold permits. cbn. fold (permits t1).
    apply app_eq_inv in Hk as [(k & -> & _)|(k & -> & Hk)].
    + apply Forall_app in H3 as [H3 _]. rewrite (permits_zero _ H3). lia.
    + rewrite permits_app, (permits_zero _ H3). destruct k as [|e3 k]; [cbn; lia|].
      injection Hk as <- Hk. symmetry in Hk. apply app_eq_nil in Hk as [-> _]. cbn. lia.
Qed.


End Ext.
Arguments hook_run : clear implicits.

(** ** Witnesses *)

(** A route with two extensions, and the context of a request to it. *)
Definition extended_route : RouteConfig :=
  let r := sample_route "users" in
  {| r_id := r_id r; r_host := r_host r; r_hosts := r_hosts r; r_prefix := r_prefix r;
     r_upstream := r_upstream r; r_methods := r_methods r; r_sse := r_sse r;
     r_strip_prefix := r_strip_prefix r; r_enabled := r_enabled r; r_client_key := r_client_key r;
     r_bind := r_bind r; r_bindings := r_bindings r; r_cache := r_cache r;
     r_cache_authenticated := r_cache_authenticated r; r_retry := r_retry r;
     r_retry_policy := r_retry_policy r; r_rate_limit := r_rate_limit r; r_limiter := r_limiter r;
     r_concurrency := r_concurrency r; r_extensions := ["tenant"; "audit"]; r_auth := r_auth r;
     r_policy_origins := r_policy_origins r |}.
Definition sample_xc : ExtensionContext Z :=
  {| xc_path := "users/1"; xc_method := "GET"; xc_query := None; xc_route := extended_route;
     xc_identity := None; xc_client_headers := fun _ => [] |}.
Definition tenant_plan : HeaderPlan := plan_set "x-tenant" "acme" plan_new.

Definition sample_chain := run_chain ["audit"; "tenant"] sample_xc (from_secs 2) (from_secs 5) (Some 1) plan_new.
Definition sample_chain_trace : list (event (gatewayE Z)) :=
  [Event (AdmissionInit (Some 1)) (Some 1); Event TryAcquire true; Event InstantNow 0; Event InstantNow 1;
   Event (OnRequest "tenant" sample_xc plan_new (1 + from_secs 2)) (tenant_plan, Some (Ok tt));
   Event InstantNow 2; Event InstantNow 3;
   Event (OnRequest "audit" sample_xc tenant_plan (3 + from_secs 2)) (tenant_plan, Some (Ok tt));
   Event InstantNow 4; Event ReleasePermit tt].

Lemma sample_chain_runs : traces sample_chain sample_chain_trace (Ok tenant_plan).
Proof.
  unfold sample_chain, sample_chain_trace, run_chain, run_started.
  repeat (cbn -[from_secs instant_max Z.leb]; first [split; reflexivity | eexists _, _; split; [reflexivity|]]).
Qed.

Lemma extensions_all_run_witness :
  map hr_name (hooks sample_chain_trace) = [str_of "tenant"; str_of "audit"].
Proof. refine (proj1 (extensions_all_run _ _ _ _ _ _ _ _ sample_chain_runs)). Defined.

Lemma permits_returned_witness : permits sample_chain_trace = 0.
Proof. refine (proj1 (permits_returned _ _ _ _ _ _ _ _ sample_chain_runs)). Defined.
