(* ===== verification/Gateway.v ===== *)
(** * The configuration document and what is resolved from it (config/mod.rs)

    [GatewayConfig] is the parsed document and [ResolvedConfig] what the request
    path reads: the document with everything validated and precomputed.  This
    file holds the two records and the decisions the request path asks of the
    resolved configuration; the validation is in Resolve.v. *)

From S2P Require Export Effects F64.

Record TracingConfig := { tc_otlp : option str; tc_sample_ratio : f64 }.
Record MetricsConfig := { mt_listen : str; mt_pool_sample_interval : Z }.
Record ObservabilityConfig := { ob_metrics : option MetricsConfig; ob_tracing : option TracingConfig }.

Record RoutesConfig := {
  rc_file : option str;
  rc_reload : Z;
  rc_internal : list str;
  rc_machine : list RouteConfig;
  rc_public : list RouteConfig;
  rc_optional : list RouteConfig;
  rc_authenticated : list RouteConfig;
}.

Definition groups (c : RoutesConfig) : RouteGroups :=
  {| g_internal := rc_internal c; g_machine := rc_machine c; g_public := rc_public c;
     g_optional := rc_optional c; g_authenticated := rc_authenticated c |}.

Definition is_nil {A} (l : list A) : bool := match l with [] => true | _ => false end.

Definition is_inline_empty (c : RoutesConfig) : bool :=
  is_nil (rc_internal c) && is_nil (rc_machine c) && is_nil (rc_public c) && is_nil (rc_optional c)
  && is_nil (rc_authenticated c).

Record GatewayConfig := {
  gc_defaults : RouteDefaults;
  gc_server : ServerConfig;
  gc_timeouts : Timeouts;
  gc_limits : Limits;
  gc_upstreams : list (str * UpstreamConfig);  (* a BTreeMap, in key order *)
  gc_auth : AuthConfig;
  gc_inject : InjectConfig;
  gc_reject : RejectConfig;
  gc_forward : ForwardConfig;
  gc_identity : IdentityConfig;
  gc_routes : RoutesConfig;
  gc_observability : ObservabilityConfig;
  gc_dns : DnsConfig;
  gc_cors : option CorsConfig;
  gc_cache : option CacheConfig;
  gc_shared_counters : option SharedCountersConfig;
}.

(** A client key by its identifier and the digest of its secret. *)
Record ClientKey := { key_id : str; key_digest : list Z }.

Section Resolved.
Context {N : Type} `{HC : Crates N}.

Record ResolvedConfig := {
  raw : GatewayConfig;
  trusted_proxy_ips : list IpNet;
  upstreams : gmap str UpstreamConfig;
  injected_headers : list (str * str);
  firebase_project_ids : list str;
  identity_secret : option (list Z);
  machine_secret : option str;
  machine_injected_headers : list (str * str);
  client_key_header : option str;
  client_key_forward_as : option str;
  client_keys : list ClientKey;
  client_key_exempt : list str;
  client_key_exempt_groups : list str;
  base_paths : list str;
  cors : option Cors;
  cookie_protection : option CookieProtection;
  referenced_env : list str;
  defaulted_env : list str;
  placeheld_env : list str;
}.

(** ** Client keys *)

Definition digest_of (key : list Z) : list Z := sha256 key.

(** The comparison takes the same time whatever differs; its answer is this. *)
Definition key_matches (k : ClientKey) (presented_digest : list Z) : bool := presented_digest ==? key_digest k.

Inductive ClientKeyExemption := ExemptRoute | ExemptPrefix (p : str) | ExemptGroup (g : str).
Inductive ClientKeyRule := RuleOff | RuleRequired | RuleExempt (e : ClientKeyExemption).

#[export] Instance ClientKeyExemption_eq_dec : EqDecision ClientKeyExemption.
Proof using. solve_decision. Defined.
#[export] Instance ClientKeyRule_eq_dec : EqDecision ClientKeyRule.
Proof using. solve_decision. Defined.

Definition exemption_describe (e : ClientKeyExemption) : str :=
  match e with
  | ExemptRoute => "client_key: false on the route"
  | ExemptPrefix p => "under auth.client_keys.exempt `/" ++ p ++ "`"
  | ExemptGroup g => "group `" ++ g ++ "` is in auth.client_keys.exempt_groups"
  end.

Definition client_key_rule (c : ResolvedConfig) (route : RouteConfig) (path : str) : ClientKeyRule :=
  if (client_key_header c ==? None) || is_machine (r_auth route) then RuleOff
  else if r_client_key route ==? Some false then RuleExempt ExemptRoute
  else
    let path := normalize_proxy_path path in
    match List.find (fun p => under_prefix path p) (client_key_exempt c) with
    | Some prefix => RuleExempt (ExemptPrefix prefix)
    | None =>
        let group := group (r_auth route) in
        if existsb (fun g => g ==? group) (client_key_exempt_groups c)
        then RuleExempt (ExemptGroup group)
        else RuleRequired
    end.

(** ** Trusted proxies *)

Definition trusted_proxy_depth (c : ResolvedConfig) (peer : option str) (configured : nat) : nat :=
  match (letO p := peer in parse_ip_addr p) with
  | None => 0%nat
  | Some ip => if existsb (fun range => net_contains range ip) (trusted_proxy_ips c) then configured else 0%nat
  end.
End Resolved.
Arguments ResolvedConfig N {HC}.
