(* ===== verification/Resolve.v ===== *)
(** * Validating the configuration (config/mod.rs)

    [resolve_config] turns a parsed document into the [ResolvedConfig] of
    Gateway.v or the first reason why not; [validate_table] checks a route
    table against it, at startup and on every reload.  Both are all or nothing:
    a document or table is used only if every check passes. *)

From S2P Require Export Gateway Interpolate.
From Stdlib Require Import Sorted.

(** ** Checks *)

(** [if bad { return Err(msg) }]. *)
Definition refuse_if {E} (bad : bool) (msg : E) : result () E := if bad then Err msg else Ok tt.

(** A loop whose body may return an error. *)
Fixpoint for_each {A E} (f : A -> result () E) (l : list A) : result () E :=
  match l with
  | [] => Ok tt
  | a :: rest => let? _ := f a in for_each f rest
  end.

Lemma refuse_if_Ok {E} bad (msg : E) u : refuse_if bad msg = Ok u <-> bad = false.
Proof. destruct bad, u; split; done. Qed.

Lemma for_each_Ok {A E} (f : A -> result () E) l u : for_each f l = Ok u <-> forall a, a ∈ l -> f a = Ok tt.
Proof.
  destruct u. induction l as [|a l IH]; simpl.
  - split; [intros _ x []%elem_of_nil|done].
  - rewrite rbind_Ok. split.
    + intros ([] & Ha & Hl) x [->|Hx]%elem_of_cons; [done|by apply IH].
    + intros H. exists tt. split; [apply H; by left|]. apply IH. intros x Hx. apply H. by right.
Qed.

(** ** Suggestions *)

(** One row of the table: the costs for one more character [ca] of the first
    name, cell by cell from those of the row before. *)
Definition next_row (i : Z) (ca : Z) (b : list Z) (prev : list Z) : list Z :=
  fold_left (fun cur jc =>
      let '(j, cb) := jc in
      let substitute := default usize_max (prev !! (j : nat)) in
      let delete := default usize_max (prev !! S j) in
      let insert := default usize_max (cur !! j) in
      let cost := if ca =? cb then 0 else 1 in
      cur ++ [Z.min (Z.min (sat_add usize_max substitute cost) (sat_add usize_max delete 1))
                (sat_add usize_max insert 1)])
    (imap pair b) [sat_add usize_max i 1].

Fixpoint distance_rows (i : Z) (a b : list Z) (prev : list Z) : list Z :=
  match a with
  | [] => prev
  | ca :: a => distance_rows (i + 1) a b (next_row i ca b prev)
  end.

Definition edit_distance (a b : str) : Z :=
  let b := chars b in
  default 0 (list.last (distance_rows 0 (chars a) b (map Z.of_nat (seq 0 (S (length b)))))).

(** [min_by_key]: the first of the least. *)
Fixpoint min_by_key {A} (key : A -> Z) (l : list A) : option A :=
  match l with
  | [] => None
  | a :: rest => match min_by_key key rest with
                 | Some b => if key b <? key a then Some b else Some a
                 | None => Some a
                 end
  end.

Definition close_enough (name : str) (dk : Z * str) : bool :=
  dk.1 <=? Z.min 3 (Z.max (Z.of_nat (length dk.2)) (Z.of_nat (length name)) / 2 + 1).

Definition did_you_mean (name : str) (known : list str) : option str :=
  if (64 <? length name)%nat then None
  else snd <$> min_by_key fst
         (List.filter (close_enough name)
            (map (fun k => (edit_distance name k, k))
               (List.filter (fun k => (length k <=? 64)%nat) known))).

Definition suggestion (name : str) (known : list str) : str :=
  match did_you_mean name known with
  | Some k => ". Did you mean `" ++ k ++ "`?"
  | None => []
  end.

(** ** Names and algorithms *)

(** [u8::is_ascii_graphic]. *)
Definition is_cookie_name (name : str) : bool :=
  negb (name ==? [])
  && forallb (fun b => in_range 33 126 b
                       && negb (existsb (Z.eqb b) [40; 41; 60; 62; 64; 44; 59; 58; 92; 34; 47; 91; 93; 63; 61; 123; 125]))
       name.

Definition ALGORITHMS : list str :=
  ["RS256"; "RS384"; "RS512"; "ES256"; "ES384"; "PS256"; "PS384"; "PS512"; "EDDSA"].

(** The verification algorithm of a name, by its upper-case spelling. *)
Definition parse_algorithm (name : str) : option str :=
  let n := to_ascii_uppercase name in
  if existsb (fun a => a ==? n) ALGORITHMS then Some n else None.

Definition RESERVED_CLIENT_KEY_HEADERS : list str :=
  ["authorization"; "cookie"; "host"; "x-forwarded-for"; "x-forwarded-proto"; "x-forwarded-host";
   "forwarded"; "x-real-ip"; "x-request-id"; "traceparent"; "tracestate"; "content-length";
   "content-type"; "transfer-encoding"; "connection"; "keep-alive"; "proxy-connection"; "te";
   "trailer"; "upgrade"; "expect"].

Definition EXEMPTIBLE_GROUPS : list str := ["public"; "optional"; "authenticated"].
Definition MIN_CLIENT_KEY_LEN : Z := 16.

Definition lower_pairs (m : list (str * str)) : list (str * str) :=
  map (fun kv => (to_ascii_lowercase kv.1, kv.2)) m.

Definition validate_token_cookies (auth : AuthConfig) : result () str :=
  if au_token_cookies auth ==? [] then Ok tt
  else
    let? _ := refuse_if (is_nil (au_jwt auth) && match au_firebase auth with None => true | _ => false end)
      (str_of "auth.token_cookies is set but no auth.jwt or auth.firebase verifies tokens") in
    let fix go (seen names : list str) : result () str :=
      match names with
      | [] => Ok tt
      | name :: rest =>
          let? _ := refuse_if (negb (is_cookie_name name))
            ("auth.token_cookies: `" ++ name ++ "` is not a valid cookie name") in
          let? _ := refuse_if (existsb (fun s => s ==? name) seen)
            ("auth.token_cookies: `" ++ name ++ "` is listed twice") in
          go (name :: seen) rest
      end in
    go [] (au_token_cookies auth).

(** Every header the gateway itself writes, in lower case. *)
Definition gateway_owned_headers (c : GatewayConfig) : list str :=
  let id := gc_identity c in
  let machine := match au_machine (gc_auth c) with Some m => mc_headers m | None => [] end in
  let token := match ic_token id with Some t => [it_header t] | None => [] end in
  dedup (sort_by str_leb (map (fun h => to_ascii_lowercase (trim h))
    ([ic_subject_header id; ic_issuer_header id; ic_claims_header id]
     ++ map fst (ic_claims id) ++ token ++ map fst (in_headers (gc_inject c))
     ++ map fst (in_machine (gc_inject c)) ++ machine))).

Section Resolve.
Context {N : Type} `{HC : Crates N}.
(** [http::Uri]'s parser and [http::HeaderName::from_bytes]. *)
Context (parse_uri : str -> result Uri str) (header_name_ok : str -> bool).
(** [Display] of an [f64]. *)
Context (show_f64 : f64 -> str).

(** ** Client keys *)

Record ResolvedClientKeys := {
  rk_header : str;
  rk_forward_as : option str;
  rk_keys : list ClientKey;
  rk_exempt : list str;
  rk_exempt_groups : list str;
}.

Definition client_header_name (owned : list str) (field rawname : str) : result str str :=
  let name := to_ascii_lowercase (trim rawname) in
  let? _ := refuse_if (negb (header_name_ok name))
    ("auth.client_keys." ++ field ++ ": `" ++ rawname ++ "` is not a valid header name") in
  let? _ := refuse_if (existsb (fun h => h ==? name) RESERVED_CLIENT_KEY_HEADERS)
    ("auth.client_keys." ++ field ++ ": `" ++ name ++ "` is a header the gateway reads or sets "
     ++ "itself; use a dedicated name such as `x-client-key`") in
  let? _ := refuse_if (existsb (fun h => h ==? name) owned)
    ("auth.client_keys." ++ field ++ ": `" ++ name ++ "` is already an identity, injected or machine "
     ++ "header in this configuration; sharing it would let a client key overwrite a "
     ++ "verified value, or be overwritten by one") in
  Ok name.

Definition key_id_ok (id : str) : bool :=
  negb (id ==? [])
  && forallb (fun b => is_ascii_alphanumeric b || (b =? 45) || (b =? 95) || (b =? 46)) id.

(** The keys one by one, after those already accepted. *)
Fixpoint resolve_keys (keys : list ClientKey) (pairs : list (str * str)) : result (list ClientKey) str :=
  match pairs with
  | [] => Ok keys
  | (id, secret) :: rest =>
      let? _ := refuse_if (negb (key_id_ok id))
        ("auth.client_keys.keys: id `" ++ id ++ "` must be non-empty and use only letters, "
         ++ "digits, `-`, `_` and `.`") in
      let? _ := refuse_if (negb (trim secret ==? secret))
        ("auth.client_keys.keys." ++ id ++ ": the key has leading or trailing whitespace") in
      let? _ := refuse_if (Z.of_nat (length secret) <? MIN_CLIENT_KEY_LEN)
        ("auth.client_keys.keys." ++ id ++ ": the key is " ++ show_u64 (Z.of_nat (length secret))
         ++ " bytes; at least " ++ show_u64 MIN_CLIENT_KEY_LEN
         ++ " are required, because anything that can reach the public listener can try to guess it") in
      let digest := digest_of secret in
      match List.find (fun k => key_digest k ==? digest) keys with
      | Some other =>
          Err ("auth.client_keys.keys: `" ++ id ++ "` and `" ++ key_id other
               ++ "` have the same key, so the gateway could not tell which client called")
      | None => resolve_keys (keys ++ [{| key_id := id; key_digest := digest |}]) rest
      end
  end.

Definition resolve_exempt (rawprefix : str) : result str str :=
  let prefix := normalize_proxy_path (trim rawprefix) in
  let? _ := refuse_if (prefix ==? [])
    ("auth.client_keys.exempt: `" ++ rawprefix ++ "` is empty; name the path prefix to exempt") in
  let? _ := refuse_if (negb (canonicalize_proxy_path percent_decode prefix ==? Some prefix))
    ("auth.client_keys.exempt: `" ++ rawprefix ++ "` is not a canonical path; write it as the "
     ++ "gateway sees it — decoded, without empty or dot segments, relative to any "
     ++ "`server.mounts`") in
  Ok prefix.

Definition resolve_exempt_group (rawgroup : str) : result str str :=
  let g := to_ascii_lowercase (trim rawgroup) in
  let? _ := refuse_if (g ==? "machine")
    (str_of ("auth.client_keys.exempt_groups: `machine` routes are on the internal listener, "
      +:+ "where client keys are never checked; there is nothing to exempt")) in
  let? _ := refuse_if (negb (existsb (fun x => x ==? g) EXEMPTIBLE_GROUPS))
    ("auth.client_keys.exempt_groups: `" ++ rawgroup ++ "` is not a route group; use one of "
     ++ join ", " EXEMPTIBLE_GROUPS) in
  Ok g.

Definition resolve_client_keys (ck : ClientKeysConfig) (rejected owned : list str)
  : result ResolvedClientKeys str :=
  let? header := client_header_name owned "header" (ck_header ck) in
  let? _ := refuse_if (existsb (fun r => eq_ignore_ascii_case r header) rejected)
    ("auth.client_keys.header `" ++ header ++ "` is also listed in reject.client_headers, which "
     ++ "refuses any request carrying it; every keyed request would be a 403") in
  let? forward_as :=
    match ck_forward_as ck with
    | Some rawname =>
        let? name := client_header_name owned "forward_as" rawname in
        let? _ := refuse_if (name ==? header)
          ("auth.client_keys.forward_as is the same header as auth.client_keys.header "
           ++ "(`" ++ name ++ "`); the upstream would receive the key's id where the key was") in
        Ok (Some name)
    | None => Ok None
    end in
  let? _ := refuse_if (is_nil (ck_keys ck))
    (str_of "auth.client_keys.keys is empty; every keyed route would refuse every request") in
  let? keys := resolve_keys [] (ck_keys ck) in
  let? exempt := collect_results resolve_exempt (ck_exempt ck) in
  let? exempt_groups := collect_results resolve_exempt_group (ck_exempt_groups ck) in
  Ok {| rk_header := header; rk_forward_as := forward_as; rk_keys := keys; rk_exempt := exempt;
        rk_exempt_groups := exempt_groups |}.

(** ** The sections of a document *)

Definition check_shared (c : GatewayConfig) : result () str :=
  match gc_shared_counters c with
  | None => Ok tt
  | Some shared =>
      let? _ := match normalize_url (sc_url shared) with
                | Ok _ => Ok tt
                | Err e => Err ("shared_counters.url: " ++ e)
                end in
      let? _ := refuse_if (sc_sync shared =? 0)
        (str_of ("shared_counters.sync must be greater than zero; it is how often this "
          +:+ "replica publishes its usage, and zero would mean never")) in
      let? _ := refuse_if (sc_timeout shared =? 0)
        (str_of "shared_counters.timeout must be greater than zero") in
      refuse_if (sc_max_keys_per_sync shared =? 0)%nat
        (str_of ("shared_counters.max_keys_per_sync must be greater than zero; zero would "
          +:+ "reconcile nothing and leave every limit per-process"))
  end.

(** The clocks and the admission of extensions; [now] is [Instant::now]. *)
Definition check_timeouts (now : Z) (t : Timeouts) (l : Limits) : result () str :=
  let? _ := refuse_if (match t_request_total t with
                       | Some d => (d =? 0) || match instant_checked_add now d with None => true | _ => false end
                       | None => false
                       end)
    (str_of "timeouts.request_total must be a positive, representable duration, or null") in
  let? _ := refuse_if ((t_extension t =? 0) || (t_extension_chain t =? 0) || (t_extension_chain t <? t_extension t))
    (str_of "extension timeouts must be positive and extension must not exceed extension_chain") in
  let? _ := refuse_if (match lt_extension_inflight l with
                       | Some n => (n =? 0) || (usize_max / 8 <? n)
                       | None => false
                       end)
    (str_of "limits.extension_inflight must be positive and within Tokio semaphore capacity") in
  refuse_if ((t_connect t =? 0) || (t_downstream_read t =? 0))
    (str_of "timeouts.connect and timeouts.downstream_read must be greater than zero").

Definition resolve_proxies (f : ForwardConfig) : result (list IpNet) str :=
  let? nets := collect_results (fun entry => ok_or (net_parse entry)
      ("forward.trusted_proxy_ips: `" ++ entry ++ "` is not an IP address or CIDR range"))
    (fw_trusted_proxy_ips f) in
  let? _ := refuse_if ((0 <? fw_trusted_proxies f)%nat && is_nil nets)
    (str_of ("forward.trusted_proxies requires forward.trusted_proxy_ips; otherwise a direct caller "
      +:+ "could forge the proxy's address header")) in
  Ok nets.

Definition resolve_target (name : str) (t : UpstreamTargetConfig) : result UpstreamTargetConfig str :=
  let url := trim_end_matches (Z.eqb b_slash) (trim (ut_url t)) in
  let? _ := refuse_if (url ==? []) ("upstreams." ++ name ++ ": a target URL is empty") in
  let? _ := match target_parse parse_uri url with
            | Ok _ => Ok tt
            | Err e => Err ("upstreams." ++ name ++ ": " ++ e)
            end in
  let? _ := refuse_if (ut_weight t =? 0)
    ("upstreams." ++ name ++ ": target `" ++ url ++ "` has weight 0. "
     ++ "Remove it, or set `enabled: false` on the routes that use it — "
     ++ "a zero weight would silently never be selected.") in
  Ok {| ut_url := url; ut_weight := ut_weight t |}.

Definition with_targets (ts : list UpstreamTargetConfig) (u : UpstreamConfig) : UpstreamConfig :=
  {| up_targets := ts; up_balance := up_balance u; up_hash_on := up_hash_on u;
     up_health_check := up_health_check u; up_circuit_breaker := up_circuit_breaker u;
     up_discovery := up_discovery u |}.

Definition resolve_upstream (name : str) (u : UpstreamConfig) : result UpstreamConfig str :=
  let? targets := collect_results (resolve_target name) (up_targets u) in
  let? _ := match up_discovery u with
            | None => Ok tt
            | Some d =>
                let? _ := refuse_if (dc_interval d <? from_secs 1)
                  ("upstreams." ++ name ++ ".discovery.interval is " ++ show_duration (dc_interval d)
                   ++ "; it must be at least 1s so refreshes cannot load the resolver continuously") in
                refuse_if ((dc_max_members d =? 0) || (MAX_MEMBERS_LIMIT <? dc_max_members d))
                  ("upstreams." ++ name ++ ".discovery.max_members is " ++ show_u64 (dc_max_members d)
                   ++ "; it must be between 1 and " ++ show_u64 MAX_MEMBERS_LIMIT)
            end in
  Ok (with_targets targets u).

Fixpoint resolve_upstreams (l : list (str * UpstreamConfig)) (acc : gmap str UpstreamConfig)
  : result (gmap str UpstreamConfig) str :=
  match l with
  | [] => Ok acc
  | (name, u) :: rest => let? u := resolve_upstream name u in resolve_upstreams rest (<[name:=u]> acc)
  end.

Definition resolve_firebase (f : option FirebaseConfig) : result (list str) str :=
  match f with
  | None => Ok []
  | Some fb =>
      let ids := List.filter (fun p => negb (p ==? [])) (map trim (fb_projects fb)) in
      let? _ := refuse_if (ids ==? [])
        (str_of "auth.firebase.projects is empty; the gateway would reject every token") in
      Ok ids
  end.

(** [sort_by_key(Reverse(len))], stable, and [dedup]. *)
Definition longest_first (a b : str) : bool := (length b <=? length a)%nat.
Definition resolve_mounts (mounts : list str) : result (list str) str :=
  let paths := map normalize_proxy_path mounts in
  let? _ := refuse_if (paths ==? [])
    (str_of "server.mounts is empty; the gateway would match no request") in
  Ok (dedup (sort_by longest_first paths)).

Definition check_route_source (r : RoutesConfig) : result () str :=
  let? _ := refuse_if (match rc_file r with Some _ => negb (is_inline_empty r) | None => false end)
    (str_of ("routes.file is set and routes are also written inline. "
      +:+ "Use one or the other, so there is a single place to read the route table.")) in
  refuse_if (match rc_file r with Some _ => false | None => is_inline_empty r end)
    (str_of ("no routes are defined; the gateway would refuse every request. "
      +:+ "Add a `routes:` group, or point `routes.file` at a route file.")).

Definition check_jwt (j : JwtConfig) : result () str :=
  let? _ := refuse_if (trim (jwt_issuer j) ==? []) (str_of "auth.jwt: `issuer` is empty") in
  let? _ := refuse_if (is_nil (jwt_audience j))
    ("auth.jwt `" ++ jwt_issuer j ++ "`: `audience` is required. Without it a token this issuer "
     ++ "minted for another service would be accepted here.") in
  for_each (fun alg => refuse_if (parse_algorithm alg ==? None)
      ("auth.jwt `" ++ jwt_issuer j ++ "`: `" ++ alg ++ "` is not a supported algorithm. "
       ++ "Use one of RS256, RS384, RS512, ES256, ES384, PS256, PS384, PS512, EdDSA."))
    (jwt_algorithms j).

Definition check_cache (c : option CacheConfig) : result () str :=
  match c with
  | None => Ok tt
  | Some c =>
      refuse_if (ca_max_inflight_fill c <? ca_max_object_size c)
        ("cache.max_inflight_fill (" ++ show_u64 (ca_max_inflight_fill c)
         ++ " bytes) is smaller than cache.max_object_size (" ++ show_u64 (ca_max_object_size c)
         ++ " bytes), so the largest objects could never be stored; raise it or lower max_object_size")
  end.

Definition check_breaker (nu : str * UpstreamConfig) : result () str :=
  match up_circuit_breaker nu.2 with
  | None => Ok tt
  | Some cb =>
      let? _ := refuse_if (cb_failures cb =? 0)
        ("upstreams." ++ nu.1 ++ ".circuit_breaker.failures is 0, which would open the "
         ++ "circuit before any request was made") in
      refuse_if ((cb_successes_to_close cb =? 0) || (cb_max_trials cb =? 0))
        ("upstreams." ++ nu.1 ++ ".circuit_breaker: `successes_to_close` and `max_trials` "
         ++ "must be at least 1, or the circuit could never close again")
  end.

Definition check_tracing (o : ObservabilityConfig) : result () str :=
  match ob_tracing o with
  | None => Ok tt
  | Some t =>
      refuse_if (negb (f64_ge (tc_sample_ratio t) f64_zero && f64_ge f64_one (tc_sample_ratio t)))
        ("observability.tracing.sample_ratio is " ++ show_f64 (tc_sample_ratio t)
         ++ "; it is a fraction between 0.0 and 1.0")
  end.

Definition resolve_cors (c : option CorsConfig) : result (option Cors) str :=
  match c with
  | None => Ok None
  | Some c => match cors_compile c with Ok x => Ok (Some x) | Err e => Err ("cors: " ++ e) end
  end.

Definition resolve_cookies (a : AuthConfig) : result (option CookieProtection) str :=
  match au_cookie_protection a with
  | None => Ok None
  | Some policy =>
      let? _ := refuse_if (au_token_cookies a ==? [])
        (str_of "auth.cookie_protection requires auth.token_cookies") in
      match cookie_compile url_parse policy with
      | Ok x => Ok (Some x)
      | Err e => Err ("auth.cookie_protection: " ++ e)
      end
  end.

(** ** The whole document *)

Definition resolve_config (now : Z) (c : GatewayConfig) (expanded : Interpolated) : result (ResolvedConfig N) str :=
  let? _ := refuse_if (match rd_rate_limit (gc_defaults c) with
                       | Some rate => rl_requests rate =? 0
                       | None => false
                       end)
    (str_of "defaults.rate_limit.requests must be greater than zero") in
  let? _ := check_shared c in
  let? _ := check_timeouts now (gc_timeouts c) (gc_limits c) in
  let? nets := resolve_proxies (gc_forward c) in
  let? ups := resolve_upstreams (gc_upstreams c) ∅ in
  let? projects := resolve_firebase (au_firebase (gc_auth c)) in
  let? keys := match au_client_keys (gc_auth c) with
               | Some ck => let? r := resolve_client_keys ck (rj_client_headers (gc_reject c))
                                        (gateway_owned_headers c) in Ok (Some r)
               | None => Ok None
               end in
  let? _ := validate_token_cookies (gc_auth c) in
  let? mounts := resolve_mounts (srv_mounts (gc_server c)) in
  let? _ := check_route_source (gc_routes c) in
  let? _ := for_each check_jwt (au_jwt (gc_auth c)) in
  let? _ := check_cache (gc_cache c) in
  let? _ := for_each check_breaker (gc_upstreams c) in
  let? _ := check_tracing (gc_observability c) in
  let? cors := resolve_cors (gc_cors c) in
  let? cookies := resolve_cookies (gc_auth c) in
  Ok {| raw := c; trusted_proxy_ips := nets; upstreams := ups;
        injected_headers := lower_pairs (in_headers (gc_inject c));
        firebase_project_ids := projects;
        identity_secret := it_secret <$> ic_token (gc_identity c);
        machine_secret := mc_secret <$> au_machine (gc_auth c);
        machine_injected_headers := lower_pairs (in_machine (gc_inject c));
        client_key_header := rk_header <$> keys;
        client_key_forward_as := letO k := keys in rk_forward_as k;
        client_keys := match keys with Some k => rk_keys k | None => [] end;
        client_key_exempt := match keys with Some k => rk_exempt k | None => [] end;
        client_key_exempt_groups := match keys with Some k => rk_exempt_groups k | None => [] end;
        base_paths := mounts; cors := cors; cookie_protection := cookies;
        referenced_env := referenced expanded; defaulted_env := defaulted expanded;
        placeheld_env := placeheld expanded |}.

(** ** Route tables *)

Definition conflicting_routes (a b : RouteConfig) : bool :=
  if negb (r_prefix a ==? r_prefix b) || negb (eqb (is_machine (r_auth a)) (is_machine (r_auth b))) then false
  else if (r_auth a ==? r_auth b) && negb (eqb (is_nil (r_hosts a)) (is_nil (r_hosts b))) then false
  else
    let methods_overlap := is_nil (r_methods a) || is_nil (r_methods b)
      || existsb (fun m => existsb (fun n => n ==? m) (r_methods b)) (r_methods a) in
    let hosts_overlap := is_nil (r_hosts a) || is_nil (r_hosts b)
      || existsb (fun h => existsb (fun o => overlaps h o) (r_hosts b)) (r_hosts a) in
    methods_overlap && hosts_overlap.

Definition validate_shared_limit (c : ResolvedConfig N) (shared_limits : bool) (id : str) (l : RateLimitConfig)
  : result () str :=
  let? _ := refuse_if ((rl_mode l ==? ModeExact) && negb (rl_counter l ==? CounterShared))
    ("route `" ++ id ++ "`: rate_limit.mode is `exact`, which only means something with "
     ++ "`counter: shared` — a per-process counter has nothing to be exact about") in
  if negb (rl_counter l ==? CounterShared) then Ok tt
  else
    let? _ := refuse_if (negb shared_limits)
      ("route `" ++ id ++ "`: `counter: shared` needs a build with the `shared-limits` "
       ++ "feature, and this binary was built without it") in
    let? shared := ok_or (gc_shared_counters (raw c))
      ("route `" ++ id ++ "`: `counter: shared` needs a `shared_counters` block saying where "
       ++ "the counters live") in
    let? _ := refuse_if (rl_interval l <? from_secs 1)
      ("route `" ++ id ++ "`: a shared rate limit needs `interval` of at least 1s, not "
       ++ show_duration (rl_interval l)) in
    let? _ := refuse_if ((rl_mode l ==? ModeExact) && negb (rl_interval l mod nanos_per_sec =? 0))
      ("route `" ++ id ++ "`: rate_limit.mode `exact` requires an interval in whole seconds; "
       ++ "RLCHECK cannot represent " ++ show_duration (rl_interval l)) in
    refuse_if ((rl_mode l ==? ModeApproximate) && (rl_interval l <=? sc_sync shared))
      ("route `" ++ id ++ "`: shared_counters.sync (" ++ show_duration (sc_sync shared)
       ++ ") is not shorter than the limit's interval (" ++ show_duration (rl_interval l)
       ++ "), so the cluster's usage would be read at most once per window "
       ++ "and the limit would be barely shared at all. Lower `sync`, or use `mode: exact`.").

(** A limit by address that trusts a header needs to know whose. *)
Definition trusts_header (c : ResolvedConfig N) (key : RateLimitKey) (trusted : nat) : bool :=
  (key ==? KeyIp) && (0 <? trusted)%nat && is_nil (trusted_proxy_ips c).

(** The first loop of [validate_routes], with the ids seen. *)
Fixpoint check_each (c : ResolvedConfig N) (shared_limits : bool) (known : list str)
    (seen : gmap str str) (routes : list RouteConfig) : result () str :=
  match routes with
  | [] => Ok tt
  | r :: rest =>
      let? _ := match r_rate_limit r with
                | Some l => validate_shared_limit c shared_limits (r_id r) l
                | None => Ok tt
                end in
      let? _ := refuse_if (match r_concurrency r with
                           | Some cap => trusts_header c (concurrency_key cap) (cc_trusted_proxies cap)
                           | None => false
                           end)
        ("route `" ++ r_id r ++ "` trusts X-Forwarded-For for its concurrency cap but "
         ++ "forward.trusted_proxy_ips is empty") in
      let? _ := refuse_if (match r_rate_limit r with
                           | Some l => trusts_header c (rl_key l) (rl_trusted_proxies l)
                           | None => false
                           end)
        ("route `" ++ r_id r ++ "` trusts X-Forwarded-For for its IP limit but "
         ++ "forward.trusted_proxy_ips is empty") in
      let? _ := refuse_if (r_prefix r ==? [])
        ("route `" ++ r_id r ++ "`: prefix is empty; it would match every request") in
      let? _ := refuse_if (upstreams c !! r_upstream r ==? None)
        ("route `" ++ r_id r ++ "` names upstream `" ++ r_upstream r ++ "`, which is not defined"
         ++ suggestion (r_upstream r) known) in
      let? _ := match seen !! r_id r with
                | Some prev =>
                    Err ("two routes share the id `" ++ r_id r ++ "` (`" ++ prev ++ "` and `" ++ r_prefix r
                         ++ "`). Ids name the route in logs and metrics, so they must be unique.")
                | None => Ok tt
                end in
      check_each c shared_limits known (<[r_id r := r_prefix r]> seen) rest
  end.

Definition conflict_message (route other : RouteConfig) : str :=
  "routes `" ++ r_id route ++ "` (" ++ group (r_auth route) ++ ") and `" ++ r_id other ++ "` ("
  ++ group (r_auth other) ++ ") both match prefix `" ++ r_prefix route ++ "` for at least one "
  ++ "host and method. Routes on the same listener must not depend on "
  ++ "declaration order for authorization.".

Fixpoint check_conflicts (routes : list RouteConfig) : result () str :=
  match routes with
  | [] => Ok tt
  | route :: rest =>
      let? _ := for_each (fun other => refuse_if (conflicting_routes route other) (conflict_message route other)) rest in
      check_conflicts rest
  end.

Definition check_binding_tier (r : RouteConfig) : result () str :=
  refuse_if (negb (is_nil (r_bindings r)) && negb (verifies (r_auth r)))
    ("route `" ++ r_id r ++ "` is in the `" ++ group (r_auth r) ++ "` group but declares `bind`. "
     ++ "A binding compares against the caller's identity, which is "
     ++ "never read on that tier, so every request would be refused.").

Definition check_route_cache (c : ResolvedConfig N) (r : RouteConfig) : result () str :=
  let? _ := refuse_if (r_cache r && match gc_cache (raw c) with None => true | _ => false end)
    ("route `" ++ r_id r ++ "` sets `cache: true` but no `cache:` block is configured") in
  refuse_if (r_cache r && verifies (r_auth r) && negb (r_cache_authenticated r))
    ("route `" ++ r_id r ++ "` is in the `" ++ group (r_auth r) ++ "` group and sets `cache: true`. Responses there are "
     ++ "usually personalised, and sharing one between callers is a data leak rather "
     ++ "than a slow page. If the upstream sends correct `Cache-Control` and you mean "
     ++ "it, add `cache_authenticated: true`.").

Definition check_route_key (c : ResolvedConfig N) (r : RouteConfig) : result () str :=
  let? _ := refuse_if (is_machine (r_auth r))
    ("route `" ++ r_id r ++ "` is in the `machine` group and sets `client_key`. Client keys "
     ++ "are checked on the public listener only; the machine credential still applies") in
  refuse_if (match au_client_keys (gc_auth (raw c)) with None => true | _ => false end)
    ("route `" ++ r_id r ++ "` sets `client_key` but `auth.client_keys` is not configured, so "
     ++ "no route needs a key and the field would have no effect").

Definition check_machine (c : ResolvedConfig N) (routes : list RouteConfig) : result () str :=
  let n := length (List.filter (fun r => is_machine (r_auth r)) routes) in
  if (0 <? n)%nat then
    let? _ := refuse_if (match au_machine (gc_auth (raw c)) with None => true | _ => false end)
      (show_u64 (Z.of_nat n) ++ " machine-tier route(s) are defined but `auth.machine` is not "
       ++ "configured; there would be no credential to check them against") in
    refuse_if (srv_internal_listen (gc_server (raw c)) ==? None)
      (show_u64 (Z.of_nat n) ++ " machine-tier route(s) are defined but "
       ++ "`server.internal_listen` is unset; they would be unreachable")
  else Ok tt.

(** [shared_limits] is whether the build has that feature, and [known] the names
    of the upstreams in the order their map iterates. *)
Definition validate_routes (c : ResolvedConfig N) (shared_limits : bool) (known : list str)
    (routes : list RouteConfig) : result () str :=
  let? _ := check_each c shared_limits known ∅ routes in
  let? _ := check_conflicts routes in
  let? _ := for_each check_binding_tier routes in
  let? _ := for_each (check_route_cache c) routes in
  let? _ := for_each (check_route_key c)
              (List.filter (fun r => negb (r_client_key r ==? None)) routes) in
  check_machine c routes.

Definition validate_table (c : ResolvedConfig N) (shared_limits : bool) (known : list str) (t : RouteTable)
  : result () str :=
  match table_errors t with
  | first :: _ => Err first
  | [] => validate_routes c shared_limits known (table_routes t)
  end.
End Resolve.

(** ** Lemmas *)

(** Take apart a chain of checks that all passed. *)
Ltac ok_chain H :=
  repeat lazymatch type of H with
  | rbind _ _ = Ok _ => let a := fresh "a" in let Ha := fresh "Ha" in apply rbind_Ok in H as (a & Ha & H)
  end.

Section Facts.
Context {N : Type} `{HC : Crates N}.
Context (parse_uri : str -> result Uri str) (header_name_ok : str -> bool) (show_f64 : f64 -> str).


























(** ** Theorems *)


(** ** Route tables *)

Lemma check_conflicts_Ok routes i j a b :
  check_conflicts routes = Ok tt -> (i < j)%nat -> routes !! i = Some a -> routes !! j = Some b ->
  conflicting_routes a b = false.
Proof using.
  revert i j. induction routes as [|r routes IH]; intros i j; [done|]. cbn [check_conflicts].
  intros ([] & H1 & H2)%rbind_Ok Hij Ha Hb. destruct j as [|j]; [lia|]. destruct i as [|i].
  - injection Ha as ->. rewrite for_each_Ok in H1. eapply refuse_if_Ok, H1. by eapply list_elem_of_lookup_2.
  - eapply (IH i j); [done|lia|done..].
Qed.

Definition serves_both (host : option str) (method : str) (r : RouteConfig) : bool :=
  matches_method r method && matches_host r host.

(** Two routes that both serve a method share one, and likewise a host. *)
Lemma methods_overlap a b m :
  matches_method a m = true -> matches_method b m = true ->
  is_nil (r_methods a) || is_nil (r_methods b)
  || existsb (fun m => existsb (fun n => n ==? m) (r_methods b)) (r_methods a) = true.
Proof using.
  unfold matches_method. intros Ha Hb. destruct (r_methods a) as [|x xs] eqn:Ea; [done|].
  destruct (r_methods b) as [|y ys] eqn:Eb; [by rewrite orb_true_r|]. cbn [orb is_nil].
  rewrite bool_decide_false in Ha, Hb by done. cbn [orb] in Ha, Hb.
  apply existsb_In in Ha as (m1 & H1 & ->%bool_decide_eq_true), Hb as (m2 & H2 & ->%bool_decide_eq_true).
  apply existsb_In. exists m. split; [done|]. apply existsb_In. exists m. split; [done|]. by apply bool_decide_eq_true.
Qed.

Lemma hosts_overlap a b host :
  matches_host a host = true -> matches_host b host = true ->
  is_nil (r_hosts a) || is_nil (r_hosts b)
  || existsb (fun h => existsb (fun o => overlaps h o) (r_hosts b)) (r_hosts a) = true.
Proof using.
  unfold matches_host. intros Ha Hb. destruct (r_hosts a) as [|x xs] eqn:Ea; [done|].
  destruct (r_hosts b) as [|y ys] eqn:Eb; [by rewrite orb_true_r|]. cbn [orb is_nil] in *.
  destruct host as [host|]; [|done].
  apply existsb_In in Ha as (p & Hp & Hpm), Hb as (q & Hq & Hqm).
  apply existsb_In. exists p. split; [done|]. apply existsb_In. exists q. split; [done|].
  apply overlaps_exact. by exists host.
Qed.

(** Routes that validation lets stand side by side are ordered by their hosts. *)
Lemma unconflicted_specific x y host method :
  conflicting_routes x y = false -> r_prefix x = r_prefix y -> is_machine (r_auth x) = is_machine (r_auth y) ->
  serves_both host method x = true -> serves_both host method y = true ->
  r_auth x = r_auth y /\ host_specific x <> host_specific y.
Proof using.
  unfold conflicting_routes, serves_both. intros Hc Hp Hl Hx Hy. breflect.
  rewrite Hp, Hl, bool_decide_true, eqb_reflx in Hc by done. cbn [negb orb] in Hc.
  rewrite (methods_overlap x y method), (hosts_overlap x y host) in Hc by done.
  assert (forall z, is_nil (r_hosts z) = negb (host_specific z)) as Hnil.
  { intros z. unfold host_specific. by destruct (r_hosts z). }
  rewrite !Hnil in Hc. destruct (bool_decide_reflect (r_auth x = r_auth y)); cbn [andb] in Hc; [|done].
  split; [done|]. intros He. rewrite He, eqb_reflx in Hc. done.
Qed.

(** So of two routes of one listener that serve a request, the more specific one
    is determined. *)
Lemma served_once c shared_limits known routes i j a b host path method :
  validate_routes c shared_limits known routes = Ok tt ->
  routes !! i = Some a -> routes !! j = Some b -> i <> j -> is_machine (r_auth a) = is_machine (r_auth b) ->
  serves_request host path method a = true -> serves_request host path method b = true ->
  outranks a b \/ outranks b a.
Proof using.
  intros Hvalid Hi Hj Hij Hl Ha Hb. unfold validate_routes in Hvalid. ok_chain Hvalid. destruct a1.
  unfold serves_request in Ha, Hb. rewrite <-!andb_assoc in Ha, Hb.
  apply andb_true_iff in Ha as [Hpa Ha], Hb as [Hpb Hb]. fold (serves_both (request_host host) (request_method method) a) in Ha.
  fold (serves_both (request_host host) (request_method method) b) in Hb.
  assert (length (r_prefix a) = length (r_prefix b) -> host_specific a <> host_specific b) as Hspec.
  { intros Hlen. assert (r_prefix a = r_prefix b) as Hp.
    { unfold under_prefix in Hpa, Hpb. destruct (strip_prefix (r_prefix a) _) as [ra|] eqn:Ea; [|done].
      destruct (strip_prefix (r_prefix b) _) as [rb|] eqn:Eb; [|done].
      apply strip_prefix_Some in Ea, Eb. rewrite Ea in Eb. by apply app_inj_1 in Eb as [-> _]. }
    destruct (Nat.lt_gt_cases i j) as [Hlt _]. destruct (Hlt Hij) as [H|H].
    - by eapply unconflicted_specific; [eapply check_conflicts_Ok|..].
    - apply not_eq_sym. by eapply unconflicted_specific; [eapply check_conflicts_Ok|..]. }
  unfold outranks. unfold host_specific in Hspec.
  destruct (r_hosts a), (r_hosts b); try (left; by left); try (right; by left);
    (destruct (Nat.lt_trichotomy (length (r_prefix a)) (length (r_prefix b))) as [H|[H|H]];
     [right; right; split; [done|lia]|by destruct (Hspec H)|left; right; split; [done|lia]]).
Qed.

(** C34: authorization never depends on the order of the route file: if a table
    passes validation, two of its routes on the same listener with the same
    prefix that both serve some request are in the same tier, and exactly one
    of them is restricted to hosts, so which one is used is decided by its
    specificity and not by its place. *)
Theorem authorization_unambiguous c shared_limits known routes i j a b host method
  (Hvalid : validate_routes c shared_limits known routes = Ok tt)
  (Hi : routes !! i = Some a) (Hj : routes !! j = Some b) (Hij : i <> j)
  (Hprefix : r_prefix a = r_prefix b) (Hlistener : is_machine (r_auth a) = is_machine (r_auth b))
  (Ha : serves_both host method a = true) (Hb : serves_both host method b = true) :
  r_auth a = r_auth b /\ host_specific a <> host_specific b.
Proof using.
  unfold validate_routes in Hvalid. ok_chain Hvalid. destruct a1.
  destruct (Nat.lt_gt_cases i j) as [Hlt _]. destruct (Hlt Hij) as [H|H].
  - by eapply unconflicted_specific; [eapply check_conflicts_Ok|..].
  - assert (conflicting_routes b a = false) as Hc by (by eapply check_conflicts_Ok).
    destruct (unconflicted_specific b a host method Hc (eq_sym Hprefix) (eq_sym Hlistener) Hb Ha) as [H1 H2].
    split; [done|]. by apply not_eq_sym.
Qed.

Lemma check_each_Ok c shared_limits known seen routes :
  check_each c shared_limits known seen routes = Ok tt ->
  NoDup (map r_id routes) /\
  Forall (fun r => seen !! r_id r = None /\ r_prefix r <> [] /\ is_Some (upstreams c !! r_upstream r) /\
    (forall l, r_rate_limit r = Some l -> validate_shared_limit c shared_limits (r_id r) l = Ok tt /\
       trusts_header c (rl_key l) (rl_trusted_proxies l) = false) /\
    (forall cap, r_concurrency r = Some cap ->
       trusts_header c (concurrency_key cap) (cc_trusted_proxies cap) = false)) routes.
Proof using.
  revert seen. induction routes as [|r routes IH]; intros seen; cbn [check_each].
  { intros _. split; constructor. }
  intros H. ok_chain H. apply IH in H as [Hu Hf]. apply refuse_if_Ok in Ha0, Ha1, Ha2, Ha3. breflect.
  destruct (seen !! r_id r) eqn:Es; [done|].
  assert (forall r', r' ∈ routes -> r_id r' <> r_id r /\ seen !! r_id r' = None) as Hids.
  { intros r' Hr'. rewrite Forall_elem in Hf. destruct (Hf r' Hr') as [H _].
    rewrite lookup_insert in H. case_decide; [done|]. split; [congruence|done]. }
  split.
  - cbn [map]. apply list.NoDup_cons. split; [|done].
    intros (r' & Hid & Hin)%list_elem_of_fmap_1. destruct (Hids r' Hin). congruence.
  - constructor.
    + split_and!; [done|done|by apply not_eq_None_Some| |].
      * intros l Hl. rewrite Hl in Ha, Ha1. by destruct a.
      * intros cap Hcap. by rewrite Hcap in Ha0.
    + rewrite Forall_elem in Hf |- *. intros r' Hr'. destruct (Hf r' Hr') as (_ & ?).
      split; [by apply Hids|done].
Qed.

(** A table that passes validation has no dead or blind policy: its
    identifiers are unique, every route has a prefix and an upstream that
    exists, ownership bindings are only where an identity is read, a shared or
    exact limit has a backend to share, an address limit that trusts a header
    has proxies to trust, what is cached is either anonymous or declared
    shareable, and machine routes have a credential and a listener of their
    own. *)
Lemma validated_routes_sound c shared_limits known routes
  (Hvalid : validate_routes c shared_limits known routes = Ok tt) :
  NoDup (map r_id routes) /\
  (forall r, r ∈ routes ->
     r_prefix r <> [] /\ is_Some (upstreams c !! r_upstream r) /\
     (r_bindings r <> [] -> verifies (r_auth r) = true) /\
     (forall l, r_rate_limit r = Some l ->
        (rl_mode l = ModeExact -> rl_counter l = CounterShared) /\
        (rl_counter l = CounterShared -> shared_limits = true /\ exists shared, gc_shared_counters (raw c) = Some shared /\
           (rl_mode l = ModeApproximate -> sc_sync shared < rl_interval l)) /\
        (rl_key l = KeyIp -> (0 < rl_trusted_proxies l)%nat -> trusted_proxy_ips c <> [])) /\
     (r_cache r = true -> is_Some (gc_cache (raw c)) /\ (verifies (r_auth r) = true -> r_cache_authenticated r = true)) /\
     (r_client_key r <> None -> is_machine (r_auth r) = false /\ is_Some (au_client_keys (gc_auth (raw c)))) /\
     (is_machine (r_auth r) = true -> is_Some (au_machine (gc_auth (raw c))) /\
        is_Some (srv_internal_listen (gc_server (raw c))))).
Proof using.
  unfold validate_routes in Hvalid. ok_chain Hvalid. destruct a. apply check_each_Ok in Ha as [Hu Hf].
  split; [done|]. intros r Hr. rewrite Forall_elem in Hf. destruct (Hf r Hr) as (_ & Hp & Hup & Hl & _).
  rewrite for_each_Ok in Ha1, Ha2, Ha3. split_and!; [done|done|..].
  - intros Hb. specialize (Ha1 r Hr). apply refuse_if_Ok in Ha1. destruct (r_bindings r); [done|].
    by destruct (verifies (r_auth r)).
  - intros l Hrl. destruct (Hl l Hrl) as [Hs Ht]. unfold validate_shared_limit in Hs.
    apply rbind_Ok in Hs as (? & H1%refuse_if_Ok & Hs). split_and!.
    + intros He. rewrite He in H1. cbn in H1. by apply negb_false_iff, bool_decide_eq_true in H1.
    + intros Hc. rewrite Hc, (bool_decide_true (CounterShared = CounterShared)) in Hs by done.
      cbn [negb] in Hs. ok_chain Hs. apply refuse_if_Ok in Hs, Ha. apply negb_false_iff in Ha. split; [done|].
      destruct (gc_shared_counters (raw c)) as [shared|]; [|done]. injection Ha4 as <-.
      exists shared. split; [done|]. intros Hm. rewrite Hm, bool_decide_true in Hs by done. by apply Z.leb_gt in Hs.
    + intros Hk Htp%Nat.ltb_lt Hn. unfold trusts_header in Ht. rewrite Hk, Htp, Hn in Ht. done.
  - intros Hcache. specialize (Ha2 r Hr). unfold check_route_cache in Ha2.
    apply rbind_Ok in Ha2 as (? & H1%refuse_if_Ok & H2%refuse_if_Ok). rewrite Hcache in H1, H2. split.
    + by destruct (gc_cache (raw c)).
    + intros Hv. rewrite Hv in H2. by apply negb_false_iff in H2.
  - intros Hk. specialize (Ha3 r). rewrite elem_of_lfilter in Ha3.
    rewrite bool_decide_false in Ha3 by done. specialize (Ha3 (conj Hr eq_refl)).
    apply rbind_Ok in Ha3 as (? & H1%refuse_if_Ok & H2%refuse_if_Ok). split; [done|].
    by destruct (au_client_keys _).
  - intros Hm. unfold check_machine in Hvalid.
    assert (0 <? length (List.filter (fun r => is_machine (r_auth r)) routes) = true)%nat as Hn.
    { apply Nat.ltb_lt. assert (r ∈ List.filter (fun r => is_machine (r_auth r)) routes) as Hin by (by apply elem_of_lfilter).
      destruct (List.filter (fun r => is_machine (r_auth r)) routes); [by apply elem_of_nil in Hin|cbn; lia]. }
    rewrite Hn in Hvalid. apply rbind_Ok in Hvalid as (? & H1%refuse_if_Ok & H2%refuse_if_Ok).
    breflect. split; [by destruct (au_machine _)|by apply not_eq_None_Some].
Qed.
End Facts.

(** ** Witnesses *)

Definition sample_upstream_config (url : str) : UpstreamConfig :=
  {| up_targets := [{| ut_url := url; ut_weight := 1 |}]; up_balance := RoundRobin; up_hash_on := HashPath;
     up_health_check := None;
     up_circuit_breaker := Some {| cb_failures := 5; cb_window := from_secs 10; cb_cooldown := from_secs 30;
                                   cb_successes_to_close := 2; cb_max_trials := 1 |};
     up_discovery := None |}.
Definition sample_jwt : JwtConfig :=
  {| jwt_issuer := "https://id.example"; jwt_audience := ["shop"]; jwt_jwks_url := None;
     jwt_algorithms := ["RS256"]; jwt_required_claims := []; jwt_clock_skew := from_secs 60;
     jwt_min_key_ttl := from_secs 300; jwt_stale_if_error := 0 |}.
Definition sample_client_keys : ClientKeysConfig :=
  {| ck_header := "X-Client-Key"; ck_forward_as := Some "x-client-id";
     ck_keys := [(str_of "web", str_of "0123456789abcdef")]; ck_exempt := ["/status"]; ck_exempt_groups := [] |}.
Definition sample_document : GatewayConfig :=
  {| gc_defaults := no_defaults;
     gc_server := {| srv_listen := "0.0.0.0:8080"; srv_mounts := ["/"; "/api/v1/"];
                     srv_internal_listen := Some "127.0.0.1:9090"; srv_health_path := "/health";
                     srv_service_name := "lagos"; srv_threads := 2; srv_tcp_keepalive := None;
                     srv_shutdown_grace := None; srv_graceful_shutdown := from_secs 25 |};
     gc_timeouts := default_timeouts; gc_limits := default_limits;
     gc_upstreams := [(str_of "users", sample_upstream_config "http://users/ ")];
     gc_auth := {| au_jwt := [sample_jwt]; au_firebase := None;
                   au_machine := Some {| mc_headers := default_machine_headers; mc_secret := "machine-secret" |};
                   au_client_keys := Some sample_client_keys; au_token_cookies := ["session"];
                   au_cookie_protection := None |};
     gc_inject := {| in_headers := [(str_of "X-Api-Key", str_of "public-secret")]; in_machine := [] |};
     gc_reject := {| rj_client_headers := ["x-api-key"] |};
     gc_forward := {| fw_mode := Allowlist; fw_headers := []; fw_authorization := false; fw_preserve_host := false;
                      fw_trusted_proxies := 1; fw_trusted_proxy_ips := ["10.0.0.1"] |};
     gc_identity := default_identity;
     gc_routes := {| rc_file := None; rc_reload := from_secs 15; rc_internal := ["internal"]; rc_machine := [];
                     rc_public := [sample_route "users"]; rc_optional := []; rc_authenticated := [] |};
     gc_observability := {| ob_metrics := None; ob_tracing := None |};
     gc_dns := default_dns; gc_cors := None;
     gc_cache := Some {| ca_max_size := 67108864; ca_max_object_size := 1048576; ca_max_inflight_fill := 67108864;
                         ca_default_ttl := from_secs 60; ca_stale_while_revalidate := 0 |};
     gc_shared_counters := None |}.
Definition no_expansion : Interpolated := {| text := []; referenced := []; defaulted := []; placeheld := [] |}.
Definition sample_resolve := resolve_config (N:=Z) sample_parse_uri (fun _ => true) (fun _ => []) 0 sample_document no_expansion.



(** Two routes of one prefix, one of them for a host. *)
Definition on_host (hosts : list HostPattern) (id : str) (r : RouteConfig) : RouteConfig :=
  {| r_id := id; r_host := r_host r; r_hosts := hosts; r_prefix := r_prefix r;
     r_upstream := "users"; r_methods := r_methods r; r_sse := r_sse r;
     r_strip_prefix := r_strip_prefix r; r_enabled := r_enabled r; r_client_key := r_client_key r;
     r_bind := r_bind r; r_bindings := r_bindings r; r_cache := r_cache r;
     r_cache_authenticated := r_cache_authenticated r; r_retry := r_retry r;
     r_retry_policy := r_retry_policy r; r_rate_limit := r_rate_limit r; r_limiter := r_limiter r;
     r_concurrency := r_concurrency r; r_extensions := r_extensions r; r_auth := r_auth r;
     r_policy_origins := r_policy_origins r |}.
Definition two_routes : list RouteConfig :=
  [on_host [ExactHost "a.example"] "a" (sample_route "users"); on_host [] "any" (sample_route "users")].

Lemma two_routes_valid :
  match sample_resolve with
  | Ok r => validate_routes r true ["users"] two_routes = Ok tt
  | Err _ => False
  end.
Proof. vm_compute. reflexivity. Qed.

Lemma authorization_unambiguous_witness :
  match two_routes with
  | [a; b] => r_auth a = r_auth b /\ host_specific a <> host_specific b
  | _ => False
  end.
Proof.
  pose proof two_routes_valid as H. destruct sample_resolve as [r|e]; [|destruct H].
  refine (authorization_unambiguous (N:=Z) r true ["users"] two_routes 0 1 _ _ (Some (str_of "a.example")) "GET"
            H eq_refl eq_refl _ eq_refl eq_refl _ _); [lia|vm_compute; reflexivity..].
Defined.

