(* ===== verification/Suggest.v ===== *)
(** * Suggestions for misspelled names (config/mod.rs)

    The table of [edit_distance] against what it is meant to compute: the least
    number of single-character edits between two names. *)

From S2P Require Export Resolve.

(** ** Edit scripts *)

(** Turning one name into another by keeping, replacing, dropping and adding
    characters, with the number of the last three. *)
Inductive edits : list Z -> list Z -> Z -> Prop :=
| edits_nil : edits [] [] 0
| edits_keep c a b n : edits a b n -> edits (c :: a) (c :: b) n
| edits_replace c d a b n : edits a b n -> edits (c :: a) (d :: b) (n + 1)
| edits_drop c a b n : edits a b n -> edits (c :: a) b (n + 1)
| edits_add d a b n : edits a b n -> edits a (d :: b) (n + 1).

Lemma edits_app a b n a' b' m : edits a b n -> edits a' b' m -> edits (a ++ a') (b ++ b') (n + m).
Proof.
  intros H H'. induction H; cbn; [by replace (0 + m) with m by lia|by constructor|..];
    match goal with |- edits _ _ (?k + 1 + m) => replace (k + 1 + m) with (k + m + 1) by lia end;
    by constructor.
Qed.

Lemma edits_reverse a b n : edits a b n -> edits (reverse a) (reverse b) n.
Proof.
  induction 1 as [|c a b n _ IH|c d a b n _ IH|c a b n _ IH|d a b n _ IH]; [constructor|..];
    rewrite ?reverse_cons.
  - replace n with (n + 0) by lia. apply edits_app; [done|]. apply edits_keep, edits_nil.
  - apply edits_app; [done|]. change 1 with (0 + 1). apply edits_replace, edits_nil.
  - replace (reverse b) with (reverse b ++ []) by apply app_nil_r.
    apply edits_app; [done|]. change 1 with (0 + 1). apply edits_drop, edits_nil.
  - replace (reverse a) with (reverse a ++ []) by apply app_nil_r.
    apply edits_app; [done|]. change 1 with (0 + 1). apply edits_add, edits_nil.
Qed.

(** ** The recurrence *)

Fixpoint lev (a : list Z) : list Z -> Z :=
  match a with
  | [] => fun b => Z.of_nat (length b)
  | x :: a' =>
      fix along (b : list Z) : Z :=
        match b with
        | [] => Z.of_nat (length (x :: a'))
        | y :: b' =>
            Z.min (Z.min (lev a' b' + (if x =? y then 0 else 1)) (lev a' (y :: b') + 1)) (along b' + 1)
        end
  end.

Lemma lev_nil_l b : lev [] b = Z.of_nat (length b).
Proof. done. Qed.
Lemma lev_nil_r a : lev a [] = Z.of_nat (length a).
Proof. by destruct a. Qed.
Lemma lev_cons x a y b :
  lev (x :: a) (y :: b)
  = Z.min (Z.min (lev a b + (if x =? y then 0 else 1)) (lev a (y :: b) + 1)) (lev (x :: a) b + 1).
Proof. done. Qed.

Lemma lev_least a b n : edits a b n -> lev a b <= n.
Proof.
  induction 1 as [|c a b n _ IH|c d a b n _ IH|c a b n _ IH|d a b n _ IH].
  - done.
  - rewrite lev_cons, Z.eqb_refl. lia.
  - rewrite lev_cons. case_match; lia.
  - destruct b as [|y b]; [|rewrite lev_cons; lia]. rewrite lev_nil_r in *. cbn [length]. lia.
  - destruct a as [|x a]; [|rewrite lev_cons; lia]. rewrite lev_nil_l in *. cbn [length]. lia.
Qed.

Lemma lev_edits a b : edits a b (lev a b).
Proof.
  revert b. induction a as [|x a IHa]; intros b.
  - rewrite lev_nil_l. induction b as [|y b IH]; [constructor|]. cbn [length].
    replace (Z.of_nat (S (length b))) with (Z.of_nat (length b) + 1) by lia. by constructor.
  - induction b as [|y b IHb].
    + specialize (IHa []). rewrite lev_nil_r in *. cbn [length].
      replace (Z.of_nat (S (length a))) with (Z.of_nat (length a) + 1) by lia. by constructor.
    + rewrite lev_cons.
      destruct (Z.min_spec (lev a b + (if x =? y then 0 else 1)) (lev a (y :: b) + 1)) as [[_ ->]|[_ ->]];
        match goal with |- edits _ _ (Z.min ?u ?v) => destruct (Z.min_spec u v) as [[_ ->]|[_ ->]] end;
        try (by constructor).
      destruct (Z.eqb_spec x y) as [->|]; [rewrite Z.add_0_r|]; by constructor.
Qed.

Lemma lev_bound a b : 0 <= lev a b <= Z.of_nat (length a) + Z.of_nat (length b).
Proof.
  revert b. induction a as [|x a IHa]; intros b; [rewrite lev_nil_l; cbn [length]; lia|].
  induction b as [|y b IHb]; [rewrite lev_nil_r; cbn [length]; lia|].
  rewrite lev_cons. specialize (IHa b) as H1. specialize (IHa (y :: b)) as H2. cbn [length] in *.
  case_match; lia.
Qed.

(** ** The table *)

(** The cell of a row: the characters read of the first name, last first, against
    the first [j] of the second. *)
Definition cell (p b : list Z) (j : nat) : Z := lev p (reverse (take j b)).
Definition row (p b : list Z) (n : nat) : list Z := map (cell p b) (seq 0 n).

Lemma row_lookup p b n j : (j < n)%nat -> row p b n !! j = Some (cell p b j).
Proof.
  intros Hj. unfold row. change (map (cell p b) (seq 0 n)) with (cell p b <$> seq 0 n).
  rewrite list_lookup_fmap, lookup_seq_lt by done. done.
Qed.

Lemma row_snoc p b n : row p b (S n) = row p b n ++ [cell p b n].
Proof. unfold row. by rewrite seq_S, map_app. Qed.

Lemma cell_step c p b j d :
  b !! j = Some d ->
  cell (c :: p) b (S j)
  = Z.min (Z.min (cell p b j + (if c =? d then 0 else 1)) (cell p b (S j) + 1)) (cell (c :: p) b j + 1).
Proof.
  intros Hd. unfold cell. rewrite (take_S_r _ _ _ Hd), reverse_snoc. apply lev_cons.
Qed.

Lemma cell_bound p b j : 0 <= cell p b j <= Z.of_nat (length p) + Z.of_nat (length b).
Proof.
  unfold cell. pose proof (lev_bound p (reverse (take j b))) as H.
  rewrite length_reverse, length_take in H. lia.
Qed.

Lemma next_row_from c p b l j :
  Z.of_nat (length p) + Z.of_nat (length b) + 1 < usize_max -> drop j b = l ->
  fold_left (fun cur jc =>
      let '(j, cb) := jc in
      let substitute := default usize_max (row p b (S (length b)) !! (j : nat)) in
      let delete := default usize_max (row p b (S (length b)) !! S j) in
      let insert := default usize_max (cur !! j) in
      let cost := if c =? cb then 0 else 1 in
      cur ++ [Z.min (Z.min (sat_add usize_max substitute cost) (sat_add usize_max delete 1))
                (sat_add usize_max insert 1)])
    (imap (fun k d => ((j + k)%nat, d)) l) (row (c :: p) b (S j))
  = row (c :: p) b (S (j + length l)).
Proof.
  intros Hlen. revert j. induction l as [|d l IH]; intros j Hdrop.
  { cbn. by rewrite Nat.add_0_r. }
  assert (b !! j = Some d) as Hd.
  { rewrite <-(Nat.add_0_r j), <-lookup_drop, Hdrop. done. }
  assert (j < length b)%nat as Hj by (by eapply lookup_lt_Some).
  rewrite imap_cons. cbn [fold_left]. rewrite Nat.add_0_r.
  rewrite !row_lookup by lia. cbn [default from_option].
  pose proof (cell_bound p b j) as B1. pose proof (cell_bound p b (S j)) as B2.
  pose proof (cell_bound (c :: p) b j) as B3. cbn [length] in B3. cbn [default]. unfold id.
  rewrite !sat_add_exact by (repeat case_match; lia).
  rewrite <-cell_step by done. rewrite <-row_snoc.
  replace (j + length (d :: l))%nat with (S j + length l)%nat by (cbn; lia).
  rewrite <-(IH (S j)).
  - f_equal. apply imap_ext. intros k x _. cbn. f_equal. lia.
  - replace (S j) with (j + 1)%nat by lia. rewrite <-drop_drop, Hdrop. done.
Qed.

Lemma next_row_correct c p b :
  Z.of_nat (length p) + Z.of_nat (length b) + 1 < usize_max ->
  next_row (Z.of_nat (length p)) c b (row p b (S (length b))) = row (c :: p) b (S (length b)).
Proof.
  intros Hlen. unfold next_row. rewrite sat_add_exact by lia.
  replace (Z.of_nat (length p) + 1) with (Z.of_nat (length (c :: p))) by (cbn [length]; lia).
  pose proof (next_row_from c p b b 0 Hlen eq_refl) as H. cbn [Nat.add] in H.
  rewrite <-H. f_equal.
Qed.

Lemma distance_rows_correct a b p :
  Z.of_nat (length a) + Z.of_nat (length p) + Z.of_nat (length b) + 1 < usize_max ->
  distance_rows (Z.of_nat (length p)) a b (row p b (S (length b))) = row (reverse a ++ p) b (S (length b)).
Proof.
  revert p. induction a as [|c a IH]; intros p Hlen; [done|]. cbn [distance_rows length] in *.
  rewrite next_row_correct by lia.
  replace (Z.of_nat (length p) + 1) with (Z.of_nat (length (c :: p))) by (cbn [length]; lia).
  rewrite IH by (cbn [length]; lia). by rewrite reverse_cons, <-app_assoc.
Qed.

(** ** Theorems *)

(** The row-by-row table computes the edit distance: for names of any
    length that fits in memory, the number it returns is that of some edit
    script between them, and no script has fewer edits. *)
Lemma edit_distance_least a b
  (Hlen : Z.of_nat (length (chars a)) + Z.of_nat (length (chars b)) + 1 < usize_max) :
  edits (chars a) (chars b) (edit_distance a b) /\
  forall n, edits (chars a) (chars b) n -> edit_distance a b <= n.
Proof.
  assert (edit_distance a b = lev (reverse (chars a)) (reverse (chars b))) as ->.
  { unfold edit_distance. set (x := chars a) in *. set (y := chars b) in *.
    assert (map Z.of_nat (seq 0 (S (length y))) = row [] y (S (length y))) as ->.
    { unfold row. apply list_eq_Forall2, Forall2_fmap, Forall_Forall2_diag, Forall_elem.
      intros j Hj%list_elem_of_In%in_seq. unfold cell. rewrite lev_nil_l, length_reverse, length_take. lia. }
    pose proof (distance_rows_correct x y []) as H. change (Z.of_nat (length (@nil Z))) with 0 in H. rewrite H by lia.
    rewrite app_nil_r, row_snoc, last_snoc. cbn. unfold cell. by rewrite firstn_all. }
  split.
  - rewrite <-(reverse_involutive (chars a)), <-(reverse_involutive (chars b)) at 1.
    apply edits_reverse, lev_edits.
  - intros n H%edits_reverse. by apply lev_least.
Qed.

(** ** Witnesses *)

Example did_you_mean_cases :
  map (fun n => did_you_mean n ["users"; "orders"; "payments"]) ["user"; "oders"; "xyz"]
  = [Some (str_of "users"); Some (str_of "orders"); None].
Proof. vm_compute. reflexivity. Qed.
