(* ===== verification/Proxy.v ===== *)
(** * The request filter (proxy.rs)

    [request_filter] makes every decision about a request: it answers the client
    or leaves, in the request's context, the plan by which the request goes
    upstream.  Each stage of the Rust function is a definition here, in the
    order of the code; what a stage asks of the rest of the process is an effect
    of Effects.v.  Logging, metrics and the narration of [gateway dev] do not
    change what happens to a request and are left out. *)

From S2P Require Export Gateway Ext.

Section Gateway.
Context {N : Type} `{HN : JsonNumber N} `{HC : Crates N}.

(** ** The gateway *)

(** [Upstream]: what it dials, and whether a circuit breaker guards it. *)
Record Upstream := { us_kind : Kind; us_breaker : option CircuitBreakerConfig }.

Record Gateway := {
  gw_cfg : ResolvedConfig N;
  gw_upstreams : gmap str Upstream;
  gw_verifier : bool;
  gw_extensions : list str;
  gw_base_paths : list str;
  gw_serves_machine : bool;
  gw_forwardable : list str;
  gw_dev : bool;
  gw_sample_ratio : option f64;
  gw_cache : bool;
}.

Definition STRUCTURAL_HEADERS : list str :=
  ["host"; "content-type"; "content-length"; "transfer-encoding"; "accept"; "accept-encoding";
   "accept-language"; "connection"; "expect"; "range"].

Definition gateway_new (dev : bool) (cfg : ResolvedConfig N) (ups : gmap str Upstream) (verifier : bool)
    (extensions : list str) : Gateway :=
  let fwd := gc_forward (raw cfg) in
  {| gw_cfg := cfg; gw_upstreams := ups; gw_verifier := verifier; gw_extensions := extensions;
     gw_base_paths := base_paths cfg; gw_serves_machine := false;
     gw_forwardable :=
       STRUCTURAL_HEADERS ++ map to_ascii_lowercase (fw_headers fwd)
       ++ (if fw_authorization fwd then [str_of "authorization"] else [])
       ++ map fst (injected_headers cfg) ++ map fst (machine_injected_headers cfg)
       ++ match client_key_forward_as cfg with Some h => [h] | None => [] end;
     gw_dev := dev;
     gw_sample_ratio := tc_sample_ratio <$> ob_tracing (gc_observability (raw cfg));
     gw_cache := match gc_cache (raw cfg) with Some _ => true | None => false end |}.

Definition for_machine_tier (g : Gateway) : Gateway :=
  {| gw_cfg := gw_cfg g; gw_upstreams := gw_upstreams g; gw_verifier := gw_verifier g;
     gw_extensions := gw_extensions g; gw_base_paths := gw_base_paths g; gw_serves_machine := true;
     gw_forwardable := gw_forwardable g; gw_dev := gw_dev g; gw_sample_ratio := gw_sample_ratio g;
     gw_cache := gw_cache g |}.

Definition is_forwardable (g : Gateway) (name : str) : bool := existsb (fun n => n ==? name) (gw_forwardable g).

(** [strip_base]: the mounts in order, each on a segment boundary. *)
Fixpoint strip_mounts (mounts : list str) (p : str) : option str :=
  match mounts with
  | [] => None
  | base :: rest =>
      if base ==? [] then Some p
      else match strip_prefix base p with
           | Some [] => Some []
           | Some (c :: r) => if c =? b_slash then Some r else strip_mounts rest p
           | None => strip_mounts rest p
           end
  end.
Definition strip_base (g : Gateway) (request_path : str) : option str :=
  strip_mounts (gw_base_paths g) (trim_start_matches (Z.eqb b_slash) request_path).

Definition matched_mount (g : Gateway) (request_path : str) : str :=
  let p := trim_start_matches (Z.eqb b_slash) request_path in
  default [] (List.find (fun base =>
    (base ==? []) || (p ==? base)
    || match strip_prefix base p with Some r => starts_with [b_slash] r | None => false end)
    (gw_base_paths g)).

(** [sample]: the low 32 bits of the identifier against the ratio. *)
Definition low32 (uuid : list Z) : Z := fold_left (fun acc b => acc * 256 + b) (drop 12 uuid) 0.
Definition sampled_bucket (ratio : f64) (uuid : list Z) : bool :=
  f64_lt (f64_div (f64_of_u64 (low32 uuid)) (f64_of_u64 u32_max)) ratio.

(** ** The context of a request *)

Record PendingSlot := { ps_key : str; ps_max : Z; ps_per_caller : bool }.

Record Ctx := {
  cx_request_id : str;
  cx_client_ip : option str;
  cx_method : str;
  cx_path : str;
  cx_upstream_path : option str;
  cx_query : option str;
  cx_route_id : str;
  cx_upstream_name : str;
  cx_plan : HeaderPlan;
  cx_sse : bool;
  cx_timeout : Z;
  cx_started : option Z;
  cx_status : Z;
  cx_body_bytes : Z;
  cx_mount : str;
  cx_tier : option AuthTier;
  cx_subject : option str;
  cx_client_key_id : option str;
  cx_credential : option str;
  cx_extensions_run : list str;
  cx_rejection : option (str * str);
  cx_failed_binding : option str;
  cx_bindings_met : list str;
  cx_rate_limit : option (Z * Z);
  cx_retry_after : option Z;
  cx_cors : option header_list;
  cx_cacheable_route : bool;
  cx_cache_namespace : Z;
  cx_client_authorized : bool;
  cx_breaker_upstream : option str;
  cx_circuit : option State;
  cx_retry : option Policy;
  cx_attempts : Z;
  cx_trace : option TraceContext;
  cx_target : option UpstreamTarget;
  cx_dns_start : option Z;
  cx_dns_candidates : nat;
  cx_dns_attempts : Z;
  cx_dns_failovers : Z;
  cx_concurrency : option PendingSlot;
  cx_inflight : option Slot;
}.

Definition new_ctx : Ctx :=
  {| cx_request_id := []; cx_client_ip := None; cx_method := []; cx_path := []; cx_upstream_path := None;
     cx_query := None; cx_route_id := []; cx_upstream_name := []; cx_plan := plan_new; cx_sse := false;
     cx_timeout := 0; cx_started := None; cx_status := 0; cx_body_bytes := 0; cx_mount := [];
     cx_tier := None; cx_subject := None; cx_client_key_id := None; cx_credential := None;
     cx_extensions_run := []; cx_rejection := None; cx_failed_binding := None; cx_bindings_met := [];
     cx_rate_limit := None; cx_retry_after := None; cx_cors := None; cx_cacheable_route := false;
     cx_cache_namespace := 0; cx_client_authorized := false; cx_breaker_upstream := None;
     cx_circuit := None; cx_retry := None; cx_attempts := 0; cx_trace := None; cx_target := None;
     cx_dns_start := None; cx_dns_candidates := 0; cx_dns_attempts := 0; cx_dns_failovers := 0;
     cx_concurrency := None; cx_inflight := None |}.

#[export] Instance Ctx_rebuild : Rebuild Ctx := fun c =>
  {| cx_request_id := cx_request_id c; cx_client_ip := cx_client_ip c; cx_method := cx_method c;
     cx_path := cx_path c; cx_upstream_path := cx_upstream_path c; cx_query := cx_query c;
     cx_route_id := cx_route_id c; cx_upstream_name := cx_upstream_name c; cx_plan := cx_plan c;
     cx_sse := cx_sse c; cx_timeout := cx_timeout c; cx_started := cx_started c; cx_status := cx_status c;
     cx_body_bytes := cx_body_bytes c; cx_mount := cx_mount c; cx_tier := cx_tier c;
     cx_subject := cx_subject c; cx_client_key_id := cx_client_key_id c; cx_credential := cx_credential c;
     cx_extensions_run := cx_extensions_run c; cx_rejection := cx_rejection c;
     cx_failed_binding := cx_failed_binding c; cx_bindings_met := cx_bindings_met c;
     cx_rate_limit := cx_rate_limit c; cx_retry_after := cx_retry_after c; cx_cors := cx_cors c;
     cx_cacheable_route := cx_cacheable_route c; cx_cache_namespace := cx_cache_namespace c;
     cx_client_authorized := cx_client_authorized c; cx_breaker_upstream := cx_breaker_upstream c;
     cx_circuit := cx_circuit c; cx_retry := cx_retry c; cx_attempts := cx_attempts c;
     cx_trace := cx_trace c; cx_target := cx_target c; cx_dns_start := cx_dns_start c;
     cx_dns_candidates := cx_dns_candidates c; cx_dns_attempts := cx_dns_attempts c;
     cx_dns_failovers := cx_dns_failovers c; cx_concurrency := cx_concurrency c;
     cx_inflight := cx_inflight c |}.

(** ** Answers *)

Record Response := { rs_status : Z; rs_headers : list (str * str); rs_body : list Z }.

(** [ResponseHeader::insert_header]: one value per name. *)
Definition response_insert (name value : str) (h : list (str * str)) : list (str * str) :=
  List.filter (fun nv => negb (nv.1 ==? name)) h ++ [(name, value)].
Definition insert_headers (more h : list (str * str)) : list (str * str) :=
  fold_left (fun h nv => response_insert nv.1 nv.2 h) more h.

Definition json_headers (body : list Z) : list (str * str) :=
  response_insert "content-length" (show_u64 (Z.of_nat (length body)))
    (response_insert "content-type" "application/json" []).

(** [send] and [send_with_retry_after]. *)
Definition send (status : Z) (body : list Z) : Response :=
  {| rs_status := status; rs_headers := json_headers body; rs_body := body |}.
Definition send_with_retry_after (status : Z) (body : list Z) (retry_after : option Z)
    (cors : option header_list) : Response :=
  let h := insert_headers (default [] cors) (json_headers body) in
  {| rs_status := status;
     rs_headers := match retry_after with
                   | Some secs => response_insert "retry-after" (show_u64 secs) h
                   | None => h
                   end;
     rs_body := body |}.

Definition send_preflight (headers : header_list) : Response :=
  {| rs_status := 204; rs_headers := response_insert "content-length" "0" (insert_headers headers []);
     rs_body := [] |}.

(** A stage of the filter: it may answer the client, and end there. *)
Definition stage (A : Type) := action (gatewayE N) Ctx Response A.

Variable g : Gateway.
Let cfg := gw_cfg g.
Let doc := raw (gw_cfg g).

Definition rejected_ctx (rej : Rejection N) (c : Ctx) : Ctx :=
  let c := c <| cx_status := rej_status rej |> in
  if gw_dev g then c <| cx_rejection := Some (rej_event rej, rej_reason rej) |> else c.

Definition reject {A} (rej : Rejection N) : stage A :=
  do! update (rejected_ctx rej) in
  let! c := read_ctx in
  answer (send_with_retry_after (rej_status rej) (body_bytes to_vec rej) (cx_retry_after c) (cx_cors c)).

(** Reject where a value is missing. *)
Definition or_reject {A} (o : option A) (rej : Rejection N) : stage A :=
  match o with Some a => aret a | None => reject rej end.

(** ** Reading the request *)

Definition header_str (rq : Request) (name : str) : option str := letO v := hget (rq_headers rq) name in to_str v.
Definition cookie_values (rq : Request) : list str := omap to_str (hget_all (rq_headers rq) "cookie").
Definition peer_ip (rq : Request) : option str := letO p := rq_client_addr rq in socket_peer_ip p.

(** The token a cookie carries, where the configuration names cookies. *)
Definition request_cookie_token (rq : Request) : option str :=
  let names := au_token_cookies (gc_auth doc) in
  if names ==? [] then None else cookie_token (cookie_values rq) names.

Definition forwarded_depth (rq : Request) : nat :=
  trusted_proxy_depth cfg (peer_ip rq) (fw_trusted_proxies (gc_forward doc)).

(** The beginning of the filter: what is recorded before anything can refuse
    the request. *)
Definition receive (rq : Request) : stage () :=
  let! now := asks InstantNow in
  do! update (fun c => c <| cx_started := Some now |>) in
  let! request_id :=
    match (letO v := header_str rq "x-request-id" in if v ==? [] then None else Some v) with
    | Some v => aret v
    | None => let! u := asks NewUuid in aret (uuid_to_string u)
    end in
  do! update (fun c => c <| cx_client_ip := (forwarded_for to_str (rq_headers rq) (peer_ip rq) (forwarded_depth rq)).2 |>) in
  do! update (fun c => c
    <| cx_request_id := request_id |>
    <| cx_client_authorized :=
         negb (hget (rq_headers rq) "authorization" ==? None) || negb (request_cookie_token rq ==? None) |>) in
  do! update (fun c =>
    match cors cfg, header_str rq "origin" with
    | Some p, Some origin => c <| cx_cors := response p origin |>
    | _, _ => c
    end) in
  update (fun c => c <| cx_method := rq_method rq |> <| cx_query := rq_query rq |>).

Definition health_body (routes : nat) : value N :=
  Object [(str_of "status", VString "ok"); (str_of "service", VString (srv_service_name (gc_server doc)));
          (str_of "routes", Number (num_of_u64 (Z.of_nat routes)))].

Definition health (rq : Request) : stage () :=
  if rq_path rq ==? srv_health_path (gc_server doc) then
    do! update (fun c => c <| cx_status := 200 |>) in
    let! table := asks LoadTable in
    answer (send 200 (default [] (to_vec (health_body (length (table_routes table))))))
  else aret tt.

(** A header only the gateway may set, as the client sent it. *)
Definition client_sent (rq : Request) (name : str) : bool :=
  match header_str rq name with Some v => negb (v ==? []) | None => false end.

Definition credential_rejected (name : str) : Rejection N :=
  let rej := forbidden "Forbidden" ("client_sent_" ++ name) in
  rejection_new (rej_status rej) (rej_body rej) "gateway.credential.rejected" (rej_reason rej).

Definition early_refusals (rq : Request) : stage () :=
  if content_length_over_limit to_str (rq_headers rq) (lt_max_body (gc_limits doc)) then reject payload_too_large
  else
    match List.find (client_sent rq)
            (List.filter (fun _ => negb (gw_serves_machine g)) (rj_client_headers (gc_reject doc))) with
    | Some name => reject (credential_rejected name)
    | None => aret tt
    end.

(** The canonical path, which every later decision is about. *)
Definition resolve_path (rq : Request) : stage str :=
  do! update (fun c => if gw_dev g then c <| cx_mount := matched_mount g (rq_path rq) |> else c) in
  let! raw_sub := or_reject (strip_base g (rq_path rq)) (not_found "gateway.route.denied" "outside_base_path") in
  let! path := or_reject (canonicalize_proxy_path percent_decode raw_sub)
                 (not_found "gateway.route.denied" "unsafe_path") in
  do! update (fun c => c <| cx_path := path |>) in
  aret path.

Definition deny (table : RouteTable) (path : str) : stage () :=
  if is_denied table path then reject (not_found "gateway.route.denied" "deny_list") else aret tt.

Definition preflight_headers (rq : Request) (table : RouteTable) (path : str) : option header_list :=
  letO p := cors cfg in
  letO origin := header_str rq "origin" in
  letO requested := header_str rq "access-control-request-method" in
  letO _ := match_request table (header_str rq "host") path requested in
  preflight p origin requested.

Definition answer_preflight (rq : Request) (table : RouteTable) (path : str) : stage () :=
  if rq_method rq ==? "OPTIONS" then
    match preflight_headers rq table path with
    | Some headers =>
        do! update (fun c => c <| cx_status := 204 |> <| cx_cors := Some headers |>) in
        answer (send_preflight headers)
    | None => aret tt
    end
  else aret tt.

Definition find_route (rq : Request) (table : RouteTable) (path : str) : stage RouteConfig :=
  let! route := or_reject (match_request table (header_str rq "host") path (rq_method rq))
                  (not_found "gateway.route.denied" "not_allowlisted") in
  if gw_upstreams g !! r_upstream route ==? (None : option Upstream) then
    reject (unavailable "Upstream not configured" ("no_upstream_" ++ r_upstream route))
  else aret route.

(** ** Authentication and admission *)

Definition DEFAULT_MACHINE_HEADERS : list str := ["x-internal-api-key"; "x-api-key"].

Definition machine_headers : list str :=
  match au_machine (gc_auth doc) with Some m => mc_headers m | None => DEFAULT_MACHINE_HEADERS end.

(** The first of the machine headers that is there, as text. *)
Definition machine_credential (rq : Request) : str :=
  default [] (letO v := find_map (hget (rq_headers rq)) machine_headers in to_str v).

(** The comparison takes constant time; its answer is equality. *)
Definition authenticate_machine (rq : Request) (route : RouteConfig) : stage () :=
  if r_auth route ==? Machine then
    let! expected := or_reject (machine_secret cfg)
                       (unavailable "Machine authentication is not configured" "no_machine_secret") in
    if machine_credential rq ==? expected then aret tt
    else reject (not_found "gateway.machine.rejected" "bad_machine_credential")
  else aret tt.

(** [Gateway::limit_key]: the key a limit or a cap counts a request under. *)
Definition request_key (rq : Request) (key : RateLimitKey) (missing : MissingKey) (trusted_proxies : nat)
    (route_id : str) (subject : option str) : result (option str) KeyError :=
  let trusted := trusted_proxy_depth cfg (peer_ip rq) trusted_proxies in
  let forwarded := if (0 <? trusted)%nat then forwarded_for_chain to_str (rq_headers rq) else None in
  admission_key to_str key missing trusted_proxies route_id subject forwarded (peer_ip rq) (rq_headers rq).

Definition check_rate_limit (rq : Request) (rl : RateLimitConfig) (route : RouteConfig) (limiter : LimiterRef)
    (subject : option str) : stage () :=
  match request_key rq (rl_key rl) (rl_missing_key rl) (rl_trusted_proxies rl) (r_id route) subject with
  | Err error => reject (limit_key error)
  | Ok None => aret tt
  | Ok (Some key) =>
      let! d := asks (Decide limiter key) in
      do! update (fun c => if gw_dev g then c <| cx_rate_limit := Some (remaining d, limit d) |> else c) in
      if allowed d then aret tt
      else
        let retry := Z.max 1 (as_secs (retry_after d)) in
        do! update (fun c => c <| cx_retry_after := Some retry |>) in
        reject (rate_limited retry)
  end.

(** The two passes of the limiter: [of_identity] selects the one after the
    token was verified. *)
Definition rate_limit_pass (of_identity : bool) (rq : Request) (route : RouteConfig) (subject : option str)
  : stage () :=
  match r_rate_limit route, r_limiter route with
  | Some rl, Some limiter =>
      if Bool.eqb (rl_key rl ==? KeyIdentity) of_identity
      then check_rate_limit rq rl route limiter subject
      else aret tt
  | _, _ => aret tt
  end.

Definition match_client_key (presented : list Z) : option ClientKey :=
  List.find (fun k => key_matches k (digest_of presented)) (client_keys cfg).

Definition check_client_key (rq : Request) (route : RouteConfig) (path : str) : stage (option str) :=
  if negb (gw_serves_machine g) && (client_key_rule cfg route path ==? RuleRequired) then
    let header := default [] (client_key_header cfg) in
    match hget_all (rq_headers rq) header with
    | [] | [] :: _ => reject (missing_client_key header)
    | presented :: more =>
        match match_client_key presented, more with
        | Some key, [] => aret (Some (key_id key))
        | _, _ => reject invalid_client_key
        end
    end
  else aret None.

(** A credential and where it came from. *)
Definition presented_token (rq : Request) : option (str * str) :=
  match (letO a := header_str rq "authorization" in bearer_token a), request_cookie_token rq with
  | Some token, _ => Some (token, str_of "header")
  | None, Some token => Some (token, str_of "cookie")
  | None, None => None
  end.

Definition check_cookie_origin (rq : Request) : stage () :=
  match presented_token rq, cookie_protection cfg with
  | Some (_, from), Some policy =>
      if from ==? "cookie" then
        match cookie_check url_parse to_str policy (rq_headers rq) (rq_method rq) with
        | Ok _ => aret tt
        | Err reason => reject (forbidden "Cookie request origin is not permitted" reason)
        end
      else aret tt
  | _, _ => aret tt
  end.

Definition verify_token (token : str) : stage (Identity N) :=
  if negb (gw_verifier g) then reject (unavailable "Authentication is not configured" "no_verifier")
  else
    let! r := asks (Verify token) in
    match r with
    | Ok id => aret id
    | Err (UnknownIssuer project) =>
        reject (unavailable "Token issuer is not configured on this gateway"
                  ("unknown_issuer_" ++ untrusted escape_debug project))
    | Err (Unavailable detail) => reject (unavailable "Unable to verify credentials" detail)
    | Err (Invalid detail) => reject (invalid_token detail)
    end.

Definition authenticate (rq : Request) (route : RouteConfig) : stage (option (Identity N)) :=
  if negb (verifies (r_auth route)) then aret None
  else if (1 <? length (hget_all (rq_headers rq) "authorization"))%nat then
    reject (invalid_token "ambiguous_authorization")
  else
    do! check_cookie_origin rq in
    match presented_token rq with
    | None =>
        if r_auth route ==? Optional then aret None else reject missing_bearer
    | Some (token, from) =>
        do! update (fun c => c <| cx_credential := Some from |>) in
        if lt_max_token (gc_limits doc) <? Z.of_nat (length token) then reject (invalid_token "token_too_long")
        else let! id := verify_token token in aret (Some id)
    end.

(** The only value of a header, for a binding. *)
Definition sole_header (rq : Request) (name : str) : option str :=
  match hget_all (rq_headers rq) name with
  | v :: more => letO s := to_str v in if is_nil more then Some s else None
  | [] => None
  end.

Fixpoint check_each_binding (rq : Request) (id : Identity N) (bindings : list Binding) : stage () :=
  match bindings with
  | [] => aret tt
  | b :: rest =>
      if Binding.permits percent_decode b id (rq_query rq) (sole_header rq) then check_each_binding rq id rest
      else
        do! update (fun c => if gw_dev g then c <| cx_failed_binding := Some (describe b) |> else c) in
        reject (forbidden "Forbidden" "binding_refused")
  end.

Definition check_bindings (rq : Request) (route : RouteConfig) (identity : option (Identity N)) : stage () :=
  if is_nil (r_bindings route) then aret tt
  else
    let! id := or_reject identity (forbidden "Forbidden" "bind_without_identity") in
    check_each_binding rq id (r_bindings route).

(** ** The header plan *)

Definition injected : list (str * str) :=
  if gw_serves_machine g then machine_injected_headers cfg else injected_headers cfg.

Definition base_header_plan (rq : Request) : HeaderPlan :=
  let plan := fold_left (fun p h => plan_strip h p) HOP_BY_HOP plan_new in
  let plan := fold_left (fun p nv => plan_set nv.1 nv.2 p) injected plan in
  let plan :=
    if gw_serves_machine g then
      fold_left (fun p name => if existsb (fun nv => nv.1 ==? name) injected then p else plan_strip name p)
        [str_of "x-api-key"; str_of "x-internal-api-key"] plan
    else plan in
  let '(xff, real_ip) := forwarded_for to_str (rq_headers rq) (peer_ip rq) (forwarded_depth rq) in
  let plan := plan_strip "x-real-ip" (plan_strip "x-forwarded-for" plan) in
  let plan := match xff with Some v => plan_set "x-forwarded-for" v plan | None => plan end in
  match real_ip with Some v => plan_set "x-real-ip" v plan | None => plan end.

(** [sample]: an identifier is drawn only strictly between the two ends. *)
Definition sample (ratio : f64) : stage bool :=
  if f64_ge ratio f64_one then aret true
  else if f64_ge f64_zero ratio then aret false
  else let! u := asks NewUuid in aret (sampled_bucket ratio u).

Definition continue_trace (rq : Request) (plan : HeaderPlan) : stage HeaderPlan :=
  match gw_sample_ratio g with
  | None => aret plan
  | Some ratio =>
      let incoming := header_str rq "traceparent" in
      let! sampled := sample ratio in
      let! fresh := match (letO s := incoming in parse_traceparent s) with
                    | Some _ => aret []
                    | None => asks NewUuid
                    end in
      let! span := asks NewUuid in
      let trace := continue_from fresh span incoming sampled in
      do! update (fun c => c <| cx_trace := Some trace |>) in
      aret (plan_set "traceparent" (to_header trace) plan)
  end.

Definition identity_rejection (e : IdentityError) : Rejection N :=
  match e with
  | ClaimError detail => invalid_token ("unrepresentable_identity: " ++ detail)
  | MintError detail =>
      unavailable "Unable to sign caller identity"
        ("identity_mint_failed: " ++ detail)
  end.

(** The clock is read where a token is minted. *)
Definition describe_caller (identity : option (Identity N)) (plan : HeaderPlan) : stage HeaderPlan :=
  let ic := gc_identity doc in
  match identity with
  | None => aret (strip_all plan ic)
  | Some id =>
      let! now := match ic_token ic, identity_secret cfg with
                  | Some _, Some _ => asks EpochSecs
                  | _, _ => aret 0
                  end in
      match identity_apply (fun m => to_vec (Object m)) base64url jwt_encode plan ic (identity_secret cfg) id now with
      | Ok plan => aret plan
      | Err e => reject (identity_rejection e)
      end
  end.

(** Where credentials are not forwarded, neither is the header nor the token
    cookies; the rest of [Cookie] is left as it is. *)
Definition strip_credentials (rq : Request) (plan : HeaderPlan) : HeaderPlan :=
  if fw_authorization (gc_forward doc) then plan
  else
    let plan := plan_strip "authorization" plan in
    let names := au_token_cookies (gc_auth doc) in
    let cookie_forwarded := negb (fw_mode (gc_forward doc) ==? Allowlist) || is_forwardable g "cookie" in
    if negb (names ==? []) && cookie_forwarded then
      match cookie_values rq with
      | [] => plan
      | values => match strip_cookies values names with
                  | Some rest => plan_set "cookie" rest plan
                  | None => plan_strip "cookie" plan
                  end
      end
    else plan.

Definition client_key_headers (client_key_id : option str) (plan : HeaderPlan) : HeaderPlan :=
  if gw_serves_machine g then plan
  else
    let plan := match client_key_header cfg with Some h => plan_strip h plan | None => plan end in
    match client_key_forward_as cfg with
    | Some h => match client_key_id with Some id => plan_set h id plan | None => plan_strip h plan end
    | None => plan
    end.

Definition build_plan (rq : Request) (identity : option (Identity N)) (client_key_id : option str)
  : stage HeaderPlan :=
  let! c := read_ctx in
  let plan := plan_set "x-request-id" (cx_request_id c) (base_header_plan rq) in
  let! plan := continue_trace rq plan in
  let! plan := describe_caller identity plan in
  aret (client_key_headers client_key_id (strip_credentials rq plan)).

Definition run_extensions (rq : Request) (route : RouteConfig) (path : str) (identity : option (Identity N))
    (plan : HeaderPlan) : stage HeaderPlan :=
  let cx := {| xc_path := path; xc_method := rq_method rq; xc_query := rq_query rq; xc_route := route;
               xc_identity := identity; xc_client_headers := rq_headers rq |} in
  let t := gc_timeouts doc in
  let! r := lift (run_chain (gw_extensions g) cx (t_extension t) (t_extension_chain t)
                    (lt_extension_inflight (gc_limits doc)) plan) in
  match r with
  | Ok plan => aret plan
  | Err rej => reject rej
  end.

(** ** Admission *)

(** The slot a request will need, keyed while its headers are at hand. *)
Definition plan_slot (rq : Request) (route : RouteConfig) (subject : option str) : stage () :=
  match r_concurrency route with
  | None => aret tt
  | Some cap =>
      match request_key rq (concurrency_key cap) (cc_missing_key cap) (cc_trusted_proxies cap) (r_id route) subject with
      | Err error => reject (limit_key error)
      | Ok key =>
          update (fun c => c <| cx_concurrency :=
            (fun k => {| ps_key := k; ps_max := cc_max cap;
                         ps_per_caller := per_caller cap
                                          && negb (strip_prefix (r_id route) k ==? Some (str_of "|")) |}) <$> key |>)
      end
  end.

Definition request_timeout (rq : Request) (route : RouteConfig) : Z :=
  let t := gc_timeouts doc in
  if r_sse route then t_sse t
  else if is_upload_content_type (header_str rq "content-type") then t_upload t
  else t_default t.

Definition admitted_ctx (rq : Request) (table : RouteTable) (route : RouteConfig) (path : str)
    (subject client_key_id : option str) (c : Ctx) : Ctx :=
  let c := c <| cx_subject := subject |> <| cx_client_key_id := client_key_id |> in
  let c := if gw_dev g then
             c <| cx_bindings_met := map describe (r_bindings route) |> <| cx_tier := Some (r_auth route) |>
               <| cx_extensions_run := r_extensions route |>
           else c in
  let c := c <| cx_cacheable_route := r_cache route |> <| cx_cache_namespace := cache_namespace table |>
             <| cx_retry := r_retry_policy route |> <| cx_route_id := r_id route |>
             <| cx_upstream_name := r_upstream route |> <| cx_sse := r_sse route |> in
  if r_strip_prefix route then c <| cx_upstream_path := Some (upstream_path route path) |> else c.

Definition admit_request (rq : Request) (table : RouteTable) (route : RouteConfig) (path : str)
    (subject client_key_id : option str) (plan : HeaderPlan) : stage () :=
  do! update (fun c => c <| cx_plan := plan |>) in
  do! plan_slot rq route subject in
  do! update (admitted_ctx rq table route path subject client_key_id) in
  do! (if r_sse route then asks (SetSession (WriteTimeout (t_sse (gc_timeouts doc)))) else aret tt) in
  update (fun c => c <| cx_timeout := request_timeout rq route |>).

(** ** The filters *)

Definition early_request_filter : stage () :=
  let t := gc_timeouts doc in
  do! asks (SetSession (ReadTimeout (t_downstream_read t))) in
  do! asks (SetSession (WriteTimeout (t_downstream_write t))) in
  do! asks (SetSession (TotalDrainTimeout (t_downstream_drain t))) in
  do! asks (SetSession (Keepalive (as_secs (t_downstream_keepalive t)))) in
  match lt_min_send_rate (gc_limits doc) with
  | Some rate => if 0 <? rate then asks (SetSession (MinSendRate rate)) else aret tt
  | None => aret tt
  end.

(** Whether a request to [route] may go upstream, and as whom. *)
Definition authorize (rq : Request) (route : RouteConfig) (path : str)
  : stage (option str * option (Identity N)) :=
  do! authenticate_machine rq route in
  do! rate_limit_pass false rq route None in
  let! client_key_id := check_client_key rq route path in
  let! identity := authenticate rq route in
  do! rate_limit_pass true rq route (subject <$> identity) in
  do! check_bindings rq route identity in
  aret (client_key_id, identity).

(** Which route of which table a request is for. *)
Definition route_request (rq : Request) : stage (RouteTable * str * RouteConfig) :=
  do! receive rq in
  do! health rq in
  do! early_refusals rq in
  let! path := resolve_path rq in
  let! table := asks LoadTable in
  do! deny table path in
  do! answer_preflight rq table path in
  let! route := find_route rq table path in
  aret (table, path, route).

Definition request_filter (rq : Request) : stage () :=
  let! (table, path, route) := route_request rq in
  let! (client_key_id, identity) := authorize rq route path in
  let! plan := build_plan rq identity client_key_id in
  let! plan := run_extensions rq route path identity plan in
  admit_request rq table route path (subject <$> identity) client_key_id plan.
End Gateway.
