(* ===== verification/Samples.v ===== *)
(** * A sample gateway

    A resolved configuration, a route table and one set of answers, on which the
    theorems about the proxy are instantiated. *)

From S2P Require Export Resolve Proxy.

Definition users_input : RouteInput :=
  {| in_id := "users"; in_host := []; in_prefix := "/users"; in_upstream := "users"; in_methods := None;
     in_sse := false; in_strip_prefix := false; in_enabled := true; in_client_key := None;
     in_bind := [(str_of "query.user", str_of "subject")]; in_cache := false; in_cache_authenticated := false;
     in_retry := None;
     in_rate_limit := Some (Some {| rl_requests := 10; rl_interval := from_secs 60; rl_key := KeyIdentity;
                                    rl_missing_key := MissingReject; rl_trusted_proxies := 0; rl_max_keys := 100;
                                    rl_counter := CounterExact; rl_mode := ModeApproximate |});
     in_concurrency := Some {| cc_max := 4; cc_key := None; cc_missing_key := MissingRoute; cc_trusted_proxies := 0 |};
     in_extensions := ["audit"] |}.

Definition status_input : RouteInput :=
  {| in_id := "status"; in_host := []; in_prefix := "/status"; in_upstream := "users"; in_methods := None;
     in_sse := false; in_strip_prefix := false; in_enabled := true; in_client_key := None; in_bind := [];
     in_cache := true; in_cache_authenticated := false; in_retry := None; in_rate_limit := None;
     in_concurrency := None; in_extensions := [] |}.

Definition users_table : RouteTable :=
  build_with 7 {| g_internal := ["internal"]; g_machine := [sample_route "/jobs"]; g_public := [route_of_input status_input];
                  g_optional := []; g_authenticated := [route_of_input users_input] |} no_defaults None.

Definition users_caller : Identity Z :=
  {| subject := "alice"; issuer := "https://id.example"; audience := "shop"; claims := [] |}.

Definition users_target : UpstreamTarget :=
  {| tg_addr := "users:80"; tg_tls := false; tg_sni := "users"; tg_base_path := [] |}.
Definition sample_breaker : CircuitBreakerConfig :=
  {| cb_failures := 5; cb_window := from_secs 10; cb_cooldown := from_secs 30; cb_successes_to_close := 2;
     cb_max_trials := 1 |}.

Definition sample_gateway (r : ResolvedConfig Z) : Gateway :=
  gateway_new false r {[ str_of "users" := {| us_kind := Single users_target; us_breaker := Some sample_breaker |} ]}
    true ["audit"].

(** The answers of a quiet moment: everything is allowed. *)
Definition quiet_answer {X} (e : gatewayE Z X) : X :=
  match e with
  | NewUuid => repeat 7 16
  | InstantNow => 0
  | EpochSecs => 1700000000
  | SetSession _ => tt
  | LoadTable => users_table
  | Decide _ _ => {| allowed := true; limit := 10; remaining := 9; retry_after := 0 |}
  | Verify _ => Ok users_caller
  | AdmissionInit capacity => capacity
  | TryAcquire => true
  | ReleasePermit => tt
  | OnRequest _ _ plan _ => (plan, Some (Ok tt))
  | TakeSlot key _ _ => Some (Caller key)
  | DropSlot _ => tt
  | BreakerAllow _ => true
  | BreakerState _ => Closed
  | BreakerCancel _ => tt
  | BreakerSuccess _ => tt
  | BreakerFailure _ => tt
  | ChooseBackend _ _ => None
  | NextDns => 0
  | Addresses _ => Ok [(V4 10 0 0 7, 80)]
  end.
Definition quietly {X} (e : gatewayE Z X) (w : ()) : X * () := (quiet_answer e, w).

Definition headers_of (l : list (str * str)) : header_map :=
  fun name => omap (fun nv => if nv.1 ==? name then Some nv.2 else None) l.

Definition users_request : Request :=
  {| rq_method := "GET"; rq_path := "/api/v1/users/4"; rq_query := Some (str_of "user=alice");
     rq_headers := headers_of [(str_of "host", str_of "gw.example"); (str_of "authorization", str_of "Bearer tok");
                               (str_of "x-client-key", str_of "0123456789abcdef")];
     rq_client_addr := Some (str_of "192.0.2.1:5000") |}.

Definition sample_run {A} (g : Gateway) (m : Gateway -> stage A) := Prog.run (@quietly) (m g new_ctx) tt.
Definition sample_trace {A} (g : Gateway) (m : Gateway -> stage A) := transcript (@quietly) (m g new_ctx) tt.

Lemma sample_runs {A} (g : Gateway) (m : Gateway -> stage A) :
  ftraces (m g) new_ctx (sample_trace g m) (sample_run g m).1.1 (sample_run g m).1.2.
Proof.
  pose proof (run_traces (@quietly) (m g new_ctx) tt) as H. unfold ftraces, sample_trace, sample_run.
  by destruct (Prog.run _ _ _) as [[o c] w].
Qed.

(** The sample request is admitted, once its token is verified. *)
Definition users_filter (g : Gateway) : stage () := request_filter g users_request.
Definition verified_token {N} (ev : event (gatewayE N)) : option str :=
  match ev_ask ev with Verify t => Some t | _ => None end.
Lemma sample_admits :
  match sample_resolve with
  | Ok r => let g := sample_gateway r in
            (sample_run g users_filter).1.1 = Go tt /\
            existsb (fun ev => verified_token ev ==? Some (str_of "tok")) (sample_trace g users_filter) = true
  | Err _ => False
  end.
Proof. vm_compute. split; reflexivity. Qed.

(** A found element splits its list. *)
Lemma existsb_split {A} (p : A -> bool) l : existsb p l = true -> exists l1 x l2, l = l1 ++ x :: l2 /\ p x = true.
Proof.
  intros (x & Hin & Hp)%existsb_In. apply list_elem_of_split in Hin as (l1 & l2 & ->). by exists l1, x, l2.
Qed.
