(* ===== verification/Admission.v ===== *)
(** * What the request filter admits (proxy.rs)

    Theorems about [request_filter] over all its traces: whatever the limiters,
    the verifier, the extensions and the route table in service answer, and in
    whatever order other requests run in between. *)

From S2P Require Export Samples Proxy.

Section Admission.
Context {N : Type} `{HN : JsonNumber N} `{HC : Crates N}.
Variable g : Gateway.

Abbreviation gevent := (event (gatewayE N)).
Abbreviation cfg := (gw_cfg g).
Abbreviation doc := (raw (gw_cfg g)).

(** ** Refusals *)

(** The answer of a refusal, in a context. *)
Definition refusal (rej : Rejection N) (c : Ctx) : Response :=
  send_with_retry_after (rej_status rej) (body_bytes to_vec rej) (cx_retry_after c) (cx_cors c).

Lemma refusal_rejected rej c : refusal rej (rejected_ctx g rej c) = refusal rej c.
Proof using. unfold refusal, rejected_ctx. by destruct (gw_dev g). Qed.

Lemma ftraces_reject {A} (rej : Rejection N) c tr (o : flow Response A) c' :
  ftraces (reject g rej) c tr o c' -> tr = [] /\ o = Stop (refusal rej c) /\ c' = rejected_ctx g rej c.
Proof using. unfold reject. intros H. ftrace_inv. by rewrite <-refusal_rejected. Qed.

Lemma reject_Go {A} (rej : Rejection N) c tr (a : A) c' : ~ ftraces (reject g rej) c tr (Go a) c'.
Proof using. by intros (_ & [=] & _)%ftraces_reject. Qed.

Lemma only_reject {A} P (rej : Rejection N) : only P (reject (A:=A) g rej).
Proof using. by apply only_quiet; intros s tr o s' [? _]%ftraces_reject. Qed.

Lemma or_reject_Go {A} (x : option A) rej c tr a c' :
  ftraces (or_reject g x rej) c tr (Go a) c' -> tr = [] /\ x = Some a /\ c' = c.
Proof using. destruct x; simpl; intros H; [by ftrace_inv|by apply reject_Go in H]. Qed.

Lemma only_or_reject {A} P (x : option A) rej : only P (or_reject g x rej).
Proof using. destruct x; [apply only_ret|apply only_reject]. Qed.

Lemma keeps_rejected {F} (f : Ctx -> F) rej :
  (forall c v, f (c <| cx_status := v |>) = f c) -> (forall c v, f (c <| cx_rejection := v |>) = f c) ->
  forall c, f (rejected_ctx g rej c) = f c.
Proof using. intros H1 H2 c. unfold rejected_ctx. destruct (gw_dev g); by rewrite ?H2, H1. Qed.

Lemma keeps_reject {A F} (f : Ctx -> F) rej :
  (forall c v, f (c <| cx_status := v |>) = f c) -> (forall c v, f (c <| cx_rejection := v |>) = f c) ->
  keeps f (reject (A:=A) g rej).
Proof using. intros H1 H2 c tr o c' (_ & _ & ->)%ftraces_reject. by apply keeps_rejected. Qed.
End Admission.

#[export] Hint Resolve only_reject only_or_reject : only.
#[export] Hint Extern 1 (keeps _ (reject _ _)) => (apply keeps_reject; reflexivity) : keeps.
#[export] Hint Extern 1 (keeps _ (or_reject _ ?x _)) => (destruct x; [apply keeps_ret|apply keeps_reject; reflexivity]) : keeps.

(** Take the traces of an accepting run apart: a refusal is no way to accept. *)
Ltac accept_step :=
  match goal with
  | H : ftraces (reject _ _) _ _ (Go _) _ |- _ => by apply reject_Go in H
  | H : ftraces (or_reject _ _ _) _ _ (Go _) _ |- _ => apply or_reject_Go in H as (? & ? & ?); simplify_eq
  | H : ftraces (if ?b then _ else _) _ _ _ _ |- _ => destruct b eqn:?
  | H : ftraces (match ?x with _ => _ end) _ _ _ _ |- _ => destruct x eqn:?
  | _ => ftrace_step
  end.
Ltac accept_inv := repeat accept_step.
(** The same, with the refusals of a run that may have been answered. *)
Ltac run_inv :=
  repeat first
    [ match goal with
      | H : ftraces (reject _ _) _ _ _ _ |- _ => apply ftraces_reject in H as (? & ? & ?); simplify_eq
      end
    | accept_step ].
(** The values a stage went on with. *)
Ltac destruct_pairs := repeat match goal with p : (_ * _)%type |- _ => destruct p end.
(** What is known of the stage that ran. *)
Tactic Notation "ran" constr(known) "as" simple_intropattern(pat) :=
  match goal with H : ftraces _ _ _ _ _ |- _ => apply known in H as pat end.

Section Stages.
Context {N : Type} `{HN : JsonNumber N} `{HC : Crates N}.
Variable g : Gateway.
Abbreviation gevent := (event (gatewayE N)).
Abbreviation cfg := (gw_cfg g).
Abbreviation doc := (raw (gw_cfg g)).

(** ** What each stage lets through *)

(** A machine route was called with its secret. *)
Definition machine_proven (rq : Request) (route : RouteConfig) : Prop :=
  r_auth route = Machine -> machine_secret cfg = Some (machine_credential g rq).

Lemma authenticate_machine_Go rq route c tr u c' :
  ftraces (authenticate_machine g rq route) c tr (Go u) c' ->
  tr = [] /\ c' = c /\ machine_proven rq route.
Proof using.
  unfold authenticate_machine, machine_proven. intros H. accept_inv; breflect; split_and!; try done. congruence.
Qed.

(** An empty secret, which no step of the resolution refuses, is met by a
    request without any credential: the routes of the machine tier are open. *)
Lemma empty_machine_secret_admits rq route c :
  machine_secret cfg = Some [] -> (forall n, n ∈ machine_headers g -> hget (rq_headers rq) n = None) ->
  authenticate_machine g rq route c = aret (E:=gatewayE N) (R:=Response) tt c.
Proof using.
  intros Hs Hn. assert (machine_credential (N:=N) g rq = []) as Hc.
  { unfold machine_credential. replace (find_map _ _) with (@None (list Z)); [done|]. symmetry.
    induction (machine_headers g) as [|h l IH]; [done|]. cbn. rewrite (Hn h) by (by left). apply IH.
    intros n Hin. apply Hn. by right. }
  unfold authenticate_machine. destruct (r_auth route ==? Machine); [|done].
  by rewrite Hs, Hc.
Qed.

(** The limiter of a route, where it counts in this pass, allowed the request
    under its key. *)
Definition within_limit (of_identity : bool) (rq : Request) (route : RouteConfig) (subject : option str)
    (tr : list gevent) : Prop :=
  forall rl l, r_rate_limit route = Some rl -> r_limiter route = Some l ->
    bool_decide (rl_key rl = KeyIdentity) = of_identity ->
    exists key, request_key g rq (rl_key rl) (rl_missing_key rl) (rl_trusted_proxies rl) (r_id route) subject = Ok key /\
      forall k, key = Some k -> exists d, Event (Decide l k) d ∈ tr /\ allowed d = true.

Lemma rate_limit_pass_Go of_identity rq route subject c tr u c' :
  ftraces (rate_limit_pass g of_identity rq route subject) c tr (Go u) c' ->
  within_limit of_identity rq route subject tr.
Proof using.
  unfold rate_limit_pass, within_limit. intros H rl l Hrl Hl Hk. rewrite Hrl, Hl, Hk, eqb_reflx in H.
  unfold check_rate_limit in H. destruct (request_key _ _ _ _ _ _ _) as [[k|]|e]; accept_inv.
  - exists (Some k). split; [done|]. intros k' [= <-]. eexists. split; [|done].
    rewrite elem_of_app. left. by left.
  - by exists None.
Qed.

(** A keyed route was called with exactly one of the configured keys. *)
Definition client_key_proven (rq : Request) (route : RouteConfig) (path : str) (id : option str) : Prop :=
  if negb (gw_serves_machine g) && (client_key_rule cfg route path ==? RuleRequired) then
    exists k v, k ∈ client_keys cfg /\ key_digest k = digest_of v /\ id = Some (key_id k) /\
      hget_all (rq_headers rq) (default [] (client_key_header cfg)) = [v]
  else id = None.

Lemma check_client_key_Go rq route path c tr id c' :
  ftraces (check_client_key g rq route path) c tr (Go id) c' ->
  tr = [] /\ c' = c /\ client_key_proven rq route path id.
Proof using.
  unfold check_client_key, client_key_proven. destruct (negb (gw_serves_machine g) && _); [|intros H; by ftrace_inv].
  destruct (hget_all _ _) as [|v more]; [by intros H%reject_Go|]. destruct v as [|b v]; [by intros H%reject_Go|].
  unfold match_client_key. destruct (List.find _ _) as [k|] eqn:Ek; [|by intros H%reject_Go].
  destruct more; [|by intros H%reject_Go]. intros H. ftrace_inv. split_and!; [done..|].
  apply find_some in Ek as [Hin Hk]. apply list_elem_of_In in Hin. unfold key_matches in Hk. breflect.
  exists k, (b :: v). split_and!; done.
Qed.

(** The caller a route goes on with: verified, from the one credential the
    request presents, or nobody where the tier allows it. *)
Definition identity_proven (rq : Request) (route : RouteConfig) (identity : option (Identity N)) (tr : list gevent) : Prop :=
  match identity with
  | Some id => verifies (r_auth route) = true /\ (length (hget_all (rq_headers rq) "authorization") <= 1)%nat /\
      exists token from, presented_token g rq = Some (token, from) /\
        Z.of_nat (length token) <= lt_max_token (gc_limits doc) /\ Event (Verify token) (Ok id) ∈ tr /\
        (from = "cookie" -> forall policy, cookie_protection cfg = Some policy ->
           cookie_check url_parse to_str policy (rq_headers rq) (rq_method rq) = Ok tt)
  | None => verifies (r_auth route) = false \/ (r_auth route = Optional /\ presented_token g rq = None)
  end.

Lemma check_cookie_origin_Go rq c tr u c' :
  ftraces (check_cookie_origin g rq) c tr (Go u) c' ->
  tr = [] /\ c' = c /\
  forall token policy, presented_token g rq = Some (token, str_of "cookie") -> cookie_protection cfg = Some policy ->
    cookie_check url_parse to_str policy (rq_headers rq) (rq_method rq) = Ok tt.
Proof using.
  unfold check_cookie_origin. destruct (presented_token g rq) as [[t from]|]; [|intros H; by ftrace_inv].
  destruct (cookie_protection cfg) as [p|]; [|intros H; by ftrace_inv].
  case_bool_decide as Hf; [|intros H; ftrace_inv; split_and!; [done..|]; intros; by simplify_eq].
  destruct (cookie_check _ _ _ _ _) as [[]|] eqn:E; [|by intros H%reject_Go].
  intros H. ftrace_inv. split_and!; [done..|]. intros; by simplify_eq.
Qed.

Lemma verify_token_Go token c tr id c' :
  ftraces (verify_token g token) c tr (Go id) c' -> c' = c /\ tr = [Event (Verify token) (Ok id)].
Proof using.
  unfold verify_token. intros H. destruct (negb _); [by apply reject_Go in H|].
  ftrace_step. destruct x1 as [id'|[]]; accept_inv. done.
Qed.

Lemma authenticate_Go rq route c tr identity c' :
  ftraces (authenticate g rq route) c tr (Go identity) c' -> identity_proven rq route identity tr.
Proof using.
  unfold authenticate, identity_proven. destruct (verifies (r_auth route)) eqn:Ev; simpl;
    [|intros H; ftrace_inv; by left].
  destruct (Nat.ltb_spec 1 (length (hget_all (rq_headers rq) "authorization"))); [by intros ?%reject_Go|].
  intros Hrun. ftrace_step. ran check_cookie_origin_Go as (-> & -> & Hc).
  destruct (presented_token g rq) as [[token from]|] eqn:Ep.
  - do 2 ftrace_step. destruct (Z.ltb_spec (lt_max_token (gc_limits doc)) (Z.of_nat (length token))); [accept_inv|].
    ftrace_step. ran verify_token_Go as [-> ->]. ftrace_inv.
    split_and!; [done..|]. exists token, from. split_and!; [done..|by left|]. intros -> p. by eapply Hc.
  - case_bool_decide; accept_inv. by right.
Qed.

(** Every binding of the route is met by the verified caller. *)
Definition ownership_proven (rq : Request) (route : RouteConfig) (identity : option (Identity N)) : Prop :=
  Forall (fun b => exists id, identity = Some id /\
            Binding.permits percent_decode b id (rq_query rq) (sole_header rq) = true) (r_bindings route).

Lemma check_each_binding_Go rq id bindings c tr u c' :
  ftraces (check_each_binding g rq id bindings) c tr (Go u) c' ->
  tr = [] /\ c' = c /\ Forall (fun b => Binding.permits percent_decode b id (rq_query rq) (sole_header rq) = true) bindings.
Proof using.
  revert c tr. induction bindings as [|b bs IH]; intros c tr; cbn [check_each_binding]; [intros H; by ftrace_inv|].
  destruct (Binding.permits _ b id _ _) eqn:E; [|intros H; ftrace_inv; accept_inv].
  intros (-> & -> & H)%IH. split_and!; [done..|]. by constructor.
Qed.

Lemma check_bindings_Go rq route identity c tr u c' :
  ftraces (check_bindings g rq route identity) c tr (Go u) c' ->
  tr = [] /\ c' = c /\ ownership_proven rq route identity.
Proof using.
  unfold check_bindings, ownership_proven. destruct (r_bindings route) as [|b bs] eqn:Eb; cbn [is_nil]; [intros H; by ftrace_inv|].
  intros Hrun. ftrace_step. ran @or_reject_Go as (-> & -> & ->).
  ran check_each_binding_Go as (-> & -> & H). split_and!; [done..|].
  eapply List.Forall_impl; [|exact H]. intros b' Hb'. by eexists.
Qed.

(** The path is the canonical one of a mounted request, the table's deny-list
    does not name it, and the route is the one the table serves it by. *)
Record routed (rq : Request) (table : RouteTable) (path : str) (route : RouteConfig) : Prop := {
  rt_path : exists raw_sub, strip_base g (rq_path rq) = Some raw_sub /\
              canonicalize_proxy_path percent_decode raw_sub = Some path;
  rt_allowed : is_denied table path = false;
  rt_route : match_request table (header_str rq "host") path (rq_method rq) = Some route;
  rt_upstream : is_Some (gw_upstreams g !! r_upstream route);
  rt_body : content_length_over_limit to_str (rq_headers rq) (lt_max_body (gc_limits doc)) = false;
  rt_credentials : gw_serves_machine g = false ->
    Forall (fun name => client_sent rq name = false) (rj_client_headers (gc_reject doc));
}.

Lemma early_refusals_Go rq c tr u c' :
  ftraces (early_refusals g rq) c tr (Go u) c' ->
  tr = [] /\ c' = c /\ content_length_over_limit to_str (rq_headers rq) (lt_max_body (gc_limits doc)) = false /\
  (gw_serves_machine g = false -> Forall (fun name => client_sent rq name = false) (rj_client_headers (gc_reject doc))).
Proof using.
  unfold early_refusals. intros H. accept_inv. split_and!; [done..|]. intros Hg.
  match goal with H : List.find _ _ = None |- _ => rename H into Hf end.
  apply List.Forall_forall. intros name Hname. apply (find_none _ _ Hf). apply filter_In.
  by rewrite Hg.
Qed.

Lemma health_Go rq c tr u c' : ftraces (health g rq) c tr (Go u) c' -> tr = [] /\ c' = c.
Proof using. unfold health. intros H. by accept_inv. Qed.

Lemma resolve_path_Go rq c tr path c' :
  ftraces (resolve_path g rq) c tr (Go path) c' ->
  tr = [] /\ cx_path c' = path /\
  exists raw_sub, strip_base g (rq_path rq) = Some raw_sub /\ canonicalize_proxy_path percent_decode raw_sub = Some path.
Proof using. unfold resolve_path. intros H. accept_inv. split_and!; [done..|]. by eexists. Qed.

Lemma answer_preflight_Go rq table path c tr u c' :
  ftraces (answer_preflight g rq table path) c tr (Go u) c' -> tr = [] /\ c' = c.
Proof using. unfold answer_preflight. intros H. by accept_inv. Qed.

Lemma find_route_Go rq table path c tr route c' :
  ftraces (find_route g rq table path) c tr (Go route) c' ->
  tr = [] /\ c' = c /\ match_request table (header_str rq "host") path (rq_method rq) = Some route /\
  is_Some (gw_upstreams g !! r_upstream route).
Proof using.
  unfold find_route. intros H. accept_inv. breflect. split_and!; [done..|]. by apply not_eq_None_Some.
Qed.

Lemma route_request_Go rq c tr table path route c' :
  ftraces (route_request g rq) c tr (Go (table, path, route)) c' ->
  routed rq table path route /\ Event LoadTable table ∈ tr /\ cx_path c' = path.
Proof using.
  unfold route_request. intros H. repeat ftrace_step.
  ran health_Go as [-> ->]. ran early_refusals_Go as (-> & -> & Hb & Hr). ran resolve_path_Go as (-> & Hp & Hc).
  ran answer_preflight_Go as [-> ->]. ran find_route_Go as (-> & -> & Hm & Hu).
  match goal with H : ftraces (deny _ _ _) _ _ _ _ |- _ => unfold deny in H; accept_inv end.
  split_and!; [by split|set_solver|done].
Qed.
End Stages.

Section AdmittedRequest.
Context {N : Type} `{HN : JsonNumber N} `{HC : Crates N}.
Variable g : Gateway.
Abbreviation gevent := (event (gatewayE N)).

(** The path of a request is fixed once it is routed. *)
Lemma authorize_keeps_path rq route path : keeps cx_path (authorize g rq route path).
Proof using.
  assert (forall rq id bs, keeps cx_path (check_each_binding g rq id bs)).
  { intros rq' id bs. induction bs; cbn [check_each_binding]; step_keeps. }
  unfold authorize, authenticate_machine, rate_limit_pass, check_rate_limit, check_client_key, authenticate,
    check_cookie_origin, verify_token, check_bindings. step_keeps.
Qed.

Lemma build_plan_keeps_path rq identity key : keeps cx_path (build_plan g rq identity key).
Proof using. unfold build_plan, continue_trace, sample, describe_caller. step_keeps. Qed.

Lemma run_extensions_Go rq route path identity plan c tr last c' :
  ftraces (run_extensions g rq route path identity plan) c tr (Go last) c' ->
  cx_path c' = cx_path c /\ map hr_name (hooks tr) = r_extensions route /\ threaded plan (hooks tr) last /\
  Forall (fun h => hr_verdict h = Some (Ok tt)) (hooks tr).
Proof using.
  unfold run_extensions. intros H. ftrace_step.
  match goal with H : ftraces (lift _) _ _ _ _ |- _ => pose proof (keeps_lift cx_path _ _ _ _ _ H) as Hk; rename H into Hl end.
  unfold ftraces, lift in Hl. apply traces_bind in Hl as (t1 & t2 & r & -> & Hr & -> & [= -> ->]).
  destruct r as [p|rej]; [|accept_inv]. ftrace_inv. apply run_chain_ok in Hr as (Hn & Ht & Hf & _).
  rewrite !app_nil_r. split_and!; [done..|]. eapply List.Forall_impl; [|exact Hf]. cbn. tauto.
Qed.

Lemma admit_Go rq table route path subject key plan c tr u c' :
  ftraces (admit_request g rq table route path subject key plan) c tr (Go u) c' ->
  cx_path c' = cx_path c /\ cx_plan c' = plan /\ cx_route_id c' = r_id route /\
  cx_upstream_name c' = r_upstream route /\ cx_subject c' = subject /\ cx_client_key_id c' = key /\ hooks tr = [].
Proof using.
  unfold admit_request, plan_slot, admitted_ctx. intros H. repeat ftrace_step.
  all: accept_inv; simpl; by destruct (r_strip_prefix route), (gw_dev g).
Qed.

(** No stage but the extensions' own runs an extension. *)
Abbreviation no_hook := (fun ev : gevent => hook_of ev = None).

Lemma no_hooks {A} (m : stage A) c tr o c' : only no_hook m -> ftraces m c tr o c' -> hooks tr = [].
Proof using.
  intros Hm H%Hm. unfold hooks. induction H as [|ev tr Hev _ IH]; [done|]. simpl. by rewrite Hev.
Qed.

Lemma route_request_no_hook rq : only no_hook (route_request g rq).
Proof using.
  unfold route_request, receive, health, early_refusals, resolve_path, deny, answer_preflight, find_route. step_only.
Qed.

Lemma authorize_no_hook rq route path : only no_hook (authorize g rq route path).
Proof using.
  assert (forall rq id bs, only no_hook (check_each_binding g rq id bs)).
  { intros rq' id bs. induction bs; cbn [check_each_binding]; step_only. }
  unfold authorize, authenticate_machine, rate_limit_pass, check_rate_limit, check_client_key, authenticate,
    check_cookie_origin, verify_token, check_bindings. step_only.
Qed.

Lemma build_plan_no_hook rq identity key : only no_hook (build_plan g rq identity key).
Proof using. unfold build_plan, continue_trace, sample, describe_caller. step_only. Qed.

(** What [authorize] has established of a request it lets through. *)
Record authorized (rq : Request) (route : RouteConfig) (path : str) (key : option str)
    (identity : option (Identity N)) (tr : list gevent) : Prop := {
  az_machine : machine_proven g rq route;
  az_limit : within_limit g false rq route None tr;
  az_key : client_key_proven g rq route path key;
  az_identity : identity_proven g rq route identity tr;
  az_identity_limit : within_limit g true rq route (subject <$> identity) tr;
  az_ownership : ownership_proven rq route identity;
}.

Lemma within_limit_mono of_identity rq route subject tr tr' :
  (forall ev, ev ∈ tr -> ev ∈ tr') -> within_limit g of_identity rq route subject tr ->
  within_limit g of_identity rq route subject tr'.
Proof using.
  intros Hsub H rl l Hrl Hl Hk. destruct (H rl l Hrl Hl Hk) as (key & Hkey & Hd). exists key.
  split; [done|]. intros k Hk'. destruct (Hd k Hk') as (d & Hin & Ha). eauto.
Qed.

Lemma identity_proven_mono rq route identity tr tr' :
  (forall ev, ev ∈ tr -> ev ∈ tr') -> identity_proven g rq route identity tr ->
  identity_proven g rq route identity tr'.
Proof using. intros Hsub. unfold identity_proven. destruct identity; naive_solver. Qed.

Lemma authorized_mono rq route path key identity tr tr' :
  (forall ev, ev ∈ tr -> ev ∈ tr') -> authorized rq route path key identity tr ->
  authorized rq route path key identity tr'.
Proof using. intros Hsub []. split; eauto using within_limit_mono, identity_proven_mono. Qed.

Lemma authorize_Go rq route path c tr key identity c' :
  ftraces (authorize g rq route path) c tr (Go (key, identity)) c' ->
  authorized rq route path key identity tr.
Proof using.
  unfold authorize. intros H. repeat ftrace_step.
  ran authenticate_machine_Go as (-> & -> & Hm). ran check_client_key_Go as (-> & -> & Hk).
  ran check_bindings_Go as (-> & -> & Hb). ran authenticate_Go as Hi.
  repeat match goal with
  | H : ftraces (rate_limit_pass _ _ _ _ _) _ _ _ _ |- _ => apply rate_limit_pass_Go in H
  end.
  split; try done.
  - eapply within_limit_mono; [|eassumption]. set_solver.
  - eapply identity_proven_mono; [|eassumption]. set_solver.
  - eapply within_limit_mono; [|eassumption]. set_solver.
Qed.

(** ** Theorems *)

(** C1: a request goes upstream only if it is authorized, whatever the limiters,
    the verifier and the extensions answer and whatever runs in between: its
    path is the canonical one of a mounted URL and not on the deny-list of the
    table it was routed by; the route is the one that table serves it by; a
    machine route was called with the machine secret; where a client key is
    required exactly one configured key was presented; the route's limiter
    allowed the request under its key; a route that demands a token has a
    verified identity, from the one credential of a request with at most one
    [Authorization] header, no longer than the cap, from a permitted origin
    where it is a cookie; every binding is met by that identity; and every
    extension of the route ran in order and agreed.  The context the request
    goes on with is of that route, path and caller. *)
Theorem admitted_is_authorized rq c tr c'
  (Hrun : ftraces (request_filter g rq) c tr (Go tt) c') :
  exists table path route key identity,
    Event LoadTable table ∈ tr /\ routed g rq table path route /\
    authorized rq route path key identity tr /\
    map hr_name (hooks tr) = r_extensions route /\ Forall (fun h => hr_verdict h = Some (Ok tt)) (hooks tr) /\
    cx_path c' = path /\ cx_route_id c' = r_id route /\ cx_upstream_name c' = r_upstream route /\
    cx_subject c' = subject <$> identity /\ cx_client_key_id c' = key.
Proof using.
  unfold request_filter in Hrun. ftrace_step. destruct_pairs. ftrace_step. destruct_pairs. repeat ftrace_step.
  match goal with
  | _ : ftraces (route_request _ _) _ _ (Go (?t, ?p, ?r)) _, _ : ftraces (authorize _ _ _ _) _ _ (Go (?k, ?i)) _ |- _ =>
      rename t into table; rename p into path; rename r into route; rename k into key; rename i into identity
  end.
  match goal with
  | H1 : ftraces (route_request _ _) _ _ _ _, H2 : ftraces (authorize _ _ _ _) _ _ _ _,
    H3 : ftraces (build_plan _ _ _ _) _ _ _ _ |- _ =>
      pose proof (no_hooks _ _ _ _ _ (route_request_no_hook rq) H1) as N1;
      pose proof (no_hooks _ _ _ _ _ (authorize_no_hook rq route path) H2) as N2;
      pose proof (no_hooks _ _ _ _ _ (build_plan_no_hook rq identity key) H3) as N3;
      pose proof (authorize_keeps_path _ _ _ _ _ _ _ H2) as K2;
      pose proof (build_plan_keeps_path _ _ _ _ _ _ _ H3) as K3
  end.
  ran route_request_Go as (Hr & Hload & Hp). ran authorize_Go as Ha.
  ran run_extensions_Go as (K4 & Hn & _ & Hv). ran admit_Go as (K5 & _ & Hid & Hu & Hs & Hk & N5).
  exists table, path, route, key, identity. split_and!; try done.
  - set_solver.
  - eapply authorized_mono; [|exact Ha]. set_solver.
  - by rewrite !hooks_app, N1, N2, N3, N5, app_nil_r.
  - by rewrite !hooks_app, N1, N2, N3, N5, app_nil_r.
  - congruence.
Qed.
End AdmittedRequest.

Section Earned.
Context {N : Type} `{HN : JsonNumber N} `{HC : Crates N}.
Variable g : Gateway.
Abbreviation gevent := (event (gatewayE N)).
Abbreviation doc := (raw (gw_cfg g)).

(** ** Signature checks *)

Definition no_verify (ev : gevent) : Prop := match ev_ask ev with Verify _ => False | _ => True end.

Lemma route_request_no_verify rq : only no_verify (route_request g rq).
Proof using.
  unfold route_request, receive, health, early_refusals, resolve_path, deny, answer_preflight, find_route. step_only.
Qed.

Lemma rate_limit_no_verify of_identity rq route subject : only no_verify (rate_limit_pass g of_identity rq route subject).
Proof using. unfold rate_limit_pass, check_rate_limit. step_only. Qed.

Lemma check_each_binding_no_verify rq id bindings : only no_verify (check_each_binding g rq id bindings).
Proof using. induction bindings; cbn [check_each_binding]; step_only. Qed.

Lemma run_extensions_no_verify rq route path identity plan : only no_verify (run_extensions g rq route path identity plan).
Proof using.
  unfold run_extensions. apply only_bind; [|step_only]. apply only_lift. intros tr a H%run_chain_events.
  eapply List.Forall_impl; [|exact H]. intros [T e x]. unfold chain_event, no_verify. cbn. by destruct e.
Qed.

Lemma verify_token_once token' token c t1 r t2 o c' :
  ftraces (verify_token g token') c (t1 ++ Event (Verify token) r :: t2) o c' -> t1 = [] /\ t2 = [] /\ token' = token.
Proof using.
  assert (~ no_verify (Event (Verify token) r)) as Hv by (intros []).
  intros H. unfold verify_token in H. destruct (negb _); [destruct (event_not _ _ _ _ _ _ _ _ (only_reject _ _ _) Hv H)|].
  apply ftraces_bind in H as [(r' & _ & H)|(ta & tb & a & c1 & E & H & H')].
  - by apply ftraces_asks in H as (x & _ & [=] & _).
  - apply ftraces_asks in H as (x & -> & [= ->] & ->). simpl in E.
    assert (tb = []) as ->.
    { destruct x as [id|[]]; [by apply ftraces_ret in H' as [-> _]|by apply ftraces_reject in H' as [-> _]..]. }
    destruct t1 as [|ev1 t1]; [|injection E as _ E; by apply app_eq_nil in E as [_ [=]]].
    split; [done|]. assert (t2 = []) as -> by (by injection E). split; [done|].
    assert (verified_token (Event (Verify token) r) = verified_token (Event (Verify token') x)) as Hf
      by (by injection E as ->). by injection Hf.
Qed.

(** [authenticate] checks at most one signature, of the token the request
    presents, which is not over long. *)
Lemma authenticate_verifies rq route c t1 token r t2 o c' :
  ftraces (authenticate g rq route) c (t1 ++ Event (Verify token) r :: t2) o c' ->
  t1 = [] /\ Forall no_verify t2 /\ verifies (r_auth route) = true /\
  (length (hget_all (rq_headers rq) "authorization") <= 1)%nat /\
  Z.of_nat (length token) <= lt_max_token (gc_limits doc) /\
  exists from, presented_token g rq = Some (token, from).
Proof using.
  assert (only no_verify (check_cookie_origin g rq)) as Hc by (unfold check_cookie_origin; step_only).
  assert (~ no_verify (Event (Verify token) r)) as Hv by (intros []).
  intros H. unfold authenticate in H.
  destruct (verifies _); [|destruct (event_not _ _ _ _ _ _ _ _ (only_ret _ _) Hv H)]. cbn [negb] in H.
  destruct (Nat.ltb_spec 1 (length (hget_all (rq_headers rq) "authorization")));
    [destruct (event_not _ _ _ _ _ _ _ _ (only_reject _ _ _) Hv H)|].
  eapply (event_after no_verify) in H as (ta & tb & u & c1 & -> & H1 & H); [|exact Hc|exact Hv].
  apply check_cookie_origin_Go in H1 as (-> & -> & _).
  destruct (presented_token g rq) as [[token' from]|];
    [|exfalso; refine (event_not no_verify _ _ _ _ _ _ _ _ Hv H); step_only].
  eapply (event_after no_verify) in H as (ta & tb' & u' & c2 & -> & H2 & H); [|step_only|exact Hv].
  apply ftraces_update in H2 as (-> & _ & ->).
  destruct (Z.ltb_spec (lt_max_token (gc_limits doc)) (Z.of_nat (length token')));
    [exfalso; refine (event_not no_verify _ _ _ _ _ _ _ _ Hv H); step_only|].
  eapply (event_before no_verify) in H as (ta & tb & o1 & c3 & -> & H & Hb); [|step_only|exact Hv].
  apply verify_token_once in H as (-> & -> & ->).
  split_and!; try done. by exists from.
Qed.

(** C7: signature checks are earned: whatever comes of a request, a token is
    verified for it at most once, and only after its path was found mounted,
    canonical and off the deny-list, its route found in the table in service,
    the route's limiter, where its key needs no identity, allowed the request,
    and the client key the route asks for was presented; the token is the one
    the request presents, under a single [Authorization] header, and no longer
    than the cap. *)
Theorem signature_checks_are_earned rq c t1 token r t2 o c'
  (Hrun : ftraces (request_filter g rq) c (t1 ++ Event (Verify token) r :: t2) o c') :
  Forall no_verify (t1 ++ t2) /\
  exists table path route key from,
    Event LoadTable table ∈ t1 /\ routed g rq table path route /\ verifies (r_auth route) = true /\
    within_limit g false rq route None t1 /\ client_key_proven g rq route path key /\
    presented_token g rq = Some (token, from) /\ (length (hget_all (rq_headers rq) "authorization") <= 1)%nat /\
    Z.of_nat (length token) <= lt_max_token (gc_limits doc).
Proof using.
  assert (~ no_verify (Event (Verify token) r)) as Hv by (intros []).
  pose proof (fun rq id bs => check_each_binding_no_verify rq id bs) as Hbind.
  unfold request_filter in Hrun.
  eapply (event_after no_verify) in Hrun as (ta & tb & [[table path] route] & c1 & -> & H1 & Hrun);
    [|apply route_request_no_verify|exact Hv].
  eapply (event_before no_verify) in Hrun as (tc & td & o1 & c2 & -> & Hrun & Hd); [| |exact Hv].
  2:{ intros [key identity]. unfold build_plan, continue_trace, Proxy.sample, describe_caller, admit_request, plan_slot.
      pose proof run_extensions_no_verify. step_only. }
  unfold authorize in Hrun.
  eapply (event_after no_verify) in Hrun as (t3 & t4 & u3 & c3 & -> & H3 & Hrun);
    [|unfold authenticate_machine; step_only|exact Hv].
  eapply (event_after no_verify) in Hrun as (t5 & t6 & u5 & c5 & -> & H5 & Hrun);
    [|apply rate_limit_no_verify|exact Hv].
  eapply (event_after no_verify) in Hrun as (t7 & t8 & key & c7 & -> & H7 & Hrun);
    [|unfold check_client_key; step_only|exact Hv].
  eapply (event_before no_verify) in Hrun as (t9 & t10 & o9 & c9 & -> & Hrun & H10); [| |exact Hv].
  2:{ intros identity. unfold check_bindings. pose proof rate_limit_no_verify. step_only. }
  pose proof (route_request_no_verify _ _ _ _ _ H1) as N1. pose proof (rate_limit_no_verify _ _ _ _ _ _ _ _ H5) as N5.
  apply route_request_Go in H1 as (Hr & Hload & _). apply authenticate_machine_Go in H3 as (-> & -> & _).
  apply rate_limit_pass_Go in H5. apply check_client_key_Go in H7 as (-> & -> & Hk).
  apply authenticate_verifies in Hrun as (-> & H9 & Hver & Hone & Hlen & from & Hp).
  split.
  - rewrite !app_nil_r. simpl. repeat (apply Forall_app; split); done.
  - exists table, path, route, key, from. split_and!; try done.
    + set_solver.
    + eapply within_limit_mono; [|exact H5]. set_solver.
Qed.
End Earned.

(** ** Witnesses *)

Lemma admitted_is_authorized_witness :
  match sample_resolve with
  | Ok r => exists tr table path route key identity,
      routed (sample_gateway r) users_request table path route /\
      authorized (sample_gateway r) users_request route path key identity tr
  | Err _ => False
  end.
Proof.
  pose proof sample_admits as H. destruct sample_resolve as [r|e]; [|exact H]. destruct H as [H _].
  pose proof (sample_runs (sample_gateway r) users_filter) as Htr. rewrite H in Htr.
  destruct (admitted_is_authorized _ _ _ _ _ Htr) as (table & path & route & key & identity & _ & Hr & Ha & _).
  exists (sample_trace (sample_gateway r) users_filter), table, path, route, key, identity. exact (conj Hr Ha).
Defined.

Lemma signature_checks_are_earned_witness :
  match sample_resolve with
  | Ok r => exists from, presented_token (sample_gateway r) users_request = Some (str_of "tok", from)
  | Err _ => False
  end.
Proof.
  pose proof sample_admits as H. destruct sample_resolve as [r|e]; [|exact H]. destruct H as [_ H].
  apply existsb_split in H as (t1 & [T e x] & t2 & E & Hv). apply bool_decide_eq_true in Hv.
  pose proof (sample_runs (sample_gateway r) users_filter) as Htr. rewrite E in Htr.
  destruct e; try discriminate Hv. injection Hv as ->.
  destruct (signature_checks_are_earned _ _ _ _ _ _ _ _ _ Htr)
    as (_ & _ & _ & _ & _ & from & _ & _ & _ & _ & _ & Hp & _).
  exists from. exact Hp.
Defined.
