(* ===== verification/Outgoing.v ===== *)
(** * What a header plan says to the upstream (proxy.rs)

    [build_plan] writes and clears the headers the gateway owns.  The theorem is
    about the plan before the extensions, which may override it deliberately. *)

From S2P Require Export Admission.

Section Outgoing.
Context {N : Type} `{HN : JsonNumber N} `{HC : Crates N}.
Variable g : Gateway.
Abbreviation cfg := (gw_cfg g).
Abbreviation doc := (raw (gw_cfg g)).

(** ** What the gateway says *)

(** A value the gateway vouches for under the name [n]: a configured credential,
    the caller's address as the trusted proxies have it, the request's identifier
    (which [receive] takes from the client's own [X-Request-Id] where it is text)
    and trace, what the verified identity asserts, the cookies without the token,
    or the identifier of the client's key. *)
Definition gateway_value (rq : Request) (request_id : str) (identity : option (Identity N)) (key : option str)
    (n v : str) : Prop :=
  (exists m, (m, v) ∈ injected g /\ n = to_ascii_lowercase m) \/
  (n = "x-forwarded-for" /\ (forwarded_for to_str (rq_headers rq) (peer_ip rq) (forwarded_depth g rq)).1 = Some v) \/
  (n = "x-real-ip" /\ (forwarded_for to_str (rq_headers rq) (peer_ip rq) (forwarded_depth g rq)).2 = Some v) \/
  (n = "x-request-id" /\ v = request_id) \/
  (n = "traceparent" /\ exists trace, v = to_header trace) \/
  (exists id now, identity = Some id /\
     asserted (fun m => to_vec (Object m)) base64url jwt_encode (gc_identity doc) (identity_secret cfg) id now n v) \/
  (n = "cookie" /\ strip_cookies (cookie_values rq) (au_token_cookies (gc_auth doc)) = Some v) \/
  (exists h, client_key_forward_as cfg = Some h /\ n = to_ascii_lowercase h /\ key = Some v).

(** The names a client's own headers never reach the upstream under. *)
Definition gateway_names : list str :=
  map to_ascii_lowercase HOP_BY_HOP ++ map (fun nv => to_ascii_lowercase nv.1) (injected g)
  ++ [str_of "x-forwarded-for"; str_of "x-real-ip"; str_of "x-request-id"] ++ identity_names (gc_identity doc)
  ++ (if fw_authorization (gc_forward doc) then [] else [str_of "authorization"])
  ++ (if gw_serves_machine g then []
      else map to_ascii_lowercase
             (match client_key_header cfg with Some h => [h] | None => [] end
              ++ match client_key_forward_as cfg with Some h => [h] | None => [] end)).

Lemma base_header_plan_grows rq request_id identity key :
  grows (gateway_value rq request_id identity key)
    (map to_ascii_lowercase HOP_BY_HOP ++ map (fun nv => to_ascii_lowercase nv.1) (injected g)
     ++ [str_of "x-forwarded-for"; str_of "x-real-ip"]) plan_new (base_header_plan g rq).
Proof using.
  set (from := gateway_value rq request_id identity key). unfold base_header_plan.
  set (p1 := fold_left _ HOP_BY_HOP plan_new). set (p2 := fold_left _ (injected g) p1).
  set (p3 := if gw_serves_machine g then _ else p2).
  destruct (forwarded_for _ _ _ _) as [xff real_ip] eqn:Ef.
  set (p4 := plan_strip _ (plan_strip _ p3)).
  set (p5 := match xff with Some v => plan_set "x-forwarded-for" v p4 | None => p4 end).
  assert (grows from (map to_ascii_lowercase HOP_BY_HOP) plan_new p1) as G1 by apply strip_list_grows.
  assert (grows from (map (fun nv => to_ascii_lowercase nv.1) (injected g)) p1 p2) as G2.
  { apply set_list_grows. intros m v Hm. left. by exists m. }
  assert (grows from [] p2 p3) as G3.
  { unfold p3. destruct (gw_serves_machine g); [|apply grows_refl].
    exact (strip_some_grows from (fun name => existsb (fun nv => nv.1 ==? name) (injected g)) _ p2). }
  assert (grows from [str_of "x-forwarded-for"; str_of "x-real-ip"] p3 p4) as G4.
  { apply (grows_trans from [str_of "x-forwarded-for"] [str_of "x-real-ip"] p3 (plan_strip "x-forwarded-for" p3)).
    - exact (grows_strip from p3 "x-forwarded-for").
    - exact (grows_strip from (plan_strip "x-forwarded-for" p3) "x-real-ip"). }
  assert (grows from [] p4 p5) as G5.
  { apply (grows_option from (Some (str_of "x-forwarded-for")) xff). intros n w [= <-] ->. right; left.
    rewrite Ef. done. }
  assert (grows from [] p5 (match real_ip with Some v => plan_set "x-real-ip" v p5 | None => p5 end)) as G6.
  { apply (grows_option from (Some (str_of "x-real-ip")) real_ip). intros n w [= <-] ->. right; right; left.
    rewrite Ef. done. }
  eapply grows_less; [|eapply grows_trans; [exact G1|eapply grows_trans; [exact G2|eapply grows_trans;
    [exact G3|eapply grows_trans; [exact G4|eapply grows_trans; [exact G5|exact G6]]]]]].
  intros n. rewrite !elem_of_app. tauto.
Qed.

Lemma strip_credentials_grows rq request_id identity key p :
  grows (gateway_value rq request_id identity key)
    (if fw_authorization (gc_forward doc) then [] else [str_of "authorization"]) p (strip_credentials g rq p).
Proof using.
  set (from := gateway_value rq request_id identity key). unfold strip_credentials.
  destruct (fw_authorization (gc_forward doc)); [apply grows_refl|].
  apply (grows_trans from [str_of "authorization"] [] p (plan_strip "authorization" p));
    [exact (grows_strip from p "authorization")|].
  destruct (_ && _); [|apply grows_refl]. destruct (cookie_values rq) as [|v vs] eqn:Ec; [apply grows_refl|].
  destruct (strip_cookies _ _) as [rest|] eqn:Es.
  - eapply grows_less; [|apply grows_set]; [set_solver|]. do 6 right. left. rewrite Ec. done.
  - eapply grows_less; [|apply grows_strip]. set_solver.
Qed.

Lemma client_key_headers_grows rq request_id identity key p :
  grows (gateway_value rq request_id identity key)
    (if gw_serves_machine g then []
     else map to_ascii_lowercase
            (match client_key_header cfg with Some h => [h] | None => [] end
             ++ match client_key_forward_as cfg with Some h => [h] | None => [] end)) p (client_key_headers g key p).
Proof using.
  set (from := gateway_value rq request_id identity key). unfold client_key_headers.
  destruct (gw_serves_machine g); [apply grows_refl|].
  set (q := match client_key_header cfg with Some h => plan_strip h p | None => p end).
  assert (grows from (map to_ascii_lowercase (match client_key_header cfg with Some h => [h] | None => [] end)) p q)
    as G1 by (unfold q; destruct (client_key_header cfg); [apply grows_strip|apply grows_refl]).
  rewrite map_app. eapply grows_trans; [exact G1|].
  destruct (client_key_forward_as cfg) as [h|] eqn:Eh; [|apply grows_refl].
  destruct key as [id|]; [|apply grows_strip]. apply grows_set. do 7 right. by exists h.
Qed.

(** [serde_json::to_vec] renders every map of claims. *)
Hypothesis renders : forall m, is_Some (to_vec (Object m : value N)).

Lemma describe_caller_grows rq request_id identity key p c tr q c' :
  ftraces (describe_caller g identity p) c tr (Go q) c' ->
  grows (gateway_value rq request_id identity key) (identity_names (gc_identity doc)) p q.
Proof using renders.
  unfold describe_caller. destruct identity as [id|].
  - intros H. ftrace_step.
    destruct (identity_apply _ _ _ _ _ _ _ _) as [q'|e] eqn:E; [|accept_inv]. accept_inv.
    all: eapply grows_weaken; [|eapply (identity_apply_grows (fun m => to_vec (Object m))); [apply renders|exact E]];
      intros n v Ha; do 5 right; left; eexists _, _; (split; [done|]);
      repeat match goal with Hs : identity_secret _ = _ |- _ => rewrite Hs end; exact Ha.
  - intros H. ftrace_inv. apply strip_all_grows.
Qed.

Lemma continue_trace_grows rq request_id identity key p c tr q c' :
  ftraces (continue_trace g rq p) c tr (Go q) c' ->
  grows (gateway_value rq request_id identity key) [] p q.
Proof using.
  clear renders. unfold continue_trace. destruct (gw_sample_ratio g); [|intros H; ftrace_inv; apply grows_refl].
  intros H. repeat ftrace_step. eapply grows_less; [|apply grows_set]; [set_solver|].
  do 4 right. left. split; [done|by eexists].
Qed.

Lemma build_plan_grows rq identity key c tr plan c' :
  ftraces (build_plan g rq identity key) c tr (Go plan) c' ->
  grows (gateway_value rq (cx_request_id c) identity key) gateway_names plan_new plan.
Proof using renders.
  unfold build_plan. intros H. repeat ftrace_step.
  match goal with
  | H1 : ftraces (continue_trace _ _ _) _ _ _ _, H2 : ftraces (describe_caller _ _ _) _ _ _ _ |- _ =>
      apply (continue_trace_grows rq (cx_request_id c) identity key) in H1 as G3;
      apply (describe_caller_grows rq (cx_request_id c) identity key) in H2 as G4
  end.
  eapply grows_less; [|eapply grows_trans; [apply base_header_plan_grows|eapply grows_trans; [|eapply grows_trans;
    [exact G3|eapply grows_trans; [exact G4|eapply grows_trans;
      [apply strip_credentials_grows|apply client_key_headers_grows]]]]]].
  2:{ apply grows_set. right; right; right; left. done. }
  intros n. unfold gateway_names. rewrite !elem_of_app, !elem_of_cons. tauto.
Qed.

(** ** Plans of two requests *)

Definition clock_of (ev : event (gatewayE N)) : option Z :=
  match ev with
  | Event e x => match e in gatewayE _ T return T -> option Z with EpochSecs => Some | _ => fun _ => None end x
  end.

Lemma base_header_plan_alike rq rq' :
  forwarded_for to_str (rq_headers rq) (peer_ip rq) (forwarded_depth g rq) =
  forwarded_for to_str (rq_headers rq') (peer_ip rq') (forwarded_depth g rq') ->
  base_header_plan g rq = base_header_plan g rq'.
Proof using. clear renders. unfold base_header_plan. by intros ->. Qed.

Lemma continue_trace_other n rq p c tr q c' :
  n <> str_of "traceparent" -> ftraces (continue_trace g rq p) c tr (Go q) c' -> agree n p q /\ omap clock_of tr = [].
Proof using.
  clear renders. intros Hn. unfold continue_trace, Proxy.sample. intros H. run_inv; try done.
  all: split; [symmetry; by apply agree_set_other|done].
Qed.

Lemma describe_caller_alike n identity p q c c1 tr tr1 p' q' c' c1' :
  ftraces (describe_caller g identity p) c tr (Go p') c' -> ftraces (describe_caller g identity q) c1 tr1 (Go q') c1' ->
  omap clock_of tr = omap clock_of tr1 -> agree n p q -> agree n p' q'.
Proof using.
  clear renders. unfold describe_caller. destruct identity as [id|].
  - intros H1 H2 Hc Hag.
    assert (forall now, agree_results n
      (identity_apply (fun m => to_vec (Object m)) base64url jwt_encode p (gc_identity doc) (identity_secret cfg) id now)
      (identity_apply (fun m => to_vec (Object m)) base64url jwt_encode q (gc_identity doc) (identity_secret cfg) id now)) as Hr.
    { intros now. by apply identity_apply_agree. }
    destruct (ic_token _), (identity_secret cfg); run_inv; try (cbn in Hc; simplify_eq);
      match goal with
      | E1 : identity_apply _ _ _ p _ _ _ ?now = _, E2 : identity_apply _ _ _ q _ _ _ ?now = _ |- _ =>
          specialize (Hr now); rewrite E1, E2 in Hr; exact Hr
      end.
  - intros H1 H2 _ Hag. run_inv. by apply strip_all_agree.
Qed.

Lemma strip_credentials_alike n rq rq' p q :
  n <> str_of "cookie" -> agree n p q -> agree n (strip_credentials g rq p) (strip_credentials g rq' q).
Proof using.
  clear renders. intros Hn H. unfold strip_credentials. destruct (fw_authorization _); [done|].
  assert (forall rq p, agree n (match cookie_values rq with
      | [] => p
      | values => match strip_cookies values (au_token_cookies (gc_auth doc)) with
                  | Some rest => plan_set "cookie" rest p
                  | None => plan_strip "cookie" p
                  end
      end) p) as Hc.
  { intros rq0 p0. destruct (cookie_values rq0); [done|]. destruct (strip_cookies _ _);
      [by apply agree_set_other|by apply agree_strip_other]. }
  destruct (_ && _); [rewrite !Hc|]; by rewrite H.
Qed.

Lemma client_key_headers_alike n key p q : agree n p q -> agree n (client_key_headers g key p) (client_key_headers g key q).
Proof using. clear renders. intros H. unfold client_key_headers. repeat case_match; try done; by rewrite H. Qed.

Lemma build_plan_alike n rq rq' identity key c c1 tr tr1 plan plan1 c' c1' :
  n <> str_of "cookie" -> n <> str_of "traceparent" ->
  forwarded_for to_str (rq_headers rq) (peer_ip rq) (forwarded_depth g rq) =
  forwarded_for to_str (rq_headers rq') (peer_ip rq') (forwarded_depth g rq') ->
  cx_request_id c = cx_request_id c1 ->
  ftraces (build_plan g rq identity key) c tr (Go plan) c' -> ftraces (build_plan g rq' identity key) c1 tr1 (Go plan1) c1' ->
  omap clock_of tr = omap clock_of tr1 -> agree n plan plan1.
Proof using.
  clear renders. intros Hcook Htrace Haddr Hid H1 H2. apply base_header_plan_alike in Haddr.
  unfold build_plan in *. repeat ftrace_step. rewrite Haddr, Hid in *.
  repeat match goal with H : ftraces (continue_trace _ _ _) _ _ _ _ |- _ =>
    apply (continue_trace_other n) in H as [? ?]; [|done] end.
  cbn. rewrite !omap_app. cbn. rewrite ?app_nil_r.
  repeat match goal with H : omap clock_of _ = [] |- _ => rewrite H; clear H end. cbn. intros Hc.
  apply client_key_headers_alike, strip_credentials_alike; [done|].
  eapply describe_caller_alike; [eassumption|eassumption|done|]. etransitivity; [symmetry; eassumption|done].
Qed.

(** C2: for the headers the gateway owns, no client speaks: under every
    hop-by-hop name, every injected credential, [X-Forwarded-For], [X-Real-IP],
    [X-Request-Id], every identity name, [Authorization] where it is not
    forwarded, and the client-key headers on the public listener, the upstream
    gets only values the gateway vouches for: a configured credential, the
    address the trusted proxies have, the request's identifier or trace, what the
    verified identity asserts, the cookies without the token, or the key's
    identifier. And what a client sends has no part in them: two requests with
    the same identity, key and identifier that come from the same address, as the
    trusted proxies have it, have the same values there (cookies and trace
    apart), whatever else their headers hold and the clock being the same. The
    identifier is the one header of these a client may choose: [receive] keeps
    its [X-Request-Id] where it is text, and the gateway repeats it. *)
Theorem outgoing_headers_are_the_gateways rq identity key c tr plan c'
  (Hrun : ftraces (build_plan g rq identity key) c tr (Go plan) c') :
  forall n, n ∈ gateway_names ->
    (forall sent v, v ∈ apply_plan plan sent n -> gateway_value rq (cx_request_id c) identity key n v) /\
    (forall rq' c1 tr1 plan1 c1' sent sent',
       ftraces (build_plan g rq' identity key) c1 tr1 (Go plan1) c1' ->
       cx_request_id c = cx_request_id c1 -> omap clock_of tr = omap clock_of tr1 ->
       forwarded_for to_str (rq_headers rq) (peer_ip rq) (forwarded_depth g rq) =
       forwarded_for to_str (rq_headers rq') (peer_ip rq') (forwarded_depth g rq') ->
       n <> str_of "cookie" -> n <> str_of "traceparent" -> apply_plan plan sent n = apply_plan plan1 sent' n).
Proof using renders.
  apply build_plan_grows in Hrun as G. intros n Hn.
  pose proof (gr_ok _ _ _ _ G plan_ok_new) as Hok. pose proof (gr_names _ _ _ _ G n Hn) as Hrem. split.
  - intros sent v Hv. apply sent_values in Hv; [|done..].
    apply (gr_set _ _ _ _ G) in Hv as [[]%elem_of_nil|Hv]. done.
  - intros rq' c1 tr1 plan1 c1' sent sent' Hrun1 Hid Hclock Haddr Hcook Htrace.
    apply build_plan_grows in Hrun1 as G1. pose proof (gr_ok _ _ _ _ G1 plan_ok_new) as Hok1.
    apply agree_apply; [done..|]. by eapply build_plan_alike.
Qed.
End Outgoing.

(** ** What the plan leaves *)

Section Leaves.
Context {N : Type} `{HN : JsonNumber N} `{HC : Crates N}.
Variable g : Gateway.

(** Where none of a request's [Cookie] headers is text, the plan leaves them as
    they are, a token cookie among them. *)
Lemma unreadable_cookies_are_forwarded rq plan sent :
  plan_ok plan -> cookie_values rq = [] ->
  apply_plan (strip_credentials g rq plan) sent "cookie" = apply_plan plan sent "cookie".
Proof using.
  intros Hok Hc. unfold strip_credentials. destruct (fw_authorization _); [done|].
  set (q := plan_strip "authorization" plan).
  assert (apply_plan q sent "cookie" = apply_plan plan sent "cookie") as E.
  { unfold q. rewrite !apply_plan_spec by auto with lagos. cbn [hp_set plan_strip].
    destruct (_ !! _); [done|]. apply decide_ext. cbn [hp_remove plan_strip].
    rewrite elem_of_union, elem_of_singleton. split; [|by right]. by intros [?|?]. }
  rewrite Hc. by destruct (_ && _).
Qed.

(** A name no step of a plan is about. *)
Definition untouched (n : str) (p : HeaderPlan) : Prop := plan_ok p /\ n ∉ hp_remove p.

Lemma untouched_strip n h p : n <> to_ascii_lowercase h -> untouched n p -> untouched n (plan_strip h p).
Proof using. intros Hn [Hok Hp]. split; [auto with lagos|]. cbn [hp_remove plan_strip]. set_solver. Qed.

Lemma untouched_set n h v p : n <> to_ascii_lowercase h -> untouched n p -> untouched n (plan_set h v p).
Proof using. intros Hn [Hok Hp]. split; [auto with lagos|]. cbn [hp_remove plan_set]. set_solver. Qed.

Lemma untouched_fold {A} n (f : HeaderPlan -> A -> HeaderPlan) l p :
  (forall a q, a ∈ l -> untouched n q -> untouched n (f q a)) -> untouched n p -> untouched n (fold_left f l p).
Proof using.
  revert p. induction l as [|a l IH]; intros p Hf Hp; simpl; [done|].
  apply IH; [intros; apply Hf; [by right|done]|]. apply Hf; [by left|done].
Qed.

Lemma hop_by_hop_lower h : h ∈ HOP_BY_HOP -> to_ascii_lowercase h ∈ HOP_BY_HOP.
Proof using.
  assert (map to_ascii_lowercase HOP_BY_HOP = HOP_BY_HOP) as E by (vm_compute; reflexivity).
  intros Hh. rewrite <-E. by apply list_elem_of_fmap_2.
Qed.

(** On the internal listener a machine credential read from a header of another
    name than the two defaults stays in the request: the plan clears those two
    alone. *)
Lemma machine_header_is_forwarded rq n :
  n ∉ HOP_BY_HOP -> n ∉ map (fun nv => to_ascii_lowercase nv.1) (injected g) ->
  n ∉ [str_of "x-api-key"; str_of "x-internal-api-key"; str_of "x-forwarded-for"; str_of "x-real-ip"] ->
  forall sent, apply_plan (base_header_plan g rq) sent n = sent n.
Proof using.
  intros Hhop Hinj Hown sent.
  assert (untouched n (base_header_plan g rq)) as [Hok Hn].
  { unfold base_header_plan. destruct (forwarded_for _ _ _ _) as [xff real_ip].
    assert (forall p, untouched n p -> untouched n (if gw_serves_machine g
              then fold_left (fun p name => if existsb (fun nv => nv.1 ==? name) (injected g) then p else plan_strip name p)
                     [str_of "x-api-key"; str_of "x-internal-api-key"] p else p)) as Hm.
    { intros p Hp. destruct (gw_serves_machine g); [|done]. apply untouched_fold; [|done].
      intros a q Ha Hq. destruct (existsb _ _); [done|]. apply untouched_strip; [|done]. intros ->. apply Hown.
      repeat (apply elem_of_cons in Ha as [->|Ha]; [set_solver|]). by apply elem_of_nil in Ha. }
    assert (forall h, h ∈ [str_of "x-forwarded-for"; str_of "x-real-ip"] -> n <> to_ascii_lowercase h) as Hx.
    { intros h Hh ->. apply Hown. repeat (apply elem_of_cons in Hh as [->|Hh]; [set_solver|]). by apply elem_of_nil in Hh. }
    destruct xff, real_ip; repeat first [apply untouched_set; [apply Hx; set_solver|]
      | apply untouched_strip; [apply Hx; set_solver|]].
    all: apply Hm, untouched_fold; [intros [m v] q Hin Hq; apply untouched_set; [|done];
      intros ->; apply Hinj; by apply (list_elem_of_fmap_2 (fun nv => to_ascii_lowercase nv.1) _ (m, v))|].
    all: apply untouched_fold; [intros h q Hh Hq; apply untouched_strip; [|done]|split; [apply plan_ok_new|set_solver]].
    all: intros ->; by apply Hhop, hop_by_hop_lower. }
  rewrite apply_plan_spec, decide_False by done.
  destruct (_ !! n) as [v|] eqn:E; [|done]. apply elem_of_list_to_map_2 in E.
  by apply (po_removed _ Hok) in E.
Qed.
End Leaves.

(** ** Witnesses *)

(** The sample request, and one that forges what it can. *)
Definition forged_headers (n : str) : list (list Z) :=
  if n ==? "x-auth-subject" then [str_of "root"] else if n ==? "x-real-ip" then [str_of "6.6.6.6"]
  else if n ==? "x-forwarded-for" then [str_of "6.6.6.6"] else rq_headers users_request n.
Definition forged_request : Request :=
  {| rq_method := rq_method users_request; rq_path := rq_path users_request; rq_query := rq_query users_request;
     rq_headers := forged_headers; rq_client_addr := rq_client_addr users_request |}.
Definition plan_of (rq : Request) (g : Gateway) : stage HeaderPlan := build_plan g rq (Some users_caller) (Some (str_of "web")).
Definition address_of (g : Gateway) (rq : Request) : option str * option str :=
  forwarded_for to_str (rq_headers rq) (peer_ip rq) (forwarded_depth g rq).

Lemma sample_plans :
  match sample_resolve with
  | Ok r => let g := sample_gateway r in
            match (sample_run g (plan_of users_request)).1.1, (sample_run g (plan_of forged_request)).1.1 with
            | Go _, Go _ => true
            | _, _ => false
            end
            && bool_decide (str_of "x-auth-subject" ∈ gateway_names g)
            && bool_decide (address_of g users_request = address_of g forged_request)
            && bool_decide (omap clock_of (sample_trace g (plan_of users_request)) =
                            omap clock_of (sample_trace g (plan_of forged_request))) = true
  | Err _ => False
  end.
Proof. vm_compute. reflexivity. Qed.

Lemma outgoing_headers_are_the_gateways_witness :
  match sample_resolve with
  | Ok r => exists plan plan1, forall sent sent',
      apply_plan plan sent "x-auth-subject" = apply_plan plan1 sent' "x-auth-subject"
  | Err _ => False
  end.
Proof.
  pose proof sample_plans as H. destruct sample_resolve as [r|e]; [|exact H].
  apply andb_true_iff in H as [[[Hgo Hn%bool_decide_eq_true]%andb_true_iff Ha%bool_decide_eq_true]%andb_true_iff
                               Hc%bool_decide_eq_true].
  pose proof (sample_runs (sample_gateway r) (plan_of users_request)) as Htr.
  pose proof (sample_runs (sample_gateway r) (plan_of forged_request)) as Htr1.
  destruct (sample_run _ (plan_of users_request)) as [[[resp|plan] c] w]; [discriminate Hgo|].
  destruct (sample_run _ (plan_of forged_request)) as [[[resp|plan1] c1] w1]; [discriminate Hgo|].
  exists plan, plan1. intros sent sent'.
  refine (proj2 (outgoing_headers_are_the_gateways _ _ _ _ _ _ _ _ _ Htr _ Hn) _ _ _ _ _ _ _ Htr1 eq_refl Hc Ha _ _);
    [intros m; eexists; reflexivity|discriminate..].
Defined.
