(* ===== verification/Refusals.v ===== *)
(** * What refusals tell (proxy.rs)

    A request for a path that is outside the mounts, unsafe, on the deny-list or
    unknown, and a machine request without the credential, all get one answer. *)

From S2P Require Export Admission.

Section Refusals.
Context {N : Type} `{HN : JsonNumber N} `{HC : Crates N}.
Variable g : Gateway.
Abbreviation gevent := (event (gatewayE N)).
Abbreviation cfg := (gw_cfg g).

(** The one answer to what is not there, for an origin. *)
Definition unknown_answer (origin : option str) : Response :=
  send_with_retry_after 404 (body_bytes to_vec (not_found (N:=N) [] [])) None
    (letO p := cors cfg in letO o := origin in response p o).

Definition not_404 (r : Response) : Prop := rs_status r <> 404.

Lemma stops_reject {A} (rej : Rejection N) : rej_status rej <> 404 -> stops not_404 (reject (A:=A) g rej).
Proof using. intros H c tr r c' (_ & [= ->] & _)%ftraces_reject. done. Qed.

Lemma stops_or_reject {A} (x : option A) rej : rej_status rej <> 404 -> stops not_404 (or_reject g x rej).
Proof using. intros H. destruct x; [apply stops_ret|by apply stops_reject]. Qed.
End Refusals.
#[export] Hint Extern 1 (stops _ (reject _ _)) => (apply stops_reject; discriminate) : stops.
#[export] Hint Extern 1 (stops _ (or_reject _ _ _)) => (apply stops_or_reject; discriminate) : stops.
#[export] Hint Extern 1 (stops _ (answer _)) => (apply stops_answer; discriminate) : stops.
#[export] Hint Extern 1 (stops _ (asks _)) => apply stops_lift : stops.

Section Later.
Context {N : Type} `{HN : JsonNumber N} `{HC : Crates N}.
Variable g : Gateway.

(** Past the route and the machine credential no stage answers 404 of its own. *)
Lemma rate_limit_not_404 of_identity rq route subject : stops not_404 (rate_limit_pass g of_identity rq route subject).
Proof using. unfold rate_limit_pass, check_rate_limit. step_stops. Qed.
Lemma client_key_not_404 rq route path : stops not_404 (check_client_key g rq route path).
Proof using. unfold check_client_key. step_stops. Qed.
Lemma authenticate_not_404 rq route : stops not_404 (authenticate g rq route).
Proof using. unfold authenticate, check_cookie_origin, verify_token. step_stops. Qed.
Lemma bindings_not_404 rq route identity : stops not_404 (check_bindings g rq route identity).
Proof using.
  assert (forall id bs, stops not_404 (check_each_binding g rq id bs)).
  { intros id bs. induction bs; cbn [check_each_binding]; step_stops. }
  unfold check_bindings. step_stops.
Qed.
Lemma build_plan_not_404 rq identity key : stops not_404 (build_plan g rq identity key).
Proof using.
  assert (forall e, stops not_404 (reject (A:=HeaderPlan) g (identity_rejection e))) by (intros []; by apply stops_reject).
  unfold build_plan, continue_trace, Proxy.sample, describe_caller. step_stops.
Qed.
Lemma admit_not_404 rq table route path subject key plan : stops not_404 (admit_request g rq table route path subject key plan).
Proof using. unfold admit_request, plan_slot. step_stops. Qed.

Lemma extensions_not_404 rq route path identity plan c tr r c' :
  ftraces (run_extensions g rq route path identity plan) c tr (Stop r) c' -> hooks tr = [] -> rs_status r <> 404.
Proof using.
  unfold run_extensions. intros H Hn. apply ftraces_bind in H as [(r' & _ & H)|(t1 & t2 & x & c1 & -> & H1 & H2)].
  - by apply (stops_lift (fun _ => False)) in H.
  - unfold ftraces, lift in H1. apply traces_bind in H1 as (t3 & t4 & y & -> & H3 & -> & [= -> ->]).
    rewrite app_nil_r, hooks_app in Hn. apply app_eq_nil in Hn as [Hn _]. destruct y as [p|rej]; [by ftrace_inv|].
    apply ftraces_reject in H2 as (_ & [= ->] & _). cbn. rewrite (run_chain_own_refusal _ _ _ _ _ _ _ _ H3 Hn). done.
Qed.

(** ** Up to the route *)

(** What is said of a stage that may find nothing: a 404 it answers is the one
    answer for the origin the context has. *)
Definition finds_nothing {A} (m : stage (N:=N) A) : Prop :=
  forall c tr r c', cx_retry_after c = None -> ftraces m c tr (Stop r) c' -> rs_status r = 404 ->
    r = send_with_retry_after 404 (body_bytes to_vec (not_found (N:=N) [] [])) None (cx_cors c).

Lemma finds_nothing_reject {A} event reason : finds_nothing (reject (A:=A) g (not_found event reason)).
Proof using. intros c tr r c' Hc (_ & [= ->] & _)%ftraces_reject _. unfold refusal. by rewrite Hc. Qed.

Lemma finds_nothing_not {A} (m : stage A) : stops not_404 m -> finds_nothing m.
Proof using. intros Hm c tr r c' _ H%Hm Hs. done. Qed.

(** A stage that goes on leaves what a refusal would send. *)
Definition passes_on {A} (m : stage (N:=N) A) : Prop :=
  forall c tr a c', ftraces m c tr (Go a) c' -> cx_cors c' = cx_cors c /\ cx_retry_after c' = cx_retry_after c.

Lemma finds_nothing_bind {A B} (m : stage A) (k : A -> stage B) :
  finds_nothing m -> passes_on m -> (forall a, finds_nothing (k a)) -> finds_nothing (abind m k).
Proof using.
  intros Hm Hp Hk c tr r c' Hc [(r' & [= <-] & H)|(t1 & t2 & a & c1 & -> & H1 & H2)]%ftraces_bind Hs.
  - by eapply Hm.
  - apply Hp in H1 as [E1 E2]. rewrite <-E1. eapply Hk; [congruence|done..].
Qed.

Lemma finds_nothing_or_reject {A} (x : option A) event reason : finds_nothing (or_reject g x (not_found event reason)).
Proof using. destruct x; [apply finds_nothing_not, stops_ret|apply finds_nothing_reject]. Qed.

Lemma passes_on_same {A} (m : stage A) : (forall c tr a c', ftraces m c tr (Go a) c' -> c' = c) -> passes_on m.
Proof using. by intros H c tr a c' ->%H. Qed.

(** [receive] settles the cross-origin headers of every answer. *)
Lemma receive_spec rq c tr o c' :
  ftraces (receive g rq) c tr o c' -> cx_cors c = None ->
  exists u, o = Go u /\ cx_retry_after c' = cx_retry_after c /\
    cx_cors c' = (letO p := cors (gw_cfg g) in letO o := header_str rq "origin" in response p o).
Proof using.
  unfold receive. intros H Hc. accept_inv.
  all: eexists; split; [done|]; simpl; rewrite ?Hc.
  all: by destruct (cors (gw_cfg g)), (header_str rq "origin").
Qed.

Lemma finding_finds_nothing rq :
  finds_nothing (do! health g rq in do! early_refusals g rq in let! path := resolve_path g rq in
                 let! table := asks LoadTable in do! deny g table path in do! answer_preflight g rq table path in
                 let! route := find_route g rq table path in aret (table, path, route)).
Proof using.
  apply finds_nothing_bind; [apply finds_nothing_not; unfold health; step_stops|
    apply passes_on_same; by intros ? ? ? ? [_ ->]%health_Go|intros []].
  apply finds_nothing_bind; [apply finds_nothing_not; unfold early_refusals; step_stops|
    apply passes_on_same; by intros ? ? ? ? (_ & -> & _)%early_refusals_Go|intros []].
  apply finds_nothing_bind; [| |intros path].
  { unfold resolve_path. repeat (apply finds_nothing_bind; [| |intros ?]).
    all: try apply finds_nothing_or_reject; try (apply finds_nothing_not; step_stops; fail).
    all: intros ? ? ? ? Hrun; accept_inv; by destruct (gw_dev g). }
  { unfold resolve_path. intros c tr a c' Hrun. accept_inv; by destruct (gw_dev g). }
  apply finds_nothing_bind; [apply finds_nothing_not; step_stops|
    apply passes_on_same; intros c tr a c' Hrun; by ftrace_inv|intros table].
  apply finds_nothing_bind; [unfold deny; destruct (is_denied _ _); [apply finds_nothing_reject|apply finds_nothing_not, stops_ret]|
    apply passes_on_same; unfold deny; intros c tr a c' Hrun; by accept_inv|intros []].
  apply finds_nothing_bind; [apply finds_nothing_not; unfold answer_preflight; step_stops|
    apply passes_on_same; by intros ? ? ? ? [_ ->]%answer_preflight_Go|intros []].
  apply finds_nothing_bind; [|apply passes_on_same; by intros ? ? ? ? (_ & -> & _)%find_route_Go|
    intros route; apply finds_nothing_not, stops_ret].
  unfold find_route. apply finds_nothing_bind; [apply finds_nothing_or_reject| |intros route].
  - apply passes_on_same. by intros c tr a c' (_ & _ & ->)%or_reject_Go.
  - apply finds_nothing_not. step_stops.
Qed.

Lemma route_request_finds_nothing rq c tr r c' :
  cx_retry_after c = None -> cx_cors c = None ->
  ftraces (route_request g rq) c tr (Stop r) c' -> rs_status r = 404 ->
  r = unknown_answer g (header_str rq "origin").
Proof using.
  intros Hr Hc. unfold route_request. intros [(r' & [= <-] & H)|(t1 & t2 & u & c1 & -> & H1 & H2)]%ftraces_bind Hs.
  { by apply receive_spec in H as (u & [=] & _). }
  apply receive_spec in H1 as (u' & _ & Hr1 & Hc1); [|done].
  assert (cx_retry_after c1 = None) as Hr2 by congruence.
  rewrite (finding_finds_nothing rq _ _ _ _ Hr2 H2 Hs). unfold unknown_answer. by rewrite Hc1.
Qed.

Lemma route_request_passes rq c tr a c' :
  cx_retry_after c = None -> cx_cors c = None -> ftraces (route_request g rq) c tr (Go a) c' ->
  cx_retry_after c' = None /\ cx_cors c' = (letO p := cors (gw_cfg g) in letO o := header_str rq "origin" in response p o).
Proof using.
  intros Hr Hc H. destruct a as [[table path] route]. unfold route_request in H. ftrace_step. ran receive_spec as (u & _ & Hr1 & Hc1); [|done].
  repeat ftrace_step. ran health_Go as [-> ->]. ran early_refusals_Go as (-> & -> & _).
  ran answer_preflight_Go as [-> ->]. ran find_route_Go as (-> & -> & _).
  rewrite <-Hc1, <-Hr, <-Hr1. unfold resolve_path, deny in *. accept_inv; by destruct (gw_dev g).
Qed.

Lemma machine_finds_nothing rq route : finds_nothing (authenticate_machine g rq route).
Proof using.
  unfold authenticate_machine. case_bool_decide; [|apply finds_nothing_not, stops_ret].
  apply finds_nothing_bind; [apply finds_nothing_not; step_stops|
    apply passes_on_same; by intros ? ? ? ? (_ & _ & ->)%or_reject_Go|intros secret].
  case_bool_decide; [apply finds_nothing_not, stops_ret|apply finds_nothing_reject].
Qed.

(** Any 404 the gateway answers of its own is the one for the origin. *)
Lemma own_404 rq tr r c' :
  ftraces (request_filter g rq) new_ctx tr (Stop r) c' -> hooks tr = [] -> rs_status r = 404 ->
  r = unknown_answer g (header_str rq "origin").
Proof using.
  intros H Hn Hs. unfold request_filter in H.
  apply ftraces_bind in H as [(r' & [= <-] & H)|(t1 & t2 & [[table path] route] & c1 & -> & H1 & H)].
  { exact (route_request_finds_nothing rq new_ctx tr r c' eq_refl eq_refl H Hs). }
  destruct (route_request_passes rq new_ctx t1 (table, path, route) c1 eq_refl eq_refl H1) as [Hr Hc].
  apply ftraces_bind in H as [(r' & [= <-] & H)|(t3 & t4 & [key identity] & c2 & -> & H3 & H)].
  - unfold authorize in H. apply ftraces_bind in H as [(r' & [= <-] & H)|(t5 & t6 & u & c3 & -> & H5 & H)].
    + rewrite (machine_finds_nothing _ _ _ _ _ _ Hr H Hs). unfold unknown_answer. by rewrite Hc.
    + exfalso. revert H. pose proof rate_limit_not_404. pose proof client_key_not_404.
      pose proof authenticate_not_404. pose proof bindings_not_404.
      match goal with |- ftraces ?m _ _ _ _ -> _ => assert (stops not_404 m) as Hm by step_stops end.
      intros H4. by apply Hm in H4.
  - exfalso. apply ftraces_bind in H as [(r' & [= <-] & H)|(t5 & t6 & plan & c3 & -> & H5 & H)].
    { by apply build_plan_not_404 in H. }
    rewrite !hooks_app in Hn. apply app_eq_nil in Hn as [_ Hn]. apply app_eq_nil in Hn as [_ Hn].
    apply app_eq_nil in Hn as [_ Hn].
    apply ftraces_bind in H as [(r' & [= <-] & H)|(t7 & t8 & plan' & c4 & -> & H7 & H)].
    { by eapply extensions_not_404 in H. }
    by apply admit_not_404 in H.
Qed.

(** C4: a 404 reveals nothing: for two requests of one origin, whatever their
    methods, paths, credentials and tables in service, any two 404 answers the
    gateway gives of its own (outside the mounts, an unsafe path, a path on
    the deny-list, an unknown route, a machine route without its secret) are
    the same response, cross-origin headers and body included, so the deny-list
    and the internal routes cannot be told from what is not there. *)
Theorem not_found_reveals_nothing rq1 rq2 tr1 tr2 r1 r2 c1 c2
  (Hsame : header_str rq1 "origin" = header_str rq2 "origin")
  (H1 : ftraces (request_filter g rq1) new_ctx tr1 (Stop r1) c1) (E1 : hooks tr1 = []) (S1 : rs_status r1 = 404)
  (H2 : ftraces (request_filter g rq2) new_ctx tr2 (Stop r2) c2) (E2 : hooks tr2 = []) (S2 : rs_status r2 = 404) :
  r1 = r2.
Proof using.
  apply own_404 in H1 as ->; [|done..]. apply own_404 in H2 as ->; [|done..]. by rewrite Hsame.
Qed.
End Later.

(** ** Witnesses *)

(** A path on the deny-list, and one that is nowhere. *)
Definition asking (path : str) : Request :=
  {| rq_method := "GET"; rq_path := path; rq_query := None; rq_headers := headers_of []; rq_client_addr := None |}.
Definition is_404 (o : flow Response ()) : bool := match o with Stop r => rs_status r =? 404 | Go _ => false end.

Lemma sample_refuses :
  match sample_resolve with
  | Ok r => forallb (fun path =>
              is_404 (sample_run (sample_gateway r) (fun g => request_filter g (asking path))).1.1
              && is_nil (hooks (sample_trace (sample_gateway r) (fun g => request_filter g (asking path)))))
              [str_of "/api/v1/INTERNAL/jobs"; str_of "/api/v1/nowhere"] = true
  | Err _ => False
  end.
Proof. vm_compute. reflexivity. Qed.

Lemma not_found_reveals_nothing_witness :
  match sample_resolve with
  | Ok r => (sample_run (sample_gateway r) (fun g => request_filter g (asking "/api/v1/INTERNAL/jobs"))).1.1 =
            (sample_run (sample_gateway r) (fun g => request_filter g (asking "/api/v1/nowhere"))).1.1
  | Err _ => False
  end.
Proof.
  pose proof sample_refuses as H. destruct sample_resolve as [r|e]; [|exact H]. cbn [forallb] in H.
  apply andb_true_iff in H as [Ha H]. apply andb_true_iff in H as [Hb _].
  apply andb_true_iff in Ha as [Sa Na]. apply andb_true_iff in Hb as [Sb Nb].
  pose proof (sample_runs (sample_gateway r) (fun g => request_filter g (asking "/api/v1/INTERNAL/jobs"))) as Ra.
  pose proof (sample_runs (sample_gateway r) (fun g => request_filter g (asking "/api/v1/nowhere"))) as Rb.
  destruct (sample_run _ (fun g => request_filter g (asking "/api/v1/INTERNAL/jobs"))) as [[oa ca] wa].
  destruct (sample_run _ (fun g => request_filter g (asking "/api/v1/nowhere"))) as [[ob cb] wb].
  destruct oa as [ra|]; [|discriminate Sa]. destruct ob as [rb|]; [|discriminate Sb].
  destruct (hooks (sample_trace _ (fun g => request_filter g (asking "/api/v1/INTERNAL/jobs")))) eqn:Ea; [|discriminate Na].
  destruct (hooks (sample_trace _ (fun g => request_filter g (asking "/api/v1/nowhere")))) eqn:Eb; [|discriminate Nb].
  refine (f_equal Stop (not_found_reveals_nothing _ _ _ _ _ _ _ _ _ _ Ra Ea _ Rb Eb _)).
  - reflexivity.
  - apply Z.eqb_eq. exact Sa.
  - apply Z.eqb_eq. exact Sb.
Defined.
