(* ===== verification/Delivery.v ===== *)
(** * Sending a request upstream (proxy.rs)

    What the gateway does for an admitted request, as Pingora calls it back: the
    concurrency slot and the circuit breaker, the choice of a peer, the request
    that is sent, what a failure leads to, and the end of the exchange.  A
    callback that fails answers with an error of Pingora's. *)

From S2P Require Export Proxy.

(** ** Addresses and targets *)

(** [choose_dns_address]: the sum wraps. *)
Definition choose_dns_address (addrs : list SocketAddr) (start attempt : Z) : option SocketAddr :=
  addrs !! Z.to_nat (((start + attempt) mod 2 ^ 64) mod Z.max 1 (Z.of_nat (length addrs))).

Section Uri.
Context {N : Type} `{HC : Crates N}.

Definition upstream_uri (base_path path : str) (query : option str) : str :=
  (if base_path ==? [] then [] else b_slash :: base_path)
  ++ (if negb (path ==? []) || (base_path ==? []) then b_slash :: encode_path_segments percent_encode path else [])
  ++ match query with Some q => 63 :: q | None => [] end.
End Uri.

(** Pingora's [HttpPeer], as the gateway fills it in. *)
Record HttpPeer := {
  pr_addr : SocketAddr;
  pr_tls : bool;
  pr_sni : str;
  pr_connection_timeout : Z;
  pr_total_connection_timeout : Z;
  pr_read_timeout : Z;
  pr_write_timeout : Z;
  pr_idle_timeout : Z;
}.

(** [Error::explain], and [into_up]. *)
Definition explain (t : ErrorType) (text : str) : PError :=
  {| pe_type := t; pe_source := SrcUnset; pe_text := text; pe_retry := false |}.
Definition into_up (e : PError) : PError :=
  {| pe_type := pe_type e; pe_source := SrcUpstream; pe_text := pe_text e; pe_retry := pe_retry e |}.
Definition set_retry (b : bool) (e : PError) : PError :=
  {| pe_type := pe_type e; pe_source := pe_source e; pe_text := pe_text e; pe_retry := b |}.

(** The fields of an outgoing message, by lower-case name. *)
Abbreviation fields := (str -> list str).
Definition append_header (name value : str) (h : fields) : fields :=
  fun n => if n ==? name then h n ++ [value] else h n.

Section Delivery.
Context {N : Type} `{HN : JsonNumber N} `{HC : Crates N}.
Variable g : Gateway.
Let cfg := gw_cfg g.
Let doc := raw (gw_cfg g).

(** ** Before the upstream *)

Definition circuit_cooldown (upstream : str) : Z :=
  match (letO u := upstreams cfg !! upstream in up_circuit_breaker u) with
  | Some cb => Z.max 1 (as_secs (cb_cooldown cb))
  | None => 1
  end.

Definition take_slot : stage (N:=N) () :=
  let! c := read_ctx in
  match cx_concurrency c with
  | None => aret tt
  | Some slot =>
      do! update (fun c => c <| cx_concurrency := None |>) in
      let! held := asks (TakeSlot (ps_key slot) (ps_max slot) (ps_per_caller slot)) in
      match held with
      | Some s => update (fun c => c <| cx_inflight := Some s |>)
      | None =>
          do! update (fun c => c <| cx_retry_after := Some 1 |>) in
          reject g (concurrency_limited (ps_per_caller slot) 1)
      end
  end.

Definition breaker_of (upstream : str) : option CircuitBreakerConfig :=
  letO u := gw_upstreams g !! upstream in us_breaker u.

Definition admit_trial : stage (N:=N) () :=
  let! c := read_ctx in
  let name := cx_upstream_name c in
  match breaker_of name with
  | None => aret tt
  | Some _ =>
      let! allowed := asks (BreakerAllow name) in
      if allowed : bool then update (fun c => c <| cx_breaker_upstream := Some name |>)
      else
        do! update (fun c => c <| cx_retry_after := Some (circuit_cooldown name) |>) in
        let! s := asks (BreakerState name) in
        do! update (fun c => c <| cx_circuit := Some s |>) in
        reject g (circuit_open (circuit_cooldown name))
  end.

(** [proxy_upstream_filter]: the slot before the trial. *)
Definition proxy_upstream_filter : stage (N:=N) () := do! take_slot in admit_trial.

(** ** The peer *)

(** A callback that may fail. *)
Definition callback (A : Type) := action (gatewayE N) Ctx PError A.

Definition hash_key (rq : Request) (c : Ctx) : str :=
  match upstreams cfg !! cx_upstream_name c with
  | Some u =>
      if up_balance u ==? Consistent then
        match up_hash_on u with
        | HashPath => cx_path c
        | HashIdentity => default [] (cx_subject c)
        | HashIp => default [] (peer_ip rq)
        | HashHeader name => default [] (header_str rq name)
        end
      else cx_request_id c
  | None => cx_request_id c
  end.

Definition choose (name : str) (up : Upstream) (key : str) : callback Selected :=
  let! chosen := match us_kind up with
                 | Single _ => aret None
                 | Pool _ => asks (ChooseBackend name key)
                 end in
  match Upstream.select (us_kind up) chosen with
  | Some s => aret s
  | None => answer (into_up (explain ConnectError "every backend in the pool is unhealthy"))
  end.

Definition candidate_addresses (s : Selected) : callback (list SocketAddr) :=
  match sel_addr s with
  | Some a => aret [a]
  | None => let! r := asks (Addresses (tg_addr (sel_target s))) in
            match r with Ok l => aret l | Err e => answer e end
  end.

(** [get_or_insert_with]: the rotation is drawn once per request. *)
Definition dns_start : callback Z :=
  let! c := read_ctx in
  match cx_dns_start c with
  | Some s => aret s
  | None => let! s := asks NextDns in
            do! update (fun c => c <| cx_dns_start := Some s |>) in
            aret s
  end.

Definition upstream_peer (rq : Request) : callback HttpPeer :=
  let! c := read_ctx in
  match gw_upstreams g !! cx_upstream_name c with
  | None => answer (explain InternalError "upstream vanished")
  | Some up =>
      let! s := choose (cx_upstream_name c) up (hash_key rq c) in
      let! addrs := candidate_addresses s in
      let! start := dns_start in
      do! update (fun c => c <| cx_dns_candidates := length addrs |>) in
      let! c := read_ctx in
      match choose_dns_address addrs start (cx_dns_attempts c) with
      | None => answer (into_up (explain ConnectError "upstream DNS returned no addresses"))
      | Some addr =>
          let t := gc_timeouts doc in
          do! update (fun c => c <| cx_target := Some (sel_target s) |>) in
          aret {| pr_addr := addr; pr_tls := tg_tls (sel_target s); pr_sni := tg_sni (sel_target s);
                  pr_connection_timeout := t_connect t;
                  pr_total_connection_timeout := sat_mul duration_max (t_connect t) 2;
                  pr_read_timeout := cx_timeout c; pr_write_timeout := cx_timeout c;
                  pr_idle_timeout := t_upstream_idle t |}
      end
  end.

(** ** The request that is sent *)

(** [str::parse::<http::Uri>] succeeds, and [http::HeaderValue] takes a text. *)
Context (uri_ok : str -> bool) (value_ok : str -> bool).

Definition sweep (h : fields) : fields :=
  if fw_mode (gc_forward doc) ==? Allowlist
  then fun n => if is_forwardable g n then h n else []
  else h.

(** [upstream_request_filter], on the fields of the client's request: the
    target and the fields of the upstream's. *)
Definition upstream_request_filter (c : Ctx) (h : fields) : result (str * fields) PError :=
  let? t := ok_or (cx_target c) (explain InternalError "no backend was selected") in
  let uri := upstream_uri (tg_base_path t) (default (cx_path c) (cx_upstream_path c)) (cx_query c) in
  let? _ := if uri_ok uri then Ok tt else Err (explain InternalError "unbuildable upstream URI") in
  let? h := if fw_preserve_host (gc_forward doc) then Ok h
            else if value_ok (tg_addr t) then Ok (insert_header "host" (tg_addr t) h)
            else Err (explain (OtherError "InvalidHTTPHeader") []) in
  let h := sweep h in
  if forallb (fun nv => value_ok nv.2) (additions (cx_plan c)) then Ok (uri, apply_plan (cx_plan c) h)
  else Err (explain (OtherError "InvalidHTTPHeader") []).

Definition request_body_filter (c : Ctx) (chunk : option Z) : result Ctx PError :=
  match chunk with
  | None => Ok c
  | Some len =>
      match add_body_chunk (cx_body_bytes c) len (lt_max_body (gc_limits doc)) with
      | Some next => Ok (c <| cx_body_bytes := next |>)
      | None => Err (explain (HTTPStatus 413) "payload too large")
      end
  end.

(** ** Failures *)

Definition fail_to_connect (replayable : bool) (e : PError) (c : Ctx) : Ctx * PError :=
  if replayable && (sat_add usize_max (cx_dns_failovers c) 1 <? Z.of_nat (cx_dns_candidates c)) then
    (c <| cx_dns_failovers := sat_add usize_max (cx_dns_failovers c) 1 |>
       <| cx_dns_attempts := sat_add u32_max (cx_dns_attempts c) 1 |>, set_retry true e)
  else
    match cx_retry c with
    | None => (c, e)
    | Some p =>
        if should_retry p Connect (cx_attempts c) (cx_method c) replayable then
          (c <| cx_attempts := sat_add u32_max (cx_attempts c) 1 |>
             <| cx_dns_attempts := sat_add u32_max (cx_dns_attempts c) 1 |>, set_retry true e)
        else (c, e)
    end.

(** [Error::more_context] and [RetryType::decide_reuse]: Pingora's own verdict
    on an error of a connection that was or was not reused. *)
Context (decide_reuse : bool -> PError -> PError).

Definition error_while_proxy (client_reused replayable : bool) (e : PError) (c : Ctx) : Ctx * PError :=
  let e := decide_reuse (client_reused && replayable) e in
  match cx_retry c with
  | None => (c, e)
  | Some p =>
      if negb (pe_retry e) then (c, e)
      else if should_retry p Transport (cx_attempts c) (cx_method c) replayable then
        (c <| cx_attempts := sat_add u32_max (cx_attempts c) 1 |>, e)
      else (c, set_retry false e)
  end.

(** ** The response *)

Definition cors_fields (headers : header_list) (h : fields) : fields :=
  fold_left (fun h (nv : str * str) => if nv.1 ==? "vary" then append_header nv.1 nv.2 h else insert_header nv.1 nv.2 h) headers h.

Definition response_filter (status : Z) (h : fields) (c : Ctx) : Ctx * fields :=
  let h := cors_fields (default [] (cx_cors c)) h in
  let h := if cx_sse c then insert_header "x-accel-buffering" "no" (insert_header "cache-control" "no-cache" h)
           else h in
  (c <| cx_status := status |>, h).

(** [ErrorType::as_str]. *)
Context (etype_str : ErrorType -> str).

Definition failure (e : PError) : Rejection N :=
  match pe_type e with
  | ConnectTimedout | ReadTimedout | WriteTimedout => gateway_timeout
  | HTTPStatus 413 => payload_too_large
  | t => rejection_new 502 (envelope 502 "Bad Gateway" "Bad Gateway" []) "gateway.upstream.unreachable" (etype_str t)
  end.

(** [fail_to_proxy]: what is sent where nothing was written yet, and the code
    of the failure. *)
Definition fail_to_proxy (written : bool) (e : PError) (c : Ctx) : Ctx * option Response * Z :=
  let rej := failure e in
  (c <| cx_status := rej_status rej |>,
   (if written then None else Some (send (rej_status rej) (body_bytes to_vec rej))), rej_status rej).

(** ** The end *)

(** The report [logging] makes to the circuit: once, after any retries. *)
Definition report (name : str) (e : option PError) (status : Z) : stage (N:=N) () :=
  match e with
  | Some e => if pe_source e ==? SrcUpstream then asks (BreakerFailure name) else asks (BreakerCancel name)
  | None => if 500 <=? status then asks (BreakerFailure name) else asks (BreakerSuccess name)
  end.

Definition logging (written : option Z) (e : option PError) : stage (N:=N) () :=
  let! c := read_ctx in
  let status := default (cx_status c) written in
  match cx_breaker_upstream c with
  | Some name => match breaker_of name with
                 | Some _ => report name e status
                 | None => aret tt
                 end
  | None => aret tt
  end.

(** The drop of the context. *)
Definition drop_ctx : stage (N:=N) () :=
  let! c := read_ctx in
  match cx_inflight c with
  | Some s => asks (DropSlot s)
  | None => aret tt
  end.
End Delivery.
