(* ===== verification/Exchange.v ===== *)
(** * A whole exchange (proxy.rs, downstream.rs)

    The life of one request from its filter to the drop of its context, with the
    callbacks to an upstream in any order and with any outcome, or up to the point
    where the deadline of the whole request cuts it: what the request takes, it
    gives back, but for the report of a trial that is cut. *)

From S2P Require Export Admission Delivery.

Section Exchange.
Context {N : Type} `{HN : JsonNumber N} `{HC : Crates N}.
Variable g : Gateway.
Variable rq : Request.
(** What the crates contribute to the callbacks. *)
Context (decide_reuse : bool -> PError -> PError) (etype_str : ErrorType -> str).
Abbreviation gevent := (event (gatewayE N)).

(** ** Callbacks to an upstream *)

(** The error of a callback asks for the request to be sent again. *)
Definition asks_again {A} (o : flow PError A) : bool := match o with Stop e => pe_retry e | Go _ => false end.
(** The resolver's error was already marked so. *)
Definition resolver_marked (ev : gevent) : bool :=
  match ev with
  | Event e x =>
      match e in gatewayE _ T return T -> bool with
      | Addresses _ => fun r => match r with Err e => pe_retry e | Ok _ => false end
      | _ => fun _ => false
      end x
  end.

(** One callback between the admission upstream and the end: whether the error
    it leaves asks for another try, and whether the gateway only passed on one
    that it was handed -- an error marked before it saw it or, on a route
    without a policy, Pingora's own rule for reused connections. *)
Inductive called (c : Ctx) : list gevent -> bool -> bool -> Ctx -> Prop :=
| called_peer tr o c' : ftraces (upstream_peer g rq) c tr o c' ->
    called c tr (asks_again o) (existsb resolver_marked tr) c'
| called_body chunk c' : request_body_filter g c chunk = Ok c' -> called c [] false false c'
| called_connect replayable e :
    called c [] (pe_retry (fail_to_connect replayable e c).2) (pe_retry e) (fail_to_connect replayable e c).1
| called_error reused replayable e :
    called c [] (pe_retry (error_while_proxy decide_reuse reused replayable e c).2)
      (bool_decide (cx_retry c = None) && pe_retry (decide_reuse (reused && replayable) e))
      (error_while_proxy decide_reuse reused replayable e c).1
| called_response status h : called c [] false false (response_filter status h c).1
| called_failed written e : called c [] false false (fail_to_proxy (N:=N) etype_str written e c).1.1.

(** Any number of them: how many asked for another try, and how many of those
    requests were handed to the gateway. *)
Inductive phase : Ctx -> list gevent -> Z -> Z -> Ctx -> Prop :=
| phase_end c : phase c [] 0 0 c
| phase_call c t1 a o c1 t2 n p c2 : called c t1 a o c1 -> phase c1 t2 n p c2 ->
    phase c (t1 ++ t2) (n + Z.b2z a) (p + Z.b2z o) c2.

Definition finish (written : option Z) (e : option PError) : stage (N:=N) () := do! logging g written e in drop_ctx.

(** A request that lives to its end is answered by its filter, served from the
    cache, refused on its way upstream, or proxied; then it is logged and its
    context dropped. *)
Inductive lived : list gevent -> Prop :=
| lived_answered t1 r c1 written e t2 u c2 :
    ftraces (request_filter g rq) new_ctx t1 (Stop r) c1 -> ftraces (finish written e) c1 t2 u c2 -> lived (t1 ++ t2)
| lived_cached t1 c1 written e t2 u c2 :
    ftraces (request_filter g rq) new_ctx t1 (Go tt) c1 -> ftraces (finish written e) c1 t2 u c2 -> lived (t1 ++ t2)
| lived_refused t1 c1 t2 r c2 written e t3 u c3 :
    ftraces (request_filter g rq) new_ctx t1 (Go tt) c1 -> ftraces (proxy_upstream_filter g) c1 t2 (Stop r) c2 ->
    ftraces (finish written e) c2 t3 u c3 -> lived (t1 ++ t2 ++ t3)
| lived_proxied t1 c1 t2 c2 t3 n p c3 written e t4 u c4 :
    ftraces (request_filter g rq) new_ctx t1 (Go tt) c1 -> ftraces (proxy_upstream_filter g) c1 t2 (Go tt) c2 ->
    phase c2 t3 n p c3 -> ftraces (finish written e) c3 t4 u c4 -> lived (t1 ++ t2 ++ t3 ++ t4).

(** ** Taking and giving back *)

Inductive upkeep :=
| Took (s : Slot) | AtCapacity | Dropped (s : Slot)
| Trialled (upstream : str) | Shed (upstream : str) | Reported (upstream : str).

Definition upkeep_of (ev : gevent) : option upkeep :=
  match ev with
  | Event e x =>
      match e in gatewayE _ T return T -> option upkeep with
      | TakeSlot _ _ _ => fun s => Some (match s with Some s => Took s | None => AtCapacity end)
      | DropSlot s => fun _ => Some (Dropped s)
      | BreakerAllow n => fun b => Some (if b : bool then Trialled n else Shed n)
      | BreakerCancel n | BreakerSuccess n | BreakerFailure n => fun _ => Some (Reported n)
      | _ => fun _ => None
      end x
  end.
Definition upkeeps (tr : list gevent) : list upkeep := omap upkeep_of tr.

Lemma upkeeps_app t1 t2 : upkeeps (t1 ++ t2) = upkeeps t1 ++ upkeeps t2.
Proof using. apply omap_app. Qed.

Definition taken (s : option Slot) : list upkeep := match s with Some s => [Took s] | None => [] end.
Definition dropped (s : option Slot) : list upkeep := match s with Some s => [Dropped s] | None => [] end.

(** The slot that is out after a trace. *)
Definition slot_out (tr : list gevent) : option Slot :=
  fold_left (fun s u => match u with Took s => Some s | Dropped _ => None | _ => s end) (upkeeps tr) None.
Definition drop_slot (s : option Slot) : list gevent := match s with Some s => [Event (DropSlot s) tt] | None => [] end.

(** [request_budget]: under a [request_total] the life may be cut anywhere. The
    future of the exchange is dropped, and with it the context and the slot it
    guards; [logging] is not called. *)
Inductive exchange : bool -> list gevent -> Prop :=
| ex_ended tr : lived tr -> exchange false tr
| ex_cut t1 t2 total :
    lived (t1 ++ t2) -> t_request_total (gc_timeouts (raw (gw_cfg g))) = Some total ->
    exchange true (t1 ++ drop_slot (slot_out t1)).

(** What an exchange does to the counters it shares with others. *)
Inductive balanced : list upkeep -> Prop :=
| balanced_full : balanced [AtCapacity]
| balanced_plain s : balanced (taken s ++ dropped s)
| balanced_shed s n : balanced (taken s ++ Shed n :: dropped s)
| balanced_trial s n : balanced (taken s ++ [Trialled n; Reported n] ++ dropped s).

(** The trial of a request that was cut before it was logged is not reported. *)
Definition unreported (us : list upkeep) : Prop := exists s n, us = taken s ++ [Trialled n] ++ dropped s.

(** What is held for a request. *)
Definition held (c : Ctx) : option Slot * option str := (cx_inflight c, cx_breaker_upstream c).

Abbreviation no_upkeep := (fun ev : gevent => upkeep_of ev = None).

Lemma upkeeps_none tr : Forall no_upkeep tr -> upkeeps tr = [].
Proof using. induction 1 as [|ev tr Hev _ IH]; [done|]. unfold upkeeps in *. simpl. by rewrite Hev. Qed.

Lemma request_filter_no_upkeep : only no_upkeep (request_filter g rq).
Proof using.
  assert (forall id bs, only no_upkeep (check_each_binding g rq id bs)).
  { intros id bs. induction bs; cbn [check_each_binding]; step_only. }
  assert (forall rq route path identity plan, only no_upkeep (run_extensions g rq route path identity plan)).
  { intros. unfold run_extensions. apply only_bind; [|step_only]. apply only_lift. intros tr a H1%run_chain_events.
    eapply List.Forall_impl; [|exact H1]. intros [T e x]. unfold chain_event. cbn. by destruct e. }
  unfold request_filter, route_request, receive, health, early_refusals, resolve_path, deny, answer_preflight,
    find_route, authorize, authenticate_machine, rate_limit_pass, check_rate_limit, check_client_key, authenticate,
    check_cookie_origin, verify_token, check_bindings, build_plan, continue_trace, Proxy.sample, describe_caller,
    admit_request, plan_slot. step_only.
Qed.

Ltac filter_keeps :=
  let inner K := (assert (forall id bs, keeps K (check_each_binding g rq id bs));
    [intros ? bs; induction bs; cbn [check_each_binding]; step_keeps|]) in
  match goal with |- keeps ?K _ => inner K end;
  unfold request_filter, route_request, receive, health, early_refusals, resolve_path, deny, answer_preflight,
    find_route, authorize, authenticate_machine, rate_limit_pass, check_rate_limit, check_client_key, authenticate,
    check_cookie_origin, verify_token, check_bindings, build_plan, continue_trace, Proxy.sample, describe_caller,
    run_extensions, admit_request, plan_slot, admitted_ctx; step_keeps.

Lemma request_filter_holds_nothing : keeps held (request_filter g rq).
Proof using. filter_keeps. Qed.

(** The retries made so far, of either kind, and the last address count. *)
Definition tries (c : Ctx) : Z * Z * nat := (cx_dns_failovers c, cx_attempts c, cx_dns_candidates c).

Lemma request_filter_tries_nothing : keeps tries (request_filter g rq).
Proof using. filter_keeps. Qed.

Lemma proxied_tries_nothing : keeps tries (proxy_upstream_filter g).
Proof using. unfold proxy_upstream_filter, take_slot, admit_trial. step_keeps. Qed.

Lemma called_upkeep c t a o c' : called c t a o c' -> upkeeps t = [] /\ held c' = held c.
Proof using.
  assert (only no_upkeep (upstream_peer g rq)) as Ho.
  { unfold upstream_peer, choose, candidate_addresses, dns_start. step_only. }
  assert (keeps held (upstream_peer g rq)) as Hk.
  { unfold upstream_peer, choose, candidate_addresses, dns_start. step_keeps. }
  destruct 1 as [tr o c' H|chunk c' H|replayable e|reused replayable e|status h|written e]; try done.
  - split; [by apply Ho, upkeeps_none in H|by apply Hk in H].
  - split; [done|]. unfold request_body_filter in H. destruct chunk; [|by injection H as <-].
    destruct (add_body_chunk _ _ _); [by injection H as <-|done].
  - split; [done|]. unfold fail_to_connect. destruct (_ && _); [done|]. destruct (cx_retry c); [|done].
    by destruct (should_retry _ _ _ _ _).
  - split; [done|]. unfold error_while_proxy. destruct (cx_retry c); [|done].
    destruct (negb _); [done|]. by destruct (should_retry _ _ _ _ _).
Qed.

Lemma phase_upkeep c t n p c' : phase c t n p c' -> upkeeps t = [] /\ held c' = held c.
Proof using.
  induction 1 as [c|c t1 a o c1 t2 n p c2 H1 H2 [IH1 IH2]]; [done|].
  apply called_upkeep in H1 as [E1 E2]. rewrite upkeeps_app, E1, IH1, IH2. done.
Qed.

Lemma take_slot_spec c t o c' :
  ftraces (take_slot g) c t o c' -> cx_inflight c = None ->
  cx_breaker_upstream c' = cx_breaker_upstream c /\
  match o with
  | Go _ => upkeeps t = taken (cx_inflight c')
  | Stop _ => upkeeps t = [AtCapacity] /\ cx_inflight c' = None
  end.
Proof using.
  unfold take_slot. intros H Hc. run_inv; unfold rejected_ctx; try destruct (gw_dev g); by rewrite ?Hc.
Qed.

Lemma admit_trial_spec c t o c' :
  ftraces (admit_trial g) c t o c' -> cx_breaker_upstream c = None ->
  cx_inflight c' = cx_inflight c /\
  match o with
  | Go _ => (upkeeps t = [] /\ cx_breaker_upstream c' = None) \/
            exists n, upkeeps t = [Trialled n] /\ cx_breaker_upstream c' = Some n /\ is_Some (breaker_of g n)
  | Stop _ => cx_breaker_upstream c' = None /\ exists n, upkeeps t = [Shed n]
  end.
Proof using.
  unfold admit_trial. intros H Hc. run_inv; unfold rejected_ctx; try destruct (gw_dev g).
  all: try (split; [done|]; rewrite ?Hc; eauto; fail).
  all: split; [done|]; right; eexists; by rewrite Heqo0.
Qed.

Lemma finish_spec written e c t u c' :
  ftraces (finish written e) c t u c' ->
  upkeeps t = match cx_breaker_upstream c with
              | Some n => match breaker_of g n with Some _ => [Reported n] | None => [] end
              | None => []
              end ++ dropped (cx_inflight c).
Proof using.
  unfold finish, logging, report, drop_ctx. intros H. run_inv.
  all: repeat match goal with E : ?x = _ |- context [?x] => rewrite E end; done.
Qed.

Lemma filter_upkeep c t o c' : ftraces (request_filter g rq) c t o c' -> upkeeps t = [] /\ held c' = held c.
Proof using.
  intros H. split; [by apply request_filter_no_upkeep, upkeeps_none in H|by apply request_filter_holds_nothing in H].
Qed.

Lemma proxied_spec c t o c' :
  ftraces (proxy_upstream_filter g) c t o c' -> held c = (None, None) ->
  match o with
  | Go _ => (upkeeps t = taken (cx_inflight c') /\ cx_breaker_upstream c' = None) \/
            exists n, upkeeps t = taken (cx_inflight c') ++ [Trialled n] /\ cx_breaker_upstream c' = Some n /\
                      is_Some (breaker_of g n)
  | Stop _ => cx_breaker_upstream c' = None /\
              ((upkeeps t = [AtCapacity] /\ cx_inflight c' = None) \/
               exists n, upkeeps t = taken (cx_inflight c') ++ [Shed n])
  end.
Proof using.
  unfold proxy_upstream_filter. intros H [= Hi Hb].
  apply ftraces_bind in H as [(r & -> & H)|(t1 & t2 & u & c1 & -> & H1 & H2)].
  - apply take_slot_spec in H as [-> [H Hc]]; [|done]. auto.
  - apply take_slot_spec in H1 as [Hb1 H1]; [|done]. apply admit_trial_spec in H2 as [-> H2]; [|congruence].
    rewrite upkeeps_app, H1. destruct o as [r|u2].
    + destruct H2 as [Hb2 (n & ->)]. split; [done|]. right. by exists n.
    + destruct H2 as [[-> Hb2]|(n & -> & Hb2 & Hn)]; [left; by rewrite app_nil_r|right; by exists n].
Qed.

Lemma lived_balanced tr : lived tr -> balanced (upkeeps tr).
Proof using.
  intros Hx. destruct Hx as [t1 r c1 written e t2 u c2 H1 H2|t1 c1 written e t2 u c2 H1 H2
    |t1 c1 t2 r c2 written e t3 u c3 H1 H2 H3|t1 c1 t2 c2 t3 n p c3 written e t4 u c4 H1 H2 H3 H4];
    apply filter_upkeep in H1 as [E1 [= Hi Hb]]; rewrite !upkeeps_app, E1.
  - apply finish_spec in H2 as ->. rewrite Hi, Hb. exact (balanced_plain None).
  - apply finish_spec in H2 as ->. rewrite Hi, Hb. exact (balanced_plain None).
  - apply proxied_spec in H2 as [Hb2 H2]; [|by unfold held; rewrite Hi, Hb].
    apply finish_spec in H3 as ->. rewrite Hb2. destruct H2 as [[-> ->]|(n & ->)]; [exact balanced_full|].
    simpl. rewrite <-app_assoc. apply balanced_shed.
  - apply proxied_spec in H2; [|by unfold held; rewrite Hi, Hb].
    apply phase_upkeep in H3 as [E3 [= Hi3 Hb3]]. apply finish_spec in H4 as ->. rewrite E3, Hi3, Hb3.
    destruct H2 as [[-> ->]|(m & -> & -> & [cb ->])]; [apply balanced_plain|].
    rewrite <-app_assoc. apply balanced_trial.
Qed.

(** What a prefix of a balanced life leaves out is dropped when it is cut there. *)
Lemma cut_balanced us1 us2 :
  balanced (us1 ++ us2) ->
  let us := us1 ++ dropped (fold_left (fun s u => match u with Took s => Some s | Dropped _ => None | _ => s end) us1 None) in
  balanced us \/ unreported us.
Proof using.
  intros H. cbv zeta. remember (us1 ++ us2) as us eqn:E. unfold unreported.
  destruct H as [|[s|]|[s|] n|[s|] n]; simpl in E;
    repeat (destruct us1 as [|? us1]; [|simpl in E; injection E as <- E; try discriminate E]);
    try (destruct us1; [|discriminate E]); simpl.
  all: first
    [ left; exact balanced_full | left; exact (balanced_plain None) | left; exact (balanced_plain (Some s))
    | left; exact (balanced_shed None n) | left; exact (balanced_shed (Some s) n)
    | left; exact (balanced_trial None n) | left; exact (balanced_trial (Some s) n)
    | right; exists None, n; reflexivity | right; exists (Some s), n; reflexivity ].
Qed.

Lemma upkeeps_drop_slot s : upkeeps (drop_slot s) = dropped s.
Proof using. by destruct s. Qed.

(** ** Theorems *)

(** C5: what a request takes it gives back. Over its whole life it takes at
    most one concurrency slot and, only after that, is admitted as at most one
    trial of one circuit breaker; every slot taken is dropped once and, where
    the request lives to its end, every admission is reported once, to the same
    breaker, between the two; a request refused its slot never reaches a
    breaker, and one its breaker sheds is not reported. Where the deadline of
    the whole request cuts it at any point, the slot is still dropped once, and
    the one thing that may be lost is the report of the trial. *)
Theorem exchanges_are_balanced cut tr (Hx : exchange cut tr) :
  balanced (upkeeps tr) \/
  (cut = true /\ is_Some (t_request_total (gc_timeouts (raw (gw_cfg g)))) /\ unreported (upkeeps tr)).
Proof using.
  destruct Hx as [tr H|t1 t2 total H Ht]; [left; by apply lived_balanced|].
  apply lived_balanced in H. rewrite upkeeps_app in H. apply cut_balanced in H.
  rewrite upkeeps_app, upkeeps_drop_slot. unfold slot_out. destruct H as [H|H]; [by left|right]. by rewrite Ht.
Qed.

(** A trial whose request is cut upstream by the deadline of the whole request
    is taken and never reported. *)
Lemma cut_trials_are_lost t1 c1 t2 c2 written e t3 u c3 n total :
  ftraces (request_filter g rq) new_ctx t1 (Go tt) c1 -> ftraces (proxy_upstream_filter g) c1 t2 (Go tt) c2 ->
  ftraces (finish written e) c2 t3 u c3 ->
  t_request_total (gc_timeouts (raw (gw_cfg g))) = Some total -> cx_breaker_upstream c2 = Some n ->
  let tr := (t1 ++ t2) ++ drop_slot (slot_out (t1 ++ t2)) in
  exchange true tr /\ upkeeps tr = taken (cx_inflight c2) ++ [Trialled n] ++ dropped (cx_inflight c2).
Proof using.
  intros H1 H2 H3 Ht Hn tr. split.
  - apply (ex_cut _ ([] ++ t3) total); [|done]. rewrite <-app_assoc. by eapply lived_proxied; eauto using phase_end.
  - pose proof (filter_upkeep _ _ _ _ H1) as [E1 [= Hi Hb]].
    apply proxied_spec in H2; [|by unfold held; rewrite Hi, Hb].
    unfold tr. rewrite upkeeps_app, upkeeps_drop_slot. unfold slot_out. rewrite !upkeeps_app, E1. simpl.
    destruct H2 as [[_ Hb2]|(m & -> & Hm & _)]; [congruence|]. rewrite Hn in Hm. injection Hm as <-.
    by destruct (cx_inflight c2).
Qed.

(** ** Retries *)

(** The addresses a name resolved to number at most [K]. *)
Definition addresses_within (K : Z) (ev : gevent) : Prop :=
  match ev with
  | Event e x =>
      match e in gatewayE _ T return T -> Prop with
      | Addresses _ => fun r => match r with Ok l => Z.of_nat (length l) <= K | Err _ => True end
      | _ => fun _ => True
      end x
  end.

Definition budget (c : Ctx) : Z := match cx_retry c with Some p => Z.max 0 (attempts p) | None => 0 end.

Record retry_ok (K : Z) (c : Ctx) : Prop := {
  ry_failovers : 0 <= cx_dns_failovers c <= K - 1;
  ry_attempts : 0 <= cx_attempts c <= budget c;
  ry_candidates : Z.of_nat (cx_dns_candidates c) <= K;
}.

Definition retried (c : Ctx) : Z := cx_dns_failovers c + cx_attempts c.

Lemma upstream_peer_tries K c t o c' :
  1 <= K -> ftraces (upstream_peer g rq) c t o c' -> Forall (addresses_within K) t -> retry_ok K c ->
  retry_ok K c' /\ cx_retry c' = cx_retry c /\ retried c' = retried c.
Proof using.
  intros HK H Ht Hc. unfold upstream_peer, choose, candidate_addresses, dns_start in H. run_inv; try done.
  all: rewrite ?Forall_app, ?Forall_cons_iff in Ht; cbn in Ht; destruct_and? Ht.
  all: destruct Hc as [Hf Ha Hc]; split_and!; try done; constructor; try done; cbn; lia.
Qed.

Lemma upstream_peer_asks c t o c' :
  ftraces (upstream_peer g rq) c t o c' -> Z.b2z (asks_again o) <= Z.b2z (existsb resolver_marked t).
Proof using.
  unfold upstream_peer, choose, candidate_addresses, dns_start. intros H. run_inv; cbn; try lia; by destruct (pe_retry _).
Qed.

(** A callback leaves the retries of the context alone or counts one, and asks
    for another try only where it counted one or was handed the request. *)
Definition tried_again (K : Z) (a o : bool) (c c' : Ctx) : Prop :=
  retry_ok K c' /\ cx_retry c' = cx_retry c /\ Z.b2z a <= retried c' - retried c + Z.b2z o.

Lemma fail_to_connect_tries K replayable e c :
  K <= usize_max -> budget c <= u32_max -> retry_ok K c ->
  tried_again K (pe_retry (fail_to_connect replayable e c).2) (pe_retry e) c (fail_to_connect replayable e c).1.
Proof using.
  intros HK Hb Hok. pose proof Hok as [Hf Ha Hc]. unfold tried_again, fail_to_connect, sat_add, retried, budget in *.
  destruct (replayable && _) eqn:Hr.
  - apply andb_true_iff in Hr as [_ Hr%Z.ltb_lt]. cbn. split_and!; [constructor; cbn; try done; lia|done|by destruct (pe_retry e); cbn; lia].
  - destruct (cx_retry c) as [p|] eqn:Hp; [|cbn; split_and!; [done|done|by destruct (pe_retry e); cbn; lia]].
    unfold should_retry. destruct (Z.leb_spec (attempts p) (cx_attempts c)); cbn; [split_and!; [done|done|by destruct (pe_retry e); cbn; lia]|].
    destruct (if negb replayable then _ else _); cbn; [|split_and!; [done|done|by destruct (pe_retry e); cbn; lia]].
    split_and!; [constructor; unfold budget; cbn; rewrite ?Hp; lia|done|by destruct (pe_retry e); cbn; lia].
Qed.

Lemma error_while_proxy_tries K reused replayable e c :
  budget c <= u32_max -> retry_ok K c ->
  tried_again K (pe_retry (error_while_proxy decide_reuse reused replayable e c).2)
    (bool_decide (cx_retry c = None) && pe_retry (decide_reuse (reused && replayable) e)) c
    (error_while_proxy decide_reuse reused replayable e c).1.
Proof using.
  intros Hb Hok. pose proof Hok as [Hf Ha Hc].
  unfold tried_again, error_while_proxy, sat_add, retried, budget in *.
  destruct (cx_retry c) as [p|] eqn:Hp; [|cbn; split_and!; [done|done|lia]].
  destruct (pe_retry (decide_reuse _ _)) eqn:He; cbn; [|rewrite He; split_and!; [done|done|cbn; lia]].
  unfold should_retry. destruct (Z.leb_spec (attempts p) (cx_attempts c)); cbn; [split_and!; [done|done|lia]|].
  destruct (if negb replayable then _ else _); cbn; rewrite ?He; cbn; [|split_and!; [done|done|lia]].
  split_and!; [constructor; unfold budget; cbn; rewrite ?Hp; lia|done|lia].
Qed.

Lemma called_tries K c t a o c' :
  1 <= K <= usize_max -> called c t a o c' -> Forall (addresses_within K) t -> budget c <= u32_max -> retry_ok K c ->
  tried_again K a o c c'.
Proof using.
  intros HK H Ht Hb Hc. destruct H as [tr o c' H|chunk c' H|replayable e|reused replayable e|status h|written e].
  - pose proof (upstream_peer_asks _ _ _ _ H) as Ha.
    destruct (upstream_peer_tries K c tr o c') as (H1 & H2 & H3); [lia|done..|]. split_and!; [done..|lia].
  - unfold request_body_filter in H. destruct chunk as [n|].
    + destruct (add_body_chunk _ _ _) as [k|]; [|done]. injection H as <-.
      split_and!; [by destruct Hc|done|unfold retried; cbn; lia].
    + injection H as <-. split_and!; [done..|cbn; lia].
  - apply fail_to_connect_tries; try done; lia.
  - by apply error_while_proxy_tries.
  - split_and!; [by destruct Hc|done|unfold retried; cbn; lia].
  - split_and!; [by destruct Hc|done|unfold retried; cbn; lia].
Qed.

Lemma phase_tries K c t n p c' :
  1 <= K <= usize_max -> phase c t n p c' -> Forall (addresses_within K) t -> budget c <= u32_max -> retry_ok K c ->
  retry_ok K c' /\ budget c' = budget c /\ 0 <= n /\ n <= retried c' - retried c + p.
Proof using.
  intros HK. induction 1 as [c|c t1 a o c1 t2 n p c2 H1 H2 IH]; intros Ht Hb Hc; [split_and!; [done..|lia]|].
  apply Forall_app in Ht as [Ht1 Ht2].
  destruct (called_tries K c t1 a o c1 HK H1 Ht1 Hb Hc) as (Hc1 & Hp1 & E1).
  assert (budget c1 = budget c) as Hb1 by (unfold budget; by rewrite Hp1).
  destruct IH as (Hc2 & Hb2 & E2 & E3); [done|by rewrite Hb1|done|]. destruct a, o; cbn in *; split_and!; try done; lia.
Qed.

(** C8: retrying ends. Between the moment a request is sent upstream and its
    end, whatever the callbacks report and in whatever order, the error they
    leave asks for it to be sent again at most as often as the route's policy
    allows, plus once for each further address the upstream's name resolved to,
    plus as often as the gateway was handed an error that already asked for it:
    one the resolver or the failed connection had marked or, on a route without
    a policy, one that Pingora's own rule for reused connections marks, which
    the gateway passes on as it is. It never adds a request of its own to
    those: without a policy only the further addresses are its doing. *)
Theorem retries_are_bounded K t1 c1 t2 c2 t3 n p c3
    (Hfilter : ftraces (request_filter g rq) new_ctx t1 (Go tt) c1)
    (Hproxied : ftraces (proxy_upstream_filter g) c1 t2 (Go tt) c2)
    (Hphase : phase c2 t3 n p c3)
    (Haddrs : Forall (addresses_within K) t3) (HK : 1 <= K <= usize_max) (Hpolicy : budget c2 <= u32_max) :
  0 <= n <= (K - 1) + budget c2 + p.
Proof using.
  apply request_filter_tries_nothing in Hfilter. apply proxied_tries_nothing in Hproxied.
  rewrite Hfilter in Hproxied. injection Hproxied as Ef Ea Ec.
  destruct (phase_tries K c2 t3 n p c3) as ([Hf Ha _] & Hb & Hn & Hm); try done.
  - constructor; rewrite ?Ef, ?Ea, ?Ec; unfold budget; cbn; try lia; case_match; lia.
  - unfold retried in Hm. rewrite Ef, Ea in Hm. cbn in Hm. lia.
Qed.
End Exchange.

(** ** Witnesses *)

(** A quiet moment in which the upstream's name has two addresses. *)
Definition paired_answer {X} (e : gatewayE Z X) : X :=
  match e with
  | Addresses _ => Ok [(V4 10 0 0 7, 80); (V4 10 0 0 8, 80)]
  | e => quiet_answer e
  end.
Definition paired {X} (e : gatewayE Z X) (w : ()) : X * () := (paired_answer e, w).

Definition from {R A} (m : action (gatewayE Z) Ctx R A) (c : Ctx) : flow R A * Ctx := (Prog.run (@paired) (m c) tt).1.
Definition trace_from {R A} (m : action (gatewayE Z) Ctx R A) (c : Ctx) : list (event (gatewayE Z)) :=
  transcript (@paired) (m c) tt.

Lemma from_runs {R A} (m : action (gatewayE Z) Ctx R A) c : ftraces m c (trace_from m c) (from m c).1 (from m c).2.
Proof.
  pose proof (run_traces (@paired) (m c) tt) as H. unfold ftraces, from, trace_from.
  by destruct (Prog.run _ _ _) as [[o c'] w].
Qed.

Definition refused : PError := explain ConnectError "refused".

(** The sample request is proxied: its first connection is refused, and its
    second address taken. *)
Definition c_filtered (g : Gateway) : flow Response () * Ctx := from (request_filter g users_request) new_ctx.
Definition c_proxied (g : Gateway) : flow Response () * Ctx := from (proxy_upstream_filter g) (c_filtered g).2.
Definition c_dialled (g : Gateway) : flow PError HttpPeer * Ctx :=
  from (upstream_peer g users_request) (c_proxied g).2.
Definition c_refused (g : Gateway) : Ctx * PError := fail_to_connect true refused (c_dialled g).2.
Definition c_redialled (g : Gateway) : flow PError HttpPeer * Ctx :=
  from (upstream_peer g users_request) (c_refused g).1.

Definition looked_up : event (gatewayE Z) := Event (Addresses "users:80") (Ok [(V4 10 0 0 7, 80); (V4 10 0 0 8, 80)]).
Definition rotated : event (gatewayE Z) := Event NextDns 0.

Lemma sample_exchange :
  match sample_resolve with
  | Ok r => let g := sample_gateway r in
            (c_filtered g).1 = Go tt /\ (c_proxied g).1 = Go tt /\ pe_retry (c_refused g).2 = true /\
            trace_from (upstream_peer g users_request) (c_proxied g).2 = [looked_up; rotated] /\
            trace_from (upstream_peer g users_request) (c_refused g).1 = [looked_up] /\
            budget (c_proxied g).2 = 0 /\ asks_again (c_dialled g).1 = false /\ asks_again (c_redialled g).1 = false
  | Err _ => False
  end.
Proof. vm_compute. split_and!; reflexivity. Qed.

Definition sample_calls : list (event (gatewayE Z)) := [looked_up; rotated] ++ [] ++ [looked_up] ++ [].

Lemma sample_phase (g : Gateway) (decide_reuse : bool -> PError -> PError) (etype_str : ErrorType -> str) :
  pe_retry (c_refused g).2 = true ->
  trace_from (upstream_peer g users_request) (c_proxied g).2 = [looked_up; rotated] ->
  trace_from (upstream_peer g users_request) (c_refused g).1 = [looked_up] ->
  asks_again (c_dialled g).1 = false -> asks_again (c_redialled g).1 = false ->
  phase g users_request decide_reuse etype_str (c_proxied g).2 sample_calls 1 0 (c_redialled g).2.
Proof.
  intros Hr H4 H5 H7 H8. unfold sample_calls.
  pose proof (from_runs (upstream_peer g users_request) (c_proxied g).2) as R1. rewrite H4 in R1.
  pose proof (from_runs (upstream_peer g users_request) (c_refused g).1) as R2. rewrite H5 in R2.
  pose proof (called_peer g users_request decide_reuse etype_str _ _ _ _ R1) as P1. fold (c_dialled g) in P1.
  pose proof (called_peer g users_request decide_reuse etype_str _ _ _ _ R2) as P2. fold (c_redialled g) in P2.
  rewrite H7 in P1. rewrite H8 in P2.
  apply (phase_call _ _ _ _ _ _ false false _ _ 1 0 _ P1).
  apply (phase_call _ _ _ _ _ [] true false (c_refused g).1 _ 0 0 _).
  { rewrite <-Hr. by apply (called_connect _ _ _ _ _ true refused). }
  apply (phase_call _ _ _ _ _ _ false false _ [] 0 0 _ P2). apply phase_end.
Qed.

Lemma exchanges_are_balanced_witness : exists (g : Gateway) (tr : list (event (gatewayE Z))),
  exchange g users_request (fun _ e => e) (fun _ => []) false tr /\
  (balanced (upkeeps tr) \/
   (false = true /\ is_Some (t_request_total (gc_timeouts (raw (gw_cfg g)))) /\ unreported (upkeeps tr))).
Proof.
  pose proof sample_exchange as H. destruct sample_resolve as [r|]; [|destruct H].
  set (g := sample_gateway r) in *. destruct H as (H1 & H2 & H3 & H4 & H5 & _ & H7 & H8).
  pose proof (from_runs (request_filter g users_request) new_ctx) as R1. fold (c_filtered g) in R1. rewrite H1 in R1.
  pose proof (from_runs (proxy_upstream_filter g) (c_filtered g).2) as R2. fold (c_proxied g) in R2. rewrite H2 in R2.
  pose proof (from_runs (finish g (Some 200) None) (c_redialled g).2) as R4.
  pose proof (lived_proxied g users_request (fun _ e => e) (fun _ => []) _ _ _ _ _ _ _ _ _ _ _ _ _ R1 R2
                (sample_phase g _ _ H3 H4 H5 H7 H8) R4) as Hx%ex_ended.
  exists g. eexists. split; [exact Hx|]. exact (exchanges_are_balanced g users_request _ _ _ _ Hx).
Defined.

Lemma retries_are_bounded_witness : exists (g : Gateway) (t : list (event (gatewayE Z))) (c2 c3 : Ctx),
  phase g users_request (fun _ e => e) (fun _ => []) c2 t 1 0 c3 /\ Forall (addresses_within 2) t /\
  0 <= 1 <= (2 - 1) + budget c2 + 0.
Proof.
  pose proof sample_exchange as H. destruct sample_resolve as [r|]; [|destruct H].
  set (g := sample_gateway r) in *. destruct H as (H1 & H2 & H3 & H4 & H5 & H6 & H7 & H8).
  pose proof (from_runs (request_filter g users_request) new_ctx) as R1. fold (c_filtered g) in R1. rewrite H1 in R1.
  pose proof (from_runs (proxy_upstream_filter g) (c_filtered g).2) as R2. fold (c_proxied g) in R2. rewrite H2 in R2.
  pose proof (sample_phase g (fun _ e => e) (fun _ => []) H3 H4 H5 H7 H8) as Hp.
  assert (Forall (addresses_within 2) sample_calls) as Ha by (repeat constructor; cbn; lia).
  exists g, sample_calls, (c_proxied g).2, (c_redialled g).2. split; [exact Hp|]. split; [exact Ha|].
  apply (retries_are_bounded g users_request (fun _ e => e) (fun _ => []) 2 _ _ _ _ _ _ _ _ R1 R2 Hp Ha);
    [unfold usize_max; lia|rewrite H6; unfold u32_max; lia].
Defined.
