(* ===== verification/Cache.v ===== *)
(** * Sharing responses (cache/policy.rs, cache/mod.rs, proxy.rs)

    Which requests may be answered from the cache, which responses may be
    stored, and under what key and variance: the filters Pingora calls back.
    The cache's own HTTP semantics (freshness, the parsing of Cache-Control) are
    Pingora's and are parameters. *)

From S2P Require Export Exchange.

(** ** Framing *)

(** [usize::to_be_bytes]. *)
Fixpoint be_bytes (k : nat) (n : Z) : list Z :=
  match k with O => [] | S k => be_bytes k (n / 256) ++ [n mod 256] end.

Definition frame (value : list Z) : list Z := be_bytes 8 (Z.of_nat (length value)) ++ value.

Record CacheKey := { ck_primary : list Z; ck_tag : str }.
Definition key (parts : list str) (tag : str) : CacheKey := {| ck_primary := concat (map frame parts); ck_tag := tag |}.

(** ** Pingora's side *)

(** What the gateway asks of a [CacheControl]. *)
Record CacheControl := { cc_private : bool; cc_no_store : bool; cc_allow_authorized : bool }.

Record ResponseHeader := { rh_status : Z; rh_headers : header_map }.

(** [CacheMetaDefaults]: freshness by status, and the two stale windows. *)
Record CacheMetaDefaults := {
  cd_fresh : Z -> option Z;
  cd_stale_while_revalidate : Z;
  cd_stale_if_error : Z;
}.

Inductive RespCacheable (M : Type) := Cacheable (m : M) | UncacheableCustom (why : str) | UncacheableBy (reason : Z).
Arguments Cacheable {M} _.
Arguments UncacheableCustom {M} _.
Arguments UncacheableBy {M} _.

(** ** cache/mod.rs *)

(** [default_freshness], once [DEFAULT_TTL] holds the configured lifetime. *)
Definition default_freshness (default_ttl : option Z) (status : Z) : option Z :=
  if ((200 <=? status) && (status <=? 299)) || (status =? 301) || (status =? 308)
  then Some (default (from_secs 60) default_ttl) else None.

(** [Cache], without the storage, whose operations are in CacheStore.v. *)
Record Cache := { ca_max_object_bytes : Z; ca_defaults : CacheMetaDefaults }.

Definition cache_new (cfg : CacheConfig) : Cache :=
  {| ca_max_object_bytes := Z.min usize_max (ca_max_object_size cfg);
     ca_defaults := {| cd_fresh := default_freshness (Some (ca_default_ttl cfg));
                       cd_stale_while_revalidate := Z.min u32_max (as_secs (ca_stale_while_revalidate cfg));
                       cd_stale_if_error := 0 |} |}.

Section Policy.
Context {N : Type} `{HN : JsonNumber N} `{HC : Crates N}.
(** [http::HeaderName::from_bytes], whose names are in lower case. *)
Context (header_name : str -> option str).
(** [CacheControl::from_resp_headers]. *)
Context (cache_control : header_map -> option CacheControl).

(** ** cache/policy.rs *)

Definition vary_name (name : str) : option str := if name ==? "*" then None else header_name name.
Definition vary_value (value : list Z) : option (list str) :=
  letO text := to_str value in
  mapM vary_name (List.filter (fun s => negb (s ==? [])) (map trim (split_on 44 text))).

(** The [BTreeSet] in its order. *)
Definition vary_fields (resp : ResponseHeader) : option (list str) :=
  letO names := mapM vary_value (hget_all (rh_headers resp) "vary") in
  Some (dedup (sort_by str_leb (concat names))).

Definition eligible (resp : ResponseHeader) (authorized : bool) : bool :=
  if negb (is_nil (hget_all (rh_headers resp) "set-cookie")) || (vary_fields resp ==? None) then false
  else
    let cc := cache_control (rh_headers resp) in
    if match cc with Some cc => cc_private cc || cc_no_store cc | None => false end then false
    else negb authorized || match cc with Some cc => cc_allow_authorized cc | None => false end.

(** The bytes hashed for one name of the variance. *)
Definition variance_value (plan : HeaderPlan) (forwardable : str -> bool) (h : header_map) (name : str) : list Z :=
  match List.find (fun nv => nv.1 ==? name) (additions plan) with
  | Some nv => frame nv.2
  | None => if negb (existsb (fun n => n ==? name) (removals plan)) && forwardable name
            then concat (map frame (hget_all h name)) else []
  end.

(** What [variance] gives the builder, in its order. *)
Definition variance (resp : ResponseHeader) (h : header_map) (plan : HeaderPlan) (forwardable : str -> bool)
  : option (list (str * list Z)) :=
  letO names := vary_fields resp in
  Some (map (fun name => (name, variance_value plan forwardable h name)) names).

(** ** The filters of the gateway *)

Variable g : Gateway.
Let doc := raw (gw_cfg g).
(** [filters::resp_cacheable], which decides by RFC 9111. *)
Context {M : Type} (resp_cacheable : option CacheControl -> ResponseHeader -> bool -> CacheMetaDefaults -> RespCacheable M).

Definition cache_of_gateway : option Cache :=
  if gw_cache g then cache_new <$> gc_cache doc else None.

(** [request_cache_filter]: the size limit the session's cache is enabled with,
    where it is. *)
Definition request_cache_filter (rq : Request) (c : Ctx) : option Z :=
  letO cache := cache_of_gateway in
  if negb (cx_cacheable_route c) then None
  else if negb ((rq_method rq ==? "GET") || (rq_method rq ==? "HEAD")) || cx_sse c
          || negb (is_nil (hget_all (rq_headers rq) "cookie")) then None
  else Some (ca_max_object_bytes cache).

(** [Uri::path_and_query]. *)
Definition path_and_query (rq : Request) : str :=
  rq_path rq ++ match rq_query rq with Some q => 63 :: q | None => [] end.

(** The [Display] of a [Uuid] held as a number. *)
Definition show_uuid (u : Z) : str := uuid_to_string (be_bytes 16 u).

Definition cache_key_parts (rq : Request) (c : Ctx) : list str :=
  [show_uuid (cx_cache_namespace c); cx_route_id c; cx_upstream_name c;
   to_ascii_lowercase (default [] (header_str rq "host")); rq_method rq; path_and_query rq].
Definition cache_key_callback (rq : Request) (c : Ctx) : CacheKey := key (cache_key_parts rq c) (cx_route_id c).

Definition cache_vary_filter (meta : ResponseHeader) (c : Ctx) (rq : Request) : option (list (str * list Z)) :=
  variance meta (rq_headers rq) (cx_plan c)
    (fun name => (fw_mode (gc_forward doc) ==? Passthrough) || is_forwardable g name).

(** [cache_hit_filter]: whether a hit is turned into a miss. *)
Definition cache_hit_filter (meta : ResponseHeader) (c : Ctx) : bool := negb (eligible meta (cx_client_authorized c)).

Definition response_cache_filter (resp : ResponseHeader) (c : Ctx) : RespCacheable M :=
  match cache_of_gateway with
  | None => UncacheableCustom "cache not configured"
  | Some cache =>
      if negb (eligible resp (cx_client_authorized c)) then UncacheableCustom "response cannot be shared"
      else resp_cacheable (cache_control (rh_headers resp)) resp (cx_client_authorized c) (ca_defaults cache)
  end.
End Policy.

(** ** Framing is injective *)

Lemma length_be_bytes k n : length (be_bytes k n) = k.
Proof. revert n. induction k as [|k IH]; intros n; simpl; [done|]. rewrite length_app, IH. simpl. lia. Qed.

Lemma be_bytes_bytes k n : Forall is_byte (be_bytes k n).
Proof.
  revert n. induction k as [|k IH]; intros n; cbn [be_bytes]; [done|]. apply Forall_app. split; [done|].
  constructor; [|done]. unfold is_byte. by apply Z.mod_pos_bound.
Qed.

Lemma be_bytes_inj k m n :
  0 <= m < 256 ^ Z.of_nat k -> 0 <= n < 256 ^ Z.of_nat k -> be_bytes k m = be_bytes k n -> m = n.
Proof.
  revert m n. induction k as [|k IH]; intros m n Hm Hn E; [change (256 ^ Z.of_nat 0) with 1 in *; lia|].
  rewrite Nat2Z.inj_succ, Z.pow_succ_r in Hm, Hn by lia. cbn [be_bytes] in E.
  apply app_inj_2 in E as [E [= Em]]; [|done].
  pose proof (Z.div_mod m 256). pose proof (Z.div_mod n 256).
  apply IH in E; [lia|split; [apply Z.div_pos; lia|apply Z.div_lt_upper_bound; lia]..].
Qed.

(** A value whose length is a [usize]. *)
Definition sized (value : list Z) : Prop := Z.of_nat (length value) <= usize_max.

Lemma frame_inj a b x y : sized a -> sized b -> frame a ++ x = frame b ++ y -> a = b /\ x = y.
Proof.
  unfold sized, frame, usize_max. intros Ha Hb. rewrite <-!app_assoc. intros E.
  apply app_inj_1 in E as [El E]; [|by rewrite !length_be_bytes].
  apply be_bytes_inj in El; [|change (256 ^ Z.of_nat 8) with (2 ^ 64); lia..].
  apply Nat2Z.inj in El. by apply app_inj_1 in E.
Qed.

Lemma frames_inj l1 l2 : Forall sized l1 -> Forall sized l2 -> concat (map frame l1) = concat (map frame l2) -> l1 = l2.
Proof.
  intros H1. revert l2. induction H1 as [|a l1 Ha _ IH]; intros l2 H2 E; destruct H2 as [|b l2 Hb H2]; try done.
  cbn [map concat] in E. apply frame_inj in E as [-> E]; [|done..]. f_equal. by apply IH.
Qed.

Lemma mapM_elem {A B} (f : A -> option B) l k y : mapM f l = Some k -> y ∈ k -> exists x, x ∈ l /\ f x = Some y.
Proof.
  intros H%mapM_Some (i & Hi)%list_elem_of_lookup. destruct (Forall2_lookup_r _ _ _ _ _ H Hi) as (x & Hx & E).
  exists x. split; [|done]. by eapply list_elem_of_lookup_2.
Qed.

(** ** Theorems *)

Section Theorems.
Context {N : Type} `{HN : JsonNumber N} `{HC : Crates N}.
Context (header_name : str -> option str).
Variable g : Gateway.

(** [Uuid]'s [Display] tells identifiers apart. *)
Hypothesis uuid_display : forall a b, length a = 16%nat -> length b = 16%nat -> Forall is_byte a -> Forall is_byte b ->
  uuid_to_string a = uuid_to_string b -> a = b.

(** C19: a cache key separates what must not share an answer: two requests whose
    primary keys agree were matched by the same table generation to the same
    route and upstream, and ask the same host (but for its case), with the same
    method, for the same path and query; no choice of bytes in one component
    makes it spill into the next. *)
Theorem cache_keys_separate rq1 c1 rq2 c2
  (H1 : Forall sized (cache_key_parts rq1 c1)) (H2 : Forall sized (cache_key_parts rq2 c2))
  (U1 : 0 <= cx_cache_namespace c1 < 2 ^ 128) (U2 : 0 <= cx_cache_namespace c2 < 2 ^ 128)
  (Hkey : ck_primary (cache_key_callback rq1 c1) = ck_primary (cache_key_callback rq2 c2)) :
  cx_cache_namespace c1 = cx_cache_namespace c2 /\ cx_route_id c1 = cx_route_id c2 /\
  cx_upstream_name c1 = cx_upstream_name c2 /\
  to_ascii_lowercase (default [] (header_str rq1 "host")) = to_ascii_lowercase (default [] (header_str rq2 "host")) /\
  rq_method rq1 = rq_method rq2 /\ path_and_query rq1 = path_and_query rq2.
Proof using uuid_display.
  apply frames_inj in Hkey; [|done..]. injection Hkey as En Er Eu Eh Em Ep.
  split_and!; try done. apply uuid_display in En; [|apply length_be_bytes|apply length_be_bytes|apply be_bytes_bytes..].
  by apply be_bytes_inj in En; [|change (256 ^ Z.of_nat 16) with (2 ^ 128)..].
Qed.

(** What the upstream sees under a name, but for the host. *)
Lemma variance_value_view plan forwardable (h : header_map) n :
  plan_ok plan -> n = to_ascii_lowercase n ->
  variance_value plan forwardable h n =
    concat (map frame (apply_plan plan (fun m => if forwardable m then hget_all h m else []) n)).
Proof using.
  intros Hok Hn. unfold variance_value. rewrite apply_plan_spec by done. unfold additions.
  destruct (List.find _ (hp_set plan)) as [[m v]|] eqn:Ef.
  - apply List.find_some in Ef as [Hin Em]. breflect. cbn in Em. subst m.
    rewrite (elem_of_list_to_map_1 _ n v); [|apply Hok|by apply list_elem_of_In]. cbn. by rewrite app_nil_r.
  - assert ((list_to_map (hp_set plan) : gmap str str) !! n = None) as ->.
    { apply not_elem_of_list_to_map_1. intros ([m v] & Em & Hin)%list_elem_of_fmap_1. cbn in Em. subst m.
      apply list_elem_of_In in Hin. pose proof (List.find_none _ _ Ef _ Hin) as Hne. cbn in Hne.
      by apply bool_decide_eq_false in Hne. }
    unfold removals. destruct (existsb _ _) eqn:Ex.
    + apply existsb_In in Ex as (m & Hm & Em). breflect. subst m. rewrite decide_True by (by apply elem_of_elements). done.
    + rewrite decide_False; [by destruct (forwardable n)|]. intros Hin. rewrite existsb_none in Ex.
      specialize (Ex n). rewrite elem_of_elements in Ex. specialize (Ex Hin). by apply bool_decide_eq_false in Ex.
Qed.

Lemma sent_fields (uri_ok value_ok : str -> bool) c h u f (n : str) :
  upstream_request_filter g uri_ok value_ok c h = Ok (u, f) ->
  fw_preserve_host (gc_forward (raw (gw_cfg g))) = true \/ n <> "host" -> plan_ok (cx_plan c) ->
  f n = apply_plan (cx_plan c) (fun m => if (fw_mode (gc_forward (raw (gw_cfg g))) ==? Passthrough) || is_forwardable g m
                                        then h m else []) n.
Proof using.
  intros H Hn Hok. unfold upstream_request_filter in H.
  apply rbind_Ok in H as (t & _ & H). apply rbind_Ok in H as (x & _ & H). apply rbind_Ok in H as (h' & Eh & H).
  destruct (forallb _ _); [|done]. injection H as _ <-. rewrite !apply_plan_spec by done.
  assert (h' n = h n) as En.
  { destruct (fw_preserve_host _) eqn:Ep; [by injection Eh as <-|]. destruct (value_ok _); [|done]. injection Eh as <-.
    unfold insert_header. rewrite bool_decide_false; [done|]. by destruct Hn. }
  assert (sweep g h' n = if (fw_mode (gc_forward (raw (gw_cfg g))) ==? Passthrough) || is_forwardable g n then h n else [])
    as Es by (rewrite <-En; unfold sweep; by destruct (fw_mode _)).
  by rewrite <-Es.
Qed.

Lemma vary_fields_elem resp names n :
  vary_fields header_name resp = Some names -> n ∈ names -> exists s, header_name s = Some n.
Proof using.
  unfold vary_fields. intros (lists & Hl & [= <-])%bind_Some Hn.
  rewrite elem_of_dedup, elem_of_sort_by in Hn. apply list_elem_of_In, in_concat in Hn as (l & Hin & Hn).
  apply list_elem_of_In in Hin, Hn.
  apply (mapM_elem _ _ _ _ Hl) in Hin as (v & _ & (text & _ & Hv)%bind_Some).
  apply (mapM_elem _ _ _ _ Hv) in Hn as (s & _ & Hs). unfold vary_name in Hs.
  destruct (s ==? _); [done|]. by exists s.
Qed.

Lemma variance_sent uri_ok value_ok rq c u f (n : str) :
  upstream_request_filter g uri_ok value_ok c (rq_headers rq) = Ok (u, f) -> n <> "host" -> plan_ok (cx_plan c) ->
  to_ascii_lowercase n = n ->
  variance_value (cx_plan c) (fun name => (fw_mode (gc_forward (raw (gw_cfg g))) ==? Passthrough) || is_forwardable g name)
    (rq_headers rq) n = concat (map frame (f n)).
Proof using.
  intros H Hn Hok Hl. rewrite (sent_fields _ _ _ _ _ _ _ H (or_intror Hn) Hok).
  rewrite variance_value_view by done. f_equal. f_equal. rewrite !apply_plan_spec by done.
  unfold hget_all. by rewrite Hl.
Qed.

(** C18: a stored variant answers only requests the upstream could not have told
    apart: if two requests, each sent upstream with its own plan, agree on the
    variance of a response, then under every name the response varies on (the
    host apart, where the gateway replaces it; the key holds the client's) the
    upstream was sent the same values, in number, order and bytes, whether they
    are the client's, injected by configuration, or the verified identity's;
    and where the host is not varied on, requests sent the same values agree. *)
Theorem variants_are_what_was_sent resp names uri_ok value_ok rq1 c1 u1 f1 rq2 c2 u2 f2
  (Hnames : vary_fields header_name resp = Some names) (Hlower : forall s n, header_name s = Some n -> to_ascii_lowercase n = n)
  (P1 : plan_ok (cx_plan c1)) (P2 : plan_ok (cx_plan c2))
  (H1 : upstream_request_filter g uri_ok value_ok c1 (rq_headers rq1) = Ok (u1, f1))
  (H2 : upstream_request_filter g uri_ok value_ok c2 (rq_headers rq2) = Ok (u2, f2))
  (S1 : forall n, n ∈ names -> Forall sized (f1 n)) (S2 : forall n, n ∈ names -> Forall sized (f2 n)) :
  (cache_vary_filter header_name g resp c1 rq1 = cache_vary_filter header_name g resp c2 rq2 ->
   forall n : str, n ∈ names -> n <> "host" -> f1 n = f2 n) /\
  (str_of "host" ∉ names -> (forall n, n ∈ names -> f1 n = f2 n) ->
   cache_vary_filter header_name g resp c1 rq1 = cache_vary_filter header_name g resp c2 rq2).
Proof using.
  unfold cache_vary_filter, variance. rewrite Hnames. cbn [mbind option_bind].
  assert (forall n, n ∈ names -> to_ascii_lowercase n = n) as Hl.
  { intros n Hn. destruct (vary_fields_elem _ _ _ Hnames Hn) as [s Hs]. by eapply Hlower. }
  split.
  - intros [= E] n Hn Hhost.
    assert (forall l (v1 v2 : str -> list Z), map (fun m => (m, v1 m)) l = map (fun m => (m, v2 m)) l -> n ∈ l -> v1 n = v2 n)
      as Hmap.
    { intros l v1 v2. induction l as [|m l IH]; [by intros _ ?%elem_of_nil|].
      intros [= Em El]%(fun H => H) [->|Hin]%elem_of_cons; auto. }
    specialize (Hmap _ _ _ E Hn). cbv beta in Hmap.
    rewrite (variance_sent _ _ _ _ _ _ n H1 Hhost P1 (Hl n Hn)), (variance_sent _ _ _ _ _ _ n H2 Hhost P2 (Hl n Hn)) in Hmap.
    apply frames_inj in Hmap; auto.
  - intros Hhost E. f_equal. apply map_ext_in. intros n Hn%list_elem_of_In.
    assert (n <> str_of "host") as Hh by (by intros ->).
    rewrite (variance_sent _ _ _ _ _ _ n H1 Hh P1 (Hl n Hn)), (variance_sent _ _ _ _ _ _ n H2 Hh P2 (Hl n Hn)).
    by rewrite (E n Hn).
Qed.

(** What the filter leaves for the cache. *)
Lemma admitted_cache_flags rq c tr u c' :
  ftraces (request_filter g rq) c tr (Go u) c' ->
  cx_client_authorized c' = negb (hget (rq_headers rq) "authorization" ==? None) || negb (request_cookie_token g rq ==? None) /\
  exists table path route, Event LoadTable table ∈ tr /\ routed g rq table path route /\
    cx_cacheable_route c' = r_cache route /\ cx_sse c' = r_sse route /\
    cx_cache_namespace c' = cache_namespace table /\ cx_route_id c' = r_id route.
Proof using.
  clear uuid_display header_name. unfold request_filter. intros H.
  apply ftraces_bind in H as [(r & [=] & _)|(t1 & t2 & [[table path] route] & c1 & -> & H1 & H)].
  pose proof (route_request_Go _ _ _ _ _ _ _ _ H1) as (Hr & Hload & _).
  assert (cx_client_authorized c1 =
          negb (hget (rq_headers rq) "authorization" ==? None) || negb (request_cookie_token g rq ==? None)) as E1.
  { unfold route_request in H1. apply ftraces_bind in H1 as [(r & [=] & _)|(t3 & t4 & u1 & c0 & -> & H0 & H1)].
    assert (keeps cx_client_authorized (do! health g rq in do! early_refusals g rq in let! path := resolve_path g rq in
      let! table := asks LoadTable in do! deny g table path in do! answer_preflight g rq table path in
      let! route := find_route g rq table path in aret (table, path, route))) as Hk.
    { unfold health, early_refusals, resolve_path, deny, answer_preflight, find_route. step_keeps. }
    rewrite (Hk _ _ _ _ H1). unfold receive in H0. accept_inv.
    all: by destruct (cors (gw_cfg g)), (header_str rq "origin"). }
  assert (keeps cx_client_authorized (let! (key, identity) := authorize g rq route path in
      let! plan := build_plan g rq identity key in let! plan := run_extensions g rq route path identity plan in
      admit_request g rq table route path (subject <$> identity) key plan)) as Hk.
  { assert (forall id bs, keeps cx_client_authorized (check_each_binding g rq id bs)).
    { intros id bs. induction bs; cbn [check_each_binding]; step_keeps. }
    unfold authorize, authenticate_machine, rate_limit_pass, check_rate_limit, check_client_key, authenticate,
      check_cookie_origin, verify_token, check_bindings, build_plan, continue_trace, Proxy.sample, describe_caller,
      run_extensions, admit_request, plan_slot, admitted_ctx. step_keeps. }
  rewrite (Hk _ _ _ _ H). split; [done|]. exists table, path, route. split; [set_solver|]. split; [done|].
  clear -H. apply ftraces_bind in H as [(r & [=] & _)|(t3 & t4 & [key identity] & c2 & -> & _ & H)].
  apply ftraces_bind in H as [(r & [=] & _)|(t5 & t6 & plan & c3 & -> & _ & H)].
  apply ftraces_bind in H as [(r & [=] & _)|(t7 & t8 & plan' & c4 & -> & _ & H)].
  unfold admit_request, plan_slot, admitted_ctx in H. repeat ftrace_step.
  all: accept_inv; simpl; by destruct (r_strip_prefix route), (gw_dev g).
Qed.

Context (cache_control : header_map -> option CacheControl).

(** C17: an answer from the cache is one its upstream meant to be shared, to a
    request that was admitted like any other: if the cache is on for a request
    and a stored response is not turned into a miss, then the request passed
    the whole filter, its route, in the table in service, opted into caching
    and does not stream, it is a GET or a HEAD without any cookie, the stored
    response sets no cookie, varies on nothing the gateway cannot compare, and
    is neither private nor marked no-store; and to a request that carries
    [Authorization] it goes only where the upstream explicitly allowed it. *)
Theorem cached_answers_are_shareable rq tr c resp limit
  (Hrun : ftraces (request_filter g rq) new_ctx tr (Go tt) c)
  (Hon : request_cache_filter g rq c = Some limit)
  (Hhit : cache_hit_filter header_name cache_control resp c = false) :
  (exists table path route, Event LoadTable table ∈ tr /\ routed g rq table path route /\
     r_cache route = true /\ r_sse route = false) /\
  (rq_method rq = "GET" \/ rq_method rq = "HEAD") /\ hget_all (rq_headers rq) "cookie" = [] /\
  hget_all (rh_headers resp) "set-cookie" = [] /\ is_Some (vary_fields header_name resp) /\
  (forall cc, cache_control (rh_headers resp) = Some cc -> cc_private cc = false /\ cc_no_store cc = false) /\
  (is_Some (hget (rq_headers rq) "authorization") ->
   exists cc, cache_control (rh_headers resp) = Some cc /\ cc_allow_authorized cc = true).
Proof using.
  apply admitted_cache_flags in Hrun as (Ha & table & path & route & Hload & Hr & Ec & Es & _).
  unfold request_cache_filter in Hon. apply bind_Some in Hon as (cache & _ & Hon).
  destruct (cx_cacheable_route c) eqn:Er; [|done]. cbn [negb] in Hon.
  destruct (negb _ || _ || _) eqn:Eg; [done|]. breflect.
  unfold cache_hit_filter, eligible in Hhit. breflect.
  destruct (negb (is_nil _) || _) eqn:Ev in Hhit; [done|]. breflect.
  assert (forall l : list (list Z), is_nil l = true -> l = []) as Hnil by (by intros []).
  split_and!.
  - exists table, path, route. split_and!; congruence.
  - rewrite !orb_true_iff, !bool_decide_eq_true in *. tauto.
  - by apply Hnil.
  - by apply Hnil.
  - by destruct (vary_fields _ _).
  - intros cc Hcc. rewrite Hcc in Hhit. destruct (cc_private cc), (cc_no_store cc); done.
  - intros [v Hv]. rewrite Ha, Hv in Hhit. cbn in Hhit.
    destruct (cache_control _) as [cc|]; [|done]. exists cc. split; [done|].
    by destruct (cc_private cc), (cc_no_store cc), (cc_allow_authorized cc).
Qed.
End Theorems.

(** ** Witnesses *)

Lemma hex_display a b :
  length a = 16%nat -> length b = 16%nat -> Forall is_byte a -> Forall is_byte b ->
  uuid_to_string (N:=Z) a = uuid_to_string b -> a = b.
Proof.
  intros La Lb Ha Hb E. cbn in E. pose proof (hex_bytes_write _ Ha) as Ea. pose proof (hex_bytes_write _ Hb) as Eb.
  rewrite La in Ea. rewrite Lb, <-E, Ea in Eb. by injection Eb.
Qed.

(** Two requests for one page that differ in the case of the host. *)
Definition status_request (host : str) (more : list (str * str)) : Request :=
  {| rq_method := "GET"; rq_path := "/api/v1/status"; rq_query := None;
     rq_headers := headers_of ([(str_of "host", host); (str_of "x-client-key", str_of "0123456789abcdef")] ++ more);
     rq_client_addr := None |}.
Definition status_ctx : Ctx :=
  new_ctx <| cx_cache_namespace := 7 |> <| cx_route_id := "status" |> <| cx_upstream_name := "users" |>
    <| cx_path := "status" |> <| cx_target := Some users_target |> <| cx_plan := plan_set "x-auth" "v" plan_new |>.

Lemma cache_keys_separate_witness :
  cx_cache_namespace status_ctx = cx_cache_namespace status_ctx /\
  to_ascii_lowercase (default [] (header_str (N:=Z) (status_request "GW.example" []) "host")) =
  to_ascii_lowercase (default [] (header_str (N:=Z) (status_request "gw.example" []) "host")).
Proof.
  pose proof (cache_keys_separate (N:=Z) hex_display (status_request "GW.example" []) status_ctx
    (status_request "gw.example" []) status_ctx) as H'.
  destruct H' as (H1 & _ & _ & H2 & _); [| |by vm_compute..|by split].
  all: repeat constructor; unfold sized; by vm_compute.
Defined.

Definition any_name (s : str) : option str := Some (to_ascii_lowercase s).
Definition plain_cc (h : header_map) : option CacheControl :=
  Some {| cc_private := false; cc_no_store := false; cc_allow_authorized := true |}.
Definition varying : ResponseHeader :=
  {| rh_status := 200; rh_headers := headers_of [(str_of "vary", str_of "X-Auth, Accept-Language")] |}.

Definition sent_with (g : Gateway (N:=Z)) (more : list (str * str)) : result (str * (str -> list str)) PError :=
  upstream_request_filter g (fun _ => true) (fun _ => true) status_ctx (rq_headers (status_request "gw.example" more)).
Definition sent_to (g : Gateway (N:=Z)) (more : list (str * str)) : option (list (list str)) :=
  match sent_with g more with
  | Ok (_, f) => Some (map f [str_of "accept-language"; str_of "x-auth"])
  | Err _ => None
  end.
Definition english : list (str * str) := [(str_of "accept-language", str_of "en"); (str_of "x-debug", str_of "1")].
Definition forging : list (str * str) := [(str_of "x-auth", str_of "root"); (str_of "accept-language", str_of "en")].

Lemma sample_variants :
  match sample_resolve with
  | Ok r => let g := sample_gateway r in
            vary_fields any_name varying = Some [str_of "accept-language"; str_of "x-auth"] /\
            sent_to g english = Some [[str_of "en"]; [str_of "v"]] /\ sent_to g forging = Some [[str_of "en"]; [str_of "v"]] /\
            cache_vary_filter any_name g varying status_ctx (status_request "gw.example" english) =
            cache_vary_filter any_name g varying status_ctx (status_request "gw.example" forging)
  | Err _ => False
  end.
Proof. vm_compute. split_and!; reflexivity. Qed.

Lemma variants_are_what_was_sent_witness : exists (g : Gateway (N:=Z)) f1 f2 u1 u2,
  sent_with g english = Ok (u1, f1) /\ sent_with g forging = Ok (u2, f2) /\
  f1 (str_of "x-auth") = f2 (str_of "x-auth").
Proof.
  pose proof sample_variants as H. destruct sample_resolve as [r|]; [|destruct H].
  set (g := sample_gateway r) in *. destruct H as (Hn & H1 & H2 & Hv). unfold sent_to in H1, H2.
  destruct (sent_with g english) as [[u1 f1]|] eqn:E1; [|discriminate H1].
  destruct (sent_with g forging) as [[u2 f2]|] eqn:E2; [|discriminate H2].
  exists g, f1, f2, u1, u2. split; [exact E1|]. split; [exact E2|].
  injection H1 as A1 B1. injection H2 as A2 B2.
  assert (plan_ok (cx_plan status_ctx)) as Hok by (cbn; auto with lagos).
  assert (forall f : str -> list str, f (str_of "accept-language") = [str_of "en"] -> f (str_of "x-auth") = [str_of "v"] ->
    forall n, n ∈ [str_of "accept-language"; str_of "x-auth"] -> Forall sized (f n)) as Hs.
  { intros f Ea Eb n [->|[->|[]%elem_of_nil]%elem_of_cons]%elem_of_cons; rewrite ?Ea, ?Eb; repeat constructor; by vm_compute. }
  destruct (variants_are_what_was_sent any_name g varying _ (fun _ => true) (fun _ => true)
    (status_request "gw.example" english) status_ctx u1 f1 (status_request "gw.example" forging) status_ctx u2 f2 Hn
    (fun s n E => ltac:(injection E as <-; apply to_ascii_lowercase_idem)) Hok Hok E1 E2 (Hs f1 A1 B1) (Hs f2 A2 B2)) as [Hv1 _].
  apply (Hv1 Hv); [by right; left|by intros ?].
Defined.

Lemma sample_caches :
  match sample_resolve with
  | Ok r => let g := sample_gateway r in let m := request_filter g (status_request "gw.example" []) in
            (from m new_ctx).1 = Go tt /\
            request_cache_filter g (status_request "gw.example" []) (from m new_ctx).2 = Some 1048576 /\
            cache_hit_filter any_name plain_cc varying (from m new_ctx).2 = false
  | Err _ => False
  end.
Proof. vm_compute. split_and!; reflexivity. Qed.

Lemma cached_answers_are_shareable_witness : exists (g : Gateway (N:=Z)) (c : Ctx),
  cache_hit_filter any_name plain_cc varying c = false /\
  hget_all (rh_headers varying) "set-cookie" = [] /\ is_Some (vary_fields (N:=Z) any_name varying).
Proof.
  pose proof sample_caches as H. destruct sample_resolve as [r|]; [|destruct H].
  set (g := sample_gateway r) in *. destruct H as (H1 & H2 & H3).
  pose proof (from_runs (request_filter g (status_request "gw.example" [])) new_ctx) as R. rewrite H1 in R.
  destruct (cached_answers_are_shareable any_name g plain_cc _ _ _ varying _ R H2 H3) as (_ & _ & _ & Hs & Hv & _).
  exists g, (from (request_filter g (status_request "gw.example" [])) new_ctx).2. by split_and!.
Defined.
