(* ===== verification/CacheStore.v ===== *)
(** * The cache's storage (cache/storage.rs)

    Complete responses in a bounded store, the fills that are still arriving
    under a shared budget, and the readers of a stored body.  The store itself
    is [moka]'s cache, which may drop an entry at any time; the keys are the
    hashes Pingora makes of cache keys. *)

From S2P Require Export Prelude.

Abbreviation bytes := (list Z).
(** [HashBinary]. *)
Abbreviation hash := (list Z).

Record Entry := { en_internal : bytes; en_header : bytes; en_body : bytes }.

Definition len (b : bytes) : Z := Z.of_nat (length b).

(** ** One storage *)

Record MemoryStorage := {
  ms_entries : gmap hash Entry;
  ms_max_object_bytes : Z;
  ms_filling : Z;
  ms_max_fill_bytes : Z;
}.
#[export] Instance MemoryStorage_rebuild : Rebuild MemoryStorage := fun s =>
  {| ms_entries := ms_entries s; ms_max_object_bytes := ms_max_object_bytes s; ms_filling := ms_filling s;
     ms_max_fill_bytes := ms_max_fill_bytes s |}.

Definition storage_new (max_object_bytes : Z) : MemoryStorage :=
  {| ms_entries := ∅; ms_max_object_bytes := max_object_bytes; ms_filling := 0; ms_max_fill_bytes := usize_max |}.
Definition with_fill_budget (max_fill_bytes : Z) (s : MemoryStorage) : MemoryStorage :=
  s <| ms_max_fill_bytes := max_fill_bytes |>.

(** [reserve]: one atomic update, refused where it would overflow or pass the
    budget. *)
Definition reserve (n : Z) (s : MemoryStorage) : option MemoryStorage :=
  if (ms_filling s + n <=? usize_max) && (ms_filling s + n <=? ms_max_fill_bytes s)
  then Some (s <| ms_filling := ms_filling s + n |>) else None.

(** [release]: [fetch_sub] wraps. *)
Definition release (n : Z) (s : MemoryStorage) : MemoryStorage :=
  if 0 <? n then s <| ms_filling := (ms_filling s - n) mod 2 ^ 64 |> else s.

(** ** Fills *)

Record Miss := { mi_key : hash; mi_internal : bytes; mi_header : bytes; mi_body : bytes; mi_too_large : bool }.
#[export] Instance Miss_rebuild : Rebuild Miss := fun m =>
  {| mi_key := mi_key m; mi_internal := mi_internal m; mi_header := mi_header m; mi_body := mi_body m;
     mi_too_large := mi_too_large m |}.

(** [get_miss_handler], on the serialized halves of the metadata. *)
Definition get_miss_handler (key : hash) (internal header : bytes) : Miss :=
  {| mi_key := key; mi_internal := internal; mi_header := header; mi_body := []; mi_too_large := false |}.

Definition abandon (s : MemoryStorage) (m : Miss) : MemoryStorage * Miss :=
  (release (len (mi_body m)) s, m <| mi_too_large := true |> <| mi_body := [] |>).

Definition write_body (data : bytes) (s : MemoryStorage) (m : Miss) : MemoryStorage * Miss :=
  if mi_too_large m then (s, m)
  else if ms_max_object_bytes s <? sat_add usize_max (len (mi_body m)) (len data) then abandon s m
  else match reserve (len data) s with
       | None => abandon s m
       | Some s => (s, m <| mi_body := mi_body m ++ data |>)
       end.

Definition drop_miss (s : MemoryStorage) (m : Miss) : MemoryStorage := release (len (mi_body m)) s.

Section Weights.
(** The sizes of [HashBinary] and of [Entry] itself. *)
Variables (hash_size entry_size : Z).

Definition weight (e : Entry) : Z :=
  Z.min u32_max (sat_add usize_max (sat_add usize_max (sat_add usize_max (sat_add usize_max
    (len (en_body e)) (len (en_internal e))) (len (en_header e))) hash_size) entry_size).

(** [finish]: the size that is accounted for, or the refusal of an abandoned
    fill.  The emptied handler is dropped then, which releases nothing more. *)
Definition finish (s : MemoryStorage) (m : Miss) : MemoryStorage * result Z str :=
  if mi_too_large m then
    (drop_miss s m, Err "cache fill exceeded max_object_size or max_inflight_fill")
  else
    let s := release (len (mi_body m)) s in
    let e := {| en_internal := mi_internal m; en_header := mi_header m; en_body := mi_body m |} in
    (drop_miss (s <| ms_entries := <[mi_key m := e]> (ms_entries s) |>) (m <| mi_body := [] |>), Ok (weight e)).
End Weights.

(** ** Lookups and maintenance *)

Definition purge (key : hash) (s : MemoryStorage) : MemoryStorage * bool :=
  (s <| ms_entries := delete key (ms_entries s) |>, bool_decide (is_Some (ms_entries s !! key))).

(** [update_meta]: the body stays, under new metadata. *)
Definition update_meta (key : hash) (internal header : bytes) (s : MemoryStorage) : MemoryStorage * bool :=
  match ms_entries s !! key with
  | None => (s, false)
  | Some existing =>
      (s <| ms_entries := <[key := {| en_internal := internal; en_header := header; en_body := en_body existing |}]>
                            (ms_entries s) |>, true)
  end.

(** ** Readers *)

Record Hit := { ht_body : bytes; ht_read : nat; ht_end : nat }.

(** [lookup], the metadata as it was serialized. *)
Definition lookup_hit (key : hash) (s : MemoryStorage) : option (bytes * bytes * Hit) :=
  letO e := ms_entries s !! key in
  Some (en_internal e, en_header e, {| ht_body := en_body e; ht_read := 0; ht_end := length (en_body e) |}).

Definition READ_CHUNK : nat := Z.to_nat (32 * 1024).

(** The sum of [read_body] cannot saturate: both are lengths within a body. *)
Definition read_body (h : Hit) : Hit * option bytes :=
  if (ht_end h <=? ht_read h)%nat then (h, None)
  else
    let stop := Nat.min (ht_end h) (ht_read h + READ_CHUNK) in
    ({| ht_body := ht_body h; ht_read := stop; ht_end := ht_end h |},
     Some (take (stop - ht_read h) (drop (ht_read h) (ht_body h)))).

Definition seek (start : nat) (stop : option nat) (h : Hit) : Hit :=
  let n := length (ht_body h) in
  let read := Nat.min start n in
  {| ht_body := ht_body h; ht_read := read; ht_end := Nat.max read (Nat.min (default n stop) n) |}.

(** What a reader makes of a hit: the chunks until there are no more. *)
Fixpoint read_all (fuel : nat) (h : Hit) : option (list bytes) :=
  match fuel with
  | O => None
  | S fuel => match read_body h with
              | (_, None) => Some []
              | (h, Some chunk) => letO rest := read_all fuel h in Some (chunk :: rest)
              end
  end.

(** ** Many fills at once

    Each fill belongs to one request; the storage is shared.  [wd_written] is
    what each live fill was given and [wd_done] what was published, under which
    key. *)

Record World := {
  wd_storage : MemoryStorage;
  wd_misses : gmap nat Miss;
  wd_written : gmap nat bytes;
  wd_done : list (hash * bytes);
}.

Section Fills.
Variables (hash_size entry_size : Z).
Abbreviation finish := (finish hash_size entry_size).

Inductive fill_step : World -> World -> Prop :=
| step_open s ms wr d id key internal header :
    ms !! id = None ->
    fill_step {| wd_storage := s; wd_misses := ms; wd_written := wr; wd_done := d |}
      {| wd_storage := s; wd_misses := <[id := get_miss_handler key internal header]> ms;
         wd_written := <[id := []]> wr; wd_done := d |}
| step_write s ms wr d id m w data s' m' :
    ms !! id = Some m -> wr !! id = Some w -> write_body data s m = (s', m') ->
    fill_step {| wd_storage := s; wd_misses := ms; wd_written := wr; wd_done := d |}
      {| wd_storage := s'; wd_misses := <[id := m']> ms; wd_written := <[id := w ++ data]> wr; wd_done := d |}
| step_finish s ms wr d id m w s' r :
    ms !! id = Some m -> wr !! id = Some w -> finish s m = (s', r) ->
    fill_step {| wd_storage := s; wd_misses := ms; wd_written := wr; wd_done := d |}
      {| wd_storage := s'; wd_misses := delete id ms; wd_written := wr;
         wd_done := if is_ok r then (mi_key m, w) :: d else d |}
| step_drop s ms wr d id m :
    ms !! id = Some m ->
    fill_step {| wd_storage := s; wd_misses := ms; wd_written := wr; wd_done := d |}
      {| wd_storage := drop_miss s m; wd_misses := delete id ms; wd_written := wr; wd_done := d |}
(** A purge, or an entry that [moka] drops. *)
| step_purge s ms wr d key :
    fill_step {| wd_storage := s; wd_misses := ms; wd_written := wr; wd_done := d |}
      {| wd_storage := (purge key s).1; wd_misses := ms; wd_written := wr; wd_done := d |}
| step_update s ms wr d key internal header :
    fill_step {| wd_storage := s; wd_misses := ms; wd_written := wr; wd_done := d |}
      {| wd_storage := (update_meta key internal header s).1; wd_misses := ms; wd_written := wr; wd_done := d |}.

(** What the fills hold together. *)
Definition held (ms : gmap nat Miss) : Z := map_fold (fun _ m acc => len (mi_body m) + acc) 0 ms.

Definition start (s : MemoryStorage) : World := {| wd_storage := s; wd_misses := ∅; wd_written := ∅; wd_done := [] |}.

(** A fill either was abandoned and holds nothing, or holds all it was given. *)
Definition miss_ok (max_object : Z) (m : Miss) (w : bytes) : Prop :=
  if mi_too_large m then mi_body m = [] else mi_body m = w /\ len w <= max_object.

Record fills_ok (max_object max_fill : Z) (w : World) : Prop := {
  fo_object : ms_max_object_bytes (wd_storage w) = max_object;
  fo_budget : ms_max_fill_bytes (wd_storage w) = max_fill;
  fo_filling : ms_filling (wd_storage w) = held (wd_misses w);
  fo_bound : ms_filling (wd_storage w) <= Z.min usize_max max_fill;
  fo_misses : forall id m, wd_misses w !! id = Some m ->
                exists b, wd_written w !! id = Some b /\ miss_ok max_object m b;
  fo_entries : forall key e, ms_entries (wd_storage w) !! key = Some e ->
                 (key, en_body e) ∈ wd_done w /\ len (en_body e) <= max_object;
}.

(** ** Sums over the fills *)

Lemma len_nonneg b : 0 <= len b.
Proof using. unfold len. lia. Qed.

Lemma held_insert id m ms : ms !! id = None -> held (<[id := m]> ms) = len (mi_body m) + held ms.
Proof using. intros H. unfold held. apply (map_fold_insert_L (fun _ m acc => len (mi_body m) + acc)); [lia|done]. Qed.

Lemma held_delete id m ms : ms !! id = Some m -> held ms = len (mi_body m) + held (delete id ms).
Proof using.
  intros H. rewrite <-(insert_delete_id ms id m H) at 1. apply held_insert, lookup_delete_eq.
Qed.

Lemma held_update id m m' ms : ms !! id = Some m -> held (<[id := m']> ms) = held ms - len (mi_body m) + len (mi_body m').
Proof using.
  intros H. rewrite <-insert_delete_eq, held_insert by apply lookup_delete_eq. rewrite (held_delete id m ms H). lia.
Qed.

Lemma held_nonneg ms : 0 <= held ms.
Proof using.
  unfold held. induction ms as [|id m ms Hid IH] using map_ind; [done|].
  fold (held ms) in IH. fold (held (<[id := m]> ms)). rewrite held_insert by done. pose proof (len_nonneg (mi_body m)). lia.
Qed.

(** A fill's share can always be released. *)
Lemma release_exact s n : 0 <= n <= ms_filling s -> ms_filling s <= usize_max -> release n s = s <| ms_filling := ms_filling s - n |>.
Proof using.
  intros Hn Hs. unfold release. destruct (Z.ltb_spec 0 n).
  - rewrite Z.mod_small by (unfold usize_max in *; lia). done.
  - replace (ms_filling s - n) with (ms_filling s) by lia. by destruct s.
Qed.

Lemma held_share id m ms : ms !! id = Some m -> len (mi_body m) <= held ms.
Proof using. intros H. rewrite (held_delete id m ms H). pose proof (held_nonneg (delete id ms)). lia. Qed.

(** [write_body] touches the counter and its own buffer alone, keeps the two in
    step, and either takes the data or holds nothing more. *)
Lemma write_body_spec data s m s' m' w :
  len (mi_body m) <= ms_filling s <= usize_max -> miss_ok (ms_max_object_bytes s) m w ->
  write_body data s m = (s', m') ->
  ms_entries s' = ms_entries s /\ ms_max_object_bytes s' = ms_max_object_bytes s /\
  ms_max_fill_bytes s' = ms_max_fill_bytes s /\
  ms_filling s' = ms_filling s - len (mi_body m) + len (mi_body m') /\
  (ms_filling s' <= ms_filling s \/ ms_filling s' <= Z.min usize_max (ms_max_fill_bytes s)) /\
  miss_ok (ms_max_object_bytes s) m' (w ++ data) /\ mi_key m' = mi_key m.
Proof using.
  intros Hs Hm. pose proof (len_nonneg (mi_body m)) as Hl. unfold write_body.
  assert (abandon s m = (s', m') -> miss_ok (ms_max_object_bytes s) m' (w ++ data) /\ mi_body m' = [] /\ mi_key m' = mi_key m /\
    s' = s <| ms_filling := ms_filling s - len (mi_body m) |>) as Hab.
  { unfold abandon. rewrite release_exact by lia. by intros [= <- <-]. }
  unfold miss_ok in Hm. destruct (mi_too_large m) eqn:Et.
  { intros [= <- <-]. unfold miss_ok. rewrite Et. split_and!; try done; [lia|left; lia]. }
  destruct Hm as [Hb Hw].
  assert (abandon s m = (s', m') -> ms_entries s' = ms_entries s /\ ms_max_object_bytes s' = ms_max_object_bytes s /\
    ms_max_fill_bytes s' = ms_max_fill_bytes s /\ ms_filling s' = ms_filling s - len (mi_body m) + len (mi_body m') /\
    (ms_filling s' <= ms_filling s \/ ms_filling s' <= Z.min usize_max (ms_max_fill_bytes s)) /\
    miss_ok (ms_max_object_bytes s) m' (w ++ data) /\ mi_key m' = mi_key m) as Hab'.
  { intros (H1 & H2 & H3 & ->)%Hab. rewrite H2. cbn. change (len []) with 0. split_and!; try done; [lia|left; lia]. }
  destruct (Z.ltb_spec (ms_max_object_bytes s) (sat_add usize_max (len (mi_body m)) (len data))) as [_|Hfit]; [done|].
  unfold reserve. destruct (Z.leb_spec (ms_filling s + len data) usize_max) as [H1|]; [|done].
  destruct (Z.leb_spec (ms_filling s + len data) (ms_max_fill_bytes s)) as [H2|]; [|done].
  intros [= <- <-]. unfold miss_ok. cbn. rewrite Et. unfold len, sat_add in *. rewrite length_app.
  rewrite Hb in *. split_and!; rewrite ?length_app; try done; lia.
Qed.

Lemma fill_finish_spec s m s' r :
  len (mi_body m) <= ms_filling s <= usize_max -> finish s m = (s', r) ->
  ms_max_object_bytes s' = ms_max_object_bytes s /\ ms_max_fill_bytes s' = ms_max_fill_bytes s /\
  ms_filling s' = ms_filling s - len (mi_body m) /\
  if mi_too_large m then is_ok r = false /\ ms_entries s' = ms_entries s
  else is_ok r = true /\ exists e, en_body e = mi_body m /\ ms_entries s' = <[mi_key m := e]> (ms_entries s).
Proof using.
  intros Hs. pose proof (len_nonneg (mi_body m)). unfold CacheStore.finish, drop_miss.
  rewrite release_exact by lia. destruct (mi_too_large m).
  - by intros [= <- <-].
  - replace (release (len (mi_body (m <| mi_body := [] |>)))) with (fun s : MemoryStorage => s) by done.
    intros [= <- <-]. cbn. split_and!; try done. eexists. split; [|reflexivity]. done.
Qed.

Lemma fill_step_ok max_object max_fill w w' :
  0 <= max_object -> fill_step w w' -> fills_ok max_object max_fill w -> fills_ok max_object max_fill w'.
Proof using.
  intros Hmo Hstep [Ho Hb Hf Hbd Hm He].
  destruct Hstep as [s ms wr d id key int hdr Hid|s ms wr d id m w data s' m' Hid Hw E|s ms wr d id m w s' r Hid Hw E
    |s ms wr d id m Hid|s ms wr d key|s ms wr d key int hdr]; cbn in *.
  - split; cbn; try done.
    + by rewrite held_insert.
    + intros id' m' [[<- <-]|[Hne H]]%lookup_insert_Some.
      * exists []. by rewrite lookup_insert_eq.
      * destruct (Hm _ _ H) as (b & Hb' & Hok). exists b. by rewrite lookup_insert_ne.
  - destruct (Hm _ _ Hid) as (w0 & Hw0 & Hok). simplify_eq. pose proof (held_share _ _ _ Hid).
    eapply write_body_spec in E as (E1 & E2 & E3 & E4 & E5 & E6 & E7); [|lia|done].
    split; cbn; rewrite ?E1, ?E2, ?E3; try done.
    + rewrite (held_update id m m' ms Hid). lia.
    + lia.
    + intros id' m2 [[<- <-]|[Hne H2]]%lookup_insert_Some.
      * eexists. by rewrite lookup_insert_eq.
      * destruct (Hm _ _ H2) as (b & Hb' & Hok'). exists b. by rewrite lookup_insert_ne.
  - destruct (Hm _ _ Hid) as (w0 & Hw0 & Hok). simplify_eq. pose proof (held_share _ _ _ Hid).
    pose proof (len_nonneg (mi_body m)).
    apply fill_finish_spec in E as (E2 & E3 & E4 & E5); [|lia]. unfold miss_ok in Hok.
    split; cbn; rewrite ?E2, ?E3; try done.
    + rewrite E4, Hf, (held_delete id m ms Hid). lia.
    + lia.
    + intros id' m2 [Hne H2]%lookup_delete_Some. exact (Hm _ _ H2).
    + intros key e. destruct (mi_too_large m).
      * destruct E5 as [-> ->]. apply He.
      * destruct E5 as [-> (e0 & Eb & ->)]. destruct Hok as [Hbody Hlen]. rewrite <-Eb in Hbody. subst w.
        intros [[<- <-]|[Hne H2]]%lookup_insert_Some; [split; [left|done]|].
        apply He in H2 as [H2 H3]. split; [by right|done].
  - pose proof (held_share _ _ _ Hid). pose proof (len_nonneg (mi_body m)).
    unfold drop_miss. rewrite release_exact by lia. split; cbn; try done.
    + rewrite Hf, (held_delete id m ms Hid). lia.
    + lia.
    + intros id' m2 [Hne H2]%lookup_delete_Some. exact (Hm _ _ H2).
  - split; cbn; try done. intros k e [_ H]%lookup_delete_Some. exact (He _ _ H).
  - unfold update_meta. destruct (ms_entries s !! key) as [e0|] eqn:E0; [|done].
    split; cbn; try done. intros k e [[<- <-]|[Hne H]]%lookup_insert_Some; [exact (He _ _ E0)|exact (He _ _ H)].
Qed.

Lemma reachable_ok max_object max_fill w :
  0 <= max_object -> 0 <= max_fill ->
  rtc fill_step (start (with_fill_budget max_fill (storage_new max_object))) w -> fills_ok max_object max_fill w.
Proof using.
  intros Hmo Hmf. apply (rtc_ind_r (fills_ok max_object max_fill)).
  - split; cbn; try done; unfold usize_max; lia.
  - intros w1 w2 _ Hstep H1. by eapply fill_step_ok.
Qed.

(** ** Reading *)

Lemma read_all_spec fuel h :
  (ht_end h - ht_read h < fuel)%nat -> (ht_end h <= length (ht_body h))%nat ->
  exists chunks, read_all fuel h = Some chunks /\
    concat chunks = take (ht_end h - ht_read h) (drop (ht_read h) (ht_body h)) /\
    Forall (fun c => (0 < length c <= READ_CHUNK)%nat) chunks.
Proof using.
  assert (0 < READ_CHUNK)%nat as Hpos by (unfold READ_CHUNK; lia).
  revert h. induction fuel as [|fuel IH]; intros [body r e] Hf Hl; cbn [ht_read ht_end ht_body] in *; [lia|].
  cbn [read_all]. unfold read_body. cbn [ht_read ht_end ht_body]. destruct (Nat.leb_spec e r) as [Hle|Hlt].
  - exists []. replace (e - r)%nat with 0%nat by lia. done.
  - set (stop := Nat.min e (r + READ_CHUNK)). destruct (IH {| ht_body := body; ht_read := stop; ht_end := e |}) as (cs & E & Ec & Hc);
      [cbn; lia|cbn; lia|]. rewrite E. cbn [mbind option_bind]. cbn [ht_read ht_end ht_body] in Ec.
    eexists. split; [reflexivity|]. split.
    + cbn [concat]. rewrite Ec. replace (drop stop body) with (drop (stop - r) (drop r body)) by (rewrite drop_drop; f_equal; lia).
      rewrite take_take_drop. f_equal. lia.
    + constructor; [|done]. rewrite length_take, length_drop. lia.
Qed.

(** ** Theorems *)

(** C21: the bodies that are still arriving never hold more than the fill budget
    together: however many fills are open, in whatever order they are written
    to, finished and dropped, and whatever is purged or evicted meanwhile, the
    counter is exactly the sum of their buffers, it neither wraps nor passes
    [max_inflight_fill], no buffer passes [max_object_size], and an abandoned
    fill holds nothing. *)
Theorem fills_stay_within_budget max_object max_fill w (Hmo : 0 <= max_object) (Hmf : 0 <= max_fill)
  (Hrun : rtc fill_step (start (with_fill_budget max_fill (storage_new max_object))) w) :
  ms_filling (wd_storage w) = held (wd_misses w) /\ 0 <= held (wd_misses w) <= Z.min usize_max max_fill /\
  forall id m, wd_misses w !! id = Some m ->
    (mi_too_large m = true -> mi_body m = []) /\ len (mi_body m) <= max_object.
Proof using.
  destruct (reachable_ok _ _ _ Hmo Hmf Hrun) as [Ho Hb Hf Hbd Hm _].
  split; [done|]. split; [rewrite <-Hf; split; [rewrite Hf; apply held_nonneg|done]|].
  intros id m (b & _ & Hok)%Hm. unfold miss_ok in Hok. destruct (mi_too_large m).
  - rewrite Hok. by split.
  - destruct Hok as [-> Hl]. by split.
Qed.

(** C20: a reader is never handed a torn body: after any interleaving of fills,
    what is stored under a key is the whole of what one finished fill of that
    key was given, no longer than [max_object_size]; and a reader that seeks to
    any range at all, in or out of bounds, reads exactly the part of the range
    that exists, in chunks of at most 32 KiB, and stops. *)
Theorem hits_serve_complete_bodies max_object max_fill w key internal header hit first last
  (Hmo : 0 <= max_object) (Hmf : 0 <= max_fill)
  (Hrun : rtc fill_step (start (with_fill_budget max_fill (storage_new max_object))) w)
  (Hhit : lookup_hit key (wd_storage w) = Some (internal, header, hit)) :
  exists body chunks, (key, body) ∈ wd_done w /\ len body <= max_object /\
    read_all (S (length body)) hit = Some chunks /\ concat chunks = body /\
    exists part, read_all (S (length body)) (seek first last hit) = Some part /\
      concat part = take (default (length body) last - first) (drop first body) /\
      Forall (fun c => (length c <= READ_CHUNK)%nat) part.
Proof using.
  destruct (reachable_ok _ _ _ Hmo Hmf Hrun) as [_ _ _ _ _ He].
  unfold lookup_hit in Hhit. apply bind_Some in Hhit as (e & Hlook & [= <- <- <-]).
  apply He in Hlook as [Hdone Hlen]. exists (en_body e).
  destruct (read_all_spec (S (length (en_body e))) {| ht_body := en_body e; ht_read := 0; ht_end := length (en_body e) |})
    as (chunks & E1 & E2 & _); [cbn; lia|cbn; lia|].
  exists chunks. split_and!; try done.
  { rewrite E2. cbn. by rewrite Nat.sub_0_r, take_ge. }
  destruct (read_all_spec (S (length (en_body e)))
    (seek first last {| ht_body := en_body e; ht_read := 0; ht_end := length (en_body e) |}))
    as (part & E3 & E4 & E5); [cbn; lia|cbn; lia|]. exists part. split_and!; [exact E3|..].
  - rewrite E4. cbn. set (b := en_body e). destruct (decide (first <= length b)%nat) as [Hin|Hout].
    + rewrite (Nat.min_l first) by done. set (stop := default (length b) last).
      destruct (decide (stop <= length b)%nat).
      * f_equal. lia.
      * rewrite !take_ge; [done| |]; rewrite length_drop; lia.
    + rewrite (Nat.min_r first), !drop_ge by lia. by rewrite !take_nil.
  - eapply List.Forall_impl; [|exact E5]. cbn. lia.
Qed.
End Fills.

(** ** Witnesses *)

Definition sample_fills : World :=
  let s := with_fill_budget 1500 (storage_new 1000) in
  let '(s1, m1) := write_body [1; 2; 3] s (get_miss_handler [7] [] []) in
  let '(s2, _) := finish 16 80 s1 m1 in
  {| wd_storage := s2; wd_misses := ∅; wd_written := {[ 0%nat := [1; 2; 3] ]}; wd_done := [([7], [1; 2; 3])] |}.

Lemma sample_fills_run : rtc (fill_step 16 80) (start (with_fill_budget 1500 (storage_new 1000))) sample_fills.
Proof.
  eapply rtc_l; [apply (step_open 16 80 _ _ _ _ 0 [7] [] []); done|].
  eapply rtc_l; [eapply (step_write 16 80 _ _ _ _ 0 _ _ [1; 2; 3]); reflexivity|].
  eapply rtc_l; [eapply (step_finish 16 80 _ _ _ _ 0); reflexivity|].
  apply rtc_refl.
Qed.

Lemma fills_stay_within_budget_witness :
  ms_filling (wd_storage sample_fills) = held (wd_misses sample_fills) /\ rtc (fill_step 16 80)
    (start (with_fill_budget 1500 (storage_new 1000))) sample_fills.
Proof.
  split; [|exact sample_fills_run].
  destruct (fills_stay_within_budget 16 80 1000 1500 sample_fills) as [H _]; [lia..|exact sample_fills_run|exact H].
Defined.

Lemma hits_serve_complete_bodies_witness : exists hit chunks,
  lookup_hit [7] (wd_storage sample_fills) = Some ([], [], hit) /\ read_all 4 hit = Some chunks /\ concat chunks = [1; 2; 3].
Proof.
  set (hit := {| ht_body := [1; 2; 3]; ht_read := 0; ht_end := 3 |}).
  assert (lookup_hit [7] (wd_storage sample_fills) = Some ([], [], hit)) as E by reflexivity.
  destruct (hits_serve_complete_bodies 16 80 1000 1500 sample_fills [7] [] [] hit 2 (Some 9%nat))
    as (b & cs & Hin & _ & Hr & Hc & _); [lia..|exact sample_fills_run|exact E|].
  apply elem_of_cons in Hin as [[= ->]|[]%elem_of_nil]. by exists hit, cs.
Defined.
