(* ===== verification/Resp.v ===== *)
(** * The RESP half of cluster-wide counting (ratelimit/resp.rs)

    [RespBackend] keeps the cluster's counts in the hashes of a server that
    speaks RESP: one hash per key and window, one field per replica.  The
    server, its connection and its time limit are behind an interface that
    states what the three commands of the pipeline do; the theorems show that
    the backend then keeps the contract of Shared.v's [Backend]. *)

From S2P Require Export Shared.

Definition REPLIES_PER_KEY : nat := 2.

(** ** Who answered *)

Inductive Vendor := Recached | OtherVendor (name : str).
#[export] Instance Vendor_eq_dec : EqDecision Vendor.
Proof. solve_decision. Defined.

Definition show_vendor (v : Vendor) : str :=
  match v with
  | Recached => "Recached"
  | OtherVendor name => if name ==? [] then "an unidentified RESP server" else name
  end.

(** [str::lines]. *)
Definition lines (s : str) : list str :=
  let ls := split_on 10 s in
  let ls := match reverse ls with [] :: rest => reverse rest | _ => ls end in
  map (fun l => default l (strip_suffix [13] l)) ls.

Fixpoint vendor_of_lines (name : str) (ls : list str) : Vendor :=
  match ls with
  | [] => OtherVendor name
  | line :: rest =>
      match split_once 58 (trim line) with
      | None => vendor_of_lines name rest
      | Some (field, value) =>
          if field ==? "recached_version" then Recached
          else if (field ==? "server_name") && eq_ignore_ascii_case value "recached" then Recached
          else vendor_of_lines (if field ==? "server_name" then value else name) rest
      end
  end.
Definition vendor_from_info (info : str) : Vendor := vendor_of_lines [] (lines info).

(** ** The server *)

Inductive Cmd := HSET (key field : str) (v : Z) | EXPIRE (key : str) (secs : Z) | HVALS (key : str).

(** What the commands do to the hashes, and what [HVALS] reads.  A time to live
    changes nothing yet. *)
Definition hashes := str -> gmap str Z.
Definition hset (key f : str) (v : Z) (h : hashes) : hashes := fun k => if k ==? key then <[f := v]> (h k) else h k.
Fixpoint run_cmds (h : hashes) (cmds : list Cmd) : hashes * list (gmap str Z) :=
  match cmds with
  | [] => (h, [])
  | HSET key f v :: rest => run_cmds (hset key f v h) rest
  | EXPIRE _ _ :: rest => run_cmds h rest
  | HVALS key :: rest => let '(h', rs) := run_cmds h rest in (h', h key :: rs)
  end.

(** The values of a hash, in an order of the server's choosing, as [u64]s. *)
Definition values_of (m : gmap str Z) (reply : list Z) : Prop :=
  Permutation (map snd (map_to_list m)) reply /\ Forall (fun v => 0 <= v <= u64_max) reply.

(** The server behind a connection, each query under the configured time
    limit: what it holds, and that an answered pipeline was run as a whole. *)
Class Server (S : Type) := {
  query : S -> list Cmd -> S * result (list (list Z)) BackendError;
  rlcheck : S -> str -> Z -> Z -> S * result (list Z) BackendError;
  info_server : S -> S * result str BackendError;
}.
Class ServerLaws (S : Type) `{Server S} := {
  stored : S -> hashes;
  query_runs : forall s cmds s' replies, query s cmds = (s', Ok replies) ->
    (forall k, stored s' k = (run_cmds (stored s) cmds).1 k) /\ Forall2 values_of (run_cmds (stored s) cmds).2 replies;
}.

(** ** The backend *)

Section Resp.
(** [Uuid]'s [Display]. *)
Context (show_source : uuid -> str).

Definition bucket_key (key : str) (bucket : Z) : str := key ++ ":shared-v2:" ++ show_u64 bucket.

Definition ttl_secs (interval : Z) : Z :=
  let lifetime := sat_mul duration_max interval 2 in
  Z.max (sat_add u64_max (as_secs lifetime) (if lifetime mod nanos_per_sec =? 0 then 0 else 1)) 2.

Definition window_cmds (p : Publish) (bucket own : Z) (writable : bool) : list Cmd :=
  let key := bucket_key (pb_key p) bucket in
  (if negb (own =? 0) && writable then [HSET key (show_source (pb_source p)) own] else [])
  ++ [EXPIRE key (ttl_secs (pb_interval p)); HVALS key].
Definition publish_cmds (p : Publish) : list Cmd :=
  window_cmds p (pb_bucket p) (pb_own_current p) true
  ++ window_cmds p (sat_sub (pb_bucket p) 1) (pb_own_previous p) (0 <? pb_bucket p).

(** [as_chunks]. *)
Fixpoint pairs {A} (l : list A) : list (A * A) :=
  match l with a :: b :: rest => (a, b) :: pairs rest | _ => [] end.

Definition sum_replies (l : list Z) : Z := fold_left (fun sum n => sat_add u64_max sum n) l 0.
Definition totals_of (p : Publish) (r : list Z * list Z) : Totals :=
  {| t_current := sum_replies r.1; t_previous := if pb_bucket p =? 0 then 0 else sum_replies r.2 |}.

Section Backend.
Context {S : Type} `{Server S}.

Definition resp_reconcile (s : S) (batch : list Publish) : S * result (list Totals) BackendError :=
  match batch with
  | [] => (s, Ok [])
  | _ =>
      let '(s, r) := query s (concat (map publish_cmds batch)) in
      (s, let? replies := r in
          if negb (Nat.eqb (length replies) (length batch * REPLIES_PER_KEY)) then
            Err (Protocol ("expected " ++ show_u64 (Z.of_nat (length batch * REPLIES_PER_KEY)) ++ " replies for "
                           ++ show_u64 (Z.of_nat (length batch)) ++ " keys, got " ++ show_u64 (Z.of_nat (length replies))))
          else Ok (zip_with totals_of batch (pairs replies)))
  end.

(** [check_exact]: the limiter of the server itself, in whole seconds. *)
Definition resp_check_exact (s : S) (key : str) (limit interval : Z) : S * result Decision BackendError :=
  if (interval =? 0) || negb (interval mod nanos_per_sec =? 0) then
    (s, Err (Protocol "RLCHECK requires an interval in whole seconds"))
  else
    let '(s, r) := rlcheck s key limit (as_secs interval) in
    (s, let? reply := r in
        match reply with
        | allowed :: remaining :: retry_ms :: _ =>
            if allowed =? 1 then Ok (allow limit (Z.max 0 remaining))
            else Ok (refuse limit (from_secs ((Z.max 0 retry_ms + 999) / 1000)))
        | _ => Err (Protocol ("RLCHECK returned " ++ show_u64 (Z.of_nat (length reply)) ++ " values, expected 3"))
        end).

Definition probe (s : S) : S * result (str * bool) BackendError :=
  let '(s, r) := info_server s in
  (s, let? info := r in
      let vendor := vendor_from_info info in Ok (show_vendor vendor, vendor ==? Recached)).

#[global] Instance resp_backend : Backend S := { reconcile := resp_reconcile; backend_check_exact := resp_check_exact }.
End Backend.

(** ** What a pipeline does *)

Lemma bucket_key_inj k1 b1 k2 b2 :
  0 <= b1 <= u64_max -> 0 <= b2 <= u64_max -> bucket_key k1 b1 = bucket_key k2 b2 -> k1 = k2 /\ b1 = b2.
Proof using.
  intros H1 H2 E. unfold bucket_key in E.
  assert (forall b, 0 <= b <= u64_max -> (58 ∉ show_u64 b)) as Hd.
  { intros b Hb Hin. pose proof (show_u64_digits b Hb) as Hf. rewrite Forall_elem in Hf. by apply Hf in Hin. }
  assert (forall k b, k ++ str_of ":shared-v2:" ++ show_u64 b = (k ++ str_of ":shared-v2") ++ 58 :: show_u64 b) as Hs
    by (intros k b; by rewrite <-app_assoc).
  rewrite !Hs in E. pose proof (rsplit_once_barrier 58 (k1 ++ str_of ":shared-v2") (show_u64 b1) (Hd _ H1)) as R1.
  pose proof (rsplit_once_barrier 58 (k2 ++ str_of ":shared-v2") (show_u64 b2) (Hd _ H2)) as R2.
  rewrite E, R2 in R1. injection R1 as Ek Eb. apply app_inv_tail in Ek. by apply show_u64_inj in Eb.
Qed.

Lemma run_cmds_app h c1 c2 :
  run_cmds h (c1 ++ c2) = ((run_cmds (run_cmds h c1).1 c2).1, (run_cmds h c1).2 ++ (run_cmds (run_cmds h c1).1 c2).2).
Proof using.
  revert h. induction c1 as [|[key f v|key secs|key] c1 IH]; intros h; cbn [app run_cmds fst snd]; [by destruct (run_cmds h c2)|apply IH..|].
  rewrite IH. by destruct (run_cmds h c1) as [h' rs].
Qed.

(** One window: its key alone is written, and read back. *)
Lemma run_window h p bucket own writable :
  let key := bucket_key (pb_key p) bucket in
  exists h', run_cmds h (window_cmds p bucket own writable) = (h', [h' key]) /\
    h' key = (if writable then published (show_source (pb_source p)) own (h key) else h key) /\
    forall k, k <> key -> h' k = h k.
Proof using.
  intros key. unfold window_cmds, published. fold key. destruct (own =? 0); cbn [negb andb].
  { exists h. cbn. by destruct writable. }
  destruct writable; [|by exists h]. exists (hset key (show_source (pb_source p)) own h). split; [done|].
  unfold hset. split; [by rewrite bool_decide_true|]. intros k Hk. by rewrite bool_decide_false.
Qed.

(** A publish writes its two windows and reads them back. *)
Lemma run_publish h p :
  0 <= pb_bucket p <= u64_max ->
  let ck := bucket_key (pb_key p) (pb_bucket p) in let pk := bucket_key (pb_key p) (sat_sub (pb_bucket p) 1) in
  exists h' r, run_cmds h (publish_cmds p) = (h', [h' ck; r]) /\
    h' ck = published (show_source (pb_source p)) (pb_own_current p) (h ck) /\
    (0 < pb_bucket p -> h' pk = published (show_source (pb_source p)) (pb_own_previous p) (h pk) /\ r = h' pk) /\
    forall k, k <> ck -> k <> pk -> h' k = h k.
Proof using.
  intros Hb ck pk. unfold publish_cmds.
  destruct (run_window h p (pb_bucket p) (pb_own_current p) true) as (h1 & E1 & C1 & O1).
  destruct (run_window h1 p (sat_sub (pb_bucket p) 1) (pb_own_previous p) (0 <? pb_bucket p)) as (h2 & E2 & C2 & O2).
  rewrite run_cmds_app, E1. cbn [fst snd]. rewrite E2. cbn [fst snd app]. fold ck in C1, O1 |- *.
  fold pk in C2, O2 |- *. destruct (Z.ltb_spec 0 (pb_bucket p)) as [Hp|Hz].
  - assert (ck <> pk) as Hne. { unfold ck, pk, sat_sub. intros [_ E]%bucket_key_inj; lia. }
    exists h2, (h2 pk). rewrite (O2 ck) by done. rewrite <-(O1 pk) by done.
    split_and!; [done|done|by intros|]. intros k Hc Hk. by rewrite O2, O1.
  - assert (pb_bucket p = 0) as E0 by lia.
    assert (pk = ck) as Epk by (unfold pk, ck, sat_sub; f_equal; lia). rewrite Epk in *.
    exists h2, (h2 ck). rewrite C2. split_and!; [done|done|lia|].
    intros k Hc _. by rewrite O2, O1.
Qed.

Definition keys_of (p : Publish) : list str := [bucket_key (pb_key p) (pb_bucket p); bucket_key (pb_key p) (sat_sub (pb_bucket p) 1)].

Lemma keys_apart p q k :
  0 <= pb_bucket p <= u64_max -> 0 <= pb_bucket q <= u64_max -> pb_key p <> pb_key q -> k ∈ keys_of p -> k ∉ keys_of q.
Proof using.
  intros Hp Hq Hne. unfold keys_of, sat_sub. rewrite !elem_of_cons.
  intros [->|[->|[]%elem_of_nil]] [E|[E|[]%elem_of_nil]]; apply bucket_key_inj in E as [E _]; done || lia.
Qed.

(** A batch under distinct keys: each publish finds what it would find alone. *)
Lemma run_batch h ps :
  NoDup (map pb_key ps) -> Forall (fun p => 0 <= pb_bucket p <= u64_max) ps ->
  exists h' rs, run_cmds h (concat (map publish_cmds ps)) = (h', concat (map (fun r => [r.1; r.2]) rs)) /\
    length rs = length ps /\ (forall k, (forall p, p ∈ ps -> k ∉ keys_of p) -> h' k = h k) /\
    forall i p r, ps !! i = Some p -> rs !! i = Some r ->
      let ck := bucket_key (pb_key p) (pb_bucket p) in let pk := bucket_key (pb_key p) (sat_sub (pb_bucket p) 1) in
      h' ck = published (show_source (pb_source p)) (pb_own_current p) (h ck) /\ r.1 = h' ck /\
      (0 < pb_bucket p -> h' pk = published (show_source (pb_source p)) (pb_own_previous p) (h pk) /\ r.2 = h' pk).
Proof using.
  revert h. induction ps as [|p ps IH]; intros h Hnd Hb.
  - exists h, []. split_and!; [done..|]. by intros i q r Hi.
  - apply list.NoDup_cons in Hnd as [Hn Hnd]. apply Forall_cons_iff in Hb as [Hp Hb].
    destruct (run_publish h p Hp) as (h1 & r & E1 & C1 & P1 & O1).
    destruct (IH h1 Hnd Hb) as (h2 & rs & E2 & L2 & O2 & R2).
    exists h2, ((h1 (bucket_key (pb_key p) (pb_bucket p)), r) :: rs). cbn [map concat].
    rewrite run_cmds_app, E1. cbn [fst snd]. rewrite E2.
    assert (forall k, k ∈ keys_of p -> h2 k = h1 k) as Hkeep.
    { intros k Hk. apply O2. intros q Hq. rewrite Forall_elem in Hb. eapply keys_apart; [..|exact Hk]; [done|by apply Hb|].
      intros E. apply Hn. rewrite E. by apply (list_elem_of_fmap_2 pb_key). }
    split_and!; [done|cbn; by rewrite L2|..].
    + intros k Hk. rewrite O2 by (intros q Hq; apply Hk; by right).
      specialize (Hk p (list_elem_of_here _ _)). unfold keys_of in Hk. rewrite !not_elem_of_cons in Hk. apply O1; tauto.
    + intros [|i] q r' Hq Hr; cbn in Hq, Hr; simplify_eq; cbn [fst snd].
      * rewrite !Hkeep by (unfold keys_of; set_solver). split_and!; [done..|].
        exact P1.
      * destruct (R2 i q r' Hq Hr) as (A & B & C).
        assert (forall k, k ∈ keys_of q -> h1 k = h k) as Hold.
        { intros k Hk. assert (k ∉ keys_of p) as Hkp.
          { rewrite Forall_elem in Hb. eapply keys_apart; [..|exact Hk]; [apply Hb; by eapply list_elem_of_lookup_2|done|].
            intros E. apply Hn. rewrite <-E. apply (list_elem_of_fmap_2 pb_key). by eapply list_elem_of_lookup_2. }
          unfold keys_of in Hkp. rewrite !not_elem_of_cons in Hkp. apply O1; tauto. }
        rewrite !Hold in A by (unfold keys_of; set_solver). split_and!; [done..|].
        intros H0. destruct (C H0) as [C1' C2']. rewrite Hold in C1' by (unfold keys_of; set_solver). done.
Qed.

(** ** Totals *)

Definition total (l : list Z) : Z := foldr Z.add 0 l.

Lemma total_perm l l' : Permutation l l' -> total l = total l'.
Proof using. induction 1; unfold total in *; cbn; lia. Qed.

Lemma sum_replies_sat l acc :
  Forall (fun v => 0 <= v <= u64_max) l -> 0 <= acc <= u64_max ->
  fold_left (fun sum n => sat_add u64_max sum n) l acc = Z.min u64_max (acc + total l).
Proof using.
  revert acc. induction l as [|v l IH]; intros acc Hl Hacc; cbn [fold_left total foldr]; [lia|].
  apply Forall_cons_iff in Hl as [Hv Hl]. fold (total l).
  assert (0 <= total l).
  { clear -Hl. induction Hl as [|v l Hv _ IH]; cbn; [done|]. fold (total l). lia. }
  rewrite IH by (done || unfold sat_add; lia). unfold sat_add. lia.
Qed.

Lemma sum_replies_values m reply : values_of m reply -> sum_replies reply = Z.min u64_max (field_sum m).
Proof using.
  intros [Hp Hr]. unfold sum_replies. rewrite sum_replies_sat; [|done|by vm_compute].
  f_equal. rewrite <-(total_perm _ _ Hp), Z.add_0_l. unfold field_sum. rewrite map_fold_foldr. unfold total. clear.
  induction (map_to_list m) as [|[k v] l IH]; [done|]. cbn. by rewrite IH.
Qed.

Lemma pairs_values (rs : list (gmap str Z * gmap str Z)) replies :
  Forall2 values_of (concat (map (fun r => [r.1; r.2]) rs)) replies ->
  Forall2 (fun m r => values_of m.1 r.1 /\ values_of m.2 r.2) rs (pairs replies).
Proof using.
  revert replies. induction rs as [|m rs IH]; intros replies H; cbn in H.
  - by inversion H.
  - inversion H as [|? r1 ? l Hr1 H1]; subst. inversion H1 as [|? r2 ? l' Hr2 H2]; subst. cbn. constructor; [done|auto].
Qed.

(** ** The contract *)

Section Contract.
Context {S : Type} `{ServerLaws S}.

Definition resp_usage (s : S) (key : str) (bucket : Z) : gmap str Z := stored s (bucket_key key bucket).

Lemma resp_reconcile_spec s ps s' ts :
  resp_reconcile s ps = (s', Ok ts) -> NoDup (map pb_key ps) -> Forall (fun p => 0 <= pb_bucket p <= u64_max) ps ->
  length ts = length ps /\ forall i p t, ps !! i = Some p -> ts !! i = Some t ->
    resp_usage s' (pb_key p) (pb_bucket p) =
      published (show_source (pb_source p)) (pb_own_current p) (resp_usage s (pb_key p) (pb_bucket p)) /\
    (0 < pb_bucket p -> resp_usage s' (pb_key p) (pb_bucket p - 1) =
      published (show_source (pb_source p)) (pb_own_previous p) (resp_usage s (pb_key p) (pb_bucket p - 1))) /\
    t_current t = Z.min u64_max (field_sum (resp_usage s' (pb_key p) (pb_bucket p))) /\
    t_previous t = if pb_bucket p =? 0 then 0 else Z.min u64_max (field_sum (resp_usage s' (pb_key p) (pb_bucket p - 1))).
Proof using.
  intros E Hnd Hb. unfold resp_reconcile in E. destruct ps as [|p0 ps0]; [injection E as <- <-; by split; [|intros i p t Hi]|].
  remember (p0 :: ps0) as ps eqn:Eps. clear Eps p0 ps0.
  destruct (query s _) as [s1 [replies|e]] eqn:Eq; [|done]. cbn [rbind] in E.
  destruct (negb _); [done|]. injection E as <- <-. apply query_runs in Eq as [Hst Hval].
  destruct (run_batch (stored s) ps Hnd Hb) as (h' & rs & Er & Hlen & _ & Hrs). rewrite Er in Hst, Hval. cbn [fst snd] in Hst, Hval.
  apply pairs_values in Hval. pose proof (list.Forall2_length _ _ _ Hval) as Hl2.
  split; [rewrite length_zip_with; lia|].
  intros i p t Hp (p' & r & -> & Hp' & Hr)%lookup_zip_with_Some. rewrite Hp in Hp'. injection Hp' as <-.
  destruct (Forall2_lookup_r _ _ _ _ _ Hval Hr) as (m & Hm & Hv1 & Hv2). destruct (Hrs i p m Hp Hm) as (A & B & C).
  unfold resp_usage. rewrite !Hst. split_and!.
  - done.
  - intros Hz. destruct (C Hz) as [C1 _]. by rewrite sat_sub_exact in C1 by lia.
  - cbn. apply sum_replies_values in Hv1. by rewrite Hv1, B.
  - cbn. destruct (Z.eqb_spec (pb_bucket p) 0) as [|Hz]; [done|].
    rewrite Forall_elem in Hb. pose proof (Hb p (list_elem_of_lookup_2 _ _ _ Hp)).
    destruct (C ltac:(lia)) as [_ C2]. apply sum_replies_values in Hv2. rewrite Hv2, C2. by rewrite sat_sub_exact by lia.
Qed.

#[global] Instance resp_laws : BackendLaws S.
Proof using H0.
  refine {| usage := resp_usage; field := show_source |}.
  - intros s ps s' ts E. cbn in E. unfold resp_reconcile in E. destruct ps as [|p0 ps0]; [by injection E as <- <-|].
    remember (p0 :: ps0) as ps eqn:Eps. clear Eps p0 ps0.
    destruct (query s _) as [s1 [replies|e]] eqn:Eq; [|done]. cbn [rbind] in E.
    destruct (Nat.eqb_spec (length replies) (length ps * REPLIES_PER_KEY)) as [El|]; [|done].
    cbn [negb] in E. injection E as <- <-. rewrite length_zip_with.
    assert (forall {A} n (l : list A), length l = (n * 2)%nat -> length (pairs l) = n) as Hp.
    { intros A n. induction n as [|n IH]; intros [|a [|b l]] Hl; try done. cbn. f_equal. apply IH. cbn in Hl. lia. }
    rewrite (Hp _ (length ps)) by done. lia.
  - intros s ps s' ts i p t E Hnd Hb Hp Ht. destruct (resp_reconcile_spec s ps s' ts E Hnd Hb) as [_ Hs]. by apply (Hs i).
Defined.

(** Of one batch of publishes under distinct keys, answered. *)
Record answered (s : S) (ps : list Publish) (s' : S) (ts : list Totals) : Prop := {
  an_reply : reconcile s ps = (s', Ok ts);
  an_keys : NoDup (map pb_key ps);
  an_buckets : Forall (fun p => 0 <= pb_bucket p <= u64_max) ps;
}.

Lemma published_twice f own m : published f own (published f own m) = published f own m.
Proof using. unfold published. destruct (own =? 0); [done|]. apply insert_insert_eq. Qed.

(** C14: the RESP backend keeps the contract the limiter relies on, over any
    server whose [HSET] and [HVALS] do what they say: the totals come back in
    the order of the batch, each publish writes its replica's own totals under
    its own field of its own window and no other, what is read back is the
    saturated sum over all the replicas, a window before the first reads as
    zero; and publishing the same batch again, as a retry after a lost answer
    does, gives the same totals: nothing is counted twice. *)
Theorem resp_keeps_the_contract s ps s' ts (Hok : answered s ps s' ts) :
  length ts = length ps /\
  (forall i p t, ps !! i = Some p -> ts !! i = Some t ->
    resp_usage s' (pb_key p) (pb_bucket p) =
      published (show_source (pb_source p)) (pb_own_current p) (resp_usage s (pb_key p) (pb_bucket p)) /\
    (0 < pb_bucket p -> resp_usage s' (pb_key p) (pb_bucket p - 1) =
      published (show_source (pb_source p)) (pb_own_previous p) (resp_usage s (pb_key p) (pb_bucket p - 1))) /\
    t_current t = Z.min u64_max (field_sum (resp_usage s' (pb_key p) (pb_bucket p))) /\
    t_previous t = if pb_bucket p =? 0 then 0
                   else Z.min u64_max (field_sum (resp_usage s' (pb_key p) (pb_bucket p - 1)))) /\
  forall s'' ts', reconcile s' ps = (s'', Ok ts') -> ts' = ts.
Proof using.
  destruct Hok as [E Hnd Hb]. destruct (resp_reconcile_spec s ps s' ts E Hnd Hb) as [Hlen Hspec].
  split_and!; [done|done|]. intros s'' ts' E'. destruct (resp_reconcile_spec s' ps s'' ts' E' Hnd Hb) as [Hlen' Hspec'].
  apply list_eq_same_length with (n := length ps); [done..|]. intros i t' t Hi Ht' Ht.
  destruct (lookup_lt_is_Some_2 ps i Hi) as [p Hp].
  destruct (Hspec i p t Hp Ht) as (A & B & C & D). destruct (Hspec' i p t' Hp Ht') as (A' & B' & C' & D').
  destruct t as [c q], t' as [c' q']. cbn in *. rewrite C, C', A', A, published_twice, D, D'.
  f_equal. destruct (Z.eqb_spec (pb_bucket p) 0); [done|]. rewrite Forall_elem in Hb.
  pose proof (Hb p (list_elem_of_lookup_2 _ _ _ Hp)). rewrite B', B, published_twice by lia. done.
Qed.

(** The server's own limiter is asked only in whole seconds, and a refusal never
    asks a client back before the wait the server named is over. *)
Lemma check_exact_waits s key limit interval s' d :
  0 <= interval -> backend_check_exact s key limit interval = (s', Ok d) ->
  interval = from_secs (as_secs interval) /\ 0 < interval /\
  exists admitted remaining ms rest,
    rlcheck s key limit (as_secs interval) = (s', Ok (admitted :: remaining :: ms :: rest)) /\
    (allowed d = true <-> admitted = 1) /\ (allowed d = true -> RateLimit.remaining d = Z.max 0 remaining) /\
    (allowed d = false -> ms * 1000000 <= retry_after d).
Proof using.
  intros H1 E. cbn in E. unfold resp_check_exact in E.
  destruct ((interval =? 0) || _) eqn:Ei; [done|]. breflect.
  destruct (rlcheck _ _ _ _) as [s1 [reply|e]] eqn:Er; [|done]. cbn [rbind] in E.
  pose proof (Z.div_mod interval nanos_per_sec ltac:(done)). unfold from_secs, as_secs.
  split; [lia|]. split; [lia|].
  destruct reply as [|a [|r [|ms rest]]]; try done. exists a, r, ms, rest.
  destruct (Z.eqb_spec a 1); injection E as <- <-; cbn; (split; [done|]); split_and!; try done.
  intros _. unfold from_secs, nanos_per_sec. pose proof (Z.div_mod (Z.max 0 ms + 999) 1000 ltac:(done)).
  pose proof (Z.mod_pos_bound (Z.max 0 ms + 999) 1000 ltac:(lia)). lia.
Qed.
End Contract.
End Resp.

(** ** A server in memory *)

Module Memory.
Record server := { hashes_of : gmap str (gmap str Z); vendor_info : str }.

Definition stored_in (s : server) : hashes := fun k => default ∅ (hashes_of s !! k).
Fixpoint exec (m : gmap str (gmap str Z)) (cmds : list Cmd) : gmap str (gmap str Z) * list (list Z) :=
  match cmds with
  | [] => (m, [])
  | HSET key f v :: rest => exec (<[key := <[f := v]> (default ∅ (m !! key))]> m) rest
  | EXPIRE _ _ :: rest => exec m rest
  | HVALS key :: rest => let '(m', rs) := exec m rest in (m', map snd (map_to_list (default ∅ (m !! key))) :: rs)
  end.

(** A reply that is not made of [u64]s is not read. *)
Definition u64s (rs : list (list Z)) : bool := forallb (forallb (fun v => (0 <=? v) && (v <=? u64_max))) rs.

#[global] Instance server_query : Server server := {
  query s cmds := let '(m, rs) := exec (hashes_of s) cmds in
                  ({| hashes_of := m; vendor_info := vendor_info s |},
                   if u64s rs then Ok rs else Err (Unavailable "ResponseError"));
  rlcheck s _ _ _ := (s, Ok [1; 4; 0]);
  info_server s := (s, Ok (vendor_info s));
}.

Lemma exec_runs m cmds :
  (forall k, default ∅ ((exec m cmds).1 !! k) = (run_cmds (fun k => default ∅ (m !! k)) cmds).1 k) /\
  Forall2 (fun h r => r = map snd (map_to_list h)) (run_cmds (fun k => default ∅ (m !! k)) cmds).2 (exec m cmds).2.
Proof.
  assert (forall cmds (h1 h2 : hashes), (forall k, h1 k = h2 k) ->
            (forall k, (run_cmds h1 cmds).1 k = (run_cmds h2 cmds).1 k) /\ (run_cmds h1 cmds).2 = (run_cmds h2 cmds).2) as Hext.
  { clear. induction cmds as [|[key f v|key secs|key] cmds IH]; intros h1 h2 Hh; cbn [run_cmds]; [done| |by apply IH|].
    - apply IH. intros k. unfold hset. by rewrite !Hh.
    - destruct (IH h1 h2 Hh) as [I1 I2]. destruct (run_cmds h1 cmds), (run_cmds h2 cmds). cbn in *. by rewrite Hh, I2. }
  revert m. induction cmds as [|[key f v|key secs|key] cmds IH]; intros m; cbn [exec run_cmds]; [by split| |apply IH|].
  - destruct (Hext cmds (hset key f v (fun k => default ∅ (m !! k)))
      (fun k => default ∅ (<[key:=<[f:=v]> (default ∅ (m !! key))]> m !! k))) as [E1 E2].
    { intros k. unfold hset. rewrite lookup_insert. case_bool_decide as Ek; [subst k; by rewrite decide_True|].
      rewrite decide_False; [done|congruence]. }
    destruct (IH (<[key:=<[f:=v]> (default ∅ (m !! key))]> m)) as [I1 I2]. rewrite E2. split; [|done].
    intros k. by rewrite E1.
  - destruct (IH m) as [I1 I2]. destruct (exec m cmds), (run_cmds _ cmds). cbn in *. split; [done|]. by constructor.
Qed.

#[global] Instance server_laws : ServerLaws server.
Proof.
  refine {| stored := stored_in |}. intros s cmds s' replies E. cbn in E.
  destruct (exec_runs (hashes_of s) cmds) as [E1 E2]. destruct (exec (hashes_of s) cmds) as [m rs]. cbn [fst snd] in E1, E2.
  destruct (u64s rs) eqn:Eu; [|done]. injection E as <- <-. split; [intros k; apply E1|].
  unfold stored_in. revert Eu E2. generalize (run_cmds (fun k => default ∅ (hashes_of s !! k)) cmds).2. intros hs Eu E2.
  induction E2 as [|h r hs rs -> _ IH]; [done|]. cbn in Eu. apply andb_true_iff in Eu as [Er Eu].
  constructor; [|auto]. split; [done|]. apply Forall_elem. intros v Hv. rewrite forallb_In in Er. apply Er in Hv. breflect. lia.
Defined.
End Memory.

(** ** Witness *)

Definition sample_server : Memory.server :=
  {| Memory.hashes_of := {[str_of "p:k:shared-v2:5" := {[str_of "peer" := 4]}]}; Memory.vendor_info := "recached_version:1" |}.
Definition sample_publishes : list Publish :=
  [{| pb_source := 7; pb_key := "p:k"; pb_bucket := 5; pb_own_current := 3; pb_own_previous := 0; pb_interval := from_secs 60 |};
   {| pb_source := 7; pb_key := "p:j"; pb_bucket := 5; pb_own_current := 0; pb_own_previous := 2; pb_interval := from_secs 60 |}].

Lemma sample_publishes_ok : NoDup (map pb_key sample_publishes) /\ Forall (fun p => 0 <= pb_bucket p <= u64_max) sample_publishes.
Proof.
  split.
  - apply (bool_decide_unpack _). by vm_compute.
  - repeat constructor; cbn; unfold u64_max; lia.
Qed.

Lemma resp_keeps_the_contract_witness :
  exists s' ts, reconcile (Backend := resp_backend show_u64) sample_server sample_publishes = (s', Ok ts) /\ length ts = 2%nat.
Proof.
  destruct (reconcile (Backend := resp_backend show_u64) sample_server sample_publishes) as [s' [ts|e]] eqn:E.
  - exists s', ts. split; [done|].
    destruct (resp_keeps_the_contract show_u64 sample_server sample_publishes s' ts) as [Hl _]; [|exact Hl].
    destruct sample_publishes_ok as [Hk Hb]. split; [exact E|exact Hk|exact Hb].
  - exfalso. vm_compute in E. discriminate E.
Defined.
