(* ===== verification/Keys.v ===== *)
(** * Signing keys, fetched and cached (auth/jwks.rs)

    One issuer's public keys: how a reply of its endpoint becomes a key set, how
    long the set is trusted, and the cache in which concurrent lookups share one
    fetch.  The HTTP client, the JSON parser and the constructors of decoding
    keys are parameters; a lookup is a task whose critical sections interleave
    with those of the others. *)

From S2P Require Export Effects.

Definition MAX_KEY_SET_BYTES : Z := 1024 * 1024.
Definition MAX_KEY_TTL : Z := from_secs (24 * 60 * 60).

Definition key_set_ttl (max_age : option Z) (min_ttl : Z) : Z :=
  Z.max (Z.min (default min_ttl max_age) (Z.max MAX_KEY_TTL min_ttl)) min_ttl.

(** ** The reply of an endpoint *)

(** What [reqwest] reports: no answer, or a status, the declared length, the
    [Cache-Control] field as text, and the body in chunks, the last of which may
    fail. *)
Inductive Reply :=
| NoReply (why : str)
| Replied (success : bool) (status : str) (content_length : option Z) (cache_control : option str)
    (chunks : list (result (list Z) str)).

Definition max_age (cache_control : option str) : option Z :=
  letO cc := cache_control in
  from_secs <$> find_map (fun v => parse_u64 (trim v)) (omap (fun part => strip_prefix "max-age=" (trim part)) (split_on 44 cc)).

(** The loop over the chunks: the body, never longer than the cap. *)
Fixpoint read_chunks (raw : list Z) (chunks : list (result (list Z) str)) : result (list Z) AuthError :=
  match chunks with
  | [] => Ok raw
  | Err e :: _ => Err (Unavailable ("key set could not be read: " ++ e))
  | Ok chunk :: rest =>
      if MAX_KEY_SET_BYTES <? sat_add usize_max (Z.of_nat (length raw)) (Z.of_nat (length chunk))
      then Err (Unavailable ("key set exceeded the " ++ show_u64 MAX_KEY_SET_BYTES ++ " byte cap"))
      else read_chunks (raw ++ chunk) rest
  end.

Record Jwk := {
  kty : str;
  jwk_kid : option str;
  jwk_use : option str;
  jwk_n : option str;
  jwk_e : option str;
  jwk_x : option str;
  jwk_y : option str;
}.

Inductive KeyFormat := FormatJwks | FormatX509Pem.

Section Keys.
(** [jsonwebtoken::DecodingKey]. *)
Context {K : Type}.
(** [serde_json::from_slice] at the two shapes, [DecodingKey]'s constructors,
    and the key of a PEM certificate. *)
Context (jwk_set_from_slice : list Z -> result (list Jwk) str)
        (string_map_from_slice : list Z -> result (list (str * str)) str)
        (from_rsa_components from_ec_components : str -> str -> result K str)
        (from_ed_components : str -> result K str)
        (decoding_key_from_x509_pem : str -> result K str).

(** The key an entry is, where it can be built. *)
Definition build_key (jwk : Jwk) : result K str :=
  if kty jwk ==? "RSA" then
    match jwk_n jwk, jwk_e jwk with
    | Some n, Some e => from_rsa_components n e
    | _, _ => Err "RSA key is missing `n` or `e`"
    end
  else if kty jwk ==? "EC" then
    match jwk_x jwk, jwk_y jwk with
    | Some x, Some y => from_ec_components x y
    | _, _ => Err "EC key is missing `x` or `y`"
    end
  else if kty jwk ==? "OKP" then
    match jwk_x jwk with
    | Some x => from_ed_components x
    | None => Err "OKP key is missing `x`"
    end
  else Err ("unsupported key type `" ++ kty jwk ++ "`").

Definition add_jwk (keys : gmap str K) (jwk : Jwk) : gmap str K :=
  if match jwk_use jwk with Some u => negb (u ==? "sig") | None => false end then keys
  else match jwk_kid jwk with
       | None => keys
       | Some kid => match build_key jwk with Ok key => <[kid := key]> keys | Err _ => keys end
       end.
Definition parse_jwks (body : list Z) : result (gmap str K) AuthError :=
  match jwk_set_from_slice body with
  | Err e => Err (Unavailable ("JWKS body was not a key set: " ++ e))
  | Ok set => Ok (fold_left add_jwk set ∅)
  end.

Definition add_certificate (keys : gmap str K) (entry : str * str) : gmap str K :=
  match decoding_key_from_x509_pem entry.2 with Ok key => <[entry.1 := key]> keys | Err _ => keys end.
Definition parse_x509_map (body : list Z) : result (gmap str K) AuthError :=
  match string_map_from_slice body with
  | Err e => Err (Unavailable ("certificate body was not JSON: " ++ e))
  | Ok m => Ok (fold_left add_certificate m ∅)
  end.

Definition fetch (format : KeyFormat) (min_ttl : Z) (reply : Reply) : result (gmap str K * Z) AuthError :=
  match reply with
  | NoReply e => Err (Unavailable ("certificate fetch failed: " ++ e))
  | Replied success status content_length cache_control chunks =>
      if negb success then Err (Unavailable ("certificate endpoint returned " ++ status))
      else if match content_length with Some n => MAX_KEY_SET_BYTES <? n | None => false end then
        Err (Unavailable ("key set declares " ++ show_u64 (default 0 content_length) ++ " bytes, over the "
                          ++ show_u64 MAX_KEY_SET_BYTES ++ " byte cap"))
      else
        let ttl := key_set_ttl (max_age cache_control) min_ttl in
        let? raw := read_chunks [] chunks in
        let? keys := match format with FormatX509Pem => parse_x509_map raw | FormatJwks => parse_jwks raw end in
        if map_to_list keys ==? [] then Err (Unavailable "no usable signing certificates") else Ok (keys, ttl)
  end.
End Keys.

(** ** The cache *)

Definition show_auth_error (e : AuthError) : str :=
  match e with
  | Invalid m => "invalid token: " ++ m
  | UnknownIssuer m => "unknown issuer: " ++ m
  | Unavailable m => "verifier unavailable: " ++ m
  end.

Section CertCache.
Context {K : Type}.
Context (escape_debug : Z -> str).
Variables (min_ttl stale_if_error : Z).

Record Cached := { cd_keys : gmap str K; cd_expires_at : Z }.

Definition is_fresh (now : Z) (c : Cached) : bool := now <? cd_expires_at c.
Definition cached_key (c : Cached) (kid : str) : result K AuthError :=
  ok_or (cd_keys c !! kid) (Invalid ("unknown signing key `" ++ untrusted escape_debug kid ++ "`")).

(** Where a lookup is between its critical sections; [tx] is the broadcast
    channel of a refresh. *)
Inductive Pc :=
| PcRefresh                                     (* entering [refresh] *)
| PcSlot                                        (* about to lock the slot *)
| PcWait (tx : nat)                             (* subscribed *)
| PcFetch (tx : nat)                            (* leading, the request under way *)
| PcPublish (tx : nat) (o : result () AuthError)  (* leading, about to publish *)
| PcRefreshed (o : result () AuthError)         (* [refresh] has returned *)
| PcDone (r : result K AuthError).

Record Task := { tk_kid : str; tk_pc : Pc }.

(** The cache, its clock, the channels messages were sent on, and the lookups. *)
Record World := {
  wd_now : Z;
  wd_inner : option Cached;
  wd_slot : option nat;
  wd_sent : gmap nat (result () str);
  wd_tasks : gmap nat Task;
  wd_next : nat;
}.
#[global] Instance World_rebuild : Rebuild World := fun w =>
  {| wd_now := wd_now w; wd_inner := wd_inner w; wd_slot := wd_slot w; wd_sent := wd_sent w; wd_tasks := wd_tasks w;
     wd_next := wd_next w |}.

Definition goes (id : nat) (kid : str) (pc : Pc) (w : World) : World :=
  w <| wd_tasks := <[id := {| tk_kid := kid; tk_pc := pc |}]> (wd_tasks w) |>.

(** [key_for]: the first look. *)
Definition key_for_start (w : World) (kid : str) : Pc :=
  match wd_inner w with
  | Some c => if is_fresh (wd_now w) c then PcDone (cached_key c kid) else PcRefresh
  | None => PcRefresh
  end.

(** [refresh]: the second look. *)
Definition refresh_start (w : World) : Pc :=
  if match wd_inner w with Some c => is_fresh (wd_now w) c | None => false end then PcRefreshed (Ok tt) else PcSlot.

(** Under the slot's lock: subscribe, or lead. *)
Definition take_lead (w : World) : Pc * World :=
  match wd_slot w with
  | Some tx => (PcWait tx, w)
  | None => (PcFetch (wd_next w), w <| wd_slot := Some (wd_next w) |> <| wd_next := S (wd_next w) |>)
  end.

(** The leader's fetch is back. *)
Definition fetched (tx : nat) (r : result (gmap str K * Z) AuthError) (w : World) : Pc * World :=
  match r with
  | Ok (keys, ttl) =>
      (PcPublish tx (Ok tt),
       w <| wd_inner := Some {| cd_keys := keys; cd_expires_at := default (wd_now w) (instant_checked_add (wd_now w) ttl) |} |>)
  | Err e => (PcPublish tx (Err e), w)
  end.

(** The slot is emptied and its subscribers told. *)
Definition notify (msg : result () str) (w : World) : World :=
  match wd_slot w with
  | Some tx => w <| wd_slot := None |> <| wd_sent := <[tx := msg]> (wd_sent w) |>
  | None => w
  end.
Definition outcome_message (o : result () AuthError) : result () str :=
  match o with Ok _ => Ok tt | Err e => Err (show_auth_error e) end.

(** What a subscriber makes of the message. *)
Definition received (msg : result () str) : Pc :=
  PcRefreshed (match msg with Ok _ => Ok tt | Err m => Err (Unavailable m) end).

(** [key_for]: after the refresh. *)
Definition key_for_finish (w : World) (kid : str) (o : result () AuthError) : result K AuthError :=
  match o with
  | Ok _ => match wd_inner w with
            | None => Err (Unavailable "certificate cache empty after refresh")
            | Some c => cached_key c kid
            end
  | Err error =>
      match (if stale_if_error =? 0 then None else wd_inner w) with
      | None => Err error
      | Some c =>
          match cd_keys c !! kid with
          | None => cached_key c kid
          | Some _ => match instant_checked_add (cd_expires_at c) stale_if_error with
                      | Some until => if wd_now w <? until then cached_key c kid else Err error
                      | None => Err error
                      end
          end
      end
  end.

(** One step of one lookup, the end of a fetch, the cancellation of a lookup (a
    leader's drop empties the slot), or time passing; with the key set and the
    lifetime that a fetch brought, if it is one that succeeded. *)
Inductive step_with : option (gmap str K * Z) -> World -> World -> Prop :=
| step_tick w d : 0 <= d -> step_with None w (w <| wd_now := wd_now w + d |>)
| step_start w id kid : wd_tasks w !! id = None -> step_with None w (goes id kid (key_for_start w kid) w)
| step_refresh w id kid : wd_tasks w !! id = Some {| tk_kid := kid; tk_pc := PcRefresh |} ->
    step_with None w (goes id kid (refresh_start w) w)
| step_slot w id kid : wd_tasks w !! id = Some {| tk_kid := kid; tk_pc := PcSlot |} ->
    step_with None w (goes id kid (take_lead w).1 (take_lead w).2)
| step_fetch w id kid tx r : wd_tasks w !! id = Some {| tk_kid := kid; tk_pc := PcFetch tx |} ->
    step_with (match r with Ok fresh => Some fresh | Err _ => None end) w (goes id kid (fetched tx r w).1 (fetched tx r w).2)
| step_publish w id kid tx o : wd_tasks w !! id = Some {| tk_kid := kid; tk_pc := PcPublish tx o |} ->
    step_with None w (goes id kid (PcRefreshed o) (notify (outcome_message o) w))
| step_receive w id kid tx msg : wd_tasks w !! id = Some {| tk_kid := kid; tk_pc := PcWait tx |} ->
    wd_sent w !! tx = Some msg -> step_with None w (goes id kid (received msg) w)
| step_finish w id kid o : wd_tasks w !! id = Some {| tk_kid := kid; tk_pc := PcRefreshed o |} ->
    step_with None w (goes id kid (PcDone (key_for_finish w kid o)) w)
| step_cancel_leader w id kid tx : wd_tasks w !! id = Some {| tk_kid := kid; tk_pc := PcFetch tx |} ->
    step_with None w (notify (Err (str_of "certificate refresh interrupted")) w <| wd_tasks := delete id (wd_tasks w) |>)
| step_cancel w id t : wd_tasks w !! id = Some t ->
    match tk_pc t with PcFetch _ | PcPublish _ _ => False | _ => True end ->
    step_with None w (w <| wd_tasks := delete id (wd_tasks w) |>).

Definition step (w w' : World) : Prop := exists o, step_with o w w'.

Definition start (now : Z) : World :=
  {| wd_now := now; wd_inner := None; wd_slot := None; wd_sent := ∅; wd_tasks := ∅; wd_next := 0 |}.

(** A run of the cache, with the fetches that succeeded, the latest first: when,
    and what they brought. *)
Inductive history (now : Z) : list (Z * (gmap str K * Z)) -> World -> Prop :=
| history_start : history now [] (start now)
| history_step log w o w' : history now log w -> step_with o w w' ->
    history now (match o with Some fresh => (wd_now w, fresh) :: log | None => log end) w'.

(** The key set of the latest fetch, and when it expires. *)
Definition kept (log : list (Z * (gmap str K * Z))) : option Cached :=
  match log with
  | (t, (keys, ttl)) :: _ => Some {| cd_keys := keys; cd_expires_at := default t (instant_checked_add t ttl) |}
  | [] => None
  end.

Definition leads (pc : Pc) (tx : nat) : bool :=
  match pc with PcFetch tx' | PcPublish tx' _ => tx' ==? tx | _ => false end.

Definition led_by (w : World) (tx id : nat) : Prop := exists t, wd_tasks w !! id = Some t /\ leads (tk_pc t) tx = true.

Record slot_ok (w : World) : Prop := {
  so_leader : forall tx, wd_slot w = Some tx -> exists id, led_by w tx id;
  so_slot : forall tx id, led_by w tx id -> wd_slot w = Some tx;
  so_one : forall tx tx' id id', led_by w tx id -> led_by w tx' id' -> id = id';
  so_wait : forall id kid tx, wd_tasks w !! id = Some {| tk_kid := kid; tk_pc := PcWait tx |} ->
              is_Some (wd_sent w !! tx) \/ wd_slot w = Some tx;
}.

(** ** Leaders and followers *)

Lemma led_by_goes w id kid pc tx j :
  led_by (goes id kid pc w) tx j <-> (j = id /\ leads pc tx = true) \/ (j <> id /\ led_by w tx j).
Proof using.
  unfold led_by, goes. cbn. split.
  - intros (t & [[<- <-]|[Hne Ht]]%lookup_insert_Some & Hl); [by left|right]. split; [done|by exists t].
  - intros [[-> Hl]|[Hne (t & Ht & Hl)]].
    + eexists. by rewrite lookup_insert_eq.
    + exists t. by rewrite lookup_insert_ne.
Qed.

Lemma wait_goes w id kid pc kid' tx j :
  wd_tasks (goes id kid pc w) !! j = Some {| tk_kid := kid'; tk_pc := PcWait tx |} ->
  (j = id /\ pc = PcWait tx) \/ wd_tasks w !! j = Some {| tk_kid := kid'; tk_pc := PcWait tx |}.
Proof using. unfold goes. cbn. intros [[<- [= -> ->]]|[_ H]]%lookup_insert_Some; auto. Qed.

(** A lookup that does not lead moves on without touching the slot. *)
Lemma goes_quiet w id kid pc :
  slot_ok w -> (forall tx, ~ led_by w tx id) -> (forall tx, leads pc tx = false) ->
  (forall tx, pc = PcWait tx -> is_Some (wd_sent w !! tx) \/ wd_slot w = Some tx) -> slot_ok (goes id kid pc w).
Proof using.
  intros [H1 H2 H3 H4] Hold Hnew Hw. split; cbn.
  - intros tx Htx. destruct (H1 tx Htx) as [j Hj]. exists j. apply led_by_goes. right. split; [|done].
    intros ->. by apply (Hold tx).
  - intros tx j [[_ Hl]|[_ Hl]]%led_by_goes; [by rewrite Hnew in Hl|eauto].
  - intros tx tx' j j' [[_ Hl]|[_ Hl]]%led_by_goes [[_ Hl']|[_ Hl']]%led_by_goes; rewrite ?Hnew in *; try done; eauto.
  - intros j kid' tx [[-> ->]|Hj]%wait_goes; eauto.
Qed.

Lemma not_leading w id t : wd_tasks w !! id = Some t -> (forall tx, leads (tk_pc t) tx = false) -> forall tx, ~ led_by w tx id.
Proof using. intros Ht Hl tx (t' & Ht' & E). rewrite Ht in Ht'. injection Ht' as <-. by rewrite Hl in E. Qed.

Lemma take_lead_ok w id kid :
  slot_ok w -> (forall tx, ~ led_by w tx id) -> slot_ok (goes id kid (take_lead w).1 (take_lead w).2).
Proof using.
  intros Hok Hold. unfold take_lead. destruct (wd_slot w) as [tx|] eqn:Es; cbn [fst snd].
  - apply goes_quiet; [done..|]. intros tx' [= <-]. by right.
  - destruct Hok as [H1 H2 H3 H4]. set (w1 := w <| wd_slot := Some (wd_next w) |> <| wd_next := S (wd_next w) |>).
    assert (forall tx j, ~ led_by w1 tx j) as Hnone.
    { intros tx j Hj. apply (H2 tx j) in Hj. congruence. }
    split.
    + intros tx [= <-]. exists id. apply led_by_goes. left. split; [done|]. cbn. by apply bool_decide_eq_true.
    + intros tx j [[_ Hl]|[_ Hl]]%led_by_goes; [|by apply Hnone in Hl]. cbn in Hl. apply bool_decide_eq_true in Hl. by subst tx.
    + intros tx tx' j j' [[-> _]|[_ Hl]]%led_by_goes [[-> _]|[_ Hl']]%led_by_goes; try done; by apply Hnone in Hl || apply Hnone in Hl'.
    + intros j kid' tx [[_ [=]]|Hj]%wait_goes. cbn. destruct (H4 _ _ _ Hj) as [|E]; [by left|congruence].
Qed.

(** The end of a lead: the slot is empty and its subscribers have a message. *)
Lemma notify_ok w id t tx msg tasks :
  slot_ok w -> wd_tasks w !! id = Some t -> leads (tk_pc t) tx = true ->
  (forall j t', tasks !! j = Some t' -> (j = id /\ (forall tx, leads (tk_pc t') tx = false) /\ (forall tx, tk_pc t' <> PcWait tx)) \/
                                     (j <> id /\ wd_tasks w !! j = Some t')) ->
  slot_ok (notify msg w <| wd_tasks := tasks |>).
Proof using.
  intros [H1 H2 H3 H4] Ht Hl Htasks. assert (led_by w tx id) as Hled by (by exists t).
  assert (wd_slot w = Some tx) as Es by eauto. unfold notify. rewrite Es.
  assert (forall tx' j, ~ led_by (w <| wd_slot := None |> <| wd_sent := <[tx := msg]> (wd_sent w) |> <| wd_tasks := tasks |>) tx' j)
    as Hnone.
  { intros tx' j (t' & Ht' & Hl'). apply Htasks in Ht' as [(-> & Hn & _)|[Hne Hj]]; [by rewrite Hn in Hl'|].
    apply Hne. apply (H3 tx' tx j id); [by exists t'|done]. }
  split; cbn.
  - done.
  - intros tx' j Hj. by apply Hnone in Hj.
  - intros tx' tx'' j j' Hj. by apply Hnone in Hj.
  - intros j kid tx' Hj. left. apply Htasks in Hj as [(_ & _ & Hn)|[_ Hj]]; [by destruct (Hn tx')|].
    destruct (H4 _ _ _ Hj) as [[m Hm]|E].
    + destruct (decide (tx = tx')) as [->|Hne]; [by rewrite lookup_insert_eq|by rewrite lookup_insert_ne].
    + rewrite Es in E. injection E as <-. by rewrite lookup_insert_eq.
Qed.

Lemma step_slot_ok w w' : step w w' -> slot_ok w -> slot_ok w'.
Proof using.
  intros [label Hstep] Hok.
  destruct Hstep as [w d Hd|w id kid Hid|w id kid Hid|w id kid Hid|w id kid tx r Hid|w id kid tx o Hid
    |w id kid tx msg Hid Hm|w id kid o Hid|w id kid tx Hid|w id t Hid Ht].
  - by destruct Hok.
  - apply goes_quiet; [done|intros tx (t & Ht & _); congruence|..]; unfold key_for_start;
      repeat case_match; try done; by intros tx.
  - apply goes_quiet; [done|by eapply not_leading|..]; unfold refresh_start; repeat case_match; by intros tx.
  - apply take_lead_ok; [done|by eapply not_leading].
  - destruct Hok as [H1 H2 H3 H4].
    assert (wd_slot (fetched tx r w).2 = wd_slot w /\ wd_sent (fetched tx r w).2 = wd_sent w /\
            wd_tasks (fetched tx r w).2 = wd_tasks w /\ exists o, (fetched tx r w).1 = PcPublish tx o) as (E1 & E2 & E3 & o & ->).
    { unfold fetched. destruct r as [[keys ttl]|e]; by eauto. }
    assert (forall tx' j, led_by (goes id kid (PcPublish tx o) (fetched tx r w).2) tx' j <-> led_by w tx' j) as Hiff.
    { intros tx' j. rewrite led_by_goes. unfold led_by. rewrite E3. split.
      - intros [[-> Hl]|[_ Hl]]; [|done]. eexists. by split.
      - intros (t & Ht & Hl). destruct (decide (j = id)) as [->|]; [left|right; by eauto].
        split; [done|]. rewrite Hid in Ht. by injection Ht as <-. }
    split; cbn; rewrite ?E1.
    + intros tx' Htx'. destruct (H1 _ Htx') as [j Hj]. exists j. by apply Hiff.
    + intros tx' j Hj%Hiff. eauto.
    + intros tx' tx'' j j' Hj%Hiff Hj'%Hiff. eauto.
    + intros j kid' tx' [[_ [=]]|Hj]%wait_goes. rewrite E3 in Hj. rewrite E2. eauto.
  - unfold goes. eapply notify_ok; [done|exact Hid|by apply bool_decide_eq_true|].
    intros j t'. unfold notify. assert (wd_tasks (notify (outcome_message o) w) = wd_tasks w) as E
      by (unfold notify; by destruct (wd_slot w)). unfold notify in E. rewrite E.
    intros [[<- <-]|[Hne Hj]]%lookup_insert_Some; [by left|by right].
  - apply goes_quiet; [done|by eapply not_leading|..]; unfold received; by intros tx'.
  - apply goes_quiet; [done|by eapply not_leading|..]; by intros tx'.
  - assert (wd_tasks (notify (Err (str_of "certificate refresh interrupted")) w) = wd_tasks w) as E
      by (unfold notify; by destruct (wd_slot w)). 
    eapply notify_ok; [done|exact Hid|by apply bool_decide_eq_true|].
    intros j t' [Hne Hj]%lookup_delete_Some. by right.
  - assert (forall tx, ~ led_by w tx id) as Hn.
    { eapply not_leading; [done|]. intros tx. by destruct (tk_pc t). }
    destruct Hok as [H1 H2 H3 H4].
    assert (forall tx j, led_by (w <| wd_tasks := delete id (wd_tasks w) |>) tx j <-> led_by w tx j) as Hiff.
    { intros tx j. unfold led_by. cbn. split.
      - intros (t' & [_ Hj]%lookup_delete_Some & Hl). by exists t'.
      - intros (t' & Hj & Hl). exists t'. rewrite lookup_delete_ne; [done|]. intros <-. apply (Hn tx). by exists t'. }
    split; cbn.
    + intros tx Htx. destruct (H1 _ Htx) as [j Hj]. exists j. by apply Hiff.
    + intros tx j Hj%Hiff. eauto.
    + intros tx tx' j j' Hj%Hiff Hj'%Hiff. eauto.
    + intros j kid tx [_ Hj]%lookup_delete_Some. eauto.
Qed.

(** What is held is what the latest fetch brought. *)
Lemma history_kept now log w : history now log w -> wd_inner w = kept log.
Proof using.
  induction 1 as [|log w o w' _ IH Hstep]; [done|].
  destruct Hstep as [w d Hd|w id kid Hid|w id kid Hid|w id kid Hid|w id kid tx r Hid|w id kid tx o Hid
    |w id kid tx msg Hid Hm|w id kid o Hid|w id kid tx Hid|w id t Hid Ht]; cbn; try done.
  - unfold take_lead. by destruct (wd_slot w).
  - by destruct r as [[keys ttl]|e].
  - unfold notify. by destruct (wd_slot w).
  - unfold notify. by destruct (wd_slot w).
Qed.

(** ** Theorems *)

(** C15: concurrent lookups share one fetch and none of them is left hanging: in
    every state the cache can reach, whatever the endpoint answers and whichever
    lookups are cancelled, at most one lookup is fetching, and the slot names
    its channel exactly while it lives; every waiting lookup either has its
    message already or waits on the channel of a leader that is still there, to
    publish its outcome or, cancelled, to say so. *)
Theorem waiters_are_never_stranded now w (Hrun : rtc step (start now) w) : slot_ok w.
Proof using.
  revert w Hrun. apply rtc_ind_r.
  - assert (forall tx id, ~ led_by (start now) tx id) as Hn.
    { intros tx id (t & Ht & _). cbn in Ht. by rewrite lookup_empty in Ht. }
    split; try done.
    + intros tx id H. by apply Hn in H.
    + intros tx tx' id id' H. by apply Hn in H.
  - intros w w' _ Hstep Hok. by eapply step_slot_ok.
Qed.

(** C16: keys that could not be refreshed fail closed. In every state the cache
    can reach, what it holds is the key set of the latest fetch that succeeded,
    with the expiry that fetch gave it: no failure, cancellation or later lookup
    moves either. After a failed refresh a lookup has a key only where the
    operator opted in, that set holds the key under that very identifier, and
    its expiry lies less than the configured interval back; an identifier it does
    not hold is refused, and everything else answers with the failure. *)
Theorem expired_keys_fail_closed now log w kid e key (Hrun : history now log w) (Hstale : 0 <= stale_if_error) :
  wd_inner w = kept log /\
  (key_for_finish w kid (Err e) = Ok key <->
   stale_if_error <> 0 /\ exists t keys ttl older until, log = (t, (keys, ttl)) :: older /\ keys !! kid = Some key /\
     instant_checked_add (default t (instant_checked_add t ttl)) stale_if_error = Some until /\ wd_now w < until) /\
  (forall e', key_for_finish w kid (Err e) = Err e' ->
   e' = e \/ exists c, kept log = Some c /\ cd_keys c !! kid = None /\ cached_key c kid = Err e').
Proof using.
  pose proof (history_kept now log w Hrun) as Hin. split; [done|].
  unfold key_for_finish. rewrite Hin. destruct (Z.eqb_spec stale_if_error 0) as [Hz|Hnz].
  { split; [split; [done|by intros [? _]]|]. intros e' [= <-]. by left. }
  destruct log as [|[t [keys ttl]] older]; cbn [kept].
  { split; [split; [done|by intros (_ & t & ks & ttl & o & u & ? & _)]|]. intros e' [= <-]. by left. }
  unfold cached_key. cbn [cd_keys cd_expires_at]. destruct (keys !! kid) as [k|] eqn:Ek; cbn [ok_or].
  - destruct (instant_checked_add _ stale_if_error) as [until|] eqn:Eu; [destruct (Z.ltb_spec (wd_now w) until)|].
    all: split; [split|].
    all: try (intros [= <-]; split; [done|]; by exists t, keys, ttl, older, until).
    all: try (intros (_ & t' & ks & ttl' & o & u' & [= <- <- <- <-] & Hk & Hu & Hlt)); try congruence; try (simplify_eq; lia).
    all: intros e' [= <-]; by left.
  - split; [split; [done|]|].
    + intros (_ & t' & ks & ttl' & o & u' & [= <- <- <- <-] & Hk & _). congruence.
    + intros e' [= <-]. right. eexists. split; [done|]. cbn. by rewrite Ek.
Qed.
End CertCache.

(** ** Key sets *)

Section KeySets.
Context {K : Type}.
Context (jwk_set_from_slice : list Z -> result (list Jwk) str)
        (string_map_from_slice : list Z -> result (list (str * str)) str)
        (from_rsa_components from_ec_components : str -> str -> result K str)
        (from_ed_components : str -> result K str)
        (decoding_key_from_x509_pem : str -> result K str).
Abbreviation fetch := (fetch jwk_set_from_slice string_map_from_slice from_rsa_components from_ec_components
                         from_ed_components decoding_key_from_x509_pem).
Abbreviation build_key := (build_key from_rsa_components from_ec_components from_ed_components).

Lemma read_chunks_Ok raw chunks body :
  Z.of_nat (length raw) <= MAX_KEY_SET_BYTES -> read_chunks raw chunks = Ok body -> Z.of_nat (length body) <= MAX_KEY_SET_BYTES.
Proof using.
  revert raw. induction chunks as [|[chunk|e] rest IH]; intros raw Hr; cbn [read_chunks]; [by intros [= <-]| |done].
  destruct (Z.ltb_spec MAX_KEY_SET_BYTES (sat_add usize_max (Z.of_nat (length raw)) (Z.of_nat (length chunk)))); [done|].
  apply IH. rewrite length_app. unfold sat_add, usize_max, MAX_KEY_SET_BYTES in *. lia.
Qed.

Lemma jwks_keys set keys kid key :
  fold_left (add_jwk from_rsa_components from_ec_components from_ed_components) set keys !! kid = Some key ->
  keys !! kid = Some key \/ exists jwk, jwk ∈ set /\ jwk_kid jwk = Some kid /\ build_key jwk = Ok key /\
    (jwk_use jwk = None \/ jwk_use jwk = Some (str_of "sig")).
Proof using.
  revert keys. induction set as [|jwk set IH]; intros keys; cbn [fold_left]; [by left|].
  intros [H|(j & Hin & H)]%IH; [|right; exists j; split; [by right|done]].
  unfold add_jwk in H. destruct (match jwk_use jwk with Some u => _ | None => false end) eqn:Eu; [by left|].
  destruct (jwk_kid jwk) as [k|] eqn:Ek; [|by left]. destruct (build_key jwk) as [b|] eqn:Eb; [|by left].
  apply lookup_insert_Some in H as [[<- <-]|[_ H]]; [|by left]. right. exists jwk. split; [by left|]. split_and!; try done.
  destruct (jwk_use jwk) as [u|]; [right|by left]. breflect. by subst u.
Qed.

(** Whatever an endpoint replies, the key set that comes of it is bounded:
    a body above one mebibyte is refused wherever it passes the cap, whether it
    was declared or not; the set is trusted for no less than the operator's
    minimum and, unless that is longer, no more than a day, even where the
    endpoint advertises an overflowing lifetime; it is not empty; and every key
    of a JWKS is a signing key of an entry that carries its identifier. *)
Lemma fetched_sets_are_bounded format min_ttl success status content_length cache_control chunks keys ttl
  (Hok : fetch format min_ttl (Replied success status content_length cache_control chunks) = Ok (keys, ttl)) :
  success = true /\ (forall n, content_length = Some n -> n <= MAX_KEY_SET_BYTES) /\
  min_ttl <= ttl <= Z.max MAX_KEY_TTL min_ttl /\ keys <> ∅ /\
  exists body, read_chunks [] chunks = Ok body /\ Z.of_nat (length body) <= MAX_KEY_SET_BYTES /\
    (format = FormatJwks -> exists set, jwk_set_from_slice body = Ok set /\ forall kid key, keys !! kid = Some key ->
       exists jwk, jwk ∈ set /\ jwk_kid jwk = Some kid /\ build_key jwk = Ok key /\
         (jwk_use jwk = None \/ jwk_use jwk = Some (str_of "sig"))).
Proof using.
  unfold Keys.fetch in Hok. destruct success; [|done]. cbn [negb] in Hok.
  destruct (match content_length with Some n => _ | None => false end) eqn:El; [done|].
  apply rbind_Ok in Hok as (body & Hb & Hok). apply rbind_Ok in Hok as (ks & Hk & Hok).
  destruct (map_to_list ks ==? []) eqn:En; [done|]. injection Hok as <- <-. split_and!; try done.
  - intros n ->. breflect. lia.
  - unfold key_set_ttl. lia.
  - unfold key_set_ttl. lia.
  - breflect. intros E. apply En. by rewrite E, map_to_list_empty.
  - exists body. split; [done|]. split; [eapply read_chunks_Ok; [|exact Hb]; done|]. intros ->. unfold parse_jwks in Hk.
    destruct (jwk_set_from_slice body) as [set|]; [|done]. injection Hk as <-. exists set. split; [done|].
    intros kid key [H|H]%jwks_keys; [by rewrite lookup_empty in H|done].
Qed.
End KeySets.

(** ** Witnesses *)

(** Two lookups of one key against an empty cache: the first leads, the second
    waits, and the first is cancelled. *)
Definition sample_keys_run : World (K:=Z) :=
  let w := start 0 in
  let w := goes 1 "k" PcRefresh w in
  let w := goes 1 "k" PcSlot w in
  let w := goes 1 "k" (PcFetch 0) (w <| wd_slot := Some 0%nat |> <| wd_next := 1%nat |>) in
  let w := goes 2 "k" PcRefresh w in
  let w := goes 2 "k" PcSlot w in
  goes 2 "k" (PcWait 0) w.

Lemma waiters_are_never_stranded_witness :
  wd_tasks sample_keys_run !! 2%nat = Some {| tk_kid := str_of "k"; tk_pc := PcWait 0 |} /\
  (is_Some (wd_sent sample_keys_run !! 0%nat) \/ wd_slot sample_keys_run = Some 0%nat).
Proof.
  assert (rtc (step (K:=Z) (fun c => [c]) 0) (start 0) sample_keys_run) as Hrun.
  { eapply rtc_l; [eexists; apply (step_start _ _ _ 1 "k"); done|].
    eapply rtc_l; [eexists; apply (step_refresh _ _ _ 1 "k"); done|].
    eapply rtc_l; [eexists; apply (step_slot _ _ _ 1 "k"); done|].
    eapply rtc_l; [eexists; apply (step_start _ _ _ 2 "k"); done|].
    eapply rtc_l; [eexists; apply (step_refresh _ _ _ 2 "k"); done|].
    eapply rtc_l; [eexists; apply (step_slot _ _ _ 2 "k"); done|]. apply rtc_refl. }
  assert (wd_tasks sample_keys_run !! 2%nat = Some {| tk_kid := str_of "k"; tk_pc := PcWait 0 |}) as Ht by done.
  split; [exact Ht|]. exact (so_wait _ (waiters_are_never_stranded (fun c => [c]) 0 0 sample_keys_run Hrun) 2 _ 0 Ht).
Defined.

(** One lookup fetches a set that expires after a minute; ten seconds later
    another lookup's refresh fails. *)
Definition fetched_world (now : Z) : World (K:=Z) :=
  let w := goes 1 "k" (PcFetch 0) ((start now : World (K:=Z)) <| wd_slot := Some 0%nat |> <| wd_next := 1%nat |>) in
  goes 1 "k" (fetched 0 (Ok ({[str_of "k" := 5]}, from_secs 60)) w).1 (fetched 0 (Ok ({[str_of "k" := 5]}, from_secs 60)) w).2.
Definition expired_world : World (K:=Z) := fetched_world 0 <| wd_now := from_secs 70 |>.

Lemma expired_keys_fail_closed_witness :
  history (K:=Z) (fun c => [c]) (from_secs 30) 0 [(0, ({[str_of "k" := 5]}, from_secs 60))] expired_world /\
  key_for_finish (fun c => [c]) (from_secs 30) expired_world "k" (Err (Unavailable "down")) = Ok 5.
Proof.
  assert (history (K:=Z) (fun c => [c]) (from_secs 30) 0 [(0, ({[str_of "k" := 5]}, from_secs 60))] expired_world) as H.
  { pose proof (history_start (K:=Z) (fun c => [c]) (from_secs 30) 0) as H.
    eapply (history_step _ _ _ _ _ None) in H; [|apply (step_start _ _ _ 1 "k"); done].
    eapply (history_step _ _ _ _ _ None) in H; [|apply (step_refresh _ _ _ 1 "k"); done].
    eapply (history_step _ _ _ _ _ None) in H; [|apply (step_slot _ _ _ 1 "k"); done].
    eapply (history_step _ _ _ _ _ (Some _)) in H; [|apply (step_fetch _ _ _ 1 "k" 0 (Ok ({[str_of "k" := 5]}, from_secs 60))); done].
    eapply (history_step _ _ _ _ _ None) in H; [|apply (step_tick _ _ _ (from_secs 70)); done]. exact H. }
  split; [exact H|].
  apply (expired_keys_fail_closed (fun c => [c]) (from_secs 30) 0 _ expired_world "k" (Unavailable "down") 5 H).
  - discriminate.
  - split; [discriminate|]. exists 0, {[str_of "k" := 5]}, (from_secs 60), [], (from_secs 90).
    split; [reflexivity|]. split; [vm_compute; reflexivity|]. split; vm_compute; reflexivity.
Defined.

Definition any_set (body : list Z) : result (list Jwk) str :=
  Ok [{| kty := "RSA"; jwk_kid := Some (str_of "k"); jwk_use := None; jwk_n := Some body; jwk_e := Some (str_of "AQAB");
         jwk_x := None; jwk_y := None |}].

Lemma fetched_sets_are_bounded_witness : exists keys ttl,
  fetch any_set (fun _ => Err []) (fun n e => Ok (n, e)) (fun _ _ => Err []) (fun _ => Err []) (fun _ => Err []) FormatJwks
    (from_secs 300) (Replied true [] None (Some (str_of "public, max-age=18446744073709551615")) [Ok [1; 2]; Ok [3]]) = Ok (keys, ttl) /\
  ttl = MAX_KEY_TTL /\ from_secs 300 <= ttl <= Z.max MAX_KEY_TTL (from_secs 300).
Proof.
  destruct (fetch any_set (fun _ => Err []) (fun n e => Ok (n, e)) (fun _ _ => Err []) (fun _ => Err []) (fun _ => Err [])
    FormatJwks (from_secs 300) (Replied true [] None (Some (str_of "public, max-age=18446744073709551615")) [Ok [1; 2]; Ok [3]]))
    as [[keys ttl]|e] eqn:E; [|vm_compute in E; discriminate E].
  destruct (fetched_sets_are_bounded _ _ _ _ _ _ _ _ _ _ _ _ _ _ _ E) as (_ & _ & Hb & _).
  exists keys, ttl. split; [done|]. split; [|exact Hb]. vm_compute in E. injection E as _ <-. by vm_compute.
Defined.
