(* ===== verification/Jwt.v ===== *)
(** * Token verification (auth/jwt.rs, auth/firebase.rs)

    The two verifiers and the router that picks one by a token's issuer.  A
    verification asks a key cache for a signing key and reads the clock; decoding
    a token, which checks its signature and registered claims, is the crate
    [jsonwebtoken]'s, a parameter with the guarantees its documentation gives. *)

From S2P Require Export Keys Resolve.

(** ** What [jsonwebtoken] takes and gives *)

Record JwtHeader := { hd_alg : str; hd_kid : option str }.

(** The settings of a [Validation] the verifiers make. *)
Record Validation := {
  va_algorithms : list str;
  va_issuers : list str;
  va_audience : list str;
  va_required : gset str;
  va_leeway : Z;
  va_exp : bool;
  va_nbf : bool;
}.

Class Jwt (N K : Type) := {
  decode_header : str -> result JwtHeader str;
  (** [decode] at the clock it reads. *)
  jwt_decode : str -> K -> Validation -> Z -> result (list (str * value N)) str;
  (** [base64]'s URL-safe alphabet, and [serde_json::from_slice]. *)
  b64url_decode : str -> option (list Z);
  json_from_slice : list Z -> option (value N);
}.

(** A claim that is a string, or a list, names an issuer or an audience. *)
Definition claim_names {N} (claims : list (str * value N)) (name : str) (who : str) : Prop :=
  match map_get name claims with
  | Some (VString s) => s = who
  | Some (Array l) => VString who ∈ l
  | _ => False
  end.

(** What a decoded token is known to satisfy. *)
Class JwtLaws (N K : Type) `{JsonNumber N, Jwt N K} := {
  (** The last part of a token is the signature of what precedes it. *)
  signed : str -> K -> str -> Prop;
  decoded_header token key v now claims : jwt_decode token key v now = Ok claims ->
    exists h, decode_header token = Ok h /\ hd_alg h ∈ va_algorithms v /\ signed token key (hd_alg h);
  decoded_payload token key v now claims : jwt_decode token key v now = Ok claims ->
    exists payload bytes, split_on b_dot token !! 1%nat = Some payload /\
      b64url_decode payload = Some bytes /\ json_from_slice bytes = Some (Object claims);
  decoded_audience token key v now claims : jwt_decode token key v now = Ok claims ->
    str_of "aud" ∈ va_required v -> exists a, a ∈ va_audience v /\ claim_names claims "aud" a;
  decoded_exp token key v now claims n e : jwt_decode token key v now = Ok claims -> va_exp v = true ->
    map_get "exp" claims = Some (Number n) -> num_as_u64 n = Some e -> now <= e + va_leeway v;
}.

(** ** Verifiers *)

(** A verifier's key cache, by what it was made from. *)
Record CertCache := { cc_url : str; cc_min_ttl : Z; cc_format : KeyFormat; cc_stale_if_error : Z }.

(** [CertCache::key_for] and the seconds since the epoch. *)
Inductive verifyE (K : Type) : Type -> Type :=
| KeyFor (cache : CertCache) (kid : str) : verifyE K (result K AuthError)
| NowSecs : verifyE K Z.
Arguments KeyFor {K} _ _.
Arguments NowSecs {K}.

Record JwtVerifier := {
  jv_issuer : str;
  jv_audiences : list str;
  jv_algorithms : list str;
  jv_required_claims : list str;
  jv_clock_skew : Z;
  jv_keys : CertCache;
}.

Definition jwt_verifier (j : JwtConfig) (algorithms : list str) : JwtVerifier :=
  {| jv_issuer := jwt_issuer j; jv_audiences := jwt_audience j; jv_algorithms := algorithms;
     jv_required_claims := jwt_required_claims j; jv_clock_skew := jwt_clock_skew j;
     jv_keys := {| cc_url := resolved_jwks_url j; cc_min_ttl := jwt_min_key_ttl j; cc_format := FormatJwks;
                   cc_stale_if_error := jwt_stale_if_error j |} |}.

Record FirebaseVerifier := { fv_project_ids : gset str; fv_certs : CertCache; fv_clock_skew : Z }.

Definition firebase_verifier (fb : FirebaseConfig) (projects : list str) : FirebaseVerifier :=
  {| fv_project_ids := list_to_set projects;
     fv_certs := {| cc_url := fb_certs_url fb; cc_min_ttl := fb_min_cert_ttl fb; cc_format := FormatX509Pem;
                    cc_stale_if_error := fb_stale_if_error fb |};
     fv_clock_skew := fb_clock_skew fb |}.

Definition ISS_PREFIX : str := "https://securetoken.google.com/".

Definition firebase_issuers (v : FirebaseVerifier) : list str :=
  map (fun p => ISS_PREFIX ++ p) (elements (fv_project_ids v)).

Definition project_id_from_issuer (iss : str) : option str :=
  letO p := strip_prefix ISS_PREFIX iss in if p ==? [] then None else Some p.

(** The [Debug] form of an algorithm, kept here by its upper-case spelling. *)
Definition alg_debug (alg : str) : str := if alg ==? "EDDSA" then "EdDSA" else alg.

Definition spec_claims : gset str := list_to_set [str_of "exp"; str_of "iat"; str_of "aud"; str_of "iss"; str_of "sub"].

Section Verify.
Context {N K : Type} `{JsonNumber N, Jwt N K}.
Context (escape_debug : Z -> str).

Abbreviation vprog := (prog (verifyE K)).
Abbreviation outcome := (result (Identity N) AuthError).

(** The chain of checks: the rest of the verification where one passes. *)
Definition checked {A} (m : result A AuthError) (k : A -> vprog outcome) : vprog outcome :=
  match m with Ok a => k a | Err e => Ret (Err e) end.

Definition header_of (token : str) : result JwtHeader AuthError :=
  map_err (fun e => Invalid ("unreadable JWT header: " ++ e)) (decode_header token).
Definition kid_of (h : JwtHeader) : result str AuthError := ok_or (hd_kid h) (Invalid "JWT header has no `kid`").
Definition algorithm_in (allowed : list str) (h : JwtHeader) : result () AuthError :=
  if existsb (fun a => a ==? hd_alg h) allowed then Ok tt
  else Err (Invalid ("unexpected algorithm " ++ alg_debug (hd_alg h))).

(** The [sub] claim, where it is a string that is not empty. *)
Definition subject_of (claims : list (str * value N)) : result str AuthError :=
  ok_or (letO v := map_get "sub" claims in letO s := as_value_str v in if s ==? [] then None else Some s)
        (Invalid "`sub` claim is empty").

(** A timestamp claim, no later than the clock and the skew. *)
Definition timestamp_ok (claims : list (str * value N)) (now skew : Z) (name : str) : result () AuthError :=
  let? timestamp := ok_or (letO v := map_get name claims in as_u64 v)
                          (Invalid ("`" ++ name ++ "` must be an unsigned timestamp")) in
  if sat_add u64_max now (as_secs skew) <? timestamp then Err (Invalid ("`" ++ name ++ "` is in the future")) else Ok tt.

Definition jwt_required (v : JwtVerifier) (claims : list (str * value N)) : result () AuthError :=
  for_each (fun name => match map_get name claims with
                        | Some _ => Ok tt
                        | None => Err (Invalid ("missing claim `" ++ name ++ "`"))
                        end) (jv_required_claims v).

Definition first_audience (claims : list (str * value N)) : str :=
  default [] (letO a := map_get "aud" claims in
              match a with
              | VString s => Some s
              | Array items => letO i := head items in as_value_str i
              | _ => None
              end).

Definition jwt_validation (v : JwtVerifier) : Validation :=
  {| va_algorithms := jv_algorithms v; va_issuers := [jv_issuer v]; va_audience := jv_audiences v;
     va_required := spec_claims ∪ list_to_set (jv_required_claims v);
     va_leeway := as_secs (jv_clock_skew v); va_exp := true; va_nbf := true |}.

(** [JwtVerifier::verify]. *)
Definition jwt_verify (v : JwtVerifier) (token : str) : vprog outcome :=
  checked (unverified_issuer b64url_decode json_from_slice token) (fun iss =>
  if negb (iss ==? jv_issuer v) then Ret (Err (UnknownIssuer iss)) else
  checked (header_of token) (fun header =>
  checked (algorithm_in (jv_algorithms v) header) (fun _ =>
  checked (kid_of header) (fun kid =>
  letP key := ask (KeyFor (jv_keys v) kid) in
  checked key (fun key =>
  if jv_audiences v ==? [] then Ret (Err (Invalid "no audience configured for this issuer")) else
  letP clock := ask NowSecs in
  checked (map_err Invalid (jwt_decode token key (jwt_validation v) clock)) (fun claims =>
  letP now := ask NowSecs in
  checked (timestamp_ok claims now (jv_clock_skew v) "iat") (fun _ =>
  checked (jwt_required v claims) (fun _ =>
  checked (subject_of claims) (fun subject =>
  Ret (Ok {| subject := subject; issuer := iss; audience := first_audience claims; claims := claims |})))))))))).

Definition firebase_validation (project_id : str) (skew : Z) : Validation :=
  {| va_algorithms := [str_of "RS256"]; va_issuers := [ISS_PREFIX ++ project_id]; va_audience := [project_id];
     va_required := spec_claims; va_leeway := as_secs skew; va_exp := true; va_nbf := false |}.

Definition validate_timestamps (claims : list (str * value N)) (now skew : Z) : result () AuthError :=
  for_each (timestamp_ok claims now skew) [str_of "iat"; str_of "auth_time"].

(** [FirebaseVerifier::verify]. *)
Definition firebase_verify (v : FirebaseVerifier) (token : str) : vprog outcome :=
  checked (unverified_issuer b64url_decode json_from_slice token) (fun iss =>
  checked (ok_or (project_id_from_issuer iss)
                 (Invalid ("issuer `" ++ untrusted escape_debug iss ++ "` is not a Firebase issuer"))) (fun project_id =>
  if negb (bool_decide (project_id ∈ fv_project_ids v)) then Ret (Err (UnknownIssuer project_id)) else
  checked (header_of token) (fun header =>
  checked (algorithm_in [str_of "RS256"] header) (fun _ =>
  checked (kid_of header) (fun kid =>
  letP key := ask (KeyFor (fv_certs v) kid) in
  checked key (fun key =>
  letP clock := ask NowSecs in
  checked (map_err Invalid (jwt_decode token key (firebase_validation project_id (fv_clock_skew v)) clock)) (fun claims =>
  checked (subject_of claims) (fun subject =>
  letP now := ask NowSecs in
  checked (validate_timestamps claims now (fv_clock_skew v)) (fun _ =>
  Ret (Ok {| subject := subject; issuer := iss; audience := project_id; claims := claims |})))))))))).

(** ** The router *)

Inductive Verifier := VFirebase (v : FirebaseVerifier) | VJwt (v : JwtVerifier).

Definition verify_with (v : Verifier) (token : str) : vprog outcome :=
  match v with VFirebase v => firebase_verify v token | VJwt v => jwt_verify v token end.

(** [IssuerRouter]: its map, and [register] of a verifier for its issuers. *)
Fixpoint register (issuers : list str) (v : Verifier) (by_issuer : gmap str Verifier) : result (gmap str Verifier) str :=
  match issuers with
  | [] => Ok by_issuer
  | iss :: rest =>
      match by_issuer !! iss with
      | Some _ => Err ("two providers both claim issuer `" ++ iss ++ "`")
      | None => register rest v (<[iss := v]> by_issuer)
      end
  end.

Definition router_verify (by_issuer : gmap str Verifier) (token : str) : vprog outcome :=
  checked (unverified_issuer b64url_decode json_from_slice token) (fun iss =>
  checked (ok_or (by_issuer !! iss) (UnknownIssuer iss)) (fun v => verify_with v token)).
End Verify.

(** The router a document asks for: Firebase's projects first, then every
    issuer of [auth.jwt]. *)
Fixpoint register_jwts (l : list JwtConfig) (by_issuer : gmap str Verifier) : result (gmap str Verifier) str :=
  match l with
  | [] => Ok by_issuer
  | j :: rest =>
      let? by_issuer := map_err (fun e => "auth.jwt: " ++ e)
        (register [jwt_issuer j] (VJwt (jwt_verifier j (omap parse_algorithm (jwt_algorithms j)))) by_issuer) in
      register_jwts rest by_issuer
  end.

Definition build_router {N} `{Crates N} (c : ResolvedConfig N) : result (gmap str Verifier) str :=
  let? by_issuer := match au_firebase (gc_auth (raw c)) with
                    | None => Ok ∅
                    | Some fb =>
                        let v := firebase_verifier fb (firebase_project_ids c) in
                        map_err (fun e => "auth.firebase: " ++ e) (register (firebase_issuers v) (VFirebase v) ∅)
                    end in
  register_jwts (au_jwt (gc_auth (raw c))) by_issuer.

(** ** Traces of verifications *)

Section Traces.
Context {N K : Type}.
Abbreviation vprog := (prog (verifyE K)).
Abbreviation outcome := (result (Identity N) AuthError).

Lemma checked_Ok {A} (m : result A AuthError) (k : A -> vprog outcome) tr id :
  traces (checked m k) tr (Ok id) -> exists a, m = Ok a /\ traces (k a) tr (Ok id).
Proof using. destruct m as [a|e]; [intros H; by exists a|]. by intros [_ [=]]. Qed.

Lemma checked_asks {A} (m : result A AuthError) (k : A -> vprog outcome) tr o ev :
  traces (checked m k) tr o -> ev ∈ tr -> exists a, m = Ok a /\ traces (k a) tr o.
Proof using. destruct m as [a|e]; [intros H _; by exists a|]. by intros [-> _] ?%elem_of_nil. Qed.

Lemma ask_traces {X} (e : verifyE K X) (k : X -> vprog outcome) tr o :
  traces (pbind (ask e) k) tr o <-> exists x tr', tr = Event e x :: tr' /\ traces (k x) tr' o.
Proof using. done. Qed.

Lemma header_of_Ok `{Jwt N K} token h : header_of (N:=N) (K:=K) token = Ok h <-> decode_header token = Ok h.
Proof using. apply map_err_Ok. Qed.

Lemma kid_of_Ok h kid : kid_of h = Ok kid <-> hd_kid h = Some kid.
Proof using. unfold kid_of. destruct (hd_kid h); cbn; split; congruence. Qed.

Lemma algorithm_in_Ok allowed h u : algorithm_in allowed h = Ok u <-> hd_alg h ∈ allowed.
Proof using.
  unfold algorithm_in. destruct (existsb _ _) eqn:E; destruct u.
  - apply existsb_In in E as (a & Ha & ->%bool_decide_eq_true). done.
  - split; [done|]. intros Hin. assert (existsb (fun a => a ==? hd_alg h) allowed = true) as E'; [|congruence].
    apply existsb_In. exists (hd_alg h). by rewrite bool_decide_eq_true.
Qed.

Lemma subject_of_Ok (claims : list (str * value N)) s :
  subject_of claims = Ok s -> map_get "sub" claims = Some (VString s) /\ s <> [].
Proof using.
  unfold subject_of. destruct (map_get _ _) as [[]|]; cbn; try done.
  destruct (s0 ==? []) eqn:E; [done|]. intros [= <-]. by breflect.
Qed.

Lemma timestamp_Ok `{JsonNumber N} (claims : list (str * value N)) now skew name u :
  timestamp_ok claims now skew name = Ok u ->
  exists n t, map_get name claims = Some (Number n) /\ num_as_u64 n = Some t /\ t <= now + as_secs skew.
Proof using.
  unfold timestamp_ok. intros H1. apply rbind_Ok in H1 as (t & Ht & H1).
  destruct (map_get _ _) as [[]|]; cbn in Ht; try done. destruct (num_as_u64 n) as [t'|] eqn:En; [|done].
  injection Ht as ->. exists n, t. split_and!; [done..|]. unfold sat_add in H1.
  destruct (Z.ltb_spec (Z.min u64_max (now + as_secs skew)) t); [done|lia].
Qed.

Lemma required_Ok (v : JwtVerifier) (claims : list (str * value N)) u :
  jwt_required v claims = Ok u -> forall c, c ∈ jv_required_claims v -> is_Some (map_get c claims).
Proof using.
  unfold jwt_required. intros H c Hc. apply (proj1 (for_each_Ok _ _ _)) with (a := c) in H; [|done].
  cbn in H. by destruct (map_get c claims).
Qed.
End Traces.

Section Accepted.
Context {N K : Type} `{HL : JwtLaws N K}.
Context (escape_debug : Z -> str).
Abbreviation vprog := (prog (verifyE K)).
Abbreviation outcome := (result (Identity N) AuthError).

(** What decoding a token tells, with the issuer read from it unverified. *)
Lemma decoded_issuer token key v now claims iss :
  jwt_decode token key v now = Ok claims -> unverified_issuer b64url_decode json_from_slice token = Ok iss ->
  map_get "iss" claims = Some (VString iss).
Proof using HL.
  intros (payload & bytes & Hp & Hb & Hj)%decoded_payload Hi. unfold unverified_issuer in Hi.
  rewrite Hp in Hi. cbn [rbind ok_or] in Hi. rewrite Hb in Hi. cbn [rbind ok_or] in Hi. rewrite Hj in Hi.
  cbn [rbind ok_or as_object mbind option_bind] in Hi.
  destruct (map_get "iss" claims) as [[]|]; cbn in Hi; try done. by injection Hi as ->.
Qed.

(** A token vouched for: signed under an allowed algorithm by a key the
    verifier's own cache gave for its identifier, for an audience of the
    verifier's, neither expired nor issued in the future, and the identity is
    what its claims say. *)
Record vouched (cache : CertCache) (algorithms audiences : list str) (skew : Z) (iss token : str) (id : Identity N)
    (tr : list (event (verifyE K))) : Prop := {
  vo_asked : exists h kid key t1 t2, tr = [Event (KeyFor cache kid) (Ok key); Event NowSecs t1; Event NowSecs t2] /\
    decode_header token = Ok h /\ hd_kid h = Some kid /\ hd_alg h ∈ algorithms /\ signed token key (hd_alg h) /\
    (exists n t, map_get "iat" (claims id) = Some (Number n) /\ num_as_u64 n = Some t /\ t <= t2 + as_secs skew) /\
    (forall n e, map_get "exp" (claims id) = Some (Number n) -> num_as_u64 n = Some e -> t1 <= e + as_secs skew);
  vo_issuer : issuer id = iss /\ map_get "iss" (claims id) = Some (VString iss);
  vo_audience : exists a, a ∈ audiences /\ claim_names (claims id) "aud" a;
  vo_subject : map_get "sub" (claims id) = Some (VString (subject id)) /\ subject id <> [];
}.

(** [quiet m]: whatever the answers, [m] asks for no key. *)
Definition quiet (m : vprog outcome) : Prop :=
  forall tr o cache kid r, traces m tr o -> Event (KeyFor cache kid) r ∉ tr.

Lemma quiet_ret o : quiet (Ret o).
Proof using. intros tr o' cache kid r [-> _] ?%elem_of_nil. done. Qed.

Lemma quiet_checked {A} (m : result A AuthError) k : (forall a, quiet (k a)) -> quiet (checked m k).
Proof using. intros H1. destruct m; [apply H1|apply quiet_ret]. Qed.

Lemma quiet_now k : (forall t, quiet (k t)) -> quiet (pbind (ask NowSecs) k).
Proof using.
  intros H1 tr o cache kid r Ht Hin. cbn in Ht. destruct Ht as (t & tr' & -> & Ht).
  apply elem_of_cons in Hin as [E|Hin]; [by inversion E|]. exact (H1 _ _ _ _ _ _ Ht Hin).
Qed.

Ltac step_quiet :=
  repeat first [progress intros | apply quiet_ret | apply quiet_checked | apply quiet_now | case_match].

(** A key that was asked for was asked for first. *)
Lemma key_asked_first cache kid k tr o cache' kid' r :
  traces (pbind (ask (KeyFor cache kid)) k) tr o -> Event (KeyFor cache' kid') r ∈ tr ->
  (forall x, quiet (k x)) -> cache' = cache /\ kid' = kid.
Proof using.
  intros Ht Hin Hk. cbn [pbind ask traces] in Ht. destruct Ht as (x & tr' & -> & Ht).
  apply elem_of_cons in Hin as [E|Hin]; [by inversion E|]. by destruct (Hk _ _ _ _ _ _ Ht Hin).
Qed.

(** Take a trace that ends well through the chain of checks. *)
Ltac verify_inv H :=
  repeat lazymatch type of H with
  | traces (checked _ _) _ (Ok _) =>
      let a := fresh "a" in let E := fresh "E" in apply checked_Ok in H as (a & E & H)
  | traces (pbind (ask _) _) _ _ =>
      let x := fresh "x" in let tr := fresh "tr" in apply ask_traces in H as (x & tr & -> & H); cbn [pbind] in H
  | traces (if ?b then _ else _) _ (Ok _) => let E := fresh "E" in destruct b eqn:E; [by destruct H as [_ [=]]|]
  end.

Lemma jwt_vouched (v : JwtVerifier) token tr id :
  traces (jwt_verify v token) tr (Ok id) ->
  vouched (jv_keys v) (jv_algorithms v) (jv_audiences v) (jv_clock_skew v) (jv_issuer v) token id tr /\
  forall c, c ∈ jv_required_claims v -> is_Some (map_get c (claims id)).
Proof using HL.
  intros Ht. unfold jwt_verify in Ht. verify_inv Ht. destruct Ht as [-> [= ->]].
  apply negb_false_iff, bool_decide_eq_true in E0. subst a. apply header_of_Ok in E1. apply algorithm_in_Ok in E2.
  apply kid_of_Ok in E3. apply map_err_Ok in E6. subst x.
  destruct (decoded_header _ _ _ _ _ E6) as (h & Hh & _ & Hsig). rewrite E1 in Hh. injection Hh as <-.
  split; [split; cbn|].
  - exists a0, a2, a3, x0, x1. split_and!; try done; [by eapply timestamp_Ok|].
    intros n e Hn He. exact (decoded_exp token a3 (jwt_validation v) x0 a4 n e E6 eq_refl Hn He).
  - split; [done|]. by eapply decoded_issuer.
  - apply (decoded_audience _ _ _ _ _ E6). cbn [jwt_validation va_required]. apply elem_of_union_l. by vm_compute.
  - by apply subject_of_Ok.
  - cbn. by eapply required_Ok.
Qed.

(** Take a trace in which a key is asked for through the checks before. *)
Ltac asks_inv H Hin :=
  repeat lazymatch type of H with
  | traces (checked _ _) _ _ =>
      let a := fresh "a" in let E := fresh "E" in let H' := fresh in
      destruct (checked_asks _ _ _ _ _ H Hin) as (a & E & H'); clear H; rename H' into H
  | traces (if ?b then _ else _) _ _ =>
      let E := fresh "E" in destruct b eqn:E; [destruct H as [-> _]; by apply elem_of_nil in Hin|]
  end.

Lemma jwt_asks (v : JwtVerifier) token tr o cache kid r :
  traces (jwt_verify v token) tr o -> Event (KeyFor cache kid) r ∈ tr ->
  exists h, decode_header token = Ok h /\ hd_kid h = Some kid /\ cache = jv_keys v /\ hd_alg h ∈ jv_algorithms v.
Proof using.
  intros Ht Hin. unfold jwt_verify in Ht. asks_inv Ht Hin.
  apply header_of_Ok in E1. apply algorithm_in_Ok in E2. apply kid_of_Ok in E3.
  destruct (key_asked_first _ _ _ _ _ _ _ _ Ht Hin) as [-> ->]; [by step_quiet|by exists a0].
Qed.

Lemma firebase_asks (v : FirebaseVerifier) token tr o cache kid r :
  traces (firebase_verify escape_debug v token) tr o -> Event (KeyFor cache kid) r ∈ tr ->
  exists h, decode_header token = Ok h /\ hd_kid h = Some kid /\ cache = fv_certs v /\ hd_alg h = "RS256".
Proof using.
  intros Ht Hin. unfold firebase_verify in Ht. asks_inv Ht Hin.
  apply header_of_Ok in E2. apply algorithm_in_Ok in E3. apply kid_of_Ok in E4. apply list_elem_of_singleton in E3.
  destruct (key_asked_first _ _ _ _ _ _ _ _ Ht Hin) as [-> ->]; [by step_quiet|by exists a1].
Qed.

Lemma project_of iss p : project_id_from_issuer iss = Some p <-> iss = ISS_PREFIX ++ p /\ p <> [].
Proof using.
  unfold project_id_from_issuer. split.
  - destruct (strip_prefix ISS_PREFIX iss) as [q|] eqn:E; [|done]. cbn. destruct (q ==? []) eqn:En; [done|].
    intros [= <-]. apply strip_prefix_Some in E. breflect. done.
  - intros [-> Hp]. rewrite (proj2 (strip_prefix_Some ISS_PREFIX _ p) eq_refl). cbn. destruct (p ==? []) eqn:En; [|done]. by breflect.
Qed.

Lemma firebase_vouched (v : FirebaseVerifier) token tr id :
  traces (firebase_verify escape_debug v token) tr (Ok id) ->
  exists project, project ∈ fv_project_ids v /\ audience id = project /\
    vouched (fv_certs v) [str_of "RS256"] [project] (fv_clock_skew v) (ISS_PREFIX ++ project) token id tr /\
    exists n t t2, map_get "auth_time" (claims id) = Some (Number n) /\ num_as_u64 n = Some t /\
      Event NowSecs t2 ∈ tr /\ t <= t2 + as_secs (fv_clock_skew v).
Proof using HL.
  intros Ht. unfold firebase_verify in Ht. verify_inv Ht. destruct Ht as [-> [= ->]].
  apply negb_false_iff, bool_decide_eq_true in E1. apply header_of_Ok in E2. apply algorithm_in_Ok in E3.
  apply kid_of_Ok in E4. apply map_err_Ok in E6. subst x. rename a0 into project.
  assert (project_id_from_issuer a = Some project) as Hp by by destruct (project_id_from_issuer a); [injection E0 as ->|].
  apply project_of in Hp as [-> _].
  destruct (decoded_header _ _ _ _ _ E6) as (h & Hh & _ & Hsig). rewrite E2 in Hh. injection Hh as <-.
  unfold validate_timestamps in E8. pose proof (proj1 (for_each_Ok _ _ _) E8) as Hts.
  exists project. split_and!; [done..| |].
  - split; cbn.
    + exists a1, a3, a4, x0, x1. split_and!; try done.
      * eapply timestamp_Ok, Hts. by left.
      * intros n e Hn He. exact (decoded_exp token a4 (firebase_validation project (fv_clock_skew v)) x0 a5 n e E6 eq_refl Hn He).
    + split; [done|]. by eapply decoded_issuer.
    + apply (decoded_audience _ _ _ _ _ E6). cbn [firebase_validation va_required]. by vm_compute.
    + by apply subject_of_Ok.
  - destruct (timestamp_Ok a5 x1 (fv_clock_skew v) (str_of "auth_time") tt) as (n & t & Hn & Ht' & Hle).
    { apply Hts. right. by left. }
    exists n, t, x1. split_and!; [done..|right; right; by left|done].
Qed.
End Accepted.

(** ** The router *)

Definition jwt_provider (j : JwtConfig) : Verifier := VJwt (jwt_verifier j (omap parse_algorithm (jwt_algorithms j))).

Lemma register_Ok issuers v m m' :
  register issuers v m = Ok m' ->
  NoDup issuers /\ (forall iss, iss ∈ issuers -> m !! iss = None) /\
  forall iss u, m' !! iss = Some u <-> (iss ∈ issuers /\ u = v) \/ m !! iss = Some u.
Proof.
  revert m. induction issuers as [|i issuers IH]; intros m; cbn [register].
  { intros [= ->]. split_and!; [constructor|by intros ? ?%elem_of_nil|]. intros iss u. rewrite elem_of_nil. naive_solver. }
  destruct (m !! i) eqn:Ei; [done|]. intros (Hd & Hf & Hm)%IH.
  assert (i ∉ issuers) as Hi by (intros Hin; apply Hf in Hin; by rewrite lookup_insert_eq in Hin).
  split_and!.
  - by constructor.
  - intros iss [->|Hin]%elem_of_cons; [done|]. specialize (Hf _ Hin). by apply lookup_insert_None in Hf as [? _].
  - intros iss u. rewrite Hm, elem_of_cons, lookup_insert_Some. split; [naive_solver|].
    intros [[[->|?] ->]|Hu]; [by right; left|by left|]. right. right. split; [congruence|done].
Qed.

Lemma register_jwts_Ok l m m' :
  register_jwts l m = Ok m' ->
  NoDup (map jwt_issuer l) /\
  forall iss u, m' !! iss = Some u <-> (exists j, j ∈ l /\ iss = jwt_issuer j /\ u = jwt_provider j) \/ m !! iss = Some u.
Proof.
  enough (register_jwts l m = Ok m' ->
    NoDup (map jwt_issuer l) /\ (forall j, j ∈ l -> m !! jwt_issuer j = None) /\
    forall iss u, m' !! iss = Some u <-> (exists j, j ∈ l /\ iss = jwt_issuer j /\ u = jwt_provider j) \/ m !! iss = Some u)
    by tauto.
  revert m. induction l as [|j l IH]; intros m; cbn [register_jwts].
  { intros [= ->]. split_and!; [constructor|by intros ? ?%elem_of_nil|]. intros iss u.
    split; [by right|]. intros [(j & ?%elem_of_nil & _)|?]; done. }
  intros (m1 & (_ & Hn & Hm1)%map_err_Ok%register_Ok & H)%rbind_Ok. apply IH in H as (Hd & Hf & Hm).
  assert (m1 !! jwt_issuer j = Some (jwt_provider j)) as Hj by (apply Hm1; left; split; [by left|done]).
  assert (m !! jwt_issuer j = None) as Hnj by (apply Hn; by left).
  split_and!.
  - cbn. constructor; [|done]. intros (j' & E & Hin)%list_elem_of_fmap. specialize (Hf _ Hin). congruence.
  - intros j' [->|Hin]%elem_of_cons; [done|]. destruct (m !! jwt_issuer j') as [u|] eqn:Eu; [|done].
    specialize (Hf _ Hin). rewrite (proj2 (Hm1 _ u)) in Hf; [done|by right].
  - intros iss u. rewrite Hm, Hm1. split.
    + intros [(j' & Hin & Hu)|[[->%list_elem_of_singleton ->]|Hu]]; [left; exists j'; by split; [right|]|left; exists j|by right].
      split_and!; [by left|done..].
    + intros [(j' & [->|Hin]%elem_of_cons & -> & ->)|Hu]; [|by left; exists j'|by right; right].
      right. left. split; [by left|done].
Qed.

Lemma build_router_Ok {N} `{Crates N} (c : ResolvedConfig N) m :
  build_router c = Ok m ->
  NoDup (map jwt_issuer (au_jwt (gc_auth (raw c)))) /\
  forall iss u, m !! iss = Some u <->
    (exists j, j ∈ au_jwt (gc_auth (raw c)) /\ iss = jwt_issuer j /\ u = jwt_provider j) \/
    (exists fb project, au_firebase (gc_auth (raw c)) = Some fb /\ project ∈ firebase_project_ids c /\
       iss = ISS_PREFIX ++ project /\ u = VFirebase (firebase_verifier fb (firebase_project_ids c))).
Proof.
  unfold build_router. intros (m0 & H0 & (Hd & Hm)%register_jwts_Ok)%rbind_Ok. split; [done|].
  intros iss u. rewrite Hm. apply or_iff_compat_l.
  destruct (au_firebase (gc_auth (raw c))) as [fb|]; [|injection H0 as <-; rewrite lookup_empty; naive_solver].
  apply map_err_Ok, register_Ok in H0 as (_ & _ & H0). rewrite H0, lookup_empty. unfold firebase_issuers.
  cbn [firebase_verifier fv_project_ids]. split.
  - intros [[(p & -> & Hp%elem_of_elements)%list_elem_of_fmap ->]|?]; [|done]. exists fb, p. by apply elem_of_list_to_set in Hp.
  - intros (fb' & p & [= <-] & Hp & -> & ->). left. split; [|done]. apply list_elem_of_fmap. exists p. split; [done|].
    by apply elem_of_elements, elem_of_list_to_set.
Qed.

(** ** Theorems *)

Section Theorems.
Context {N K : Type} `{HC : Crates N} `{HL : JwtLaws N K}.

(** C3: an accepted token was vouched for by a provider of the document: for
    whatever the caches and the clock answer, a token the configured router
    accepts names an issuer of [auth.jwt], or of one of Firebase's projects; it
    carries a signature that a key of that provider's own cache, asked for under
    the token's key identifier, verifies under an algorithm the operator listed;
    it is meant for an audience of that provider's; it is neither expired nor
    from the future by the configured skew; and the subject, never empty, and
    the issuer of the identity are those claims of the token. *)
Theorem accepted_tokens_are_vouched_for (c : ResolvedConfig N) by_issuer token tr id
  (Hrouter : build_router c = Ok by_issuer)
  (Hrun : traces (router_verify (K:=K) escape_debug by_issuer token) tr (Ok id)) :
  (exists j, j ∈ au_jwt (gc_auth (raw c)) /\ let v := jwt_verifier j (omap parse_algorithm (jwt_algorithms j)) in
     vouched (jv_keys v) (jv_algorithms v) (jwt_audience j) (jwt_clock_skew j) (jwt_issuer j) token id tr /\
     forall name, name ∈ jwt_required_claims j -> is_Some (map_get name (claims id))) \/
  (exists fb project, au_firebase (gc_auth (raw c)) = Some fb /\ project ∈ firebase_project_ids c /\ audience id = project /\
     vouched (fv_certs (firebase_verifier fb (firebase_project_ids c))) [str_of "RS256"] [project] (fb_clock_skew fb)
       (ISS_PREFIX ++ project) token id tr /\
     exists n t t2, map_get "auth_time" (claims id) = Some (Number n) /\ num_as_u64 n = Some t /\
       Event NowSecs t2 ∈ tr /\ t <= t2 + as_secs (fb_clock_skew fb)).
Proof using HL.
  unfold router_verify in Hrun. apply checked_Ok in Hrun as (iss & Hiss & Hrun).
  apply checked_Ok in Hrun as (v & Hv & Hrun). destruct (by_issuer !! iss) as [v'|] eqn:Em; [|done]. injection Hv as ->.
  apply build_router_Ok in Hrouter as [_ Hm].
  apply Hm in Em as [(j & Hj & -> & ->)|(fb & p & Hfb & Hp & -> & ->)]; cbn [verify_with jwt_provider] in Hrun.
  - left. exists j. split; [done|]. by apply jwt_vouched in Hrun.
  - right. apply firebase_vouched in Hrun as (p' & Hp' & Ha & Hvo & Ht).
    exists fb, p'. split_and!; [done| |done..]. by apply elem_of_list_to_set in Hp'.
Qed.

(** The header of a token, which whoever made it chose, selects nothing
    before it was held against the document: whatever a verification answers, a
    key is asked for only when the issuer the token names has a provider, from
    that provider's own cache, under the token's own key identifier, and for an
    algorithm that provider is configured for; and a token naming any other
    issuer is refused as unknown with nothing asked at all. *)
Lemma keys_are_asked_only_as_configured (c : ResolvedConfig N) by_issuer token tr o cache kid r
  (Hrouter : build_router c = Ok by_issuer)
  (Hrun : traces (router_verify (K:=K) escape_debug by_issuer token) tr o)
  (Hasked : Event (KeyFor cache kid) r ∈ tr) :
  exists iss h, unverified_issuer b64url_decode json_from_slice token = Ok iss /\
    decode_header token = Ok h /\ hd_kid h = Some kid /\
    ((exists j, j ∈ au_jwt (gc_auth (raw c)) /\ jwt_issuer j = iss /\ cache = jv_keys (jwt_verifier j []) /\
        exists name, name ∈ jwt_algorithms j /\ parse_algorithm name = Some (hd_alg h)) \/
     (exists fb project, au_firebase (gc_auth (raw c)) = Some fb /\ project ∈ firebase_project_ids c /\
        iss = ISS_PREFIX ++ project /\ cache = fv_certs (firebase_verifier fb []) /\ hd_alg h = "RS256")).
Proof using HL.
  unfold router_verify in Hrun.
  destruct (checked_asks _ _ _ _ _ Hrun Hasked) as (iss & Hiss & H1).
  destruct (checked_asks _ _ _ _ _ H1 Hasked) as (v & Hv & H2).
  destruct (by_issuer !! iss) as [v'|] eqn:Em; [|done]. injection Hv as ->.
  apply build_router_Ok in Hrouter as [_ Hm].
  apply Hm in Em as [(j & Hj & -> & ->)|(fb & p & Hfb & Hp & -> & ->)]; cbn [verify_with jwt_provider] in H2.
  - destruct (jwt_asks _ _ _ _ _ _ _ H2 Hasked) as (h & Hh & Hk & -> & Ha). exists (jwt_issuer j), h. split_and!; [done..|].
    left. exists j. split_and!; [done..|]. apply list_elem_of_omap in Ha as (name & Hn & Ha). by exists name.
  - destruct (firebase_asks _ _ _ _ _ _ _ _ H2 Hasked) as (h & Hh & Hk & -> & Ha). exists (ISS_PREFIX ++ p), h.
    split_and!; [done..|]. right. by exists fb, p.
Qed.
End Theorems.

(** ** Witnesses *)

(** A payload, and a library of one key that decodes tokens with it. *)
Definition sample_claims : list (str * value Z) :=
  [(str_of "iss", VString (str_of "https://id.example")); (str_of "aud", Array [VString (str_of "shop")]);
   (str_of "sub", VString (str_of "ada")); (str_of "iat", Number 990); (str_of "exp", Number 2000)].

#[export] Instance sample_jwt_library : Jwt Z Z := {
  decode_header _ := Ok {| hd_alg := "RS256"; hd_kid := Some (str_of "k1") |};
  jwt_decode token key v now :=
    if bool_decide (is_Some (split_on b_dot token !! 1%nat)) && existsb (fun a => a ==? str_of "RS256") (va_algorithms v)
       && (key =? 7) && existsb (fun a => a ==? str_of "shop") (va_audience v) && (now <=? 2000 + va_leeway v)
    then Ok sample_claims else Err "InvalidToken";
  b64url_decode s := Some s;
  json_from_slice _ := Some (Object sample_claims);
}.

#[export] Instance sample_jwt_laws : JwtLaws Z Z.
Proof.
  assert (forall token key v now claims, jwt_decode token key v now = Ok claims ->
    claims = sample_claims /\ is_Some (split_on b_dot token !! 1%nat) /\ str_of "RS256" ∈ va_algorithms v /\ key = 7 /\
    str_of "shop" ∈ va_audience v /\ now <= 2000 + va_leeway v) as Hd.
  { intros token key v now claims. unfold jwt_decode, sample_jwt_library. destruct (_ && _) eqn:E; [|done].
    intros [= <-]. apply andb_true_iff in E as [[[[E1 E2]%andb_true_iff E3]%andb_true_iff E4]%andb_true_iff E5].
    apply bool_decide_eq_true in E1. apply Z.eqb_eq in E3. apply Z.leb_le in E5.
    apply existsb_In in E2 as (a2 & H2 & ->%bool_decide_eq_true), E4 as (a4 & H4 & ->%bool_decide_eq_true). done. }
  refine {| signed := fun _ key _ => key = 7 |}; intros token key v now claims.
  - intros (_ & _ & Ha & Hk & _)%Hd. eexists. by split_and!.
  - intros (-> & [p Hp] & _)%Hd. by exists p, p.
  - intros (-> & _ & _ & _ & Ha & _)%Hd _. exists (str_of "shop"). split; [done|]. unfold claim_names. by vm_compute; left.
  - intros n e (-> & _ & _ & _ & _ & Hle)%Hd _ Hn He. vm_compute in Hn. injection Hn as <-. vm_compute in He.
    by injection He as <-.
Defined.

Definition sample_token : str := "e30.e30.c2ln".
Definition answers (X : Type) (e : verifyE Z X) (w : ()) : X * () :=
  match e in verifyE _ X return X * () with KeyFor _ _ => (Ok 7, w) | NowSecs => (1000, w) end.
Definition sample_verify (m : gmap str Verifier) : prog (verifyE Z) (result (Identity Z) AuthError) :=
  router_verify (escape_debug (N:=Z)) m sample_token.
Definition sample_verified : bool :=
  match sample_resolve with
  | Ok c => match build_router c with
            | Ok m => match (Prog.run answers (sample_verify m) tt).1 with Ok id => subject id ==? str_of "ada" | Err _ => false end
                      && (match transcript answers (sample_verify m) tt with
                          | {| ev_type := X; ev_ask := e |} :: _ => match e with KeyFor _ kid => kid ==? str_of "k1" | NowSecs => false end
                          | [] => false
                          end)
            | Err _ => false
            end
  | Err _ => false
  end.
Lemma sample_verifies : sample_verified = true.
Proof. vm_compute. reflexivity. Qed.

Lemma accepted_tokens_are_vouched_for_witness :
  match sample_resolve with
  | Ok c => exists m tr id, build_router c = Ok m /\ traces (sample_verify m) tr (Ok id) /\
              subject id = str_of "ada" /\ map_get "iss" (claims id) = Some (VString (issuer id))
  | Err _ => False
  end.
Proof.
  pose proof sample_verifies as H. unfold sample_verified in H. destruct sample_resolve as [c|] eqn:Ec; [|discriminate H].
  destruct (build_router c) as [m|] eqn:Em; [|discriminate H]. apply andb_true_iff in H as [H _].
  pose proof (run_traces answers (sample_verify m) tt) as Ht.
  destruct (Prog.run answers (sample_verify m) tt).1 as [id|] eqn:Er; [|discriminate H].
  exists m, (transcript answers (sample_verify m) tt), id. split; [reflexivity|]. split; [exact Ht|].
  split; [by apply bool_decide_eq_true in H|].
  destruct (accepted_tokens_are_vouched_for c m sample_token _ id Em Ht)
    as [(j & _ & [_ [<- Hi] _ _] & _)|(fb & p & _ & _ & _ & [_ [<- Hi] _ _] & _)]; exact Hi.
Defined.

Lemma keys_are_asked_only_as_configured_witness :
  match sample_resolve with
  | Ok c => exists m cache kid r tr o, build_router c = Ok m /\ traces (sample_verify m) tr o /\
              Event (KeyFor cache kid) r ∈ tr /\ kid = str_of "k1" /\
              exists h, decode_header sample_token = Ok h /\ hd_kid h = Some kid
  | Err _ => False
  end.
Proof.
  pose proof sample_verifies as H. unfold sample_verified in H. destruct sample_resolve as [c|] eqn:Ec; [|discriminate H].
  destruct (build_router c) as [m|] eqn:Em; [|discriminate H]. apply andb_true_iff in H as [_ H].
  pose proof (run_traces answers (sample_verify m) tt) as Ht.
  destruct (transcript answers (sample_verify m) tt) as [|[X e a] tr] eqn:Et; [discriminate H|].
  destruct e as [cache kid|]; [|discriminate H].
  assert (Event (KeyFor cache kid) a ∈ Event (KeyFor cache kid) a :: tr) as Hin by by left.
  exists m, cache, kid, a, (Event (KeyFor cache kid) a :: tr), (Prog.run answers (sample_verify m) tt).1.
  split; [reflexivity|]. split; [exact Ht|]. split; [exact Hin|]. split; [by apply bool_decide_eq_true in H|].
  destruct (keys_are_asked_only_as_configured c m sample_token _ _ cache kid a Em Ht Hin) as (iss & h & _ & Hh & Hk & _).
  by exists h.
Defined.
