(* ===== verification/Runtime.v ===== *)
(** * Startup, reloads and reconciliation (runtime.rs, routes/file.rs)

    [Runtime::run] puts the components together: it resolves the document,
    builds the upstreams, the shared-counter backend, the route table, the token
    router and the two gateways, and starts the services.  The route reloader
    and the reconciliation of shared limits are the two services that change
    what the gateways serve from. *)

From S2P Require Export Jwt Proxy Shared Interpolate.

(** ** Server settings *)

Definition RUNTIME_SHUTDOWN_SECS : Z := 1.

(** The settings of Pingora's [ServerConf] the gateway sets. *)
Record ServerConf := {
  grace_period_seconds : option Z;
  graceful_shutdown_timeout_seconds : option Z;
  threads : Z;
  upstream_keepalive_pool_size : Z;
}.

Definition server_conf (c : GatewayConfig) : ServerConf :=
  let drain := sat_add duration_max (srv_graceful_shutdown (gc_server c)) (default 0 (srv_shutdown_grace (gc_server c))) in
  {| grace_period_seconds := Some (as_secs drain); graceful_shutdown_timeout_seconds := Some RUNTIME_SHUTDOWN_SECS;
     threads := srv_threads (gc_server c); upstream_keepalive_pool_size := lt_upstream_pool (gc_limits c) |}.

(** The [keepalive_request_limit] of a downstream listener. *)
Definition downstream_server_options (c : GatewayConfig) : option Z :=
  let n := lt_keepalive_requests (gc_limits c) in if n =? 0 then None else Some n.

(** ** What startup and the services ask *)

Inductive runtimeE : Type -> Type :=
(** [Instant::now], and a fresh [Uuid::new_v4]. *)
| MonoNow : runtimeE Z
| NewNamespace : runtimeE Z
(** Reading a file, and its modification time. *)
| ReadFile (path : str) : runtimeE (result str str)
| Mtime (path : str) : runtimeE (option Z)
(** [Backend::probe]: what answers, and whether it can decide exactly. *)
| Probe : runtimeE (result (str * bool) BackendError).

Definition rprog := prog runtimeE.

(** The rest of a program where a step succeeded. *)
Definition tries {A B} (m : result A str) (k : A -> rprog (result B str)) : rprog (result B str) :=
  match m with Ok a => k a | Err e => Ret (Err e) end.

(** ** Errors, as the log has them *)

Definition show_interpolate_error (e : InterpolateError) : str :=
  let at_line l := "line " ++ show_u64 (Z.of_nat l) ++ ": " in
  match e with
  | Unset name line => at_line line ++ "`${" ++ name ++ "}` is not set." ++ [10]
      ++ "Set the environment variable, or give it a default: `${" ++ name ++ ":-some-value}`"
  | Unterminated line => at_line line ++ "`${` is never closed; add the matching `}`"
  | EmptyName line => at_line line ++ "`${}` has an empty variable name"
  | BadName name line => at_line line ++ "`" ++ name ++ "` is not a valid environment variable name "
      ++ "(letters, digits and underscore only, not starting with a digit)"
  | ControlCharacter name line => at_line line ++ "the value of `" ++ name ++ "` contains a control character. "
      ++ "A newline in a substituted value would inject configuration structure, so it is refused."
  end.

Definition show_backend_error (e : BackendError) : str :=
  match e with
  | Shared.Unavailable m => "shared counter backend unreachable: " ++ m
  | Shared.Timeout d => "shared counter backend timed out after " ++ show_duration d
  | Protocol m => "shared counter backend replied with something unreadable: " ++ m
  end.

(** ** Route providers *)

(** [FileRouteProvider] and [InlineRouteProvider]. *)
Inductive RouteProvider :=
| FileRoutes (path : str) (defaults : RouteDefaults) (unset_fallback : option (str -> str)) (shared : option Factory)
| InlineRoutes (routes : RouteGroups) (defaults : RouteDefaults) (shared : option Factory).

Section Providers.
(** [serde_yaml_ng::from_str] at [RouteGroups]: the text of its error, with the
    line and the column where it has them; and the environment. *)
Context (groups_from_yaml : str -> result RouteGroups (option (Z * Z) * str)) (env : str -> option str).

Definition load_file (path : str) (unset_fallback : option (str -> str)) (text : str) : result RouteGroups str :=
  let? expanded := match interpolate_with_fallback text env unset_fallback with
                   | Ok x => Ok x
                   | Err e => Err (path ++ ": " ++ show_interpolate_error e)
                   end in
  match groups_from_yaml (Interpolate.text expanded) with
  | Ok groups => Ok groups
  | Err (location, e) =>
      Err (path ++ match location with
                   | Some (line, column) => ":" ++ show_u64 line ++ ":" ++ show_u64 column
                   | None => []
                   end ++ ": " ++ e)
  end.

(** [RouteProvider::load]. *)
Definition provider_load (p : RouteProvider) : rprog (result RouteTable str) :=
  match p with
  | FileRoutes path defaults fallback shared =>
      letP text := ask (ReadFile path) in
      tries (map_err (fun e => "failed to read route file " ++ path ++ ": " ++ e) text) (fun text =>
      tries (load_file path fallback text) (fun groups =>
      letP v4 := ask NewNamespace in Ret (Ok (build_with v4 groups defaults shared))))
  | InlineRoutes groups defaults shared =>
      letP v4 := ask NewNamespace in Ret (Ok (build_with v4 groups defaults shared))
  end.
End Providers.

(** ** Shared counters *)

Definition counts_shared (r : RouteConfig) : bool :=
  match r_rate_limit r with Some rl => rl_counter rl ==? CounterShared | None => false end.
Definition counts_exactly (r : RouteConfig) : bool :=
  match r_rate_limit r with Some rl => (rl_counter rl ==? CounterShared) && (rl_mode rl ==? ModeExact) | None => false end.

Definition verify_shared_counters (t : RouteTable) : rprog (result () str) :=
  if negb (existsb counts_shared (table_routes t)) then Ret (Ok tt) else
  let needs_exact := existsb counts_exactly (table_routes t) in
  letP answer := ask Probe in
  Ret (match answer with
       | Ok (server, supports_exact) =>
           if needs_exact && negb supports_exact then
             Err ("a route sets `rate_limit.mode: exact`, which needs Recached's RLCHECK, "
                  ++ "but shared_counters.url answered as " ++ server ++ ". RLCHECK has no Redis or "
                  ++ "Valkey equivalent and cannot be emulated without EVAL, which Recached "
                  ++ "does not implement either. Use `mode: approximate`, or point shared_counters at Recached.")
           else Ok tt
       | Err e =>
           if needs_exact then
             Err ("a route sets `rate_limit.mode: exact`, but the shared counter store could "
                  ++ "not be reached: " ++ show_backend_error e)
           else Ok tt
       end).

(** [verify_shared_counters] where there is a factory. *)
Definition verify_backend (shared : option Factory) (t : RouteTable) : rprog (result () str) :=
  match shared with Some _ => verify_shared_counters t | None => Ret (Ok tt) end.

Section Runtime.
Context {N : Type} `{HC : Crates N}.
Context (parse_uri : str -> result Uri str) (header_name_ok : str -> bool) (show_f64 : f64 -> str).
Context (groups_from_yaml : str -> result RouteGroups (option (Z * Z) * str)) (env : str -> option str).
(** The resolver at startup, and opening a connection manager of the [redis]
    crate on a normalized URL. *)
Context (to_socket_addrs : str -> result (list SocketAddr) str) (redis_open : str -> Z -> result () str).
(** The [shared-limits] feature, the order in which the map of upstreams gives
    its names, and the development switch of the proxy. *)
Context (shared_limits : bool) (known : list str) (dev : bool).

(** ** Reloading *)

(** [RouteReloader], and what it keeps from one tick to the next: the tables the
    two listeners serve and the modification time last loaded. *)
Record RouteReloader := {
  rr_provider : RouteProvider;
  rr_config : ResolvedConfig N;
  rr_extensions : list str;
  rr_shared : option Factory;
  rr_path : str;
}.

Record Served := { sv_public : RouteTable; sv_machine : option RouteTable; sv_last : option Z }.

Definition publish (r : RouteReloader) (s : Served) (t : RouteTable) : rprog (result Served str) :=
  tries (validate_table (rr_config r) shared_limits known t) (fun _ =>
  tries (Ext.validate (rr_extensions r) t) (fun _ =>
  letP verified := verify_backend (rr_shared r) t in
  tries verified (fun _ =>
  letP v4p := ask NewNamespace in
  letP v4m := ask NewNamespace in
  let '(public, machine) := publish_reload v4p v4m t (sv_public s) (sv_machine s) in
  Ret (Ok {| sv_public := public; sv_machine := machine; sv_last := sv_last s |})))).

(** One turn of the loop. *)
Definition reload_tick (r : RouteReloader) (s : Served) : rprog Served :=
  letP current := ask (Mtime (rr_path r)) in
  if current ==? sv_last s then Ret s else
  letP loaded := provider_load groups_from_yaml env (rr_provider r) in
  match loaded with
  | Err _ => Ret s
  | Ok t =>
      letP published := publish r s t in
      Ret (match published with
           | Err _ => s
           | Ok s' => {| sv_public := sv_public s'; sv_machine := sv_machine s'; sv_last := current |}
           end)
  end.

(** ** Startup *)

(** [shared_counter_factory], with the connection [RespBackend::connect] opens. *)
Definition shared_counter_factory (c : ResolvedConfig N) : result (option Factory) str :=
  match (if shared_limits then gc_shared_counters (raw c) else None) with
  | None => Ok None
  | Some shared =>
      map_err (fun e => "shared_counters: " ++ e)
        (let? url := normalize_url (sc_url shared) in
         let? _ := redis_open url (sc_timeout shared) in
         Ok (Some {| fa_backend := 0; fa_cfg := shared |}))
  end.

(** [resolve_all]: every upstream, with its breaker. *)
Fixpoint resolve_all (l : list (str * UpstreamConfig)) (acc : gmap str Upstream) : result (gmap str Upstream) str :=
  match l with
  | [] => Ok acc
  | (name, cfg) :: rest =>
      let? k := Upstream.resolve_upstream parse_uri to_socket_addrs name cfg in
      resolve_all rest (<[name := {| us_kind := k.1.1; us_breaker := up_circuit_breaker cfg |}]> acc)
  end.

(** What [run] has put together when the services start. *)
Record Booted := {
  bt_config : ResolvedConfig N;
  bt_router : gmap str Verifier;
  bt_public : Gateway (N:=N);
  bt_internal : option (Gateway (N:=N));
  bt_reloader : option RouteReloader;
  bt_sync : option Factory;
  bt_served : Served;
}.

Definition route_provider (c : ResolvedConfig N) (shared : option Factory) : RouteProvider :=
  let routes := gc_routes (raw c) in
  match rc_file routes with
  | Some path => FileRoutes path (gc_defaults (raw c)) None shared
  | None => InlineRoutes (groups routes) (gc_defaults (raw c)) shared
  end.

(** [Runtime::run], from the parsed document to the start of the services. *)
Definition run_document (doc : GatewayConfig) (expanded : Interpolated) (extensions : list str)
  : rprog (result Booted str) :=
  letP now := ask MonoNow in
  tries (resolve_config parse_uri header_name_ok show_f64 now doc expanded) (fun cfg =>
  tries (resolve_all (map_to_list (upstreams cfg)) ∅) (fun ups =>
  tries (shared_counter_factory cfg) (fun shared =>
  let provider := route_provider cfg shared in
  letP loaded := provider_load groups_from_yaml env provider in
  tries loaded (fun table =>
  tries (validate_table cfg shared_limits known table) (fun _ =>
  letP verified := verify_backend shared table in
  tries verified (fun _ =>
  tries (Ext.validate extensions table) (fun _ =>
  let '(public_table, machine_table) := partition_by_listener table in
  tries (build_router cfg) (fun router =>
  let verifier := negb (router ==? ∅) in
  let gateway := gateway_new dev cfg ups verifier extensions in
  let internal := (fun _ => for_machine_tier gateway) <$> srv_internal_listen (gc_server (raw cfg)) in
  Ret (Ok {| bt_config := cfg; bt_router := router; bt_public := gateway; bt_internal := internal;
             bt_reloader := (fun path => {| rr_provider := provider; rr_config := cfg; rr_extensions := extensions;
                                            rr_shared := shared; rr_path := path |}) <$> rc_file (gc_routes (raw cfg));
             bt_sync := shared;
             bt_served := {| sv_public := public_table; sv_machine := (fun _ => machine_table) <$> internal;
                             sv_last := None |} |}))))))))).

(** What the process asked since it started and what it serves now: it booted,
    and its reloader ticked any number of times. *)
Inductive service (doc : GatewayConfig) (expanded : Interpolated) (extensions : list str) (b : Booted)
  : list (event runtimeE) -> Served -> Prop :=
| service_boot tr : traces (run_document doc expanded extensions) tr (Ok b) -> service doc expanded extensions b tr (bt_served b)
| service_tick h s r tr s' : service doc expanded extensions b h s -> bt_reloader b = Some r ->
    traces (reload_tick r s) tr s' -> service doc expanded extensions b (h ++ tr) s'.

End Runtime.

(** ** Reconciliation *)

#[export] Instance LimiterRef_countable : Countable LimiterRef.
Proof.
  refine (inj_countable'
    (fun l => (lr_table l, lr_position l, match lr_kind l with LimExact => None | LimSketch => Some None
                                        | LimShared b p n => Some (Some (b, p, n)) end))
    (fun t => {| lr_table := t.1.1; lr_position := t.1.2;
                 lr_kind := match t.2 with None => LimExact | Some None => LimSketch
                            | Some (Some (b, p, n)) => LimShared b p n end |}) _).
  by intros [t p [ | |b q n]].
Defined.

Section Sync.
Context {R B : Type} `{Backend B}.
Context (cache_iter : gmap str positive -> list (str * positive)).

(** The limiters the tables point to. *)
Abbreviation limiters := (gmap LimiterRef (Limiter R)).

(** The shared counters of a table's routes, in order. *)
Definition shared_counters (heap : limiters) (t : RouteTable) : list LimiterRef :=
  omap (fun r => letO l := r_limiter r in letO m := heap !! l in letO c := reconciled_counters m in Some l) (table_routes t).

Definition tick_counters (heap : limiters) (s : Served) : list LimiterRef :=
  shared_counters heap (sv_public s) ++ match sv_machine s with Some m => shared_counters heap m | None => [] end.

(** One tick of [SharedLimitSync]: each set of counters at the clock it reads,
    with what runs on it while the backend answers, until one cannot reach the
    backend. *)
Fixpoint sync_tick (b : B) (heap : limiters) (work : list ((Z * list shared_op) * LimiterRef)) : B * limiters :=
  match work with
  | [] => (b, heap)
  | (turn, l) :: rest =>
      match (letO m := heap !! l in letO c := reconciled_counters m in Some (m, c)) with
      | None => sync_tick b heap rest
      | Some (m, c) =>
          let '(b, (c, reached)) := sync_once cache_iter turn.2 turn.1 b c in
          let heap := <[l := with_counters (CountShared c) m]> heap in
          if reached then sync_tick b heap rest else (b, heap)
      end
  end.
End Sync.

(** ** Tables in service *)

Definition unlimited (r : RouteConfig) : RouteConfig := with_limiter None r.

(** A table that serves another's routes: the same but for the limiters. *)
Record serves_routes_of (t served : RouteTable) : Prop := {
  sr_routes : map unlimited (table_routes served) = map unlimited (table_routes t);
  sr_deny : deny_prefixes served = deny_prefixes t;
  sr_index : lookup_index served = index_build (table_routes served);
}.

Lemma serves_itself t : lookup_index t = index_build (table_routes t) -> serves_routes_of t t.
Proof. by split. Qed.

Lemma unlimited_carry previous r : unlimited (carry_limiter previous r) = unlimited r.
Proof. unfold carry_limiter. by repeat case_match. Qed.

Lemma carry_prefix previous l : map r_prefix (map (carry_limiter previous) l) = map r_prefix l.
Proof. rewrite map_map. apply map_ext. intros r. unfold carry_limiter. by repeat case_match. Qed.

Lemma serves_stored v4 previous t :
  lookup_index t = index_build (table_routes t) -> serves_routes_of t (RouteTable.store v4 previous t).
Proof.
  intros Hi. split; cbn [RouteTable.store table_routes deny_prefixes lookup_index]; [|done|].
  - rewrite map_map. apply map_ext, unlimited_carry.
  - rewrite Hi. unfold index_build. by rewrite length_map, carry_prefix.
Qed.

(** What a table in service matches is one of its routes. *)
Lemma match_request_elem t host path method r :
  lookup_index t = index_build (table_routes t) -> match_request t host path method = Some r -> r ∈ table_routes t.
Proof.
  intros Hi Hm. assert (scan (table_routes t) (normalize_proxy_path path) (request_method method) (request_host host) = Some r) as Hs.
  { unfold match_request in Hm. destruct (lookup_index t) as [nodes|] eqn:E; [|done].
    by rewrite <-(index_find_scan _ nodes). }
  apply find_some in Hs as [Hs _]. by apply list_elem_of_In.
Qed.

Lemma served_tier t served host path method r :
  serves_routes_of t served -> match_request served host path method = Some r ->
  exists r0, r0 ∈ table_routes t /\ unlimited r = unlimited r0.
Proof.
  intros [Hr _ Hi] Hm. apply match_request_elem in Hm; [|done].
  assert (unlimited r ∈ map unlimited (table_routes t)) as Hin by (rewrite <-Hr; by apply list_elem_of_fmap_2).
  apply list_elem_of_fmap in Hin as (r0 & E & Hin). by exists r0.
Qed.

Lemma elem_public t r : r ∈ table_routes (partition_by_listener t).1 <-> r_auth r <> Machine /\ r ∈ table_routes t.
Proof. cbn. rewrite elem_of_lfilter. unfold machine_tier. rewrite negb_true_iff, bool_decide_eq_false. tauto. Qed.

Lemma elem_machine t r : r ∈ table_routes (partition_by_listener t).2 <-> r_auth r = Machine /\ r ∈ table_routes t.
Proof. cbn. rewrite elem_of_lfilter. unfold machine_tier. rewrite bool_decide_eq_true. tauto. Qed.

(** ** Traces of startup and of ticks *)

Lemma tries_traces {A B} (m : result A str) (k : A -> rprog (result B str)) tr o :
  traces (tries m k) tr o <-> (exists e, m = Err e /\ tr = [] /\ o = Err e) \/ (exists a, m = Ok a /\ traces (k a) tr o).
Proof. destruct m as [a|e]; cbn; naive_solver. Qed.

Lemma tries_Ok {A B} (m : result A str) (k : A -> rprog (result B str)) tr b :
  traces (tries m k) tr (Ok b) -> exists a, m = Ok a /\ traces (k a) tr (Ok b).
Proof. intros [(e & _ & _ & [=])|H]%tries_traces. done. Qed.

Lemma rask_traces {X A} (e : runtimeE X) (k : X -> rprog A) tr a :
  traces (pbind (ask e) k) tr a <-> exists x tr', tr = Event e x :: tr' /\ traces (k x) tr' a.
Proof. done. Qed.

(** A backend that was found able to honour the exact limits of a table. *)
Definition honoured (t : RouteTable) (h : list (event runtimeE)) : Prop :=
  existsb counts_exactly (table_routes t) = true -> exists server, Event Probe (Ok (server, true)) ∈ h.

Lemma counts_exactly_shared t :
  existsb counts_exactly (table_routes t) = true -> existsb counts_shared (table_routes t) = true.
Proof.
  rewrite !existsb_In. intros (r & Hr & H). exists r. split; [done|]. unfold counts_exactly, counts_shared in *.
  destruct (r_rate_limit r); [|done]. by apply andb_true_iff in H as [? _].
Qed.

Lemma verified_honours f t tr u : traces (verify_backend (Some f) t) tr (Ok u) -> honoured t tr.
Proof.
  unfold verify_backend, verify_shared_counters, honoured. intros Ht Hx. rewrite (counts_exactly_shared t Hx) in Ht.
  cbn [negb] in Ht. apply rask_traces in Ht as (answer & tr' & -> & Ht). destruct Ht as [-> Ho]. rewrite Hx in Ho.
  destruct answer as [[server []]|e]; [|done..]. exists server. by left.
Qed.

(** The answer to a probe. *)
Definition probe_answer (ev : event runtimeE) : option (result (str * bool) BackendError) :=
  match ev_ask ev in runtimeE X return X -> _ with Probe => Some | _ => fun _ => None end (ev_answer ev).

(** Why a backend was not found able. *)
Lemma verified_Err shared t tr e :
  traces (verify_backend shared t) tr (Err e) ->
  is_Some shared /\ existsb counts_exactly (table_routes t) = true /\
  exists answer, tr = [Event Probe answer] /\ forall server, answer <> Ok (server, true).
Proof.
  destruct shared as [f|]; [|by intros [_ [=]]]. unfold verify_backend, verify_shared_counters.
  destruct (existsb counts_shared _); [|by intros [_ [=]]]. cbn [negb].
  intros (answer & tr' & -> & Ht)%rask_traces. destruct Ht as [-> Ho]. split; [done|].
  destruct (existsb counts_exactly _); [|by destruct answer as [[server []]|]]. split; [done|]. exists answer. split; [done|].
  intros server ->. done.
Qed.

Lemma loaded_index groups_from_yaml env p tr t :
  traces (provider_load groups_from_yaml env p) tr (Ok t) -> lookup_index t = index_build (table_routes t).
Proof.
  destruct p as [path defaults fallback shared|g defaults shared]; cbn [provider_load].
  - intros (x & tr' & -> & Ht)%rask_traces.
    apply tries_Ok in Ht as (text & _ & Ht). apply tries_Ok in Ht as (g & _ & Ht).
    apply rask_traces in Ht as (v4 & tr'' & -> & Ht). by destruct Ht as [-> [= ->]].
  - intros (v4 & tr' & -> & Ht)%rask_traces. by destruct Ht as [-> [= ->]].
Qed.

Section Facts.
Context {N : Type} `{HC : Crates N}.
Context (parse_uri : str -> result Uri str) (header_name_ok : str -> bool) (show_f64 : f64 -> str).
Context (groups_from_yaml : str -> result RouteGroups (option (Z * Z) * str)) (env : str -> option str).
Context (to_socket_addrs : str -> result (list SocketAddr) str) (redis_open : str -> Z -> result () str).
Context (shared_limits : bool) (known : list str) (dev : bool).
Abbreviation publish := (publish shared_limits known).
Abbreviation reload_tick := (reload_tick groups_from_yaml env shared_limits known).
Abbreviation run_document := (run_document parse_uri header_name_ok show_f64 groups_from_yaml env to_socket_addrs
                                redis_open shared_limits known dev).
Abbreviation service := (service parse_uri header_name_ok show_f64 groups_from_yaml env to_socket_addrs redis_open
                           shared_limits known dev).

(** What a table was held against before it was served. *)
Definition accepted (c : ResolvedConfig N) (extensions : list str) (t : RouteTable) : Prop :=
  validate_table c shared_limits known t = Ok tt /\ Ext.validate extensions t = Ok tt.

Lemma publish_traces r s t tr o :
  traces (publish r s t) tr o ->
  (exists e, o = Err e /\ (accepted (rr_config r) (rr_extensions r) t -> is_Some (rr_shared r) /\
     existsb counts_exactly (table_routes t) = true /\ forall server, Event Probe (Ok (server, true)) ∉ tr)) \/
  exists v4p v4m, accepted (rr_config r) (rr_extensions r) t /\ (forall f, rr_shared r = Some f -> honoured t tr) /\
    o = Ok {| sv_public := (publish_reload v4p v4m t (sv_public s) (sv_machine s)).1;
              sv_machine := (publish_reload v4p v4m t (sv_public s) (sv_machine s)).2; sv_last := sv_last s |}.
Proof using.
  unfold Runtime.publish. intros [(e & He & _ & ->)|([] & H1 & Ht)]%tries_traces.
  { left. exists e. split; [done|]. intros [E _]. congruence. }
  apply tries_traces in Ht as [(e & He & _ & ->)|([] & H2 & Ht)].
  { left. exists e. split; [done|]. intros [_ E]. congruence. }
  apply traces_bind in Ht as (t1 & t2 & verified & -> & Hv & Ht).
  apply tries_traces in Ht as [(e & -> & -> & ->)|([] & -> & Ht)].
  { left. exists e. split; [done|]. intros _. apply verified_Err in Hv as (Hsh & Hx & answer & -> & Hno).
    split_and!; [done..|]. intros server E%list_elem_of_singleton.
    apply (f_equal probe_answer) in E. cbn in E. injection E as E. by apply (Hno server). }
  apply rask_traces in Ht as (v4p & ? & -> & Ht). apply rask_traces in Ht as (v4m & ? & -> & Ht).
  right. exists v4p, v4m. split; [done|]. split.
  - intros f Hf Hx. rewrite Hf in Hv. apply verified_honours in Hv. destruct (Hv Hx) as [server Hs].
    exists server. apply elem_of_app. by left.
  - unfold publish_reload in *. destruct (partition_by_listener t). cbn in Ht |- *. by destruct Ht as [_ ->].
Qed.

(** What one tick does. *)
Lemma reload_tick_traces r s tr s' :
  traces (reload_tick r s) tr s' ->
  exists m rest, tr = Event (Mtime (rr_path r)) m :: rest /\
    (m = sv_last s -> rest = [] /\ s' = s) /\
    (m <> sv_last s -> exists h1 h2 loaded, rest = h1 ++ h2 /\
       traces (provider_load groups_from_yaml env (rr_provider r)) h1 loaded /\
       match loaded with
       | Err _ => s' = s
       | Ok t => exists published, traces (publish r s t) h2 published /\
           s' = match published with
                | Err _ => s
                | Ok s1 => {| sv_public := sv_public s1; sv_machine := sv_machine s1; sv_last := m |}
                end
       end).
Proof using.
  unfold Runtime.reload_tick. intros (m & rest & -> & Ht)%rask_traces. exists m, rest. split; [done|].
  cbn [pbind] in Ht.  destruct (m ==? sv_last s) eqn:Hm; [apply bool_decide_eq_true in Hm|apply bool_decide_eq_false in Hm].
  - destruct Ht as [-> ->]. done.
  - split; [done|]. intros _. apply traces_bind in Ht as (h1 & h2 & loaded & -> & Hl & Ht).
    exists h1, h2, loaded. split; [done|]. split; [done|]. destruct loaded as [t|e]; [|by destruct Ht as [_ ->]].
    apply traces_bind in Ht as (h3 & h4 & published & -> & Hp & [-> ->]).
    exists published. by rewrite app_nil_r.
Qed.

(** What a start gives. *)
Lemma run_document_Ok doc expanded exts tr b :
  traces (run_document doc expanded exts) tr (Ok b) ->
  exists t, accepted (bt_config b) exts t /\ lookup_index t = index_build (table_routes t) /\
    shared_counter_factory redis_open shared_limits (bt_config b) = Ok (bt_sync b) /\
    build_router (bt_config b) = Ok (bt_router b) /\
    (forall f, bt_sync b = Some f -> honoured t tr) /\
    sv_public (bt_served b) = (partition_by_listener t).1 /\
    sv_machine (bt_served b) = (fun _ => (partition_by_listener t).2) <$> srv_internal_listen (gc_server (raw (bt_config b))) /\
    forall r, bt_reloader b = Some r -> rr_config r = bt_config b /\ rr_extensions r = exts /\ rr_shared r = bt_sync b.
Proof using.
  unfold Runtime.run_document. intros (now & ? & -> & Ht)%rask_traces.
  apply tries_Ok in Ht as (cfg & Hcfg & Ht). apply tries_Ok in Ht as (ups & Hups & Ht).
  apply tries_Ok in Ht as (shared & Hshared & Ht). cbv zeta in Ht. apply traces_bind in Ht as (h1 & h2 & loaded & -> & Hl & Ht).
  apply tries_Ok in Ht as (t & -> & Ht). apply tries_Ok in Ht as ([] & Hv & Ht).
  apply traces_bind in Ht as (h3 & h4 & verified & -> & Hver & Ht). apply tries_Ok in Ht as ([] & -> & Ht).
  apply tries_Ok in Ht as ([] & Hx & Ht).
  destruct (partition_by_listener t) as [public machine] eqn:Ep.
  apply tries_Ok in Ht as (router & Hr & Ht). destruct Ht as [-> [= ->]].
  exists t. cbn [bt_config bt_sync bt_router bt_served bt_reloader sv_public sv_machine]. rewrite Ep. split; [done|]. split; [by eapply loaded_index|]. split; [done|]. split; [done|]. split_and!.
  - intros f ->. apply verified_honours in Hver. intros Hh. destruct (Hver Hh) as [server Hs].
    exists server. right. rewrite !elem_of_app. auto.
  - done.
  - by destruct (srv_internal_listen _).
  - intros r Hr'. destruct (rc_file _); [|done]. by injection Hr' as <-.
Qed.

(** A document that has routes count exactly has a backend to ask. *)
Lemma exact_has_backend c exts t f :
  accepted c exts t -> existsb counts_exactly (table_routes t) = true ->
  shared_counter_factory redis_open shared_limits c = Ok f -> is_Some f.
Proof using.
  intros [Hv _] Hx Hf. unfold validate_table in Hv. destruct (table_errors t); [|done].
  apply validated_routes_sound in Hv as [_ Hv]. apply existsb_In in Hx as (r & Hr & Hx).
  unfold counts_exactly in Hx. destruct (r_rate_limit r) as [rl|] eqn:El; [|done].
  apply andb_true_iff in Hx as [Hc%bool_decide_eq_true _].
  destruct (Hv r Hr) as (_ & _ & _ & Hl & _). destruct (Hl rl El) as (_ & Hs & _).
  destruct (Hs Hc) as (Hsl & shared & Hsh & _). unfold shared_counter_factory in Hf. rewrite Hsl, Hsh in Hf.
  apply map_err_Ok in Hf. destruct (normalize_url _); [|done]. cbn in Hf. destruct (redis_open _ _); [|done]. by injection Hf as <-.
Qed.

(** A document with machine routes has a listener for them. *)
Lemma machine_has_listener c exts t r :
  accepted c exts t -> r ∈ table_routes t -> r_auth r = Machine -> is_Some (srv_internal_listen (gc_server (raw c))).
Proof using.
  intros [Hv _] Hr Hm. unfold validate_table in Hv. destruct (table_errors t); [|done].
  apply validated_routes_sound in Hv as [_ Hv]. destruct (Hv r Hr) as (_ & _ & _ & _ & _ & _ & H).
  apply H. by rewrite Hm.
Qed.

Lemma served_after_publish t v4p v4m s :
  lookup_index t = index_build (table_routes t) ->
  let r := publish_reload v4p v4m t (sv_public s) (sv_machine s) in
  serves_routes_of (partition_by_listener t).1 r.1 /\
  match r.2 with Some m => serves_routes_of (partition_by_listener t).2 m | None => sv_machine s = None end.
Proof using.
  intros Hi. unfold publish_reload. destruct (partition_by_listener t) as [p m] eqn:E. cbn [fst snd].
  injection E as <- <-. split; [by apply serves_stored|]. destruct (sv_machine s); [|done]. by apply serves_stored.
Qed.

(** C6: only a table that passed every check is ever served, and served whole:
    from startup on and through any number of reloads, whatever the files, the
    clocks and the backend answer, the two listeners serve the two halves of one
    table that the document's validation and the extension registry accepted
    and, where a route counts exactly across the cluster, whose backend had
    answered that it can; the routes are that table's, but for limiters that kept
    their count; a machine route is never matched on the public listener, nor any
    other on the internal one; and without an internal listener there is no
    machine route to lose. *)
Theorem served_tables_are_accepted doc expanded exts b h s (Hs : service doc expanded exts b h s) :
  exists t, accepted (bt_config b) exts t /\ honoured t h /\
    serves_routes_of (partition_by_listener t).1 (sv_public s) /\
    match sv_machine s with
    | Some m => serves_routes_of (partition_by_listener t).2 m
    | None => forall r, r ∈ table_routes t -> r_auth r <> Machine
    end /\
    (forall host path method r, match_request (sv_public s) host path method = Some r -> r_auth r <> Machine) /\
    (forall m host path method r, sv_machine s = Some m -> match_request m host path method = Some r -> r_auth r = Machine).
Proof using.
  assert (exists t, accepted (bt_config b) exts t /\ honoured t h /\
    serves_routes_of (partition_by_listener t).1 (sv_public s) /\
    match sv_machine s with
    | Some m => serves_routes_of (partition_by_listener t).2 m
    | None => srv_internal_listen (gc_server (raw (bt_config b))) = None
    end) as (t & Ha & Hh & Hp & Hm).
  { assert (forall r, bt_reloader b = Some r -> rr_config r = bt_config b /\ rr_extensions r = exts /\ rr_shared r = bt_sync b)
      as Hrel by (clear -Hs; induction Hs as [tr (t & _ & _ & _ & _ & _ & _ & _ & H)%run_document_Ok|]; done).
    assert (shared_counter_factory redis_open shared_limits (bt_config b) = Ok (bt_sync b))
      as Hsync by (clear -Hs; induction Hs as [tr (t & _ & _ & H & _)%run_document_Ok|]; done).
    induction Hs as [tr Ht|h s r tr s' _ IH Hr Ht].
    - apply run_document_Ok in Ht as (t & Ha & Hi & Hf & _ & Hh & Hp & Hm & _). exists t. split; [done|]. split.
      { intros Hx. destruct (exact_has_backend _ _ _ _ Ha Hx Hf) as [f E]. by apply (Hh f E). }
      rewrite Hp, Hm. split; [by apply serves_itself|]. destruct (srv_internal_listen _); [by apply serves_itself|done].
    - destruct IH as (t & Ha & Hh & Hp & Hm). destruct (Hrel r Hr) as (Hc & Hx & Hsh).
      apply reload_tick_traces in Ht as (m & rest & -> & Hsame & Hdiff).
      assert (forall h', honoured t (h ++ h')) as Hmore.
      { intros h' Hex. destruct (Hh Hex) as [server Hin]. exists server. apply elem_of_app. by left. }
      destruct (decide (m = sv_last s)) as [E|E]; [destruct (Hsame E) as [_ ->]; exists t; by split_and!|].
      destruct (Hdiff E) as (h1 & h2 & [t'|e] & -> & Hl & Hres); [|subst s'; exists t; by split_and!].
      destruct Hres as (published & Hpub & ->).
      apply publish_traces in Hpub as [(e & -> & _)|(v4p & v4m & Ha' & Hh' & ->)]; [exists t; by split_and!|].
      apply loaded_index in Hl. rewrite Hc, Hx in Ha'. exists t'. split; [done|]. split.
      { intros Hex. destruct (exact_has_backend _ _ _ _ Ha' Hex Hsync) as [f Ef]. rewrite Hsh in Hh'.
        destruct (Hh' f Ef Hex) as [server Hin]. exists server. rewrite !elem_of_app, elem_of_cons, elem_of_app. auto. }
      cbn [sv_public sv_machine]. destruct (served_after_publish t' v4p v4m s Hl) as [H1 H2]. split; [done|].
      destruct (publish_reload v4p v4m t' _ _).2; [done|]. by rewrite H2 in Hm. }
  exists t. split; [done|]. split; [done|]. split; [done|]. split_and!.
  - destruct (sv_machine s); [done|]. intros r Hr Hmr. destruct (machine_has_listener _ _ _ _ Ha Hr Hmr). congruence.
  - intros host path method r Hr. destruct (served_tier _ _ _ _ _ _ Hp Hr) as (r0 & [Hn _]%elem_public & E).
    apply (f_equal r_auth) in E. cbn in E. congruence.
  - intros m host path method r E Hr. rewrite E in Hm.
    destruct (served_tier _ _ _ _ _ _ Hm Hr) as (r0 & [Hn _]%elem_machine & E').
    apply (f_equal r_auth) in E'. cbn in E'. congruence.
Qed.

(** C22: a reload that fails anywhere changes nothing and is tried again, and one
    that does not fail takes effect: a tick that sees the modification time it
    last loaded reads nothing; otherwise it loads the file, and exactly when that
    failed, the table was not accepted, or it counts exactly and the backend did
    not answer that it can, both tables and the remembered time stay as they were,
    so that the next tick loads again; else both tables are replaced by the
    halves of the loaded one, over limiters that carry on, and the time is
    remembered. *)
Theorem failed_reloads_change_nothing r s tr s' (Ht : traces (reload_tick r s) tr s') :
  exists m rest, tr = Event (Mtime (rr_path r)) m :: rest /\
    (m = sv_last s -> rest = [] /\ s' = s) /\
    (m <> sv_last s -> exists h1 h2 loaded, rest = h1 ++ h2 /\
       traces (provider_load groups_from_yaml env (rr_provider r)) h1 loaded /\
       (s' = s /\ (forall t, loaded = Ok t -> accepted (rr_config r) (rr_extensions r) t ->
          is_Some (rr_shared r) /\ existsb counts_exactly (table_routes t) = true /\
          forall server, Event Probe (Ok (server, true)) ∉ h2) \/
        exists t v4p v4m, loaded = Ok t /\ accepted (rr_config r) (rr_extensions r) t /\
          (forall f, rr_shared r = Some f -> honoured t h2) /\ sv_last s' = m /\
          (sv_public s', sv_machine s') = publish_reload v4p v4m t (sv_public s) (sv_machine s))).
Proof using.
  apply reload_tick_traces in Ht as (m & rest & -> & Hsame & Hdiff). exists m, rest. split; [done|]. split; [done|].
  intros E. destruct (Hdiff E) as (h1 & h2 & loaded & -> & Hl & Hres). exists h1, h2, loaded. split; [done|]. split; [done|].
  destruct loaded as [t|e]; [|by left]. destruct Hres as (published & Hpub & ->).
  apply publish_traces in Hpub as [(e & -> & Hno)|(v4p & v4m & Ha & Hh & ->)].
  - left. split; [done|]. by intros t' [= <-].
  - right. exists t, v4p, v4m. by split_and!.
Qed.
End Facts.

Section SyncFacts.
Context {R B : Type} `{Backend B}.
Context (cache_iter : gmap str positive -> list (str * positive)).
Abbreviation sync_tick := (sync_tick (R:=R) (B:=B) cache_iter).
Abbreviation sync_once := (sync_once cache_iter).

(** A limiter is given back with what reconciling its counters at some moment
    made of them; [ok] is whether the backend was reached. *)
Definition synced_as (heap heap' : gmap LimiterRef (Limiter R)) (now : Z * list shared_op) (l : LimiterRef) (ok : bool) : Prop :=
  match (letO m := heap !! l in letO c := reconciled_counters m in Some (m, c)) with
  | None => heap' !! l = heap !! l /\ ok = true
  | Some (m, c) => exists b : B, heap' !! l = Some (with_counters (CountShared (sync_once now.2 now.1 b c).2.1) m) /\
                                 (sync_once now.2 now.1 b c).2.2 = ok
  end.

(** One tick of the reconciliation goes through the limiters in their order
    and gives up once: every limiter it comes to has its counters reconciled at
    the clock it read, all of them reaching the backend but for the last, where
    the tick ends early; the limiters after that one are left exactly as they
    were, so that a store that is down costs one timeout a tick and no count. *)
Lemma sync_tick_gives_up_once b heap work b' heap'
  (Hdistinct : NoDup (map snd work)) (Htick : sync_tick b heap work = (b', heap')) :
  exists visited rest, work = visited ++ rest /\
    (forall l, l ∉ map snd visited -> heap' !! l = heap !! l) /\
    (forall i now l, visited !! i = Some (now, l) ->
       synced_as heap heap' now l true \/ (synced_as heap heap' now l false /\ S i = length visited)) /\
    (rest <> [] -> exists i now l, visited !! i = Some (now, l) /\ S i = length visited /\ synced_as heap heap' now l false).
Proof using.
  revert b heap Htick. induction work as [|[now l] work IH]; intros b heap; cbn [Runtime.sync_tick].
  { intros [= <- <-]. exists [], []. by split_and!. }
  cbn in Hdistinct. apply list.NoDup_cons in Hdistinct as [Hnew Hd].
  assert (forall heap1, (forall l', l' <> l -> heap1 !! l' = heap !! l') -> synced_as heap heap1 now l true ->
    forall b1, sync_tick b1 heap1 work = (b', heap') -> exists visited rest, (now, l) :: work = visited ++ rest /\
      (forall l', l' ∉ map snd visited -> heap' !! l' = heap !! l') /\
      (forall i now' l', visited !! i = Some (now', l') ->
         synced_as heap heap' now' l' true \/ (synced_as heap heap' now' l' false /\ S i = length visited)) /\
      (rest <> [] -> exists i now' l', visited !! i = Some (now', l') /\ S i = length visited /\ synced_as heap heap' now' l' false)) as Hgo.
  { intros heap1 Hsame Hl b1 Ht. destruct (IH Hd b1 heap1 Ht) as (visited & rest & -> & H1 & H2 & H3).
    rewrite map_app in Hnew. assert (l ∉ map snd visited) as Hl' by (intros ?; apply Hnew, elem_of_app; by left).
    assert (forall i now' l', visited !! i = Some (now', l') -> l' <> l) as Hne.
    { intros i now' l' Hi ->. apply Hl'. apply list_elem_of_lookup_2 in Hi. by apply (list_elem_of_fmap_2 snd) in Hi. }
    assert (forall now' l' ok, l' <> l -> synced_as heap1 heap' now' l' ok <-> synced_as heap heap' now' l' ok) as Hiff
      by (intros now' l' ok Hll; unfold synced_as; by rewrite Hsame).
    exists ((now, l) :: visited), rest. split; [done|]. split_and!.
    - intros l' [Hll Hv]%not_elem_of_cons. cbn in Hll. by rewrite H1, Hsame.
    - intros [|i] now' l' Hi; cbn in Hi.
      + injection Hi as <- <-. left. unfold synced_as in *. by rewrite (H1 l Hl').
      + rewrite <-!Hiff by eauto. destruct (H2 i now' l' Hi) as [?|[? ?]]; [by left|right]. split; [done|cbn; lia].
    - intros Hr. destruct (H3 Hr) as (i & now' & l' & Hi & Hlen & Hs). exists (S i), now', l'. split; [done|].
      split; [cbn; lia|]. apply Hiff; eauto. }
  destruct (letO m := heap !! l in letO c := reconciled_counters m in Some (m, c)) as [[m c]|] eqn:Em.
  - destruct (Shared.sync_once cache_iter now.2 now.1 b c) as [b1 [c1 reached]] eqn:Es.
    set (heap1 := <[l := with_counters (CountShared c1) m]> heap).
    assert (forall l', l' <> l -> heap1 !! l' = heap !! l') as Hsame by (intros l' Hl; by apply lookup_insert_ne).
    assert (synced_as heap heap1 now l reached) as Hl.
    { unfold synced_as. rewrite Em. exists b. rewrite Es. split; [apply lookup_insert_eq|done]. }
    destruct reached; [by apply Hgo|]. intros [= <- <-]. exists [(now, l)], work. split; [done|]. split_and!.
    + intros l' Hl'. apply Hsame. intros ->. apply Hl'. by left.
    + intros [|i] now' l' Hi; [|done]. injection Hi as <- <-. by right.
    + intros _. by exists 0%nat, now, l.
  - intros Ht. apply (Hgo heap (fun _ _ => eq_refl)) with (b1 := b); [|done]. unfold synced_as. by rewrite Em.
Qed.
End SyncFacts.

(** ** Witnesses *)

(** The sample document with its routes in a file, and what that file holds. *)
Definition routes_in_file (path : str) (c : GatewayConfig) : GatewayConfig :=
  {| gc_defaults := gc_defaults c; gc_server := gc_server c; gc_timeouts := gc_timeouts c; gc_limits := gc_limits c;
     gc_upstreams := gc_upstreams c; gc_auth := gc_auth c; gc_inject := gc_inject c; gc_reject := gc_reject c;
     gc_forward := gc_forward c; gc_identity := gc_identity c;
     gc_routes := {| rc_file := Some path; rc_reload := from_secs 15; rc_internal := []; rc_machine := [];
                     rc_public := []; rc_optional := []; rc_authenticated := [] |};
     gc_observability := gc_observability c; gc_dns := gc_dns c; gc_cors := gc_cors c; gc_cache := gc_cache c;
     gc_shared_counters := gc_shared_counters c |}.
Definition file_document : GatewayConfig := routes_in_file "routes.yml" Resolve.sample_document.
Definition file_groups (text : str) : result RouteGroups (option (Z * Z) * str) :=
  if text ==? [] then Err (Some (1, 1), "empty")
  else Ok (sample_groups [on_host [] "users" (sample_route "users")] [on_host [] "jobs" (sample_route "jobs")]).

(** A world whose route file changes at every look, and can be read or not. *)
Definition world_answers (file : result str str) (X : Type) (e : runtimeE X) (w : Z) : X * Z :=
  match e in runtimeE X return X * Z with
  | MonoNow => (w, w + 1)
  | NewNamespace => (w, w + 1)
  | ReadFile _ => (file, w + 1)
  | Mtime _ => (Some w, w + 1)
  | Probe => (Ok (str_of "recached", true), w + 1)
  end.
Definition sample_boot : rprog (result (Booted (N:=Z)) str) :=
  run_document sample_parse_uri (fun _ => true) (fun _ => []) file_groups (fun _ => None) (fun _ => Err []) (fun _ _ => Ok tt)
    true ["users"] false file_document no_expansion [].
Definition readable : result str str := Ok (str_of "public: []").
Definition sample_booted : result (Booted (N:=Z)) str := (Prog.run (world_answers readable) sample_boot 100).1.
Definition sample_tick (file : result str str) (r : RouteReloader (N:=Z)) (s : Served) : Served :=
  (Prog.run (world_answers file) (reload_tick file_groups (fun _ => None) true ["users"] r s) 200).1.

(** The sample boots, serves its routes, and a readable file is reloaded. *)
Definition matched (t : RouteTable) (path : str) : option str := r_id <$> match_request t None path "GET".
Definition boots_and_reloads : bool :=
  match sample_booted with
  | Ok b => match bt_reloader b with
            | Some r => let s := sample_tick readable r (bt_served b) in
                        (matched (sv_public s) "/users/7" ==? Some (str_of "users"))
                        && (matched (sv_public s) "/jobs/1" ==? None) && (sv_last s ==? Some 200)
                        && (sv_last (sample_tick (Ok []) r s) ==? Some 200)
                        && (negb (sv_last s ==? Some 300))
            | None => false
            end
  | Err _ => false
  end.
Lemma sample_boots_and_reloads : boots_and_reloads = true.
Proof. vm_compute. reflexivity. Qed.

Lemma served_tables_are_accepted_witness : exists b h s,
  service sample_parse_uri (fun _ => true) (fun _ => []) file_groups (fun _ => None) (fun _ => Err []) (fun _ _ => Ok tt)
    true ["users"] false file_document no_expansion [] b h s /\
  matched (sv_public s) "/users/7" = Some (str_of "users") /\ sv_last s = Some 200 /\
  forall host path method r, match_request (sv_public s) host path method = Some r -> r_auth r <> Machine.
Proof.
  pose proof sample_boots_and_reloads as H. unfold boots_and_reloads in H.
  pose proof (run_traces (world_answers readable) sample_boot 100) as Ht.
  change (Prog.run (world_answers readable) sample_boot 100).1 with sample_booted in Ht.
  destruct sample_booted as [b|e] eqn:Eb; [|discriminate H]. destruct (bt_reloader b) as [r|] eqn:Er; [|discriminate H].
  pose proof (run_traces (world_answers readable) (reload_tick file_groups (fun _ => None) true ["users"] r (bt_served b)) 200) as Ht2.
  cbv zeta in H. apply andb_true_iff in H as [[[[H1 _]%andb_true_iff H2]%andb_true_iff _]%andb_true_iff _].
  apply bool_decide_eq_true in H1, H2.
  eapply service_tick in Ht2 as Hs; [|apply service_boot; exact Ht|exact Er].
  eexists b, _, _. split; [exact Hs|]. split; [exact H1|]. split; [exact H2|].
  destruct (served_tables_are_accepted _ _ _ _ _ _ _ _ _ _ _ _ _ _ _ _ Hs) as (t & _ & _ & _ & _ & Hp & _). exact Hp.
Defined.

(** A file that cannot be parsed. *)
Lemma failed_reloads_change_nothing_witness :
  match sample_booted with
  | Ok b => forall r, bt_reloader b = Some r -> exists m rest,
      transcript (world_answers (Ok [])) (reload_tick file_groups (fun _ => None) true ["users"] r (bt_served b)) 200 =
        Event (Mtime (rr_path r)) m :: rest /\
      (m = sv_last (bt_served b) -> sample_tick (Ok []) r (bt_served b) = bt_served b)
  | Err _ => False
  end.
Proof.
  pose proof sample_boots_and_reloads as H. unfold boots_and_reloads in H.
  destruct sample_booted as [b|e] eqn:Eb; [|discriminate H]. intros r Er.
  pose proof (run_traces (world_answers (Ok [])) (reload_tick file_groups (fun _ => None) true ["users"] r (bt_served b)) 200) as Ht.
  destruct (failed_reloads_change_nothing _ _ _ _ _ _ _ _ Ht) as (m & rest & E & Hsame & _).
  exists m, rest. split; [exact E|]. intros Hm. apply (Hsame Hm).
Defined.

(** Two limiters, the first of which finds the store down. *)
Definition limiter_at (position : nat) : LimiterRef := {| lr_table := 1; lr_position := position; lr_kind := LimShared 0 "" 10 |}.
Definition shared_limiter : Limiter () :=
  {| counters := CountShared sample_counters; lim_limit := 10; lim_interval := from_secs 60; lim_mode := ModeApproximate |}.
Definition two_limiters : gmap LimiterRef (Limiter ()) := {[limiter_at 0 := shared_limiter; limiter_at 1 := shared_limiter]}.
Definition two_turns : list ((Z * list shared_op) * LimiterRef) :=
  [((1500000000, []), limiter_at 0); ((1500000000, []), limiter_at 1)].
Inductive Down := StoreDown.
#[export] Instance down_backend : Backend Down := {
  reconcile b _ := (b, Err (Shared.Unavailable []));
  backend_check_exact b _ _ _ := (b, Err (Shared.Unavailable []));
}.

Lemma sync_tick_gives_up_once_witness :
  (sync_tick map_to_list StoreDown two_limiters two_turns).2 !! limiter_at 1 =
    two_limiters !! limiter_at 1.
Proof.
  destruct (sync_tick map_to_list StoreDown two_limiters two_turns) as [b' heap'] eqn:E.
  assert (NoDup (map snd two_turns)) as Hd
    by (apply (bool_decide_unpack (NoDup _)); vm_compute; exact I).
  destruct (sync_tick_gives_up_once map_to_list _ _ _ _ _ Hd E) as (visited & rest & Hw & Hrest & Hv & _).
  cbn [snd]. apply Hrest. destruct visited as [|[now l] visited]; [by apply not_elem_of_nil|].
  injection Hw as <- <- Hw. destruct (Hv 0%nat _ _ eq_refl) as [Hs|[_ Hlen]].
  - exfalso. unfold synced_as in Hs. change (two_limiters !! limiter_at 0) with (Some shared_limiter) in Hs.
    destruct Hs as ([] & _ & Hs). vm_compute in Hs. discriminate Hs.
  - destruct visited; [|discriminate Hlen]. intros Hin%list_elem_of_singleton. discriminate Hin.
Defined.
