(* ===== verification/Offline.v ===== *)
(** * Offline policy tests (cli/policy.rs, cli.rs)

    [lagos test] decides, without running a gateway, which route a request of a
    test suite would take and whether its ownership bindings would hold, and
    compares that with what the suite expects.  The theorems relate its answers
    to those of the request filter. *)

From S2P Require Export Admission.

(** ** Suites *)

Inductive Listener := PublicListener | InternalListener.
#[export] Instance Listener_eq_dec : EqDecision Listener.
Proof. solve_decision. Defined.

Inductive ResultKind := KindRoute | KindDenied | KindNoRoute | KindOutsideMount | KindUnsafePath.
#[export] Instance ResultKind_eq_dec : EqDecision ResultKind.
Proof. solve_decision. Defined.

Inductive ClientKeyState := KeyRequired | KeyExempt | KeyOff.
#[export] Instance ClientKeyState_eq_dec : EqDecision ClientKeyState.
Proof. solve_decision. Defined.

Record Expected := {
  ex_result : ResultKind;
  ex_route : option str;
  ex_tier : option str;
  ex_upstream : option str;
  ex_upstream_path : option str;
  ex_bindings : option bool;
  ex_client_key : option ClientKeyState;
  ex_policy_keys : option bool;
}.

Record Actual := {
  ac_result : ResultKind;
  ac_route : option str;
  ac_tier : option str;
  ac_upstream : option str;
  ac_upstream_path : option str;
  ac_bindings : option bool;
  ac_client_key : option ClientKeyState;
  ac_policy_keys : option bool;
}.

Definition actual_simple (k : ResultKind) : Actual :=
  {| ac_result := k; ac_route := None; ac_tier := None; ac_upstream := None; ac_upstream_path := None;
     ac_bindings := None; ac_client_key := None; ac_policy_keys := None |}.

Definition client_key_state (rule : ClientKeyRule) : ClientKeyState :=
  match rule with RuleRequired => KeyRequired | RuleExempt _ => KeyExempt | RuleOff => KeyOff end.

Section Offline.
Context {N : Type} `{HN : JsonNumber N} `{HC : Crates N}.
(** [HeaderName::from_bytes] and [HeaderValue::from_str]. *)
Context (header_name_ok header_value_ok : str -> bool).

Record TestIdentity := { ti_subject : str; ti_claims : list (str * value N) }.

(** The headers are a [BTreeMap], in the order of its keys. *)
Record TestRequest := {
  tq_path : str;
  tq_method : str;
  tq_host : option str;
  tq_listener : Listener;
  tq_query : option str;
  tq_headers : list (str * str);
  tq_peer_ip : option str;
  tq_identity : option TestIdentity;
}.

Record TestCase := { tc_name : str; tc_request : TestRequest; tc_expect : Expected }.

Definition stated {A} (o : option A) : bool := match o with Some _ => true | None => false end.

Definition validate_case (c : TestCase) : result () str :=
  let rq := tc_request c in
  let e := tc_expect c in
  let? _ := refuse_if (trim (tc_name c) ==? []) (str_of "a test name is empty") in
  let? _ := refuse_if (negb (starts_with [b_slash] (tq_path rq)) || contains_byte 63 (tq_path rq))
    ("test `" ++ tc_name c ++ "`: request.path must start with / and exclude the query; use request.query") in
  let? _ := for_each (fun nv => refuse_if (negb (header_name_ok nv.1) || negb (header_value_ok nv.2))
      ("test `" ++ tc_name c ++ "`: invalid HTTP header fixture")) (tq_headers rq) in
  let? _ := refuse_if (match tq_identity rq with Some i => ti_subject i ==? [] | None => false end)
    ("test `" ++ tc_name c ++ "`: synthetic identity subject must not be empty") in
  let? _ := refuse_if (trim (tq_method rq) ==? []) ("test `" ++ tc_name c ++ "`: request.method is empty") in
  let? _ := if ex_result e ==? KindRoute then
              refuse_if (match ex_route e with Some id => id ==? [] | None => true end)
                ("test `" ++ tc_name c ++ "`: a route result requires expect.route")
            else
              refuse_if (stated (ex_route e) || stated (ex_tier e) || stated (ex_upstream e) || stated (ex_upstream_path e)
                         || stated (ex_bindings e) || stated (ex_client_key e) || stated (ex_policy_keys e))
                ("test `" ++ tc_name c
                 ++ "`: route, tier, upstream, upstream_path, bindings, and client_key apply only to a route result") in
  refuse_if (match ex_upstream_path e with
             | Some p => negb (starts_with [b_slash] p) || contains_byte 63 p
             | None => false
             end)
    ("test `" ++ tc_name c ++ "`: expect.upstream_path must start with / and exclude the query").

(** ** Deciding a request *)

Fixpoint strip_first_mount (mounts : list str) (p : str) : option (str * str) :=
  match mounts with
  | [] => None
  | base :: rest =>
      if base ==? [] then Some (base, p)
      else match (letO r := strip_prefix base p in
                  if r ==? [] then Some (base, []) else pair base <$> strip_prefix [b_slash] r) with
           | Some found => Some found
           | None => strip_first_mount rest p
           end
  end.
Definition strip_mount (c : ResolvedConfig N) (request_path : str) : option (str * str) :=
  strip_first_mount (base_paths c) (trim_start_matches (Z.eqb b_slash) request_path).

(** The headers of a fixture as [http::HeaderMap] holds them. *)
Definition fixture_headers (headers : list (str * str)) : header_map := fun name =>
  omap (fun nv => if header_name_ok nv.1 && header_value_ok nv.2 && (to_ascii_lowercase nv.1 ==? name)
                  then Some nv.2 else None) headers.

(** The map by lower-case name: of names alike, the last value is kept. *)
Definition fixture_header (headers : list (str * str)) (name : str) : option str :=
  snd <$> List.find (fun nv => to_ascii_lowercase nv.1 ==? to_ascii_lowercase name) (reverse headers).

Definition synthetic (i : TestIdentity) : Identity N :=
  {| subject := ti_subject i; issuer := []; audience := []; claims := ti_claims i |}.

Definition decide_bindings (rq : TestRequest) (route : RouteConfig) : option bool :=
  if is_nil (r_bindings route) then None
  else Some (match tq_identity rq with
             | None => false
             | Some i =>
                 forallb (fun b => Binding.permits percent_decode b (synthetic i)
                                     (trim_start_matches (Z.eqb 63) <$> tq_query rq) (fixture_header (tq_headers rq)))
                         (r_bindings route)
             end).

Definition decide_keys (rq : TestRequest) (route : RouteConfig) : bool :=
  let requirements :=
    match r_rate_limit route with Some r => [(rl_key r, rl_missing_key r)] | None => [] end
    ++ match r_concurrency route with Some c => [(concurrency_key c, cc_missing_key c)] | None => [] end in
  forallb (fun km => is_ok (admission_key to_str km.1 km.2 0 (r_id route)
      (if verifies (r_auth route) then ti_subject <$> tq_identity rq else None) None (tq_peer_ip rq)
      (fixture_headers (tq_headers rq)))) requirements.

Definition decide (c : ResolvedConfig N) (t : RouteTable) (rq : TestRequest) : Actual :=
  match strip_mount c (tq_path rq) with
  | None => actual_simple KindOutsideMount
  | Some (_, sub) =>
      match canonicalize_proxy_path percent_decode sub with
      | None => actual_simple KindUnsafePath
      | Some canonical =>
          if is_denied t canonical then actual_simple KindDenied
          else match match_request t (tq_host rq) canonical (tq_method rq) with
               | None => actual_simple KindNoRoute
               | Some route =>
                   {| ac_result := KindRoute; ac_route := Some (r_id route); ac_tier := Some (group (r_auth route));
                      ac_upstream := Some (r_upstream route);
                      ac_upstream_path := Some ("/" ++ upstream_path route canonical);
                      ac_bindings := decide_bindings rq route;
                      ac_client_key := Some (if tq_listener rq ==? InternalListener then KeyOff
                                             else client_key_state (client_key_rule c route canonical));
                      ac_policy_keys := Some (decide_keys rq route) |}
               end
      end
  end.

(** ** Comparing *)

(** What differs, without its rendering. *)
Inductive Difference := DiffResult | DiffMatched | DiffField (name : str).

Definition differs {A} `{EqDecision A} (name : str) (want got : option A) : list Difference :=
  match want with
  | Some w => if Some w ==? got then [] else [DiffField name]
  | None => []
  end.

Definition compare (e : Expected) (a : Actual) : list Difference :=
  (if ex_result e ==? ac_result a then []
   else DiffResult :: (if ac_result a ==? KindRoute then [DiffMatched] else []))
  ++ differs "route" (ex_route e) (ac_route a)
  ++ differs "tier" (ex_tier e) (ac_tier a)
  ++ differs "upstream" (ex_upstream e) (ac_upstream a)
  ++ differs "upstream_path" (ex_upstream_path e) (ac_upstream_path a)
  ++ differs "bindings" (ex_bindings e) (ac_bindings a)
  ++ differs "client_key" (ex_client_key e) (ac_client_key a)
  ++ differs "policy_keys" (ex_policy_keys e) (ac_policy_keys a).

(** The loop over the cases of a suite: how many fail, unless the suite itself is
    wrong. *)
Fixpoint run_cases (c : ResolvedConfig N) (public internal : RouteTable) (path : str) (names : list str)
    (cases : list TestCase) : result nat str :=
  match cases with
  | [] => Ok 0%nat
  | case :: rest =>
      let? _ := validate_case case in
      let? _ := refuse_if (existsb (fun n => n ==? tc_name case) names)
        ("duplicate test name `" ++ tc_name case ++ "` in " ++ path) in
      let selected := if tq_listener (tc_request case) ==? PublicListener then public else internal in
      let failed := negb (is_nil (compare (tc_expect case) (decide c selected (tc_request case)))) in
      let? failures := run_cases c public internal path (tc_name case :: names) rest in
      Ok (if failed then S failures else failures)
  end.

Definition run_suite (c : ResolvedConfig N) (t : RouteTable) (path : str) (cases : list TestCase) : result () str :=
  let? _ := refuse_if (is_nil cases) (path ++ " contains no tests") in
  let '(public, internal) := partition_by_listener t in
  let? failures := run_cases c public internal path [] cases in
  refuse_if (0 <? failures)%nat (show_u64 (Z.of_nat failures) ++ " policy test(s) failed").
End Offline.
Arguments TestRequest N : clear implicits.
Arguments TestCase N : clear implicits.

(** ** What a run of the gateway answers *)

Lemma rejecting_stops {N} `{HN : JsonNumber N} `{HC : Crates N} {A} (g : Gateway) P (rej : Rejection N) :
  (forall resp, rs_status resp = rej_status rej -> P resp) -> stops P (reject (A:=A) g rej).
Proof. intros H c tr r c' (_ & [= ->] & _)%ftraces_reject. by apply H. Qed.

Section Answers.
Context {N : Type} `{HN : JsonNumber N} `{HC : Crates N}.
Variable g : Gateway.
Abbreviation cfg := (gw_cfg g).
Abbreviation doc := (raw (gw_cfg g)).

Lemma stops_never_receive rq : stops (fun _ => False) (receive g rq).
Proof using. unfold receive, asks. step_stops. Qed.

Lemma stops_health rq : stops (fun resp => rs_status resp = 200 /\ rq_path rq = srv_health_path (gc_server doc)) (health g rq).
Proof using.
  unfold health, asks. destruct (rq_path rq ==? _) eqn:E; [|apply stops_ret]. apply bool_decide_eq_true in E.
  step_stops. by apply stops_answer.
Qed.

Lemma stops_early rq : stops (fun resp => rs_status resp = 413 \/ rs_status resp = 403) (early_refusals g rq).
Proof using.
  unfold early_refusals. destruct (content_length_over_limit _ _ _); [apply rejecting_stops; by left|].
  destruct (List.find _ _); [apply rejecting_stops; by right|apply stops_ret].
Qed.

(** Which of the answers before routing a response is. *)
Definition answered_early (rq : Request) (resp : Response) : Prop :=
  (rs_status resp = 200 /\ rq_path rq = srv_health_path (gc_server doc)) \/ rs_status resp = 413 \/ rs_status resp = 403.

(** The table in service was [t] whenever it was asked for. *)
Definition loads (t : RouteTable) (ev : event (gatewayE N)) : Prop :=
  match ev_ask ev in gatewayE _ X return X -> Prop with LoadTable => fun t' => t' = t | _ => fun _ => True end (ev_answer ev).

(** The part of the filter the offline decision is about. *)
Definition select_route (rq : Request) : stage (RouteTable * str * RouteConfig) :=
  let! path := resolve_path g rq in
  let! table := asks LoadTable in
  do! deny g table path in
  do! answer_preflight g rq table path in
  let! route := find_route g rq table path in
  aret (table, path, route).

Lemma route_request_select rq c tr o c' :
  ftraces (route_request g rq) c tr o c' ->
  (exists resp, o = Stop resp /\ answered_early rq resp) \/
  exists c1 t1 t2, tr = t1 ++ t2 /\ ftraces (select_route rq) c1 t2 o c'.
Proof using.
  unfold route_request. fold (select_route rq). unfold answered_early.
  intros [(resp & _ & []%stops_never_receive)|(t1 & t2 & [] & c1 & -> & _ & H)]%ftraces_bind.
  apply ftraces_bind in H as [(resp & -> & H%stops_health)|(t3 & t4 & [] & c2 & -> & _ & H)]; [left; exists resp; auto|].
  apply ftraces_bind in H as [(resp & -> & H%stops_early)|(t5 & t6 & [] & c3 & -> & _ & H)]; [left; exists resp; tauto|].
  right. exists c3, (t1 ++ t3 ++ t5), t6. by rewrite <-!app_assoc.
Qed.
End Answers.

(** ** Comparing *)

Lemma differs_nil {A} `{EqDecision A} name (want got : option A) :
  differs name want got = [] <-> forall w, want = Some w -> got = Some w.
Proof.
  unfold differs. destruct want as [w|]; [|by split]. case_bool_decide as E.
  - split; [|done]. by intros _ w' [= <-].
  - split; [done|]. intros H1. destruct E. by rewrite (H1 w).
Qed.

Lemma compare_nil e a :
  compare e a = [] <->
  ex_result e = ac_result a /\ (forall r, ex_route e = Some r -> ac_route a = Some r) /\
  (forall t, ex_tier e = Some t -> ac_tier a = Some t) /\ (forall u, ex_upstream e = Some u -> ac_upstream a = Some u) /\
  (forall p, ex_upstream_path e = Some p -> ac_upstream_path a = Some p) /\
  (forall b, ex_bindings e = Some b -> ac_bindings a = Some b) /\
  (forall k, ex_client_key e = Some k -> ac_client_key a = Some k) /\
  (forall b, ex_policy_keys e = Some b -> ac_policy_keys a = Some b).
Proof.
  unfold compare. rewrite !app_nil, !differs_nil. apply and_iff_compat_r.
  destruct (ex_result e ==? ac_result a) eqn:E; breflect; split; done.
Qed.

(** ** The offline decision is the gateway's *)

Section Predicts.
Context {N : Type} `{HN : JsonNumber N} `{HC : Crates N}.
Context (header_name_ok header_value_ok : str -> bool).
Variable g : Gateway (N:=N).
Abbreviation cfg := (gw_cfg g).
Abbreviation decide := (decide header_name_ok header_value_ok).

(** A fixture and the request it stands for, at a gateway built by
    [Gateway::new] and, for the internal listener, [for_machine_tier]. *)
Record same_request (rq : Request) (tq : TestRequest N) : Prop := {
  sq_path : rq_path rq = tq_path tq;
  sq_method : rq_method rq = tq_method tq;
  sq_host : header_str rq "host" = tq_host tq;
  sq_listener : gw_serves_machine g = (tq_listener tq ==? InternalListener);
  sq_mounts : gw_base_paths g = base_paths cfg;
}.

Lemma strip_mount_base mounts p : snd <$> strip_first_mount mounts p = strip_mounts mounts p.
Proof using.
  induction mounts as [|base mounts IH]; [done|]. cbn [strip_first_mount strip_mounts].
  destruct (base ==? []); [done|]. destruct (strip_prefix base p) as [[|x r]|]; cbn [mbind option_bind]; [done| |done].
  rewrite bool_decide_false by done. cbn [strip_prefix]. destruct (Z.eqb_spec b_slash x) as [<-|Hne].
  - by rewrite Z.eqb_refl.
  - rewrite (proj2 (Z.eqb_neq x b_slash)) by congruence. done.
Qed.

(** The result the offline tool gives for what the gateway selects. *)
Definition selection (rq : Request) (t : RouteTable) : ResultKind + (str * RouteConfig) :=
  match strip_base g (rq_path rq) with
  | None => inl KindOutsideMount
  | Some sub =>
      match canonicalize_proxy_path percent_decode sub with
      | None => inl KindUnsafePath
      | Some path =>
          if is_denied t path then inl KindDenied
          else match match_request t (header_str rq "host") path (rq_method rq) with
               | None => inl KindNoRoute
               | Some route => inr (path, route)
               end
      end
  end.

Lemma decide_selection rq tq t :
  same_request rq tq ->
  match selection rq t with
  | inl k => decide cfg t tq = actual_simple k /\ k <> KindRoute
  | inr (path, route) =>
      ac_result (decide cfg t tq) = KindRoute /\ ac_route (decide cfg t tq) = Some (r_id route) /\
      ac_tier (decide cfg t tq) = Some (group (r_auth route)) /\ ac_upstream (decide cfg t tq) = Some (r_upstream route) /\
      ac_upstream_path (decide cfg t tq) = Some ("/" ++ upstream_path route path) /\
      ac_client_key (decide cfg t tq) =
        Some (if gw_serves_machine g then KeyOff else client_key_state (client_key_rule cfg route path))
  end.
Proof using.
  intros [Hp Hm Hh Hl Hb]. unfold selection, Offline.decide, strip_mount, strip_base.
  rewrite Hp, Hm, Hh, Hl, Hb, <-strip_mount_base. destruct (strip_first_mount _ _) as [[base sub]|]; [|done]. cbn [fmap option_fmap option_map snd].
  destruct (canonicalize_proxy_path _ sub) as [path|]; [|done]. destruct (is_denied t path); [done|].
  destruct (match_request _ _ _ _) as [route|]; [|done]. by destruct (tq_listener tq ==? InternalListener).
Qed.

(** A refusal that is a 404. *)
Definition stops_404 {A} (o : flow Response A) : Prop := exists resp, o = Stop resp /\ rs_status resp = 404.

Lemma or_reject_404 {A} (x : option A) event reason c tr o c' :
  ftraces (or_reject g x (not_found event reason)) c tr o c' ->
  tr = [] /\ match x with Some a => o = Go a | None => stops_404 o end.
Proof using. destruct x; cbn [or_reject]; intros H; run_inv; split; try done. by eexists. Qed.

Lemma resolve_path_traces rq c tr o c' :
  ftraces (resolve_path g rq) c tr o c' ->
  tr = [] /\ match (letO sub := strip_base g (rq_path rq) in canonicalize_proxy_path percent_decode sub) with
             | Some path => o = Go path
             | None => stops_404 o
             end.
Proof using.
  unfold resolve_path. intros [(resp & _ & H)|(t1 & t2 & [] & c1 & -> & H1 & H)]%ftraces_bind; [by run_inv|].
  apply ftraces_update in H1 as (-> & _ & ->). apply ftraces_bind in H as [(resp & -> & [-> H]%or_reject_404)|(t3 & t4 & sub & c2 & -> & [-> H2]%or_reject_404 & H)].
  { destruct (strip_base g (rq_path rq)) as [sub|]; [done|]. done. }
  destruct (strip_base g (rq_path rq)) as [sub'|]; [injection H2 as <-|by destruct H2 as (? & ? & _)]. cbn [mbind option_bind].
  apply ftraces_bind in H as [(resp & -> & [-> H]%or_reject_404)|(t5 & t6 & path & c3 & -> & [-> H3]%or_reject_404 & H)].
  { by destruct (canonicalize_proxy_path _ sub). }
  destruct (canonicalize_proxy_path _ sub); [injection H3 as <-|by destruct H3 as (? & ? & _)]. run_inv. done.
Qed.

(** The answer to a preflight. *)
Definition answered_preflight (rq : Request) (resp : Response) : Prop :=
  rs_status resp = 204 /\ rq_method rq = "OPTIONS".

(** What the gateway does with a selection. *)
Lemma select_route_traces rq t c tr o c' :
  Forall (loads t) tr -> ftraces (select_route g rq) c tr o c' ->
  match o with
  | Go (t', path, route) => t' = t /\ selection rq t = inr (path, route)
  | Stop resp => answered_preflight rq resp \/
                 match selection rq t with inl _ => rs_status resp = 404 | inr _ => rs_status resp = 503 end
  end.
Proof using.
  intros Hload Hrun. unfold select_route in Hrun. unfold selection.
  apply ftraces_bind in Hrun as [(resp & -> & [-> H]%resolve_path_traces)|(t1 & t2 & path & c1 & -> & [-> H1]%resolve_path_traces & H)].
  { destruct (strip_base g (rq_path rq)) as [sub|]; cbn [mbind option_bind] in H;
      [destruct (canonicalize_proxy_path _ sub); [done|]|]; destruct H as (? & [= <-] & ?); by right. }
  destruct (strip_base g (rq_path rq)) as [sub|]; [|by destruct H1 as (? & ? & _)]. cbn [mbind option_bind] in H1.
  destruct (canonicalize_proxy_path _ sub) as [path'|]; [injection H1 as <-|by destruct H1 as (? & ? & _)].
  apply ftraces_bind in H as [(resp & _ & H)|(t3 & t4 & table & c2 & -> & H1 & H)]; [by ftrace_inv|].
  apply ftraces_asks in H1 as (x & -> & [= <-] & ->).
  apply Forall_inv in Hload as Ht. cbn in Ht. subst table. clear Hload. unfold deny in H.
  destruct (is_denied t path) eqn:Ed; [by run_inv; right|].
  apply ftraces_bind in H as [(resp & _ & H)|(t5 & t6 & [] & c3 & -> & H1 & H)]; [by ftrace_inv|]. clear H1.
  apply ftraces_bind in H as [(resp & -> & H)|(t7 & t8 & [] & c4 & -> & _ & H)].
  { unfold answer_preflight in H. destruct (rq_method rq ==? "OPTIONS") eqn:Em; [|by ftrace_inv].
    apply bool_decide_eq_true in Em. destruct (preflight_headers g rq t path); [|by ftrace_inv].
    left. ftrace_inv. done. }
  unfold find_route in H. destruct (match_request t _ path _) as [route|]; cbn [or_reject] in H; [|by run_inv; right].
  run_inv; [by right|done].
Qed.

(** C23: what the offline tests promise, the gateway does: where a case agrees
    with the offline decision over a table, then whenever a gateway serving that
    table routes the request the case stands for, the case expects a route and
    the route taken is the one it names, in the tier, to the upstream, under the
    upstream path and with the client-key requirement it states; where the case
    expects a refusal no run ever routes the request, and where it expects a
    route none ends in a 404; what can answer before or instead is the health
    endpoint, a refusal by size or forbidden header, a preflight, or an upstream
    that is not configured. *)
Theorem passing_tests_predict_the_gateway rq tq t e c tr o c'
  (Hsame : same_request rq tq)
  (Hload : Forall (loads t) tr)
  (Hpass : compare e (decide cfg t tq) = [])
  (Hrun : ftraces (route_request g rq) c tr o c') :
  match o with
  | Go (t', path, route) =>
      t' = t /\ ex_result e = KindRoute /\ (forall id, ex_route e = Some id -> r_id route = id) /\
      (forall tier, ex_tier e = Some tier -> group (r_auth route) = tier) /\
      (forall u, ex_upstream e = Some u -> r_upstream route = u) /\
      (forall p, ex_upstream_path e = Some p -> "/" ++ upstream_path route path = p) /\
      (forall k, ex_client_key e = Some k ->
         k = if gw_serves_machine g then KeyOff else client_key_state (client_key_rule cfg route path))
  | Stop resp =>
      answered_early g rq resp \/ answered_preflight rq resp \/
      rs_status resp = if ex_result e ==? KindRoute then 503 else 404
  end.
Proof using.
  apply compare_nil in Hpass as (Hk & Hr & Ht & Hu & Hp & _ & Hc & _).
  apply route_request_select in Hrun as [(resp & -> & He)|(c1 & t1 & t2 & -> & Hs)]; [by left|].
  apply (select_route_traces rq t) in Hs; [|by apply Forall_app in Hload as [_ ?]].
  pose proof (decide_selection rq tq t Hsame) as Hd. destruct o as [resp|[[t' path] route]].
  - right. destruct Hs as [Hs|Hs]; [by left|right]. rewrite Hk. destruct (selection rq t) as [k|[path route]].
    + destruct Hd as [-> Hne]. cbn. by rewrite bool_decide_false.
    + destruct Hd as [-> _]. by rewrite bool_decide_true.
  - destruct Hs as [-> Hs]. rewrite Hs in Hd. destruct Hd as (E1 & E2 & E3 & E4 & E5 & E6). split; [done|].
    rewrite E1 in Hk. rewrite E2 in Hr. rewrite E3 in Ht. rewrite E4 in Hu. rewrite E5 in Hp. rewrite E6 in Hc.
    split; [done|]. split_and!; intros x Hx; [specialize (Hr x Hx)|specialize (Ht x Hx)|specialize (Hu x Hx)|specialize (Hp x Hx)
      |specialize (Hc x Hx)]; congruence.
Qed.

(** ** Bindings *)

Lemma find_snoc {A} (f : A -> bool) l a :
  List.find f (l ++ [a]) = match List.find f l with Some x => Some x | None => if f a then Some a else None end.
Proof using. induction l as [|x l IH]; cbn; [done|]. by destruct (f x). Qed.

Lemma fixture_cons nv headers name :
  fixture_headers header_name_ok header_value_ok (nv :: headers) name =
    (if header_name_ok nv.1 && header_value_ok nv.2 && (to_ascii_lowercase nv.1 ==? name) then [nv.2] else [])
    ++ fixture_headers header_name_ok header_value_ok headers name.
Proof using. unfold fixture_headers. cbn [omap list_omap]. by destruct (_ && _). Qed.

(** A fixture that names each header once. *)
Record plain_fixture (headers : list (str * str)) : Prop := {
  pf_ok : forall nv, nv ∈ headers -> header_name_ok nv.1 = true /\ header_value_ok nv.2 = true;
  pf_once : NoDup (map (fun nv => to_ascii_lowercase nv.1) headers);
}.

Lemma fixture_absent headers name :
  to_ascii_lowercase name ∉ map (fun nv => to_ascii_lowercase nv.1) headers ->
  fixture_headers header_name_ok header_value_ok headers (to_ascii_lowercase name) = [] /\ fixture_header headers name = None.
Proof using.
  unfold fixture_header. induction headers as [|nv headers IH]; [done|]. cbn [map]. intros [Hne Hn]%not_elem_of_cons.
  destruct (IH Hn) as [H1 H2]. rewrite reverse_cons, find_snoc.
  destruct (List.find _ (reverse headers)); [done|]. rewrite bool_decide_false by congruence. split; [|done].
  by rewrite fixture_cons, bool_decide_false, andb_false_r by congruence.
Qed.

Lemma fixture_once headers name :
  plain_fixture headers ->
  fixture_headers header_name_ok header_value_ok headers (to_ascii_lowercase name) =
    match fixture_header headers name with Some v => [v] | None => [] end.
Proof using.
  unfold fixture_header. induction headers as [|nv headers IH]; [done|]. intros [Hok Hd]. cbn [map] in Hd.
  apply list.NoDup_cons in Hd as [Hn Hd].
  assert (plain_fixture headers) as Hp by (split; [intros x Hx; apply Hok; by right|done]).
  rewrite reverse_cons, find_snoc, fixture_cons. destruct (Hok nv) as [-> ->]; [by left|]. cbn [andb].
  destruct (base.decide (to_ascii_lowercase nv.1 = to_ascii_lowercase name)) as [E|E].
  - rewrite bool_decide_true by done. rewrite E in Hn. destruct (fixture_absent headers name Hn) as [H1 H2].
    unfold fixture_header in H2. destruct (List.find _ (reverse headers)); [done|].
    by rewrite H1.
  - rewrite bool_decide_false, (IH Hp) by done.
    by destruct (List.find _ (reverse headers)).
Qed.

Lemma check_each_binding_traces rq id bindings c tr o c' :
  ftraces (check_each_binding g rq id bindings) c tr o c' ->
  (o = Go tt <-> forallb (fun b => Binding.permits percent_decode b id (rq_query rq) (sole_header rq)) bindings = true).
Proof using.
  revert c tr. induction bindings as [|b bindings IH]; intros c tr; cbn [check_each_binding forallb].
  - intros H. by ftrace_inv.
  - destruct (Binding.permits _ b id _ _); [by intros H%IH|]. intros H. run_inv; by split.
Qed.

(** Whether a binding holds depends on the subject and the claims alone, and on
    the headers by what they give for its name. *)
Lemma permits_same b (id id' : Identity N) query h h' :
  subject id = subject id' -> claims id = claims id' -> (forall name, h name = h' name) ->
  Binding.permits percent_decode b id query h = Binding.permits percent_decode b id' query h'.
Proof using.
  intros Hs Hc Hh. unfold Binding.permits, supplied, proven, claim_at. rewrite Hs, Hc. destruct (Binding.source b); by rewrite ?Hh.
Qed.

(** The offline answer on ownership is the gateway's: for a fixture that
    names each header once, and a request with its query and headers from a
    caller with the synthetic identity's subject and claims, the gateway lets the
    request past its bindings exactly when the offline decision says they hold;
    without an identity both refuse. *)
Lemma offline_bindings_agree rq tq route identity ok c tr o c'
  (Hdecided : decide_bindings tq route = Some ok)
  (Hquery : rq_query rq = trim_start_matches (Z.eqb 63) <$> tq_query tq)
  (Hheaders : forall name, rq_headers rq name = fixture_headers header_name_ok header_value_ok (tq_headers tq) name)
  (Hfixture : plain_fixture (tq_headers tq))
  (Htext : forall v, header_value_ok v = true -> to_str v = Some v)
  (Hcaller : match identity, tq_identity tq with
             | Some id, Some i => subject id = ti_subject i /\ claims id = ti_claims i
             | None, None => True
             | _, _ => False
             end)
  (Hrun : ftraces (check_bindings g rq route identity) c tr o c') :
  o = Go tt <-> ok = true.
Proof using.
  unfold decide_bindings in Hdecided. unfold check_bindings in Hrun. destruct (is_nil (r_bindings route)); [done|].
  injection Hdecided as <-. destruct identity as [id|], (tq_identity tq) as [i|]; try done; cbn [or_reject] in Hrun; [|by run_inv].
  apply ftraces_bind in Hrun as [(resp & _ & H)|(t1 & t2 & x & c1 & -> & H1 & H)]; [by ftrace_inv|].
  apply ftraces_ret in H1 as (-> & [= <-] & ->). rewrite (check_each_binding_traces _ _ _ _ _ _ _ H), Hquery.
  assert (forall name, sole_header rq name = fixture_header (tq_headers tq) name) as Hh.
  { intros name. unfold sole_header, hget_all. rewrite Hheaders, fixture_once by done.
    destruct (fixture_header (tq_headers tq) name) as [v|] eqn:Ev; [|done]. rewrite Htext; [done|].
    unfold fixture_header in Ev. destruct (List.find _ _) as [nv|] eqn:Ef; [|done]. injection Ev as <-.
    apply List.find_some in Ef as [Hin%list_elem_of_In _]. rewrite elem_of_reverse in Hin. by apply (pf_ok _ Hfixture). }
  assert (forall l, forallb (fun b => Binding.permits percent_decode b x (trim_start_matches (Z.eqb 63) <$> tq_query tq) (sole_header rq)) l
    = forallb (fun b => Binding.permits percent_decode b (synthetic i) (trim_start_matches (Z.eqb 63) <$> tq_query tq)
        (fixture_header (tq_headers tq))) l) as ->; [|done].
  intros l. induction l as [|b l IH]; [done|]. cbn [forallb]. rewrite IH. f_equal.
  destruct Hcaller. by apply permits_same.
Qed.
End Predicts.

(** ** Witnesses *)

Definition users_fixture : TestRequest Z :=
  {| tq_path := "/api/v1/users/4"; tq_method := "GET"; tq_host := Some (str_of "gw.example"); tq_listener := PublicListener;
     tq_query := Some (str_of "?user=alice"); tq_headers := [(str_of "host", str_of "gw.example")];
     tq_peer_ip := Some (str_of "192.0.2.1"); tq_identity := Some {| ti_subject := "alice"; ti_claims := [] |} |}.
Definition users_expected (route : str) : Expected :=
  {| ex_result := KindRoute; ex_route := Some route; ex_tier := None; ex_upstream := Some (str_of "users");
     ex_upstream_path := Some (str_of "/users/4"); ex_bindings := None; ex_client_key := Some KeyRequired;
     ex_policy_keys := None |}.
Definition any_text (s : str) : bool := true.
Definition users_routing (g : Gateway) : stage (RouteTable * str * RouteConfig) := route_request g users_request.
Definition users_route : str := "users".
Definition users_predicted : bool :=
  match sample_resolve with
  | Ok r => let g := sample_gateway r in
            is_nil (compare (users_expected users_route) (decide any_text any_text r users_table users_fixture))
            && match (sample_run g users_routing).1.1 with Go _ => true | Stop _ => false end
            && (base_paths r ==? gw_base_paths g)
  | Err _ => false
  end.
Lemma users_are_predicted : users_predicted = true.
Proof. vm_compute. reflexivity. Qed.

Lemma quietly_loads {A} (m : prog (gatewayE Z) A) w : Forall (loads users_table) (transcript (@quietly) m w).
Proof.
  revert w. induction m as [a|X e k IH]; intros w; cbn; constructor; [|apply IH]. by destruct e.
Qed.

Lemma passing_tests_predict_the_gateway_witness :
  match sample_resolve with
  | Ok r => exists path route, (sample_run (sample_gateway r) users_routing).1.1 = Go (users_table, path, route) /\
              r_id route = users_route /\ "/" ++ upstream_path route path = str_of "/users/4"
  | Err _ => False
  end.
Proof.
  pose proof users_are_predicted as H. unfold users_predicted in H. destruct sample_resolve as [r|e] eqn:Er; [|discriminate H].
  cbv zeta in H. apply andb_true_iff in H as [[H1 H2]%andb_true_iff H3%bool_decide_eq_true].
  pose proof (sample_runs (sample_gateway r) users_routing) as Hrun.
  destruct (sample_run (sample_gateway r) users_routing).1.1 as [resp|[[t path] route]] eqn:Eo; [discriminate H2|].
  assert (same_request (sample_gateway r) users_request users_fixture) as Hsame by (split; reflexivity).
  assert (compare (users_expected users_route) (decide any_text any_text (gw_cfg (sample_gateway r)) users_table users_fixture) = [])
    as Hpass by (change (gw_cfg (sample_gateway r)) with r; destruct (compare _ _); [reflexivity|discriminate H1]).
  destruct (passing_tests_predict_the_gateway any_text any_text (sample_gateway r) users_request users_fixture users_table
    _ _ _ _ _ Hsame (quietly_loads _ _) Hpass Hrun) as (-> & _ & Hr & _ & _ & Hp & _).
  exists path, route. split; [reflexivity|]. split; [exact (Hr _ eq_refl)|exact (Hp _ eq_refl)].
Defined.

Definition tenant_route : RouteConfig :=
  {| r_id := "t"; r_host := []; r_hosts := []; r_prefix := "t"; r_upstream := "users"; r_methods := []; r_sse := false;
     r_strip_prefix := false; r_enabled := true; r_client_key := None; r_bind := [];
     r_bindings := [{| Binding.source := Header "x-tenant"; target := Subject |}]; r_cache := false;
     r_cache_authenticated := false; r_retry := None; r_retry_policy := None; r_rate_limit := None; r_limiter := None;
     r_concurrency := None; r_extensions := []; r_auth := Required;
     r_policy_origins := {| po_methods := OriginBuiltIn; po_retry := OriginBuiltIn; po_rate_limit := OriginBuiltIn |} |}.
Definition tenant_fixture (headers : list (str * str)) : TestRequest Z :=
  {| tq_path := "/t"; tq_method := "GET"; tq_host := None; tq_listener := PublicListener; tq_query := None;
     tq_headers := headers; tq_peer_ip := None; tq_identity := Some {| ti_subject := "acme"; ti_claims := [] |} |}.
Definition tenant_request (headers : list (str * str)) : Request :=
  {| rq_method := "GET"; rq_path := "/t"; rq_query := None; rq_headers := fixture_headers any_text any_text headers;
     rq_client_addr := None |}.
Definition acme : Identity Z := {| subject := "acme"; issuer := []; audience := []; claims := [] |}.

Definition one_tenant : list (str * str) := [(str_of "X-Tenant", str_of "acme")].
Definition visible (s : str) : bool := forallb (in_range 32 126) s.

Lemma offline_bindings_agree_witness :
  match sample_resolve with
  | Ok r => forall tr o c', ftraces (check_bindings (sample_gateway r) (tenant_request one_tenant) tenant_route (Some acme)) new_ctx tr o c' ->
              o = Go tt
  | Err _ => False
  end.
Proof.
  pose proof users_are_predicted as H. unfold users_predicted in H. destruct sample_resolve as [r|e] eqn:Er; [|discriminate H].
  intros tr o c' Hrun.
  apply (offline_bindings_agree any_text visible (sample_gateway r) (tenant_request one_tenant) (tenant_fixture one_tenant)
    tenant_route (Some acme) true new_ctx tr o c'); try reflexivity.
  - split.
    + intros nv ->%list_elem_of_singleton. split; reflexivity.
    + apply (bool_decide_unpack (NoDup _)). vm_compute. exact I.
  - intros v Hv. cbn. unfold visible in Hv. rewrite Hv. reflexivity.
  - split; reflexivity.
  - exact Hrun.
Defined.

(** A fixture that gives a header twice, in different case: the offline map keeps
    the last of the two and reports that the binding holds; the gateway, which
    gets both, refuses the request as ambiguous. *)
Definition two_tenants : list (str * str) := [(str_of "X-Tenant", str_of "evil"); (str_of "x-tenant", str_of "acme")].
Lemma repeated_fixture_headers_collapse :
  decide_bindings (tenant_fixture two_tenants) tenant_route = Some true /\
  match sample_resolve with
  | Ok r => forall tr o c', ftraces (check_bindings (sample_gateway r) (tenant_request two_tenants) tenant_route (Some acme)) new_ctx tr o c' ->
              o <> Go tt
  | Err _ => False
  end.
Proof.
  split; [vm_compute; reflexivity|].
  pose proof users_are_predicted as H. unfold users_predicted in H. destruct sample_resolve as [r|e] eqn:Er; [|discriminate H].
  intros tr o c' Hrun. unfold check_bindings in Hrun. cbn [is_nil r_bindings tenant_route or_reject] in Hrun.
  apply ftraces_bind in Hrun as [(resp & _ & Hr)|(t1 & t2 & x & c1 & -> & H1 & Hr)]; [by ftrace_inv|].
  apply ftraces_ret in H1 as (-> & [= E] & ->). apply check_each_binding_traces in Hr. intros Ho. apply Hr in Ho.
  rewrite E in Ho. vm_compute in Ho. discriminate Ho.
Qed.
