(* ===== verification/Edge.v ===== *)
(** * Connections at the edge (accept.rs, downstream.rs)

    What bounds a connection before there is a request: the limit on how fast one
    address opens connections, in a store that may drop a count, and the deadlines of a request's header and of the
    whole exchange. *)

From S2P Require Export Upstream Limiter.

(** ** Accepting connections *)

Section Accept.
Context {R : Type} `{RateSketch R}.

(** [ConnectionLimiter]: a limiter by the socket's address. *)
Definition connection_limiter (cfg : ConnectionLimitConfig) : Limiter R := limiter_new (as_rate_limit cfg).

Definition admits (m : Limiter R) (ip : IpAddr) (now : Z) : Limiter R * bool :=
  let '(m, d) := check_at 0 (show_ip_addr ip) now 0 m in (m, allowed d).

(** [should_accept]: a peer without an address is not counted. *)
Definition should_accept (m : Limiter R) (addr : option SocketAddr) (now : Z) : Limiter R * bool :=
  match addr with
  | None => (m, true)
  | Some a => admits m a.1 now
  end.

(** What happens to a limiter: a connection is opened, or its bounded store
    drops the count of an address, for want of room or because it was idle. *)
Inductive edge_event := Opens (addr : option SocketAddr) (now : Z) | Forgets (key : str).

Definition forget (key : str) (m : Limiter R) : Limiter R :=
  match counters m with CountExact s => with_counters (CountExact (evict s key)) m | _ => m end.

(** The answers to a listener's connections, in order. *)
Fixpoint accept_all (m : Limiter R) (evs : list edge_event) : list bool :=
  match evs with
  | [] => []
  | Opens addr now :: rest => let '(m, ok) := should_accept m addr now in ok :: accept_all m rest
  | Forgets key :: rest => accept_all (forget key m) rest
  end.

(** The answers to the connections from one address, as text. *)
Definition from_key (key : str) (addr : option SocketAddr) : bool :=
  match addr with Some a => show_ip_addr a.1 ==? key | None => false end.
Fixpoint answers_to (key : str) (evs : list edge_event) (oks : list bool) : list (Z * bool) :=
  match evs, oks with
  | Opens addr now :: evs, ok :: oks =>
      if from_key key addr then (now, ok) :: answers_to key evs oks else answers_to key evs oks
  | Forgets _ :: evs, oks => answers_to key evs oks
  | _, _ => []
  end.

(** ** One address *)

Lemma check_exact_cell l interval s key now other :
  store_wf s -> let '(s', d) := WindowStore.check_exact l interval s key now in
  store_wf s' /\ (other <> key -> cell s' other = cell s other) /\
  cell s' key = Some (window_check now l interval (default (window_new now) (cell s key))).1 /\
  d = Some (window_check now l interval (default (window_new now) (cell s key))).2.
Proof using.
  intros Hs. unfold WindowStore.check_exact. destruct (get_with s key (window_new now)) as [s1 c] eqn:E.
  destruct (get_with_spec _ _ _ _ _ Hs E) as (Hwf & Hk & Hother & Hself).
  assert (st_heap s1 !! c = Some (default (window_new now) (cell s key))) as Hc.
  { unfold cell in Hself at 1. by rewrite Hk in Hself. }
  destruct (modify_spec s1 c (window_check now l interval) _ Hwf Hc) as (M1 & M2 & M3 & M4).
  destruct (modify s1 c _) as [s2 d]. simpl in *. split_and!; [done| |by apply M3|done].
  intros Hne. rewrite M4, Hother; [done..|]. intros Ho. apply Hne. by eapply (sw_inj _ Hwf).
Qed.

Definition times_of (key : str) (evs : list edge_event) : list Z :=
  omap (fun e => match e with Opens addr now => if from_key key addr then Some now else None | Forgets _ => None end) evs.

(** What one address is answered depends on its own connections alone, so long
    as its count is kept. *)
Lemma answers_to_window (m : Limiter R) s key evs :
  counters m = CountExact s -> store_wf s -> 0 < lim_interval m -> Forgets key ∉ evs ->
  map snd (answers_to key evs (accept_all m evs)) =
  map allowed (window_run (lim_limit m) (lim_interval m)
    (default (window_new (default 0 (head (times_of key evs)))) (cell s key)) (times_of key evs)).2.
Proof using.
  revert m s. induction evs as [|[[a|] now|other] evs IH]; intros m s Hm Hs Hi Hkept; [done| | |].
  all: apply not_elem_of_cons in Hkept as [Hne Hkept].
  - cbn [accept_all should_accept]. unfold admits, check_at. rewrite Hm.
    pose proof (check_exact_cell (lim_limit m) (lim_interval m) s (show_ip_addr a.1) now key Hs) as Hc.
    destruct (WindowStore.check_exact _ _ s _ now) as [s' d]. destruct Hc as (Hwf & Hother & Hself & ->).
    cbn [default]. set (m' := with_counters (CountExact s') m). specialize (IH m' s' eq_refl Hwf Hi Hkept).
    change (lim_limit m') with (lim_limit m) in IH. change (lim_interval m') with (lim_interval m) in IH.
    cbn [answers_to from_key]. unfold times_of. cbn [omap list_omap from_key]. fold (times_of key evs).
    destruct (show_ip_addr a.1 ==? key) eqn:E; breflect.
    + cbn [map snd head default]. rewrite E in *. rewrite IH, Hself. cbn [default window_run].
      destruct (window_check now _ _ _) as [w1 d1]. cbn [fst snd].
      unfold id. by destruct (window_run _ _ w1 _) as [w2 ds].
    + rewrite IH, Hother by congruence. done.
  - cbn [accept_all should_accept answers_to from_key]. unfold times_of. cbn [omap list_omap from_key]. by apply IH.
  - cbn [accept_all answers_to]. unfold times_of, forget. rewrite Hm. cbn [omap list_omap]. fold (times_of key evs).
    rewrite (IH _ (evict s other)) by (done || by apply evict_wf). unfold cell. cbn [evict st_keys st_heap].
    by rewrite lookup_delete_ne by congruence.
Qed.

(** One address opens connections at its rate and nobody else pays for it:
    of the connections of an address that come within one interval of its first,
    however many other addresses connect in between, and so long as the bounded
    store keeps its count, exactly the configured number is accepted, the
    earliest, and every later one is dropped; the source port plays no part; and
    a peer that has no address is never refused. *)
Lemma bursts_are_cut_off_per_address (cfg : ConnectionLimitConfig) evs key start
  (Hlimit : 0 <= cl_connections cfg < 2 ^ 53) (Hinterval : 0 < cl_interval cfg <= duration_max)
  (Hkept : Forgets key ∉ evs)
  (Hfirst : head (times_of key evs) = Some start)
  (Hburst : Forall (fun t => start <= t < start + cl_interval cfg) (times_of key evs)) :
  map snd (answers_to key evs (accept_all (connection_limiter cfg) evs)) =
    map (fun i => Z.of_nat i <? cl_connections cfg) (seq 0 (length (times_of key evs))) /\
  forall m now, (should_accept m None now).2 = true.
Proof using.
  split; [|done]. rewrite (answers_to_window _ store_empty) by (done || apply store_wf_empty || apply Hinterval).
  rewrite Hfirst. unfold cell. cbn [store_empty st_keys]. rewrite lookup_empty. cbn [mbind option_bind default].
  pose proof (window_run_fresh (cl_connections cfg) (cl_interval cfg) start 0 (times_of key evs) Hlimit Hinterval
    ltac:(lia) Hburst) as Hrun.
  apply (f_equal (map fst)) in Hrun. rewrite !map_map in Hrun. exact Hrun.
Qed.
End Accept.

(** ** Deadlines *)

(** How an exchange under the deadlines ends: with its result, cut off, or not
    at all. *)
Inductive Ending (T : Type) := Finished (at_ : Z) (result : T) | Cut (at_ : Z) | Unending.
Arguments Finished {T} _ _.
Arguments Cut {T} _.
Arguments Unending {T}.

Section Deadline.
Context {T : Type}.

(** [wait_for_header]: the exchange ends at [finished], where it does, and its
    header is parsed at [parsed], where it is.  The branches are polled in
    order. *)
Definition wait_for_header (start : Z) (parsed : option Z) (finished : option (Z * T)) (deadline : Z) : Ending T :=
  let expiry := start + deadline in
  match finished with
  | Some (t, r) =>
      if (t <=? expiry) || match parsed with Some p => p <=? expiry | None => false end then Finished t r else Cut expiry
  | None => if match parsed with Some p => p <=? expiry | None => false end then Unending else Cut expiry
  end.

(** [request_budget]: an instant that does not exist is no time at all. *)
Definition request_budget (start : Z) (exchange : Ending T) (total : option Z) : Ending T :=
  match total with
  | None => exchange
  | Some total =>
      match instant_checked_add start total with
      | None => Cut start
      | Some deadline =>
          match exchange with
          | Finished t r => if t <=? deadline then Finished t r else Cut deadline
          | Cut t => Cut (Z.min t deadline)
          | Unending => Cut deadline
          end
      end
  end.

(** [DeadlineProxy::process_new_http]. *)
Definition process_new_http (t : Timeouts) (start : Z) (parsed : option Z) (finished : option (Z * T)) : Ending T :=
  request_budget start (wait_for_header start parsed finished (t_downstream_read t)) (t_request_total t).

Definition ends_by (t : Z) (e : Ending T) : Prop :=
  match e with Finished u _ | Cut u => u <= t | Unending => False end.

(** No connection is held past its budgets: a client that has not completed
    its header when the read deadline passes, however it trickles, is cut off by
    then; one whose header was complete in time is never cut off by that
    deadline; with a total budget, in an exchange begun at an instant to which
    the clock can add it, every exchange ends within it; and an exchange that
    ends in both budgets ends with its own result. *)
Lemma no_connection_outlives_its_budgets (t : Timeouts) start parsed finished
  (Hfits : forall total, t_request_total t = Some total -> is_Some (instant_checked_add start total)) :
  let e := process_new_http t start parsed finished in
  (match parsed with Some p => start + t_downstream_read t < p | None => True end ->
     ends_by (start + t_downstream_read t) e) /\
  (forall total, t_request_total t = Some total -> ends_by (start + total) e) /\
  (forall p, parsed = Some p -> p <= start + t_downstream_read t -> t_request_total t = None ->
     e = match finished with Some (u, r) => Finished u r | None => Unending end) /\
  (forall u r, finished = Some (u, r) -> u <= start + t_downstream_read t ->
     (forall total, t_request_total t = Some total -> u <= start + total) -> e = Finished u r).
Proof using.
  cbv zeta. unfold process_new_http, request_budget. set (read := t_downstream_read t) in *.
  assert (forall total, t_request_total t = Some total -> instant_checked_add start total = Some (start + total)) as Hadd.
  { intros total E. destruct (Hfits total E) as [d Hd]. rewrite Hd. unfold instant_checked_add in Hd.
    by destruct (_ <=? _); [injection Hd as <-|]. }
  set (w := wait_for_header start parsed finished read).
  assert (match parsed with Some p => start + read < p | None => True end -> ends_by (start + read) w) as Hw1.
  { subst w. unfold wait_for_header. destruct finished as [[u r]|], parsed as [p|]; cbn; intros Hp.
    all: try rewrite (proj2 (Z.leb_gt p (start + read)) Hp).
    all: try (destruct (Z.leb_spec u (start + read)); cbn; lia). all: cbn; lia. }
  split_and!.
  - intros Hp. specialize (Hw1 Hp). destruct (t_request_total t) as [total|]; [|done]. rewrite (Hadd total eq_refl).
    destruct w as [u r|u|]; cbn in *; [destruct (Z.leb_spec u (start + total)); cbn; lia|lia|done].
  - intros total E. rewrite E, (Hadd total E). destruct w as [u r|u|]; cbn; [destruct (Z.leb_spec u (start + total)); cbn|..]; lia.
  - intros p -> Hp ->. subst w. unfold wait_for_header. rewrite (proj2 (Z.leb_le p (start + read)) Hp).
    destruct finished as [[u r]|]; [by rewrite orb_true_r|done].
  - intros u r -> Hu Ht. assert (w = Finished u r) as ->.
    { subst w. unfold wait_for_header. by rewrite (proj2 (Z.leb_le u (start + read)) Hu). }
    destruct (t_request_total t) as [total|]; [|done]. rewrite (Hadd total eq_refl).
    by rewrite (proj2 (Z.leb_le u (start + total)) (Ht total eq_refl)).
Qed.
End Deadline.

(** ** Witnesses *)

Definition peer (d port : Z) : option SocketAddr := Some (V4 203 0 113 d, port).
Definition two_a_minute : ConnectionLimitConfig := {| cl_connections := 2; cl_interval := from_secs 60; cl_max_tracked := 10 |}.
Definition burst : list edge_event :=
  [Opens (peer 7 1) 5; Opens (peer 8 1) 6; Opens (peer 7 2) 7; Forgets "203.0.113.8"; Opens (peer 7 3) 8; Opens None 9].

Lemma bursts_are_cut_off_per_address_witness :
  map snd (answers_to "203.0.113.7" burst (accept_all (R:=gmap str Z) (connection_limiter two_a_minute) burst)) = [true; true; false].
Proof.
  assert (times_of "203.0.113.7" burst = [5; 7; 8]) as Ht by (vm_compute; reflexivity).
  destruct (bursts_are_cut_off_per_address (R:=gmap str Z) two_a_minute burst "203.0.113.7" 5) as [H _].
  - cbn. lia.
  - split; [reflexivity|]. vm_compute. discriminate.
  - unfold burst. rewrite !not_elem_of_cons. split_and!; try discriminate. apply not_elem_of_nil.
  - rewrite Ht. reflexivity.
  - rewrite Ht. repeat constructor; vm_compute; reflexivity || discriminate.
  - rewrite H, Ht. reflexivity.
Defined.

(** A store that drops the count of an address lets it begin again. *)
Lemma forgotten_addresses_begin_again :
  accept_all (R:=gmap str Z) (connection_limiter two_a_minute)
    [Opens (peer 7 1) 5; Opens (peer 7 2) 6; Opens (peer 7 3) 7; Forgets "203.0.113.7"; Opens (peer 7 4) 8] =
  [true; true; false; true].
Proof. vm_compute. reflexivity. Qed.

Definition half_minute : Timeouts := default_timeouts.

Lemma no_connection_outlives_its_budgets_witness :
  process_new_http (T:=Z) half_minute 100 None None = Cut (100 + t_downstream_read half_minute) /\
  ends_by (100 + t_downstream_read half_minute) (process_new_http (T:=Z) half_minute 100 None None).
Proof.
  split; [vm_compute; reflexivity|].
  destruct (no_connection_outlives_its_budgets (T:=Z) half_minute 100 None None) as [H _].
  - intros total E. vm_compute in E. discriminate E.
  - exact (H I).
Defined.
