(* ===== verification/Dns.v ===== *)
(** * Resolving upstream names (dns.rs)

    The answers to names asked for on the request path, cached for a time.  The
    cache is [moka]'s: it keeps what it was given no longer than its time to live
    and may drop an entry at any moment; a lookup asks the operating system. *)

From S2P Require Export Delivery.

(** What a lookup comes to under its deadline: nothing in time, or the answer of
    [tokio::net::lookup_host]. *)
Abbreviation LookupOutcome := (option (result (list SocketAddr) str)).

Section Resolver.
(** [Resolver::new]: the time to live and the deadline of a lookup. *)
Variables (ttl lookup_timeout : Z).

Definition caching : bool := negb (ttl =? 0).

Definition unresolved (text : str) : PError := into_up (explain ConnectError text).
Definition no_addresses (addr : str) : PError :=
  unresolved ("upstream address " ++ addr ++ " resolved to no addresses").

Definition lookup_addresses (addr : str) (outcome : LookupOutcome) : result (list SocketAddr) PError :=
  match outcome with
  | None => Err (unresolved ("upstream address " ++ addr ++ " did not resolve within " ++ show_duration lookup_timeout))
  | Some (Err e) => Err (unresolved ("upstream address " ++ addr ++ " did not resolve: " ++ e))
  | Some (Ok []) => Err (no_addresses addr)
  | Some (Ok resolved) => Ok resolved
  end.

(** What the cache holds for a name, and since when. *)
Abbreviation dns_cache := (gmap str (Z * list SocketAddr)).

Definition cached_answer (m : dns_cache) (now : Z) (addr : str) : option (list SocketAddr) :=
  letO e := m !! addr in if now <? e.1 + ttl then Some e.2 else None.

(** [try_get_with]: a live entry, or the outcome of a lookup, kept if it
    succeeded.  An error comes back shared, with its rendering [show_error]. *)
Definition try_get_with (m : dns_cache) (now : Z) (addr : str) (outcome : LookupOutcome)
  : dns_cache * result (list SocketAddr) PError :=
  match cached_answer m now addr with
  | Some addrs => (m, Ok addrs)
  | None => match lookup_addresses addr outcome with
            | Ok addrs => (<[addr := (now, addrs)]> m, Ok addrs)
            | Err e => (m, Err e)
            end
  end.

Context (show_error : PError -> str).

Definition addresses (m : dns_cache) (now : Z) (addr : str) (outcome : LookupOutcome)
  : dns_cache * result (list SocketAddr) PError :=
  match parse_socket_addr addr with
  | Some sock => (m, Ok [sock])
  | None =>
      if negb caching then (m, lookup_addresses addr outcome)
      else match try_get_with m now addr outcome with
           | (m, Ok []) => (m, Err (no_addresses addr))
           | (m, Ok addrs) => (m, Ok addrs)
           | (m, Err e) => (m, Err (unresolved ("upstream address " ++ addr ++ " did not resolve: " ++ show_error e)))
           end
  end.

(** [Resolver::resolve]. *)
Definition resolve_first (m : dns_cache) (now : Z) (addr : str) (outcome : LookupOutcome)
  : dns_cache * result SocketAddr PError :=
  let '(m, r) := addresses m now addr outcome in
  (m, let? addrs := r in ok_or (head addrs) (no_addresses addr)).

(** ** Runs *)

(** A question asked, with when, what a lookup would have come to, and the
    answer. *)
Record Asked := { q_now : Z; q_addr : str; q_outcome : LookupOutcome; q_answer : result (list SocketAddr) PError }.

(** The resolver over time: questions in the order of the clock, and entries
    dropped by the cache. *)
Inductive resolves : list Asked -> Z -> dns_cache -> Prop :=
| resolves_start now : resolves [] now ∅
| resolves_ask h now m now' addr outcome :
    resolves h now m -> now <= now' ->
    resolves (h ++ [{| q_now := now'; q_addr := addr; q_outcome := outcome; q_answer := (addresses m now' addr outcome).2 |}])
      now' (addresses m now' addr outcome).1
| resolves_drop h now m addr : resolves h now m -> resolves h now (delete addr m).

(** What the cache holds, a lookup for that name gave since. *)
Definition looked_up (h : list Asked) (addr : str) (at_ : Z) (addrs : list SocketAddr) : Prop :=
  addrs <> [] /\ exists q, q ∈ h /\ q_now q = at_ /\ q_addr q = addr /\ q_outcome q = Some (Ok addrs).

Lemma lookup_Ok addr outcome addrs :
  lookup_addresses addr outcome = Ok addrs <-> outcome = Some (Ok addrs) /\ addrs <> [].
Proof using.
  destruct outcome as [[[|a l]|e]|]; cbn; [| | |]; split; try done.
  - by intros [[= <-] ?].
  - by intros [= <-].
  - by intros [[= <-] _].
  - by intros [? _].
  - by intros [? _].
Qed.

Lemma looked_up_more h h' addr at_ addrs : looked_up h addr at_ addrs -> looked_up (h ++ h') addr at_ addrs.
Proof using. intros (Hn & q & Hin & Hq). split; [done|]. exists q. rewrite elem_of_app. auto. Qed.

Lemma resolves_sound h now m addr e :
  resolves h now m -> m !! addr = Some e -> looked_up h addr e.1 e.2.
Proof using.
  intros Hr. revert addr e. induction Hr as [now|h now m now' addr outcome Hr IH Hle|h now m addr Hr IH]; intros addr' e.
  - by rewrite lookup_empty.
  - intros He. unfold addresses in *. destruct (parse_socket_addr addr); [by apply looked_up_more, IH|].
    destruct (negb caching); [by apply looked_up_more, IH|]. unfold try_get_with in *.
    destruct (cached_answer m now' addr) as [[|a l]|]; [by apply looked_up_more, IH..|].
    destruct (lookup_addresses addr outcome) as [[|a l]|er] eqn:El; cbn [fst snd] in *; [| |by apply looked_up_more, IH].
    all: apply lookup_Ok in El as [-> Hn]; try done.
    apply lookup_insert_Some in He as [[<- <-]|[_ He]]; [|by apply looked_up_more, IH]. split; [done|].
    eexists. rewrite elem_of_app. split; [right; by left|]. done.
  - intros [_ He]%lookup_delete_Some. by apply IH.
Qed.

(** What a name resolves to is an answer, and a recent one: over any run of
    the resolver, an address written as a literal is that address and asks
    nothing; any other answer is what a lookup of that very name gave, never an
    empty list, either now or, with caching, at a time less than the time to live
    ago; and a lookup that failed is never remembered: the question fails only
    when its own lookup does. *)
Lemma answers_are_recent h now m now' addr outcome
  (Hrun : resolves h now m) (Hnow : now <= now') :
  match parse_socket_addr addr, (addresses m now' addr outcome).2 with
  | Some sock, r => r = Ok [sock] /\ (addresses m now' addr outcome).1 = m
  | None, Ok addrs =>
      addrs <> [] /\ (outcome = Some (Ok addrs) \/
        (caching = true /\ exists at_, looked_up h addr at_ addrs /\ now' < at_ + ttl))
  | None, Err e => pe_type e = ConnectError /\ pe_source e = SrcUpstream /\
      (outcome = None \/ outcome = Some (Ok []) \/ exists why, outcome = Some (Err why)) /\
      (addresses m now' addr outcome).1 = m
  end.
Proof using.
  unfold addresses. destruct (parse_socket_addr addr) as [sock|]; [done|].
  assert (forall e, lookup_addresses addr outcome = Err e -> pe_type e = ConnectError /\ pe_source e = SrcUpstream /\
    (outcome = None \/ outcome = Some (Ok []) \/ exists why, outcome = Some (Err why))) as Herr.
  { intros e. destruct outcome as [[[|a l]|why]|]; cbn; intros [= <-]; split_and!; eauto. }
  destruct caching eqn:Ec; cbn [negb].
  - unfold try_get_with. destruct (cached_answer m now' addr) as [addrs|] eqn:Ea.
    + unfold cached_answer in Ea. destruct (m !! addr) as [e|] eqn:Em; [|done]. cbn in Ea.
      destruct (Z.ltb_spec now' (e.1 + ttl)); [|done]. injection Ea as <-.
      destruct (resolves_sound _ _ _ _ _ Hrun Em) as [Hn Hl]. destruct e.2 as [|a l] eqn:E2; [done|]. cbn [snd].
      split; [done|]. right. split; [done|]. exists e.1. split; [done|lia].
    + destruct (lookup_addresses addr outcome) as [[|a l]|e] eqn:El; cbn [snd fst].
      * by apply lookup_Ok in El as [_ ?].
      * apply lookup_Ok in El as [-> ?]. split; [done|by left].
      * destruct (Herr e eq_refl) as (_ & _ & H). done.
  - cbn [snd fst]. destruct (lookup_addresses addr outcome) as [addrs|e] eqn:El.
    + apply lookup_Ok in El as [-> ?]. split; [done|by left].
    + destruct (Herr e eq_refl) as (? & ? & ?). done.
Qed.
End Resolver.

Definition users_asked : str := "users:80".
Lemma answers_are_recent_witness :
  let m := (addresses (from_secs 30) (from_secs 5) pe_text ∅ 100 users_asked (Some (Ok [(V4 10 0 0 7, 80)]))).1 in
  (addresses (from_secs 30) (from_secs 5) pe_text m 200 users_asked None).2 = Ok [(V4 10 0 0 7, 80)] /\
  exists at_, 200 < at_ + from_secs 30.
Proof.
  cbv zeta. pose proof (resolves_ask (from_secs 30) (from_secs 5) pe_text [] 0 ∅ 100 users_asked (Some (Ok [(V4 10 0 0 7, 80)]))
    (resolves_start _ _ _ 0) ltac:(lia)) as Hrun.
  pose proof (answers_are_recent (from_secs 30) (from_secs 5) pe_text _ _ _ 200 users_asked None Hrun ltac:(lia)) as H.
  set (m := (addresses _ _ _ ∅ 100 _ _).1) in *.
  assert ((addresses (from_secs 30) (from_secs 5) pe_text m 200 users_asked None).2 = Ok [(V4 10 0 0 7, 80)]) as E
    by (vm_compute; reflexivity).
  split; [exact E|]. rewrite E in H. change (parse_socket_addr users_asked) with (@None (IpAddr * Z)) in H.
  destruct H as [_ [H|(_ & at_ & _ & H)]]; [discriminate H|]. by exists at_.
Defined.
