(* ===== verification/Documents.v ===== *)
(** * Loading and checking documents (config/mod.rs, cli.rs)

    How a document is found, read, expanded and parsed; [lagos validate], which
    checks it without serving, with or without the environment it will run in;
    and [lagos run], from the path to the services of Runtime.v.  The theorems
    compare the two commands. *)

From S2P Require Export Runtime.

(** ** Paths, as [std::path] has them on Unix *)

Definition is_absolute (p : str) : bool := starts_with [b_slash] p.

(** The components at the end of a path that [Components] skips. *)
Definition ignorable (seg : str) : bool := (seg ==? []) || (seg ==? ".").
Fixpoint skip_ignorable (l : list str) : list str :=
  match l with
  | seg :: rest => if ignorable seg then skip_ignorable rest else l
  | [] => []
  end.

(** [Path::parent]. *)
Definition parent (p : str) : option str :=
  match split_on b_slash p with
  | [] => None
  | first :: rest =>
      match skip_ignorable (reverse rest) with
      | _ :: before =>
          let kept := reverse (skip_ignorable before) in
          Some (if (first ==? []) && is_nil kept then [b_slash] else join [b_slash] (first :: kept))
      | [] => if first ==? [] then None else Some []
      end
  end.

(** [Path::join]. *)
Definition path_join (dir file : str) : str :=
  if is_absolute file then file
  else if (dir ==? []) || ends_with [b_slash] dir then dir ++ file
  else dir ++ [b_slash] ++ file.

(** ** Errors *)

Inductive ConfigError :=
| ConfigRead (path source : str)
| ConfigInterpolate (path : str) (error : InterpolateError)
| ConfigParse (path location message : str)
| ConfigInvalid (message : str).

Definition show_config_error (e : ConfigError) : str :=
  match e with
  | ConfigRead path source => "failed to read " ++ path ++ ": " ++ source
  | ConfigInterpolate path error => path ++ ": " ++ show_interpolate_error error
  | ConfigParse path location message => path ++ location ++ ": " ++ message
  | ConfigInvalid message => message
  end.

(** [str::rfind] of a string. *)
Fixpoint rfind_str (p s : str) : option nat :=
  match s with
  | [] => if starts_with p s then Some 0%nat else None
  | _ :: rest => match rfind_str p rest with
                 | Some i => Some (S i)
                 | None => if starts_with p s then Some 0%nat else None
                 end
  end.
Definition strip_position (message : str) : str :=
  match rfind_str " at line " message with Some i => take i message | None => message end.

(** ** Loading *)

(** [resolve_route_file_against]. *)
Definition with_route_file (f : option str) (r : RoutesConfig) : RoutesConfig :=
  {| rc_file := f; rc_reload := rc_reload r; rc_internal := rc_internal r; rc_machine := rc_machine r;
     rc_public := rc_public r; rc_optional := rc_optional r; rc_authenticated := rc_authenticated r |}.
Definition with_routes (routes : RoutesConfig) (c : GatewayConfig) : GatewayConfig :=
  {| gc_defaults := gc_defaults c; gc_server := gc_server c; gc_timeouts := gc_timeouts c; gc_limits := gc_limits c;
     gc_upstreams := gc_upstreams c; gc_auth := gc_auth c; gc_inject := gc_inject c; gc_reject := gc_reject c;
     gc_forward := gc_forward c; gc_identity := gc_identity c; gc_routes := routes;
     gc_observability := gc_observability c; gc_dns := gc_dns c; gc_cors := gc_cors c; gc_cache := gc_cache c;
     gc_shared_counters := gc_shared_counters c |}.
Definition resolve_route_file_against (config_path : str) (c : GatewayConfig) : GatewayConfig :=
  match rc_file (gc_routes c) with
  | None => c
  | Some file =>
      if is_absolute file then c
      else match parent config_path with
           | None => c
           | Some dir => with_routes (with_route_file (Some (path_join dir file)) (gc_routes c)) c
           end
  end.

Section Documents.
(** [serde_yaml_ng::from_str] at the two documents, each error with its line and
    column where it has them; and the environment. *)
Context (config_from_yaml : str -> result GatewayConfig (option (Z * Z) * str)).
Context (groups_from_yaml : str -> result RouteGroups (option (Z * Z) * str)) (env : str -> option str).

Definition from_expanded (path : str) (expanded : Interpolated) : result (GatewayConfig * Interpolated) ConfigError :=
  match config_from_yaml (Interpolate.text expanded) with
  | Ok cfg => Ok (cfg, expanded)
  | Err (location, e) =>
      Err (ConfigParse path (match location with
                             | Some (line, column) => ":" ++ show_u64 line ++ ":" ++ show_u64 column
                             | None => []
                             end) (strip_position e))
  end.

Definition parse_with_fallback (path text : str) (fallback : option (str -> str))
  : result (GatewayConfig * Interpolated) ConfigError :=
  match interpolate_with_fallback text env fallback with
  | Err error => Err (ConfigInterpolate path error)
  | Ok expanded => from_expanded path expanded
  end.

(** What the text of a document loads as. *)
Definition loaded_text (path : str) (fallback : option (str -> str)) (text : result str str)
  : result (GatewayConfig * Interpolated) ConfigError :=
  match text with
  | Err source => Err (ConfigRead path source)
  | Ok text =>
      let? ce := parse_with_fallback path text fallback in
      Ok (resolve_route_file_against path ce.1, ce.2)
  end.

(** [GatewayConfig::load_with_fallback]. *)
Definition config_load (path : str) (fallback : option (str -> str))
  : rprog (result (GatewayConfig * Interpolated) ConfigError) :=
  letP text := ask (ReadFile path) in Ret (loaded_text path fallback text).

(** ** The commands *)

Definition CONFIG_CANDIDATES : list str :=
  [str_of "gateway.yml"; str_of "gateway.yaml"; str_of "config/gateway.yml"; str_of "lagos/gateway.yml";
   str_of "deploy/gateway.yml"; str_of "/etc/lagos/gateway.yml"].

(** [resolve_config_path]; [is_file] is the file system's answer and [bin] the
    name of the executable. *)
Definition resolve_config_path (is_file : str -> bool) (bin : str) (given : option str) : result str str :=
  match given with
  | Some p => Ok p
  | None =>
      match (letO p := env "GATEWAY_CONFIG" in if trim p ==? [] then None else Some p) with
      | Some p => Ok p
      | None =>
          match List.find is_file CONFIG_CANDIDATES with
          | Some p => Ok p
          | None => Err ("no configuration file found." ++ [10] ++ "Looked for " ++ join ", " CONFIG_CANDIDATES ++ "." ++ [10]
                         ++ "Pass one explicitly (`" ++ bin ++ " run path/to/gateway.yml`), set GATEWAY_CONFIG, "
                         ++ "or create one with `" ++ bin ++ " init`.")
          end
      end
  end.

(** [unset_placeholder]. *)
Definition byte_hex (b : Z) : str := [hex_char (b / 16); hex_char (b mod 16)].
Definition unset_placeholder (name : str) : str := "unset-" ++ concat (map byte_hex name) ++ ".lagos.invalid".

Section Commands.
Context {N : Type} `{HC : Crates N}.
Context (parse_uri : str -> result Uri str) (header_name_ok : str -> bool) (show_f64 : f64 -> str).
Context (shared_limits : bool) (known : list str).

(** A route file that cannot be named without the environment. *)
Definition check_route_file (c : GatewayConfig) (expanded : Interpolated) : result () str :=
  refuse_if (match rc_file (gc_routes c) with
             | Some file => existsb (fun name => contains_str (unset_placeholder name) file) (placeheld expanded)
             | None => false
             end)
    ("routes.file depends on an unset variable, so its route table cannot be checked. "
     ++ "Use a fixed path or give the variable a default (for example, "
     ++ "`${ROUTES_FILE:-routes.yml}`).").

(** [load_with_fallback] of cli.rs. *)
Definition load_with_fallback (path : str) (fallback : option (str -> str))
  : rprog (result (ResolvedConfig N * RouteTable) str) :=
  letP loaded := config_load path fallback in
  tries (map_err show_config_error loaded) (fun ce =>
  let '(raw, expanded) := ce in
  tries (check_route_file raw expanded) (fun _ =>
  letP now := ask MonoNow in
  tries (resolve_config parse_uri header_name_ok show_f64 now raw expanded) (fun cfg =>
  let provider := match rc_file (gc_routes raw) with
                  | Some f => FileRoutes f (gc_defaults raw) fallback None
                  | None => InlineRoutes (groups (gc_routes raw)) (gc_defaults raw) None
                  end in
  letP loaded := provider_load groups_from_yaml env provider in
  tries loaded (fun table =>
  tries (validate_table cfg shared_limits known table) (fun _ => Ret (Ok (cfg, table))))))).

(** [placeheld_in_both]: a route file that cannot be read again leaves the list
    short, which the command says. *)
Definition add_names (names more : list str) : list str :=
  fold_left (fun names name => if existsb (fun n => n ==? name) names then names else names ++ [name]) more names.
Definition placeheld_in_both (c : ResolvedConfig N) (fallback : option (str -> str)) : rprog (list str) :=
  match rc_file (gc_routes (raw c)), fallback with
  | Some file, Some _ =>
      letP text := ask (ReadFile file) in
      Ret (match (let? text := text in map_err show_interpolate_error (interpolate_with_fallback text env fallback)) with
           | Ok expanded => add_names (placeheld_env c) (placeheld expanded)
           | Err _ => placeheld_env c
           end)
  | _, _ => Ret (placeheld_env c)
  end.

(** [validate]: the names left unchecked.  [available] is the names of the
    extensions that are registered or, with [--allow-unset], declared. *)
Definition validate_command (path : str) (available : list str) (allow_unset : bool) : rprog (result (list str) str) :=
  let fallback := if allow_unset then Some unset_placeholder else None in
  letP loaded := load_with_fallback path fallback in
  tries loaded (fun ct =>
  let '(cfg, table) := ct in
  let missing := Ext.missing available (Ext.extension_names table) in
  tries (refuse_if (negb (is_nil missing))
           ("routes reference extensions that are not registered: " ++ join ", " missing ++ "." ++ [10]
            ++ "A route naming an unknown extension is refused rather than silently "
            ++ "skipped " ++ [226; 128; 148] ++ " otherwise a typo would drop a security control.")) (fun _ =>
  letP unchecked := placeheld_in_both cfg fallback in
  Ret (Ok unchecked))).

(** [Runtime::run]. *)
Context (to_socket_addrs : str -> result (list SocketAddr) str) (redis_open : str -> Z -> result () str) (dev : bool).
Definition run_command (path : str) (extensions : list str) : rprog (result (Booted (N:=N)) str) :=
  letP loaded := config_load path None in
  tries (map_err show_config_error loaded) (fun ce =>
  run_document parse_uri header_name_ok show_f64 groups_from_yaml env to_socket_addrs redis_open shared_limits known dev
    ce.1 ce.2 extensions).
End Commands.
End Documents.

(** The paths of the standard library's documentation. *)
Example parents :
  map (fun p => parent (str_of p)) ["/foo/bar"; "/"; "foo"; "conf//gateway.yml"; "./gateway.yml"; "a/b/."; "a/.."; "." ; ""; "//a"]%string
  = [Some (str_of "/foo"); None; Some []; Some (str_of "conf"); Some (str_of "."); Some (str_of "a"); Some (str_of "a");
     Some []; None; Some (str_of "/")].
Proof. by vm_compute. Qed.
Example unset_placeholder_of_HOST : unset_placeholder "HOST" = str_of "unset-484f5354.lagos.invalid".
Proof. by vm_compute. Qed.

(** ** Placeholders *)

Lemma hex_char_inj a b : 0 <= a < 16 -> 0 <= b < 16 -> hex_char a = hex_char b -> a = b.
Proof. unfold hex_char. intros Ha Hb. destruct (Z.ltb_spec a 10), (Z.ltb_spec b 10); lia. Qed.

Lemma concat_hex_inj a b :
  Forall is_byte a -> Forall is_byte b -> concat (map byte_hex a) = concat (map byte_hex b) -> a = b.
Proof.
  revert b. induction a as [|x a IH]; intros [|y b] Ha Hb; [done|done|done|].
  apply Forall_cons_iff in Ha as [Hx Ha], Hb as [Hy Hb]. unfold is_byte in Hx, Hy. cbn. intros [= H1 H2 H3].
  assert (forall n, 0 <= n <= 255 -> 0 <= n / 16 < 16 /\ 0 <= n mod 16 < 16) as Hn.
  { intros n ?. split; [split; [apply Z.div_pos|apply Z.div_lt_upper_bound]|apply Z.mod_pos_bound]; lia. }
  destruct (Hn x), (Hn y); [lia..|]. apply hex_char_inj in H1, H2; [|done..].
  rewrite (IH b) by done. f_equal. rewrite (Z.div_mod x 16), (Z.div_mod y 16) by lia. by rewrite H1, H2.
Qed.

(** Two variables never share a placeholder. *)
Lemma unset_placeholder_inj a b :
  Forall is_byte a -> Forall is_byte b -> unset_placeholder a = unset_placeholder b -> a = b.
Proof.
  unfold unset_placeholder. intros Ha Hb E. apply app_inv_head in E. apply app_inv_tail in E. by apply concat_hex_inj.
Qed.

(** ** Expansion with and without placeholders *)

Lemma push_Ok s r o e : push s r = Ok (o, e) <-> exists o', r = Ok (o', e) /\ o = s ++ o'.
Proof. destruct r as [[o' e']|]; cbn; [|naive_solver]. split; [intros [= <- <-]; eauto|]. by intros (? & [= -> ->] & ->). Qed.

Section Expansion.
Context (lookup : str -> option str).

Lemma note_nonempty l n : note l n <> [].
Proof using. unfold note. destruct (existsb _ _) eqn:E; [by destruct l|]. by destruct l. Qed.

Lemma expand_reference_placeheld fb line before b e v e' :
  expand_reference lookup fb None line before b e = Ok (v, e') -> ex_placeheld e' = [] ->
  ex_placeheld e = [] /\ expand_reference lookup None None line before b e = Ok (v, e').
Proof using.
  unfold expand_reference. destruct (reference_parts b) as [name dflt].
  destruct (name ==? []); [done|]. destruct (negb (is_valid_name name)); [done|].
  destruct (resolved lookup name) as [w|]; [|destruct dflt as [d|]; [|destruct fb as [f|]]]; cbn [rbind fst].
  - by destruct (negb _); intros [= <- <-].
  - by destruct (negb _); intros [= <- <-].
  - destruct (negb _); intros [= <- <-]. by intros ?%note_nonempty.
  - done.
Qed.

Lemma expand_reference_strict f line before b e v e' :
  expand_reference lookup None None line before b e = Ok (v, e') ->
  ex_placeheld e' = ex_placeheld e /\ expand_reference lookup (Some f) None line before b e = Ok (v, e').
Proof using.
  unfold expand_reference. destruct (reference_parts b) as [name dflt].
  destruct (name ==? []); [done|]. destruct (negb (is_valid_name name)); [done|].
  destruct (resolved lookup name) as [w|]; [|destruct dflt as [d|]]; cbn [rbind fst].
  - by destruct (negb _); intros [= <- <-].
  - by destruct (negb _); intros [= <- <-].
  - done.
Qed.

Abbreviation runs fb := (Interpolate.run lookup fb None).

Lemma run_placeheld fb ps e o e' :
  runs fb ps e = Ok (o, e') -> ex_placeheld e' = [] -> ex_placeheld e = [] /\ runs None ps e = Ok (o, e').
Proof using.
  revert e o. induction ps as [|[line [s out|before b|s]] ps IH]; intros e o; cbn [Interpolate.run].
  - by intros [= <- <-].
  - intros (o' & H & ->)%push_Ok He. destruct (IH _ _ H He) as [? ->]. done.
  - intros ([v e1] & H1 & H2)%rbind_Ok He. cbn [fst snd] in H2. apply push_Ok in H2 as (o' & H2 & ->).
    destruct (IH _ _ H2 He) as [He1 H3]. destruct (expand_reference_placeheld _ _ _ _ _ _ _ H1 He1) as [? ->].
    split; [done|]. cbn. by rewrite H3.
  - done.
Qed.

Lemma run_strict f ps e o e' :
  runs None ps e = Ok (o, e') -> ex_placeheld e' = ex_placeheld e /\ runs (Some f) ps e = Ok (o, e').
Proof using.
  revert e o. induction ps as [|[line [s out|before b|s]] ps IH]; intros e o; cbn [Interpolate.run].
  - by intros [= <- <-].
  - intros (o' & H & ->)%push_Ok. destruct (IH _ _ H) as [? ->]. done.
  - intros ([v e1] & H1 & H2)%rbind_Ok. cbn [fst snd] in H2. apply push_Ok in H2 as (o' & H2 & ->).
    destruct (IH _ _ H2) as [He1 H3]. destruct (expand_reference_strict f _ _ _ _ _ _ H1) as [He ->].
    split; [congruence|]. cbn. by rewrite H3.
  - done.
Qed.

(** A document expands without placeholders exactly where filling them fills
    none. *)
Lemma interpolate_unheld f document x :
  interpolate_with_fallback document lookup None = Ok x <->
  interpolate_with_fallback document lookup (Some f) = Ok x /\ placeheld x = [].
Proof using.
  unfold interpolate_with_fallback. rewrite !process_run. split.
  - intros (r & H & [= <-])%rbind_Ok. apply rbind_Ok in H as ([o e] & H & [= <-]).
    destruct (run_strict f _ _ _ _ H) as [He ->]. by cbn.
  - intros [(r & H & [= <-])%rbind_Ok Hx]. apply rbind_Ok in H as ([o e] & H & [= <-]). cbn in Hx.
    destruct (run_placeheld _ _ _ _ _ H Hx) as [_ ->]. by cbn.
Qed.
End Expansion.

(** ** Checks that do not see limiters *)

Lemma derive_unlimited table table' shared shared' position r :
  unlimited (derive table shared position r).1 = unlimited (derive table' shared' position r).1 /\
  (derive table shared position r).2 = (derive table' shared' position r).2.
Proof. done. Qed.

Lemma insert_route_unlimited a l :
  map unlimited (insert_route a l) = insert_route (unlimited a) (map unlimited l).
Proof.
  induction l as [|b l IH]; [done|]. cbn [insert_route map].
  change (more_specific (unlimited b) (unlimited a)) with (more_specific b a).
  destruct (more_specific b a); [|done]. cbn [map]. by rewrite IH.
Qed.

Lemma sort_routes_unlimited l : map unlimited (sort_routes l) = sort_routes (map unlimited l).
Proof. unfold sort_routes. induction l as [|a l IH]; [done|]. cbn [foldr map]. by rewrite insert_route_unlimited, IH. Qed.

(** Two builds of the same groups differ in their limiters only. *)
Lemma build_unlimited v4 v4' groups defaults shared shared' :
  let t := build_with v4 groups defaults shared in
  let t' := build_with v4' groups defaults shared' in
  map unlimited (table_routes t) = map unlimited (table_routes t') /\ table_errors t = table_errors t'.
Proof.
  cbn [build_with table_routes table_errors]. split.
  - rewrite !sort_routes_unlimited. f_equal.
    match goal with |- map _ (map _ (imap ?f ?l)) = map _ (map _ (imap ?g ?l)) =>
      change (unlimited <$> (fst <$> imap f l) = unlimited <$> (fst <$> imap g l)) end.
    rewrite !fmap_imap. by apply imap_ext.
  - f_equal. match goal with |- map _ (imap ?f ?l) = map _ (imap ?g ?l) =>
      change (snd <$> imap f l = snd <$> imap g l) end.
    rewrite !fmap_imap. by apply imap_ext.
Qed.

Section Blind.
Context {N : Type} `{HC : Crates N}.
Context (c : ResolvedConfig N) (shared_limits : bool).

Lemma for_each_unlimited {E} (f g : RouteConfig -> result () E) l :
  (forall r, f (unlimited r) = g r) -> for_each f (map unlimited l) = for_each g l.
Proof using. intros Hf. induction l as [|r l IH]; [done|]. cbn. by rewrite Hf, IH. Qed.

Lemma check_each_unlimited known seen l :
  check_each c shared_limits known seen (map unlimited l) = check_each c shared_limits known seen l.
Proof using.
  revert seen. induction l as [|r l IH]; intros seen; [done|]. cbn [map check_each].
  unfold unlimited at 1 2 3 4 5 6 7 8 9 10. cbn [with_limiter r_rate_limit r_concurrency r_id r_prefix r_upstream].
  by rewrite IH.
Qed.

Lemma check_conflicts_unlimited l : check_conflicts (map unlimited l) = check_conflicts l.
Proof using.
  induction l as [|r l IH]; [done|]. cbn [map check_conflicts].
  by rewrite IH, (for_each_unlimited _ (fun other => refuse_if (conflicting_routes r other) (conflict_message r other))).
Qed.

Lemma filter_unlimited (p : RouteConfig -> bool) l :
  (forall r, p (unlimited r) = p r) -> List.filter p (map unlimited l) = map unlimited (List.filter p l).
Proof using. intros Hp. induction l as [|r l IH]; [done|]. cbn. rewrite Hp, IH. by destruct (p r). Qed.

Lemma validate_routes_unlimited known l :
  validate_routes c shared_limits known (map unlimited l) = validate_routes c shared_limits known l.
Proof using.
  unfold validate_routes, check_machine.
  rewrite check_each_unlimited, check_conflicts_unlimited, !filter_unlimited, length_map by done.
  rewrite (for_each_unlimited _ check_binding_tier), (for_each_unlimited _ (check_route_cache c)),
    (for_each_unlimited _ (check_route_key c)) by done. done.
Qed.

(** The order of the upstreams' names matters to the message only. *)
Lemma check_each_known known known' seen l u :
  check_each c shared_limits known seen l = Ok u -> check_each c shared_limits known' seen l = Ok u.
Proof using.
  revert seen. induction l as [|r l IH]; intros seen; [done|]. cbn [check_each]. intros H. ok_chain H.
  apply refuse_if_Ok in Ha3. rewrite Ha, Ha0, Ha1, Ha2, Ha3, Ha4. cbn. by apply IH.
Qed.

Lemma validate_table_known known known' t u :
  validate_table c shared_limits known t = Ok u -> validate_table c shared_limits known' t = Ok u.
Proof using.
  unfold validate_table, validate_routes. destruct (table_errors t); [|done]. intros H. ok_chain H.
  erewrite check_each_known by done. by rewrite Ha0, Ha1, Ha2, Ha3.
Qed.

Lemma validate_table_unlimited known t t' :
  map unlimited (table_routes t) = map unlimited (table_routes t') -> table_errors t = table_errors t' ->
  validate_table c shared_limits known t = validate_table c shared_limits known t'.
Proof using.
  intros Hr He. unfold validate_table. rewrite He. destruct (table_errors t'); [|done].
  by rewrite <-(validate_routes_unlimited known (table_routes t)), Hr, validate_routes_unlimited.
Qed.
End Blind.

Lemma extension_names_unlimited t t' :
  map unlimited (table_routes t) = map unlimited (table_routes t') -> Ext.extension_names t = Ext.extension_names t'.
Proof.
  intros H. unfold Ext.extension_names.
  assert (forall l, map r_extensions l = map r_extensions (map unlimited l)) as E by (intros l; by rewrite map_map).
  by rewrite (E (table_routes t)), H, <-E.
Qed.

(** ** One world *)

Section World.
(** The files and the clock two commands find alike. *)
Context (fs : str -> result str str) (clock : Z).

Definition told (X : Type) (e : runtimeE X) : option X :=
  match e in runtimeE X return option X with ReadFile p => Some (fs p) | MonoNow => Some clock | _ => None end.
Definition truthful (ev : event runtimeE) : Prop := forall x, told _ (ev_ask ev) = Some x -> ev_answer ev = x.
(** What a command did in this world. *)
Definition outcome {A} (m : rprog A) (o : A) : Prop := exists tr, traces m tr o /\ Forall truthful tr.

Lemma outcome_ask {X A} (e : runtimeE X) (k : X -> rprog A) o :
  outcome (pbind (ask e) k) o -> exists x, (forall y, told _ e = Some y -> x = y) /\ outcome (k x) o.
Proof using.
  intros (tr & Ht & Hw). apply rask_traces in Ht as (x & tr' & -> & Ht). apply Forall_cons_iff in Hw as [Hx Hw].
  exists x. split; [exact Hx|]. by exists tr'.
Qed.

Lemma outcome_bind {A B} (m : rprog A) (k : A -> rprog B) o :
  outcome (pbind m k) o -> exists a, outcome m a /\ outcome (k a) o.
Proof using.
  intros (tr & Ht & Hw). apply traces_bind in Ht as (t1 & t2 & a & -> & H1 & H2). apply Forall_app in Hw as [W1 W2].
  exists a. split; [by exists t1|by exists t2].
Qed.

Lemma outcome_ret {A} (a o : A) : outcome (Ret a) o -> o = a.
Proof using. by intros (tr & [_ ->] & _). Qed.

Lemma outcome_tries {A B} (m : result A str) (k : A -> rprog (result B str)) o :
  outcome (tries m k) o -> match m with Ok a => outcome (k a) o | Err e => o = Err e end.
Proof using. destruct m; cbn; [done|]. apply outcome_ret. Qed.

Context (config_from_yaml : str -> result GatewayConfig (option (Z * Z) * str)).
Context (groups_from_yaml : str -> result RouteGroups (option (Z * Z) * str)) (env : str -> option str).
Abbreviation provider_load := (provider_load groups_from_yaml env).

(** The groups a provider finds. *)
Definition groups_in (p : RouteProvider) : result RouteGroups str :=
  match p with
  | FileRoutes path _ fallback _ =>
      let? text := map_err (fun e => "failed to read route file " ++ path ++ ": " ++ e) (fs path) in
      load_file groups_from_yaml env path fallback text
  | InlineRoutes g _ _ => Ok g
  end.
Definition table_of (p : RouteProvider) (v4 : Z) (g : RouteGroups) : RouteTable :=
  match p with
  | FileRoutes _ defaults _ shared => build_with v4 g defaults shared
  | InlineRoutes _ defaults shared => build_with v4 g defaults shared
  end.

Lemma provider_outcome p o :
  outcome (provider_load p) o ->
  match groups_in p with Ok g => exists v4, o = Ok (table_of p v4 g) | Err e => o = Err e end.
Proof using.
  destruct p as [path defaults fallback shared|g defaults shared]; cbn [Runtime.provider_load groups_in table_of].
  - intros (text & Htext & Ho)%outcome_ask. specialize (Htext _ eq_refl) as ->. apply outcome_tries in Ho.
    destruct (map_err _ (fs path)) as [text|e]; cbn [rbind]; [|done]. apply outcome_tries in Ho.
    destruct (load_file _ _ _ _ _) as [g|e]; [|done]. apply outcome_ask in Ho as (v4 & _ & Ho).
    exists v4. by apply outcome_ret in Ho.
  - intros (v4 & _ & Ho)%outcome_ask. exists v4. by apply outcome_ret in Ho.
Qed.

Context {N : Type} `{HC : Crates N}.
Context (parse_uri : str -> result Uri str) (header_name_ok : str -> bool) (show_f64 : f64 -> str) (shared_limits : bool).
Abbreviation resolved c expanded := (resolve_config parse_uri header_name_ok show_f64 clock c expanded).

Lemma config_outcome path fallback o :
  outcome (config_load config_from_yaml env path fallback) o -> o = loaded_text config_from_yaml env path fallback (fs path).
Proof using. intros (text & Htext & Ho)%outcome_ask. specialize (Htext _ eq_refl) as ->. by apply outcome_ret in Ho. Qed.

(** What a document is in this world, but for its table: the configuration and
    the groups of its routes. *)
Definition provider_of (c : GatewayConfig) (fallback : option (str -> str)) (shared : option Factory) : RouteProvider :=
  match rc_file (gc_routes c) with
  | Some f => FileRoutes f (gc_defaults c) fallback shared
  | None => InlineRoutes (groups (gc_routes c)) (gc_defaults c) shared
  end.

Lemma provider_of_resolved cfg c shared : raw cfg = c -> route_provider (N:=N) cfg shared = provider_of c None shared.
Proof using. by intros <-. Qed.

Lemma groups_shared c fallback shared shared' : groups_in (provider_of c fallback shared) = groups_in (provider_of c fallback shared').
Proof using. unfold provider_of. by destruct (rc_file _). Qed.

Lemma resolved_raw c expanded cfg : resolved c expanded = Ok cfg -> raw cfg = c /\ placeheld_env cfg = placeheld expanded.
Proof using. unfold resolve_config. intros H. ok_chain H. by injection H as <-. Qed.

(** What the commands make of the files, but for the table's own checks. *)
Definition document_in (path : str) (fallback : option (str -> str)) : result (ResolvedConfig N * RouteGroups) str :=
  let? ce := map_err show_config_error (loaded_text config_from_yaml env path fallback (fs path)) in
  let? _ := check_route_file ce.1 ce.2 in
  let? cfg := resolved ce.1 ce.2 in
  let? g := groups_in (provider_of ce.1 fallback None) in
  Ok (cfg, g).

(** The table of the groups, with limiters that count in this process. *)
Definition plain_table (c : ResolvedConfig N) (g : RouteGroups) : RouteTable := build_with 0 g (gc_defaults (raw c)) None.

(** The checks of a table every command makes. *)
Definition table_passes (c : ResolvedConfig N) (available : list str) (g : RouteGroups) : Prop :=
  validate_table c shared_limits [] (plain_table c g) = Ok tt /\
  Ext.missing available (Ext.extension_names (plain_table c g)) = [].

Lemma table_of_plain c fallback shared v4 g :
  let t := table_of (provider_of (raw c) fallback shared) v4 g in
  map unlimited (table_routes t) = map unlimited (table_routes (plain_table c g)) /\
  table_errors t = table_errors (plain_table c g).
Proof using. unfold provider_of, plain_table. destruct (rc_file _); cbn [table_of]; apply build_unlimited. Qed.

Lemma table_check c known t g :
  map unlimited (table_routes t) = map unlimited (table_routes (plain_table c g)) ->
  table_errors t = table_errors (plain_table c g) ->
  validate_table c shared_limits known t = Ok tt <-> validate_table c shared_limits [] (plain_table c g) = Ok tt.
Proof using.
  intros Hr He. rewrite (validate_table_unlimited c shared_limits known t (plain_table c g)) by done.
  split; apply validate_table_known.
Qed.

Lemma load_outcome known path fallback o :
  outcome (load_with_fallback config_from_yaml groups_from_yaml env parse_uri header_name_ok show_f64 shared_limits known
             path fallback) o ->
  match document_in path fallback with
  | Err e => o = Err e
  | Ok (cfg, g) => exists v4, let t := table_of (provider_of (raw cfg) fallback None) v4 g in
      o = (let? _ := validate_table cfg shared_limits known t in Ok (cfg, t))
  end.
Proof using.
  unfold load_with_fallback, document_in. intros (loaded & ->%config_outcome & Ho)%outcome_bind.
  apply outcome_tries in Ho. destruct (map_err _ _) as [[c expanded]|e]; cbn [rbind fst snd]; [|done].
  apply outcome_tries in Ho. destruct (check_route_file c expanded); cbn [rbind]; [|done].
  apply outcome_ask in Ho as (now & Hnow & Ho). specialize (Hnow _ eq_refl) as ->. apply outcome_tries in Ho.
  destruct (resolved c expanded) as [cfg|e] eqn:Ec; cbn [rbind]; [|done].
  apply resolved_raw in Ec as [Hraw _].
  change (match rc_file (gc_routes c) with Some f => _ | None => _ end) with (provider_of c fallback None) in Ho.
  apply outcome_bind in Ho as (loaded & Hl & Ho). apply provider_outcome in Hl. apply outcome_tries in Ho.
  destruct (groups_in _) as [g|e]; cbn [rbind]; [|by subst]. destruct Hl as [v4 ->]. apply outcome_tries in Ho.
  exists v4. rewrite Hraw. cbv zeta. destruct (validate_table _ _ _ _) as [[]|e]; cbn [rbind]; [by apply outcome_ret in Ho|done].
Qed.

(** The names the command lists as unchecked. *)
Definition unchecked_in (c : ResolvedConfig N) (fallback : option (str -> str)) : list str :=
  match rc_file (gc_routes (raw c)), fallback with
  | Some file, Some _ =>
      match (let? text := fs file in map_err show_interpolate_error (interpolate_with_fallback text env fallback)) with
      | Ok expanded => add_names (placeheld_env c) (placeheld expanded)
      | Err _ => placeheld_env c
      end
  | _, _ => placeheld_env c
  end.

Lemma placeheld_outcome c fallback o : outcome (placeheld_in_both env c fallback) o -> o = unchecked_in c fallback.
Proof using.
  unfold placeheld_in_both, unchecked_in. destruct (rc_file _) as [file|]; [destruct fallback as [f|]|]; [|apply outcome_ret..].
  intros (text & Htext & Ho)%outcome_ask. specialize (Htext _ eq_refl) as ->. by apply outcome_ret in Ho.
Qed.

Abbreviation fallback_of allow_unset := (if allow_unset then Some unset_placeholder else None).
Abbreviation validates known path available allow_unset :=
  (outcome (validate_command config_from_yaml groups_from_yaml env parse_uri header_name_ok show_f64 shared_limits known
     path available allow_unset)).

Lemma validate_outcome known path available (allow_unset : bool) o :
  validates known path available allow_unset o ->
  match document_in path (fallback_of allow_unset) with
  | Err e => o = Err e
  | Ok (cfg, g) => (table_passes cfg available g /\ o = Ok (unchecked_in cfg (fallback_of allow_unset))) \/
                   (~ table_passes cfg available g /\ exists e, o = Err e)
  end.
Proof using.
  unfold validate_command. intros (loaded & Hl%load_outcome & Ho)%outcome_bind. apply outcome_tries in Ho.
  destruct (document_in _ _) as [[cfg g]|e]; [|by subst loaded]. destruct Hl as [v4 Hl]. cbv zeta in Hl.
  destruct (table_of_plain cfg (fallback_of allow_unset) None v4 g) as [Hr He].
  pose proof (table_check cfg known _ _ Hr He) as Hc. apply extension_names_unlimited in Hr.
  set (t := table_of _ v4 g) in *. destruct (validate_table _ _ known t) as [[]|e]; subst loaded; cbn [rbind] in Ho.
  - apply outcome_tries in Ho. unfold table_passes. rewrite Hr in Ho.
    destruct (Ext.missing available _) as [|m ms]; cbn [is_nil negb refuse_if] in Ho.
    + left. split; [split; [by apply Hc|done]|]. apply outcome_bind in Ho as (unchecked & Hu%placeheld_outcome & Ho).
      apply outcome_ret in Ho. by subst.
    + right. split; [by intros []|]. by eexists.
  - right. split; [|by eexists]. intros [H _]. apply Hc in H. done.
Qed.

(** ** Starting *)

Context (to_socket_addrs : str -> result (list SocketAddr) str) (redis_open : str -> Z -> result () str) (dev : bool).
Abbreviation runs_command known path extensions :=
  (run_command config_from_yaml groups_from_yaml env parse_uri header_name_ok show_f64 shared_limits known
     to_socket_addrs redis_open dev path extensions).

(** What only a start finds out: an upstream that does not resolve, a counter
    store that cannot be set up or was not found able to count exactly, and two
    providers of one issuer. *)
Definition found_at_startup (c : ResolvedConfig N) (g : RouteGroups) (tr : list (event runtimeE)) (e : str) : Prop :=
  resolve_all parse_uri to_socket_addrs (map_to_list (upstreams c)) ∅ = Err e \/
  shared_counter_factory redis_open shared_limits c = Err e \/
  (existsb counts_exactly (table_routes (plain_table c g)) = true /\
   exists answer, Event Probe answer ∈ tr /\ forall server, answer <> Ok (server, true)) \/
  build_router c = Err e.

Lemma counts_exactly_unlimited t t' :
  map unlimited (table_routes t) = map unlimited (table_routes t') ->
  existsb counts_exactly (table_routes t) = existsb counts_exactly (table_routes t').
Proof using.
  intros H. assert (forall l, existsb counts_exactly l = existsb counts_exactly (map unlimited l)) as E.
  { induction l as [|r l IH]; [done|]. cbn [existsb map]. by rewrite IH. }
  by rewrite (E (table_routes t)), H, <-E.
Qed.

Lemma no_placeholders document x : interpolate_with_fallback document env None = Ok x -> placeheld x = [].
Proof using. intros H. by apply (interpolate_unheld env (fun n => n)) in H as [_ H]. Qed.

(** Without placeholders the name of the route file is what the environment
    makes it. *)
Lemma loaded_strict path c expanded :
  loaded_text config_from_yaml env path None (fs path) = Ok (c, expanded) -> placeheld expanded = [].
Proof using.
  unfold loaded_text. destruct (fs path) as [text|]; [|done]. intros ([c' x] & H & [= <- <-])%rbind_Ok.
  unfold parse_with_fallback in H. destruct (interpolate_with_fallback _ _ _) as [y|] eqn:E; [|done].
  unfold from_expanded in H. destruct (config_from_yaml _) as [?|[? ?]]; [|done]. injection H as _ <-. by eapply no_placeholders.
Qed.

Lemma check_route_file_strict c expanded : placeheld expanded = [] -> check_route_file c expanded = Ok tt.
Proof using. unfold check_route_file. intros ->. by destruct (rc_file _). Qed.

Lemma document_in_strict path :
  document_in path None =
  let? ce := map_err show_config_error (loaded_text config_from_yaml env path None (fs path)) in
  let? cfg := resolved ce.1 ce.2 in
  let? g := groups_in (provider_of ce.1 None None) in Ok (cfg, g).
Proof using.
  unfold document_in. destruct (loaded_text _ _ _ _ _) as [[c expanded]|e] eqn:E; cbn [map_err rbind fst snd]; [|done].
  by rewrite check_route_file_strict by (by eapply loaded_strict).
Qed.

Lemma provider_truthful p tr o : traces (provider_load p) tr o -> Forall truthful tr ->
  match groups_in p with Ok g => exists v4, o = Ok (table_of p v4 g) | Err e => o = Err e end.
Proof using. intros Ht Hw. apply provider_outcome. by exists tr. Qed.

Lemma Ext_validate_missing available t : Ext.validate available t = Ok tt <-> Ext.missing available (Ext.extension_names t) = [].
Proof using. unfold Ext.validate. case_bool_decide as E; [done|]. split; [done|intros E'; done]. Qed.

(** How a start of this world ends, the checks of the table apart. *)
Lemma run_truthful known path exts tr o :
  traces (runs_command known path exts) tr o -> Forall truthful tr ->
  (exists e, o = Err e /\ forall cfg g, document_in path None = Ok (cfg, g) -> table_passes cfg exts g -> found_at_startup cfg g tr e) \/
  (exists b cfg g, o = Ok b /\ document_in path None = Ok (cfg, g) /\ table_passes cfg exts g).
Proof using.
  rewrite document_in_strict. unfold run_command. intros Ht Hw.
  apply traces_bind in Ht as (t1 & t2 & loaded & -> & Hl & Ht). apply Forall_app in Hw as [W1 W2].
  assert (loaded = loaded_text config_from_yaml env path None (fs path)) as -> by (apply config_outcome; by exists t1).
  apply tries_traces in Ht as [(e & He & _ & ->)|([c expanded] & He & Ht)]; rewrite He; cbn [rbind fst snd]; [left; by exists e|].
  cbn [fst snd] in Ht. unfold Runtime.run_document in Ht. apply rask_traces in Ht as (now & t3 & -> & Ht). apply Forall_cons_iff in W2 as [Hn W2].
  specialize (Hn _ eq_refl). cbn in Hn. subst now.
  apply tries_traces in Ht as [(e & He1 & _ & ->)|(cfg & Hc & Ht)]; [left; exists e; by rewrite He1|]. rewrite Hc. cbn [rbind].
  pose proof (resolved_raw _ _ _ Hc) as [Hraw _].
  apply tries_traces in Ht as [(e & Hu & _ & ->)|(ups & Hu & Ht)].
  { left. exists e. split; [done|]. intros cfg' g' (g & _ & [= <- <-])%rbind_Ok _. by left. }
  apply tries_traces in Ht as [(e & Hs & _ & ->)|(shared & Hs & Ht)].
  { left. exists e. split; [done|]. intros cfg' g' (g & _ & [= <- <-])%rbind_Ok _. right. by left. }
  cbv zeta in Ht. rewrite (provider_of_resolved _ c) in Ht by done.
  apply traces_bind in Ht as (t4 & t5 & loaded & -> & Hp & Ht). apply Forall_app in W2 as [W3 W4].
  apply provider_truthful in Hp; [|done]. rewrite (groups_shared c None shared None) in Hp.
  destruct (groups_in _) as [g|e]; cbn [rbind]; [|subst loaded; destruct Ht as [_ ->]; left; by exists e].
  destruct Hp as [v4 ->]. cbn [tries] in Ht. rewrite <-Hraw in Ht. destruct (table_of_plain cfg None shared v4 g) as [Hr Hte].
  pose proof (table_check cfg known _ _ Hr Hte) as Hv. pose proof (counts_exactly_unlimited _ _ Hr) as Hx.
  apply extension_names_unlimited in Hr. set (t := table_of _ v4 g) in *.
  apply tries_traces in Ht as [(e & He1 & _ & ->)|([] & Hv1 & Ht)].
  { left. exists e. split; [done|]. intros cfg' g' [= <- <-] [Hok _]. apply Hv in Hok. congruence. }
  apply traces_bind in Ht as (t6 & t7 & verified & -> & Hb & Ht).
  apply tries_traces in Ht as [(e & -> & _ & ->)|([] & -> & Ht)].
  { left. exists e. split; [done|]. intros cfg' g' [= <- <-] _. apply verified_Err in Hb as (_ & Hx1 & answer & -> & Hno).
    right. right. left. split; [by rewrite <-Hx|]. exists answer. split; [|done]. rewrite elem_of_app, elem_of_cons, !elem_of_app.
    do 3 right. left. by left. }
  apply tries_traces in Ht as [(e & He1 & _ & ->)|([] & Hm & Ht)].
  { left. exists e. split; [done|]. intros cfg' g' [= <- <-] [_ Hok]. rewrite <-Hr in Hok. apply Ext_validate_missing in Hok. congruence. }
  assert (table_passes cfg exts g) as Hpass.
  { split; [by apply Hv|]. rewrite <-Hr. by apply Ext_validate_missing. }
  destruct (partition_by_listener t). apply tries_traces in Ht as [(e & He1 & _ & ->)|(router & Hrt & [_ ->])].
  { left. exists e. split; [done|]. intros cfg' g' [= <- <-] _. by repeat right. }
  right. by eexists _, cfg, g.
Qed.

(** C27: [lagos validate] and [lagos run] agree on a document: against the same
    files, environment, clock reading and extensions, where validation refuses,
    so does the start; where it accepts, nothing is left unchecked and the start
    comes up, or fails for one of the reasons only a start can find: an upstream
    that does not resolve, a counter store that is not there for exact limits,
    or two token providers that claim one issuer. *)
Theorem validation_predicts_startup known known' path exts o tr r
  (Hv : validates known path exts false o) (Hr : traces (runs_command known' path exts) tr r) (Hw : Forall truthful tr) :
  (exists e e', o = Err e /\ r = Err e') \/
  (o = Ok [] /\ ((exists b, r = Ok b) \/
     exists cfg g e, document_in path None = Ok (cfg, g) /\ r = Err e /\ found_at_startup cfg g tr e)).
Proof using.
  apply validate_outcome in Hv. apply run_truthful in Hr; [|done].
  destruct (document_in path None) as [[cfg g]|e] eqn:Ed.
  - destruct Hv as [[Hpass ->]|[Hpass (e & ->)]].
    + right. split.
      { unfold unchecked_in. rewrite document_in_strict in Ed. apply rbind_Ok in Ed as ([c expanded] & Hl & Ed).
        apply map_err_Ok in Hl. apply loaded_strict in Hl. apply rbind_Ok in Ed as (cfg' & Hc & Ed).
        apply rbind_Ok in Ed as (g' & _ & [= -> ->]). apply resolved_raw in Hc as [_ Hc]. rewrite Hc. cbn in Hl |- *.
        rewrite Hl. by destruct (rc_file _). }
      destruct Hr as [(e & -> & Hf)|(b & cfg' & g' & -> & _)]; [|left; by exists b]. right. exists cfg, g, e. auto.
    + left. destruct Hr as [(e' & -> & _)|(b & cfg' & g' & -> & [= <- <-] & Hp)]; [by exists e, e'|done].
  - left. destruct Hr as [(e' & -> & _)|(b & cfg' & g' & -> & [=] & _)]. by exists e, e'.
Qed.

(** ** Checking without the environment *)

Lemma add_names_nil names more : add_names names more = [] -> names = [] /\ more = [].
Proof using.
  unfold add_names. revert names. induction more as [|m more IH]; intros names; [done|]. cbn [fold_left]. intros [H ->]%IH.
  destruct (existsb _ names) eqn:E; [by subst|]. by destruct names.
Qed.

Lemma loaded_unheld f path c expanded :
  loaded_text config_from_yaml env path None (fs path) = Ok (c, expanded) <->
  loaded_text config_from_yaml env path (Some f) (fs path) = Ok (c, expanded) /\ placeheld expanded = [].
Proof using.
  unfold loaded_text, parse_with_fallback. destruct (fs path) as [text|]; [|split; [done|by intros []]].
  assert (forall x, from_expanded config_from_yaml path x = Ok (c, expanded) -> expanded = x) as Hx.
  { unfold from_expanded. intros x. destruct (config_from_yaml _) as [?|[? ?]]; [|done]. by intros [= _ ->]. }
  split.
  - intros ([c' x] & H & [= <- <-])%rbind_Ok. destruct (interpolate_with_fallback _ _ None) as [y|] eqn:E; [|done].
    pose proof H as Hy. unfold from_expanded in Hy. destruct (config_from_yaml _) as [?|[? ?]]; [|done]. injection Hy as _ <-.
    apply (interpolate_unheld env f) in E as [-> E]. rewrite H. by cbn.
  - intros [([c' x] & H & [= <- <-])%rbind_Ok Hp]. destruct (interpolate_with_fallback _ _ (Some f)) as [y|] eqn:E; [|done].
    pose proof H as Hy. unfold from_expanded in Hy. destruct (config_from_yaml _) as [?|[? ?]]; [|done]. injection Hy as _ <-.
    rewrite (proj2 (interpolate_unheld env f text y)) by done. rewrite H. by cbn.
Qed.

(** The groups, and what was left unexpanded in their file. *)
Lemma groups_unheld f c g :
  groups_in (provider_of c None None) = Ok g <->
  groups_in (provider_of c (Some f) None) = Ok g /\
  match rc_file (gc_routes c) with
  | Some file => exists text x, fs file = Ok text /\ interpolate_with_fallback text env (Some f) = Ok x /\ placeheld x = []
  | None => True
  end.
Proof using.
  unfold provider_of. destruct (rc_file _) as [file|]; cbn [groups_in]; [|split; [done|by intros []]].
  destruct (fs file) as [text|]; cbn [map_err rbind]; [|split; [done|by intros []]]. unfold load_file.
  destruct (interpolate_with_fallback text env None) as [y|] eqn:E.
  - apply (interpolate_unheld env f) in E as [E1 E]. rewrite E1. cbn [rbind]. split; [|by intros []]. intros H. split; [done|]. by exists text, y.
  - split; [done|]. intros (_ & text' & x & [= <-] & H). rewrite (proj2 (interpolate_unheld env f text x)) in E by done. done.
Qed.

Lemma document_unheld f path cfg g :
  document_in path None = Ok (cfg, g) <-> document_in path (Some f) = Ok (cfg, g) /\ unchecked_in cfg (Some f) = [].
Proof using.
  rewrite document_in_strict. unfold document_in. split.
  - intros ([c expanded] & Hl%map_err_Ok & H)%rbind_Ok. apply (loaded_unheld f) in Hl as [-> Hp]. cbn [map_err rbind fst snd] in *.
    rewrite check_route_file_strict by done. cbn [rbind]. apply rbind_Ok in H as (cfg' & Hc & H). rewrite Hc. cbn [rbind].
    apply rbind_Ok in H as (g' & Hg & [= -> ->]). apply (groups_unheld f) in Hg as [-> Hf]. split; [done|].
    apply resolved_raw in Hc as [Hr Hh]. unfold unchecked_in. rewrite Hr, Hh, Hp.
    destruct (rc_file _) as [file|]; [|done]. destruct Hf as (text & x & -> & Hx & Hq). cbn [rbind]. by rewrite Hx; cbn; rewrite Hq.
  - intros [([c expanded] & Hl%map_err_Ok & H)%rbind_Ok Hu]. cbn [fst snd] in H. apply rbind_Ok in H as (_ & _ & H).
    apply rbind_Ok in H as (cfg' & Hc & H). apply rbind_Ok in H as (g' & Hg & [= -> ->]).
    pose proof Hc as [Hr Hh]%resolved_raw. unfold unchecked_in in Hu. rewrite Hr, Hh in Hu.
    assert (placeheld expanded = [] /\ match rc_file (gc_routes c) with
      | Some file => exists text x, fs file = Ok text /\ interpolate_with_fallback text env (Some f) = Ok x /\ placeheld x = []
      | None => True end) as [Hp Hf].
    { unfold provider_of in Hg. destruct (rc_file _) as [file|]; [|done]. cbn [groups_in] in Hg.
      destruct (fs file) as [text|]; cbn [map_err rbind] in Hg, Hu; [|done]. unfold load_file in Hg.
      destruct (interpolate_with_fallback text env (Some f)) as [x|] eqn:Ex; [|done]. cbn in Hu. apply add_names_nil in Hu as [? Hx].
      split; [done|]. by exists text, x. }
    rewrite (proj2 (loaded_unheld f path c expanded)) by done. cbn [map_err rbind fst snd]. rewrite Hc. cbn [rbind].
    by rewrite (proj2 (groups_unheld f c g)).
Qed.

(** A check without the environment that reports nothing unchecked is the
    full check: [lagos validate --allow-unset] accepts a document with an empty
    list of unchecked variables exactly where [lagos validate] accepts it, and
    no two unset variables are given the same placeholder. *)
Lemma nothing_unchecked_is_the_full_check known known' path available o o'
  (Hv : validates known path available true o) (Hv' : validates known' path available false o') :
  (o = Ok [] <-> o' = Ok []) /\
  forall a b, Forall is_byte a -> Forall is_byte b -> unset_placeholder a = unset_placeholder b -> a = b.
Proof using.
  split; [|apply unset_placeholder_inj]. apply validate_outcome in Hv, Hv'.
  pose proof (document_unheld unset_placeholder path) as Hd.
  assert (forall cfg g, document_in path None = Ok (cfg, g) -> unchecked_in cfg None = []) as Hn.
  { intros cfg g H. rewrite document_in_strict in H. apply rbind_Ok in H as ([c expanded] & Hl%map_err_Ok & H).
    apply rbind_Ok in H as (cfg' & Hc & H). apply rbind_Ok in H as (g' & _ & [= -> ->]). apply resolved_raw in Hc as [_ Hc].
    unfold unchecked_in. rewrite Hc. cbn [snd]. rewrite (loaded_strict _ _ _ Hl). by destruct (rc_file _). }
  split; intros ->.
  - destruct (document_in path (Some unset_placeholder)) as [[cfg g]|] eqn:E; [|done].
    destruct Hv as [[Hp [= Hu]]|[_ [? [=]]]]. pose proof (proj2 (Hd cfg g) (conj eq_refl (eq_sym Hu))) as E'. rewrite E' in Hv'.
    destruct Hv' as [[_ ->]|[Hno _]]; [|done]. by rewrite (Hn _ _ E').
  - destruct (document_in path None) as [[cfg g]|] eqn:E; [|done].
    destruct Hv' as [[Hp _]|[_ [? [=]]]]. pose proof (proj1 (Hd cfg g) eq_refl) as [E' Hu]. rewrite E' in Hv.
    destruct Hv as [[_ ->]|[Hno _]]; [|done]. by rewrite Hu.
Qed.
End World.

(** ** Witnesses *)

(** A world that stands still. *)
Definition still (fs : str -> result str str) (X : Type) (e : runtimeE X) (w : Z) : X * Z :=
  match e in runtimeE X return X * Z with
  | MonoNow => (100, w)
  | NewNamespace => (w, w + 1)
  | ReadFile p => (fs p, w)
  | Mtime _ => (None, w)
  | Probe => (Ok (str_of "recached", true), w)
  end.

Lemma still_truthful fs {A} (m : rprog A) w : Forall (truthful fs 100) (transcript (still fs) m w).
Proof.
  revert w. induction m as [a|X e k IH]; intros w; cbn [transcript]; [constructor|].
  destruct (still fs X e w) as [x w'] eqn:E. constructor; [|apply IH].
  intros y Hy. cbn [ev_ask ev_answer] in Hy |- *. destruct e; cbn in E, Hy; congruence.
Qed.

Lemma still_outcome fs {A} (m : rprog A) w : outcome fs 100 m (Prog.run (still fs) m w).1.
Proof. exists (transcript (still fs) m w). split; [apply run_traces|apply still_truthful]. Qed.

(** A document and its route file, both with a variable that has a default. *)
Definition sample_files (p : str) : result str str :=
  if p ==? "conf/gateway.yml" then Ok (str_of "listen: ${PORT:-8080}")
  else if p ==? "conf/routes.yml" then Ok (str_of "public: [${PREFIX:-users}]") else Err "No such file or directory".
Definition sample_config_yaml (doc : GatewayConfig) (text : str) : result GatewayConfig (option (Z * Z) * str) :=
  if text ==? "listen: 8080" then Ok doc else Err (Some (1, 1), "mapping values are not allowed at line 1").
Definition sample_validation (doc : GatewayConfig) (allow_unset : bool) : rprog (result (list str) str) :=
  validate_command (N:=Z) (sample_config_yaml doc) file_groups (fun _ => None) sample_parse_uri (fun _ => true) (fun _ => [])
    true ["users"] "conf/gateway.yml" [] allow_unset.
Definition sample_start (doc : GatewayConfig) : rprog (result (Booted (N:=Z)) str) :=
  run_command (sample_config_yaml doc) file_groups (fun _ => None) sample_parse_uri (fun _ => true) (fun _ => [])
    true ["users"] (fun _ => Err []) (fun _ _ => Ok tt) false "conf/gateway.yml" [].
Definition answer {A} (m : rprog A) : A := (Prog.run (still sample_files) m 0).1.

Lemma sample_validates : answer (sample_validation file_document false) = Ok [].
Proof. vm_compute. reflexivity. Qed.

Lemma validation_predicts_startup_witness :
  answer (sample_validation file_document false) = Ok [] /\ exists r, answer (sample_start file_document) = r /\
    ((exists b, r = Ok b) \/ exists cfg g e,
      document_in sample_files 100 (sample_config_yaml file_document) file_groups (fun _ => None) sample_parse_uri
        (fun _ => true) (fun _ => []) "conf/gateway.yml" None = Ok (cfg, g) /\ r = Err e).
Proof.
  split; [exact sample_validates|]. exists (answer (sample_start file_document)). split; [reflexivity|].
  destruct (validation_predicts_startup sample_files 100 (sample_config_yaml file_document) file_groups (fun _ => None)
    sample_parse_uri (fun _ => true) (fun _ => []) true (fun _ => Err []) (fun _ _ => Ok tt) false ["users"] ["users"]
    "conf/gateway.yml" [] (Ok []) (transcript (still sample_files) (sample_start file_document) 0)
    (answer (sample_start file_document))) as [(e & e' & H & _)|[_ [H|(cfg & g & e & H1 & H2 & _)]]].
  - rewrite <-sample_validates. apply still_outcome.
  - apply run_traces.
  - apply still_truthful.
  - discriminate H.
  - left. exact H.
  - right. exists cfg, g, e. split; [exact H1|exact H2].
Defined.

Lemma nothing_unchecked_is_the_full_check_witness : answer (sample_validation file_document true) = Ok [].
Proof.
  apply (nothing_unchecked_is_the_full_check sample_files 100 (sample_config_yaml file_document) file_groups (fun _ => None)
    sample_parse_uri (fun _ => true) (fun _ => []) true ["users"] ["users"] "conf/gateway.yml" []
    (answer (sample_validation file_document true)) (answer (sample_validation file_document false))).
  - apply still_outcome.
  - apply still_outcome.
  - exact sample_validates.
Defined.

(** Two providers of one issuer pass validation, and do not start. *)
Definition twice (j : JwtConfig) (c : GatewayConfig) : GatewayConfig :=
  let a := gc_auth c in
  {| gc_defaults := gc_defaults c; gc_server := gc_server c; gc_timeouts := gc_timeouts c; gc_limits := gc_limits c;
     gc_upstreams := gc_upstreams c;
     gc_auth := {| au_machine := au_machine a; au_client_keys := au_client_keys a; au_jwt := [j; j]; au_firebase := au_firebase a;
                   au_token_cookies := au_token_cookies a; au_cookie_protection := au_cookie_protection a |};
     gc_inject := gc_inject c; gc_reject := gc_reject c; gc_forward := gc_forward c; gc_identity := gc_identity c;
     gc_routes := gc_routes c; gc_observability := gc_observability c; gc_dns := gc_dns c; gc_cors := gc_cors c;
     gc_cache := gc_cache c; gc_shared_counters := gc_shared_counters c |}.
Lemma repeated_issuers_pass_validation :
  answer (sample_validation (twice sample_jwt file_document) false) = Ok [] /\
  answer (sample_start (twice sample_jwt file_document)) =
    Err (str_of "auth.jwt: two providers both claim issuer `https://id.example`").
Proof. split; vm_compute; reflexivity. Qed.
