(* ===== verification/Inventory.v ===== *)
(** * Diagnostics that show no value (cli/vars.rs, cli/effective.rs, cli/diagnostics.rs)

    [lagos vars] lists the variables a configuration refers to, and [lagos config
    --effective] projects what is in force; neither may show what a variable
    holds.  Both read the document as [inspect] masks it.  YAML values and what
    is asked of them are the [serde_yaml_ng] crate's. *)

From S2P Require Export Documents.

(** [serde_yaml_ng::Value], over its numbers. *)
Inductive Yaml (YN : Type) :=
| YNull
| YBool (b : bool)
| YNumber (n : YN)
| YString (s : str)
| YSequence (l : list (Yaml YN))
| YMapping (l : list (Yaml YN * Yaml YN))
| YTagged (tag : str) (v : Yaml YN).
Arguments YNull {YN}.
Arguments YBool {YN} _.
Arguments YNumber {YN} _.
Arguments YString {YN} _.
Arguments YSequence {YN} _.
Arguments YMapping {YN} _.
Arguments YTagged {YN} _ _.

(** [from_str], [Value::get], [Mapping::get] at a string, [Value::as_str] and
    [PartialEq]. *)
Class YamlCrate (YN : Type) := {
  yaml_from_str : str -> option (Yaml YN);
  value_get : Yaml YN -> str -> option (Yaml YN);
  mapping_get : list (Yaml YN * Yaml YN) -> str -> option (Yaml YN);
  value_as_str : Yaml YN -> option str;
  value_eq : Yaml YN -> Yaml YN -> bool;
}.

(** ** Fixed diagnostics *)

Definition show_line (line : nat) : str := show_u64 (Z.of_nat line).

Definition interpolation_diagnostic (source : str) (e : InterpolateError) : str :=
  let '(line, reason) := match e with
    | Unterminated line => (line, "unterminated variable reference")
    | EmptyName line => (line, "empty variable name")
    | BadName _ line => (line, "invalid variable name")
    | ControlCharacter _ line => (line, "invalid substituted value")
    | Unset _ line => (line, "missing required variable")
    end in
  source ++ ":line " ++ show_line line ++ ": " ++ str_of reason.

Definition configuration_diagnostic (source : str) (e : ConfigError) : str :=
  match e with
  | ConfigInterpolate _ error => interpolation_diagnostic source error
  | ConfigRead _ _ => "cannot read " ++ source ++ " as UTF-8"
  | ConfigParse _ _ _ => source ++ ": invalid configuration input"
  | ConfigInvalid _ => source ++ ": configuration failed semantic validation"
  end.

(** ** The inventory of variables *)

Inductive RouteSource := SourceInline | SourceFile | SourceUnchecked (reason : str).

Definition tab : str := [9].
Definition newline : str := [10].

Definition show_state (s : VariableState) : str :=
  match s with
  | IsSet => "set"
  | IsDefaulted => "defaulted"
  | IsRequired => "required (unset)"
  | IsInvalid => "invalid (control character)"
  end.

Definition inventory_line (source : str) (r : VariableReference) : str :=
  source ++ ":" ++ show_line (vr_line r) ++ ":" ++ show_line (vr_column r) ++ tab ++ vr_name r ++ tab ++ show_state (state r)
  ++ tab ++ (if has_default r then "yes" else "no") ++ tab ++ (if has_default r then "no" else "yes") ++ newline.
Definition append_inventory (source : str) (i : Inspection) : str := concat (map (inventory_line source) (references i)).

Section Inventory.
Context {YN : Type} `{YamlCrate YN}.

Definition marked_key (i : Inspection) (kv : Yaml YN * Yaml YN) : bool :=
  match value_as_str kv.1 with Some s => contains_marker i s | None => false end.

Definition route_source (i : Inspection) : RouteSource :=
  match yaml_from_str (masked i) with
  | Some (YMapping root) =>
      if existsb (marked_key i) root then SourceUnchecked "a variable supplies a configuration key"
      else match mapping_get root "routes" with
           | None => SourceInline
           | Some (YMapping routes) =>
               if existsb (marked_key i) routes then SourceUnchecked "a variable supplies a routes key"
               else match mapping_get routes "file" with
                    | None | Some YNull => SourceInline
                    | Some (YString file) =>
                        match resolve_scalar i file with
                        | Some _ => SourceFile
                        | None => SourceUnchecked "path depends on an unset or invalid variable"
                        end
                    | Some _ => SourceUnchecked "file path is not a string"
                    end
           | Some _ => SourceUnchecked "routes is not a literal mapping"
           end
  | _ => SourceUnchecked "cannot identify routes in the masked YAML"
  end.

(** The environment, and the text of a file where it can be read. *)
Context (env : str -> option str) (read : str -> option str).

Definition inspect_env (text source : str) : result Inspection str :=
  map_err (interpolation_diagnostic source) (inspect text env).

Definition runtime_file (text : str) : option str :=
  letO expanded := match interpolate_with_fallback text env (Some (fun _ => str_of "lagos-vars-unset")) with
                   | Ok x => Some x
                   | Err _ => None
                   end in
  letO root := yaml_from_str (Interpolate.text expanded) in
  letO routes := value_get root "routes" in
  letO file := value_get routes "file" in
  value_as_str file.

(** The route file a document names, read. *)
Definition route_file_text (path text : str) : option (option str) :=
  (fun file => read (path_join (default (str_of ".") (parent path)) file)) <$> runtime_file text.

Definition vars_header : str :=
  "SOURCE:LINE:COLUMN" ++ tab ++ "VARIABLE" ++ tab ++ "STATE" ++ tab ++ "DEFAULT" ++ tab ++ "REQUIRED" ++ newline.
Definition vars_footer : str :=
  "Values and default text are hidden. This inventory does not validate configuration." ++ newline.

(** What [lagos vars] prints of the document at [path]. *)
Definition vars_output (path text : str) : result str str :=
  let? gateway := inspect_env text "CONFIG" in
  let output := vars_header ++ append_inventory "CONFIG" gateway in
  let? rest := match route_source gateway with
               | SourceInline => Ok ("Inventory complete (inline routes)." ++ newline)
               | SourceUnchecked reason => Ok ("UNCHECKED routes.file: " ++ reason ++ "; inventory incomplete." ++ newline)
               | SourceFile =>
                   match route_file_text path text with
                   | None => Ok ("UNCHECKED routes.file: cannot resolve path through runtime interpolation; "
                                 ++ "inventory incomplete." ++ newline)
                   | Some (Some routes_text) =>
                       let? routes := inspect_env routes_text "routes.file" in
                       Ok (append_inventory "routes.file" routes ++ "Inventory complete (CONFIG and routes.file)." ++ newline)
                   | Some None => Ok ("UNCHECKED routes.file: cannot read file as UTF-8; inventory incomplete." ++ newline)
                   end
               end in
  Ok (output ++ rest ++ vars_footer).
End Inventory.

(** ** Environments alike

    Two environments that set the same variables, and differ in their values
    only where both values are usable or neither is. *)

Definition alike (env env' : str -> option str) : Prop := forall name,
  match resolved env name, resolved env' name with
  | Some v, Some w => is_structurally_safe v = is_structurally_safe w
  | None, None => True
  | _, _ => False
  end.

Record same_reference (r r' : VariableReference) : Prop := {
  sm_name : vr_name r = vr_name r';
  sm_line : vr_line r = vr_line r';
  sm_column : vr_column r = vr_column r';
  sm_default : has_default r = has_default r';
  sm_state : state r = state r';
  sm_marker : marker r = marker r';
  sm_selected : is_Some (selected r) <-> is_Some (selected r');
}.

Definition same_inspection (i i' : Inspection) : Prop :=
  masked i = masked i' /\ Forall2 same_reference (references i) (references i').

Section Alike.
Context (env env' : str -> option str) (Halike : alike env env').

Lemma inspect_reference_alike prefix name dflt line column e e' :
  length (ex_occurrences e) = length (ex_occurrences e') ->
  same_reference (inspect_reference env prefix name dflt line column e)
                 (inspect_reference env' prefix name dflt line column e').
Proof using Halike.
  intros Hl. unfold inspect_reference. specialize (Halike name).
  destruct (resolved env name) as [v|], (resolved env' name) as [w|]; [|done..|].
  - rewrite Halike. split; cbn; [done..|by rewrite Hl|]. destruct (negb _); [done|]. by split; eexists.
  - split; cbn; [done..|by rewrite Hl|done].
Qed.

Abbreviation inspects e0 prefix := (Interpolate.run e0 None (Some prefix)).

Lemma run_alike prefix ps e e' :
  Forall2 same_reference (ex_occurrences e) (ex_occurrences e') ->
  match inspects env prefix ps e, inspects env' prefix ps e' with
  | Ok (o, e1), Ok (o', e1') => o = o' /\ Forall2 same_reference (ex_occurrences e1) (ex_occurrences e1')
  | Err a, Err b => a = b
  | _, _ => False
  end.
Proof using Halike.
  revert e e'. induction ps as [|[line [s out|before b|s]] ps IH]; intros e e' He; cbn [Interpolate.run].
  - done.
  - specialize (IH e e' He). destruct (inspects env _ ps e) as [[o e1]|], (inspects env' _ ps e') as [[o' e1']|]; cbn; [|done..].
    destruct IH as [-> ?]. done.
  - unfold expand_reference. destruct (reference_parts b) as [name dflt].
    destruct (name ==? []); [done|]. destruct (negb (is_valid_name name)); [done|]. cbn [rbind fst snd].
    set (r := inspect_reference env prefix name dflt line _ _). set (r' := inspect_reference env' prefix name dflt line _ _).
    assert (same_reference r r') as Hr by (apply inspect_reference_alike; by eapply Forall2_length).
    rewrite (sm_marker _ _ Hr).
    assert (Forall2 same_reference (ex_occurrences (add_occurrence r (note_referenced name e)))
                                   (ex_occurrences (add_occurrence r' (note_referenced name e')))) as He2
      by (cbn; apply Forall2_app; [done|by constructor]).
    specialize (IH _ _ He2).
    destruct (inspects env _ ps _) as [[o e1]|], (inspects env' _ ps _) as [[o' e1']|]; cbn; [|done..].
    destruct IH as [-> ?]. done.
  - done.
Qed.

Lemma inspect_alike document :
  match inspect document env, inspect document env' with
  | Ok i, Ok i' => same_inspection i i'
  | Err a, Err b => a = b
  | _, _ => False
  end.
Proof using Halike.
  unfold inspect. rewrite !process_run.
  pose proof (run_alike (inspection_prefix_of document) (document_pieces 0 None (split_on 10 document)) expansion_new expansion_new) as Hr.
  destruct (inspects env _ _ _) as [[o e]|a], (inspects env' _ _ _) as [[o' e']|a']; cbn [rbind] in *;
    specialize (Hr (List.Forall2_nil _)); [|done..]. destruct Hr as [-> Hr]. by split.
Qed.
End Alike.

(** ** What is made of alike inspections *)

Lemma contains_marker_same i i' s : same_inspection i i' -> contains_marker i s = contains_marker i' s.
Proof.
  intros [_ Hr]. unfold contains_marker. induction Hr as [|r r' l l' H _ IH]; [done|]. cbn. by rewrite (sm_marker _ _ H), IH.
Qed.

Lemma next_marker_same refs refs' rest :
  Forall2 same_reference refs refs' ->
  match next_marker refs rest, next_marker refs' rest with
  | Some (o, r), Some (o', r') => o = o' /\ same_reference r r'
  | None, None => True
  | _, _ => False
  end.
Proof.
  induction 1 as [|r r' l l' H _ IH]; [done|]. cbn [next_marker]. rewrite (sm_marker _ _ H).
  destruct (find_str _ rest) as [o|]; [|done].
  destruct (next_marker l rest) as [[o1 r1]|], (next_marker l' rest) as [[o1' r1']|]; [|done..].
  destruct IH as [-> ?]. by destruct (_ <? _)%nat.
Qed.

Lemma resolve_walk_same fuel refs refs' rest :
  Forall2 same_reference refs refs' -> is_Some (resolve_walk fuel refs rest) <-> is_Some (resolve_walk fuel refs' rest).
Proof.
  intros Hr. revert rest. induction fuel as [|fuel IH]; intros rest; cbn [resolve_walk];
    pose proof (next_marker_same refs refs' rest Hr) as Hn;
    destruct (next_marker refs rest) as [[o r]|], (next_marker refs' rest) as [[o' r']|]; try done.
  destruct Hn as [-> Hn]. rewrite (sm_marker _ _ Hn). pose proof (sm_selected _ _ Hn) as Hs.
  rewrite <-!not_eq_None_Some in Hs.
  destruct (selected r) as [v|], (selected r') as [v'|]; cbn [mbind option_bind]; [|by destruct Hs as [Hs _]; destruct Hs|
    by destruct Hs as [_ Hs]; destruct Hs|done].
  destruct (strip_prefix _ _) as [after|]; cbn [mbind option_bind]; [|done]. specialize (IH after).
  rewrite <-!not_eq_None_Some in IH |- *.
  destruct (resolve_walk fuel refs after), (resolve_walk fuel refs' after); cbn [mbind option_bind]; naive_solver.
Qed.

Lemma append_inventory_same source i i' : same_inspection i i' -> append_inventory source i = append_inventory source i'.
Proof.
  intros [_ Hr]. unfold append_inventory. f_equal. induction Hr as [|r r' l l' H _ IH]; [done|]. cbn [map].
  by rewrite IH; unfold inventory_line; destruct H as [-> -> -> -> -> _ _].
Qed.

Section Reveals.
Context {YN : Type} `{YamlCrate YN}.

Lemma marked_key_same i i' l : same_inspection i i' -> existsb (marked_key i) l = existsb (marked_key i') l.
Proof using.
  intros Hi. induction l as [|kv l IH]; [done|]. cbn [existsb]. rewrite IH. f_equal. unfold marked_key.
  destruct (value_as_str _); [|done]. by apply contains_marker_same.
Qed.

Lemma route_source_same i i' : same_inspection i i' -> route_source i = route_source i'.
Proof using.
  intros Hi. unfold route_source. destruct (Hi) as [Hm Hr]. rewrite Hm.
  destruct (yaml_from_str _) as [[| | | | |root|]|]; try done. rewrite (marked_key_same _ _ _ Hi). destruct (existsb _ root); [done|].
  destruct (mapping_get root _) as [[| | | | |routes|]|]; try done. rewrite (marked_key_same _ _ _ Hi).
  destruct (existsb _ routes); [done|]. destruct (mapping_get routes _) as [[| | |file| | |]|]; try done.
  pose proof (resolve_walk_same (length file) _ _ file Hr) as Hs. unfold resolve_scalar.
  rewrite <-!not_eq_None_Some in Hs.
  destruct (resolve_walk _ (references i) _), (resolve_walk _ (references i') _); try done; destruct Hs as [H1 H2];
    [by destruct H1|by destruct H2].
Qed.

Lemma inspect_env_same env env' text source :
  alike env env' ->
  match inspect_env env text source, inspect_env env' text source with
  | Ok i, Ok i' => same_inspection i i'
  | Err a, Err b => a = b
  | _, _ => False
  end.
Proof using.
  intros Ha. pose proof (inspect_alike env env' Ha text) as Hi. unfold inspect_env.
  destruct (inspect text env), (inspect text env'); cbn; [done..|]. by subst.
Qed.

(** C28: the inventory of variables shows no value: in two environments that set
    the same variables, each with a value that can be substituted in both or in
    neither, [lagos vars] prints the same text or the same error, whatever the
    values are, so long as the route file that is found holds the same. *)
Theorem inventory_reveals_no_value env env' (read : str -> option str) path text
  (Ha : alike env env') (Hf : route_file_text env read path text = route_file_text env' read path text) :
  vars_output env read path text = vars_output env' read path text.
Proof using.
  unfold vars_output. pose proof (inspect_env_same _ _ text "CONFIG" Ha) as Hi.
  destruct (inspect_env env text _) as [i|], (inspect_env env' text _) as [i'|]; cbn [rbind]; [|done..|by subst].
  rewrite (append_inventory_same _ _ _ Hi), (route_source_same _ _ Hi), Hf.
  destruct (route_source i'); [done| |done]. destruct (route_file_text env' read path text) as [[routes|]|]; [|done..].
  pose proof (inspect_env_same _ _ routes "routes.file" Ha) as Hj.
  destruct (inspect_env env routes _) as [j|], (inspect_env env' routes _) as [j'|]; cbn [rbind]; [|done..|by subst].
  by rewrite (append_inventory_same _ _ _ Hj).
Qed.
End Reveals.

(** ** The effective view *)

Definition REDACTED : str := "<redacted>".

(** A field of the view: its value where it is shown, and where it comes from. *)
Record Field (V : Type) := { fd_value : option V; fd_origin : str; fd_redacted : bool }.
Arguments fd_value {V} _.
Arguments fd_origin {V} _.
Arguments fd_redacted {V} _.

Section Effective.
Context {YN V : Type} `{YamlCrate YN}.

Record Source := {
  so_label : str;
  so_inspection : Inspection;
  so_masked : option (Yaml YN);
  so_expanded : option (Yaml YN);
}.

Definition source_read (env : str -> option str) (label text : str) : result Source str :=
  let? inspection := map_err (interpolation_diagnostic label) (inspect text env) in
  let? expanded := map_err (interpolation_diagnostic label) (interpolate text env) in
  Ok {| so_label := label; so_inspection := inspection; so_masked := yaml_from_str (masked inspection);
        so_expanded := yaml_from_str (Interpolate.text expanded) |}.

Fixpoint contains_interpolation (i : Inspection) (v : Yaml YN) : bool :=
  match v with
  | YString s => contains_marker i s
  | YSequence l => existsb (contains_interpolation i) l
  | YMapping l => existsb (fun kv => contains_interpolation i kv.1 || contains_interpolation i kv.2) l
  | YTagged _ v => contains_interpolation i v
  | _ => false
  end.

Definition tainted_keys (i : Inspection) (l : list (Yaml YN * Yaml YN)) : bool :=
  existsb (fun kv => contains_interpolation i kv.1) l.

(** The walk of [field] down the masked document, with what taints it. *)
Definition masked_step (i : Inspection) (part : str) (node : option (Yaml YN)) : option (Yaml YN) * bool :=
  match node with
  | Some (YMapping map) => (mapping_get map part, tainted_keys i map)
  | Some current => (None, contains_interpolation i current)
  | None => (None, false)
  end.
Fixpoint field_walk (i : Inspection) (parts : list str) (node expanded : option (Yaml YN)) (tainted : bool)
  : option (Yaml YN) * option (Yaml YN) * bool :=
  match parts with
  | [] => (node, expanded, tainted)
  | part :: rest =>
      let '(node, taints) := masked_step i part node in
      field_walk i rest node (letO e := expanded in value_get e part) (tainted || taints)
  end.

Definition same_node (a b : option (Yaml YN)) : bool :=
  match a, b with Some a, Some b => value_eq a b | None, None => true | _, _ => false end.

Definition field (s : Source) (path : str) (safe : option V) : Field V :=
  let '(node, expanded, tainted) :=
    field_walk (so_inspection s) (split_on 46 path) (so_masked s) (so_expanded s)
      ((so_masked s ==? None) || (so_expanded s ==? None)) in
  let tainted := tainted || match node with Some v => contains_interpolation (so_inspection s) v | None => false end
                 || negb (same_node node expanded) in
  let redacted := tainted || (safe ==? None) in
  {| fd_value := if redacted then None else safe;
     fd_origin := if negb (node ==? None) || tainted then so_label s ++ "." ++ path else "built-in";
     fd_redacted := redacted |}.

(** [policy]: a route's policy, under the guard of its group. *)
Definition policy (s rs : Source) (path name : str) (origin : PolicyOrigin) (value null : V) : Field V :=
  let f := match origin with
           | OriginRoute => field rs path (Some value)
           | OriginGlobalDefaults => field s ("defaults." ++ name) (Some value)
           | OriginBuiltIn => {| fd_value := Some value; fd_origin := "built-in"; fd_redacted := false |}
           end in
  let redacted := fd_redacted (field rs path (Some null)) || fd_redacted f in
  {| fd_value := if redacted then None else fd_value f; fd_origin := fd_origin f; fd_redacted := redacted |}.
End Effective.

Section Literal.
Context {YN V : Type} `{YamlCrate YN}.

Lemma field_walk_taint i parts node expanded tainted :
  (field_walk i parts node expanded tainted).2 = false -> tainted = false.
Proof using.
  revert node expanded tainted. induction parts as [|part rest IH]; intros node expanded tainted; cbn [field_walk]; [done|].
  destruct (masked_step i part node) as [node' taints]. intros E%IH. by apply orb_false_iff in E as [].
Qed.

(** A setting the view shows is written literally: on the way to it no key, and
    in it no scalar, came from a variable, and the document with the variables
    filled in has the same there; one that is said to be built in is in neither
    document. *)
Lemma shown_settings_are_literal (s : Source (YN:=YN)) path (safe : option V) :
  let f := field s path safe in
  fd_redacted f = false ->
  fd_value f = safe /\ exists m e node expanded, so_masked s = Some m /\ so_expanded s = Some e /\
    field_walk (so_inspection s) (split_on 46 path) (Some m) (Some e) false = (node, expanded, false) /\
    match node, expanded with
    | Some a, Some b => value_eq a b = true /\ contains_interpolation (so_inspection s) a = false /\
                        fd_origin f = so_label s ++ "." ++ path
    | None, None => fd_origin f = "built-in"
    | _, _ => False
    end.
Proof using.
  unfold field. destruct (field_walk _ _ _ _ _) as [[node expanded] tainted] eqn:E. cbn zeta. cbn [fd_redacted fd_value fd_origin].
  intros Hr. rewrite Hr. apply orb_false_iff in Hr as [[[-> Hm]%orb_false_iff He]%orb_false_iff _].
  rewrite Hm, He. apply negb_false_iff in He. split; [done|].
  assert ((so_masked s ==? None) || (so_expanded s ==? None) = false) as Hn.
  { eapply (field_walk_taint (so_inspection s)). by rewrite E. }
  rewrite Hn in E. apply orb_false_iff in Hn as [H1 H2]. apply bool_decide_eq_false in H1, H2.
  destruct (so_masked s) as [m|]; [|done]. destruct (so_expanded s) as [e|]; [|done].
  exists m, e, node, expanded. split_and!; [done..|]. destruct node, expanded; done.
Qed.

(** A policy is shown only under a group that is literal. *)
Lemma policy_guarded (s rs : Source (YN:=YN)) path name origin (value null : V) :
  fd_redacted (policy s rs path name origin value null) = false -> fd_redacted (field rs path (Some null)) = false.
Proof using. unfold policy. cbn [fd_redacted]. by intros [? _]%orb_false_iff. Qed.
End Literal.

(** ** Witnesses *)

(** A YAML of one line: [routes: {file: <scalar>}]. *)
#[export] Instance one_line_yaml : YamlCrate Z := {
  yaml_from_str text := match strip_prefix "routes: {file: " text with
                        | Some rest => Some (YMapping [(YString "routes", YMapping [(YString "file",
                                         YString (default rest (strip_suffix "}" rest)))])])
                        | None => None
                        end;
  value_get v key := match v with YMapping l => snd <$> List.find (fun kv => match kv.1 with YString s => s ==? key | _ => false end) l
                                | _ => None end;
  mapping_get l key := snd <$> List.find (fun kv => match kv.1 with YString s => s ==? key | _ => false end) l;
  value_as_str v := match v with YString s => Some s | _ => None end;
  value_eq a b := match a, b with YString s, YString t => s ==? t | _, _ => false end;
}.
Definition secret_of (value : str) (name : str) : option str :=
  if name ==? "TOKEN" then Some value else if name ==? "DIR" then Some (str_of "conf") else None.
Definition two_files (p : str) : option str :=
  if p ==? "conf/routes.yml" then Some (str_of "key: ${TOKEN}") else None.
Definition inventoried : result str str := vars_output (secret_of "s3cret") two_files "gateway.yml" "routes: {file: ${DIR}/routes.yml}".

Lemma inventory_reveals_no_value_witness :
  inventoried = vars_output (secret_of "hunter2") two_files "gateway.yml" "routes: {file: ${DIR}/routes.yml}" /\
  is_ok inventoried = true.
Proof.
  split; [|vm_compute; reflexivity]. apply inventory_reveals_no_value.
  - intros name. unfold resolved, secret_of. destruct (name ==? "TOKEN"); [vm_compute; reflexivity|].
    destruct (name ==? "DIR"); vm_compute; [reflexivity|exact I].
  - vm_compute. reflexivity.
Defined.
