(* ===== verification/Metrics.v ===== *)
(** * Metrics (metrics.rs)

    Which time series a call of [Metrics] touches: the vector, the labels handed
    to [with_label_values] and the update. The registry behind them is the
    [prometheus] crate. Every label is bounded by the configuration: a label
    taken from a request would let a client allocate series for ever. *)

From S2P Require Export Exchange.

(** ** Labels *)

Definition KNOWN_METHODS : list str :=
  ["GET"; "POST"; "PUT"; "PATCH"; "DELETE"; "HEAD"; "OPTIONS"; "TRACE"; "CONNECT"].

Definition NO_ROUTE : str := "-".

Definition route_label (route : str) : str := if route ==? [] then NO_ROUTE else route.

Definition normalize_method (method : str) : str :=
  default (str_of "OTHER") (List.find (fun m => eq_ignore_ascii_case m method) KNOWN_METHODS).

Definition reason_prefixes : list str := ["unknown_issuer"; "client_sent"; "no_upstream"; "missing_extension"].

Definition known_reasons : list str :=
  ["deny_list"; "outside_base_path"; "unsafe_path"; "not_allowlisted"; "missing_bearer"; "invalid_token";
   "no_verifier"; "no_machine_secret"; "bad_machine_credential"; "missing_client_key"; "bad_client_key";
   "cookie_origin_required"; "cookie_origin_denied"; "cookie_origin_ambiguous"; "missing_limit_key";
   "invalid_limit_key"; "rate_limited"; "extension_timeout"; "extension_chain_timeout"; "extension_capacity";
   "concurrency_limited"; "circuit_open"; "binding_refused"; "bind_without_identity"; "identity_mint_failed";
   "upstream_timeout"; "body_too_large"].

(** The prefix itself, or the prefix and an underscore. *)
Definition has_slug_prefix (slug prefix : str) : bool :=
  (slug ==? prefix) || match strip_prefix prefix slug with
                       | Some tail => starts_with "_" tail
                       | None => false
                       end.

Definition normalize_reason (reason : str) : str :=
  let slug := trim (default reason (head (split_on 58 reason))) in
  match List.find (has_slug_prefix slug) reason_prefixes with
  | Some prefix => prefix
  | None => if slug ==? [] then NO_ROUTE
            else if bool_decide (slug ∈ known_reasons) then slug else "other"
  end.

(** The [match] of the outcomes: one of [known], or [other]. *)
Definition or_other (known : list str) (outcome : str) : str :=
  if bool_decide (outcome ∈ known) then outcome else "other".

Definition extension_outcomes : list str := ["success"; "rejected"; "timeout"].
Definition fill_reasons : list str := ["object_too_large"; "fill_budget"].
Definition discovery_outcomes : list str := ["updated"; "unchanged"; "failed"; "rejected"].
Definition jwks_outcomes : list str := ["refresh_failed"; "stale_used"; "stale_exhausted"].

(** ** Recordings *)

(** The vectors of [Metrics], by the name of their field. *)
Inductive Vector :=
| v_requests | v_duration | v_rejections | v_upstream_errors | v_retries | v_spans_dropped | v_routes
| v_backends | v_circuit | v_cache | v_shared_limit_keys | v_shared_limit_errors | v_jwks | v_extensions
| v_request_deadlines | v_discovery | v_cache_fills_abandoned.
#[export] Instance Vector_eq_dec : EqDecision Vector.
Proof. solve_decision. Defined.

Definition Series : Type := Vector * list str.

Inductive Update {F : Type} := Inc | IncBy (n : Z) | SetTo (n : Z) | Observe (seconds : F).
Arguments Update : clear implicits.

Section Recordings.
Context {F : Type}.
Abbreviation touched := (list (Series * Update F)).

(** [i64::try_from(n).unwrap_or(i64::MAX)]. *)
Definition to_gauge (n : Z) : Z := Z.min (2 ^ 63 - 1) n.

Definition record_request_deadline : touched := [((v_request_deadlines, []), Inc)].
Definition record_extension (extension outcome : str) (seconds : F) : touched :=
  [((v_extensions, [extension; or_other extension_outcomes outcome]), Observe seconds)].
Definition record_cache_fill_abandoned (reason : str) : touched :=
  [((v_cache_fills_abandoned, [or_other fill_reasons reason]), Inc)].
Definition record_discovery (upstream outcome : str) : touched :=
  [((v_discovery, [upstream; or_other discovery_outcomes outcome]), Inc)].
Definition record_jwks (outcome : str) : touched := [((v_jwks, [or_other jwks_outcomes outcome]), Inc)].
Definition record_request (route method : str) (status : Z) (seconds : F) : touched :=
  let route := route_label route in
  [((v_requests, [route; normalize_method method; show_u64 status]), Inc); ((v_duration, [route]), Observe seconds)].
Definition record_rejection (event reason : str) : touched :=
  [((v_rejections, [event; normalize_reason reason]), Inc)].
Definition record_upstream_error (upstream : str) : touched := [((v_upstream_errors, [route_label upstream]), Inc)].
Definition record_retry (upstream : str) : touched := [((v_retries, [route_label upstream]), Inc)].
Definition record_cache (route outcome : str) : touched := [((v_cache, [route_label route; outcome]), Inc)].
Definition set_circuit_state (upstream : str) (state : Z) : touched :=
  [((v_circuit, [route_label upstream]), SetTo state)].
Definition shared_limit_synced (keys : Z) : touched := [((v_shared_limit_keys, []), IncBy keys)].
Definition shared_limit_error : touched := [((v_shared_limit_errors, []), Inc)].
Definition record_span_dropped : touched := [((v_spans_dropped, []), Inc)].
Definition set_routes (n : Z) : touched := [((v_routes, []), SetTo (to_gauge n))].
Definition set_pool_health (upstream : str) (healthy unhealthy : Z) : touched :=
  [((v_backends, [upstream; str_of "healthy"]), SetTo (to_gauge healthy));
   ((v_backends, [upstream; str_of "unhealthy"]), SetTo (to_gauge unhealthy))].

(** What [logging] records of an exchange (proxy.rs): the state of its circuit,
    its cache outcome, the request itself and the upstream's failure. *)
Definition logging_metrics (state_of : str -> option State) (cache_phase : str) (seconds : F)
    (written : option Z) (e : option PError) (c : Ctx) : touched :=
  let status := default (cx_status c) written in
  match cx_breaker_upstream c with
  | Some name => match state_of name with
                 | Some state => set_circuit_state name (as_metric state)
                 | None => []
                 end
  | None => []
  end ++
  (if cx_cacheable_route c then record_cache (cx_route_id c) cache_phase else []) ++
  record_request (cx_route_id c) (cx_method c) status seconds ++
  match e with Some _ => record_upstream_error (cx_upstream_name c) | None => [] end.

(** What [reject] records of a refusal, whoever made it. *)
Definition reject_metrics {N} (rej : Rejection N) : touched := record_rejection (rej_event rej) (rej_reason rej).
End Recordings.

Example reasons : map normalize_reason
  ["deny_list"; "identity_mint_failed: key rejected by backend"; "unknown_issuer_attacker-7"; "unknown_issuers";
   "extension rejected user 4"; ""] =
  map str_of ["deny_list"; "identity_mint_failed"; "unknown_issuer"; "other"; "other"; "-"].
Proof. vm_compute. reflexivity. Qed.
Example methods : map normalize_method ["GET"; "post"; "FOOBAR"; ""] = map str_of ["GET"; "POST"; "OTHER"; "OTHER"].
Proof. vm_compute. reflexivity. Qed.

(** ** The vocabulary of the labels *)

(** The names an operator writes, and the fixed words of the program: the states
    of the cache and the events of its refusals. *)
Record Words := {
  w_routes : list str; w_upstreams : list str; w_extensions : list str;
  w_phases : list str; w_events : list str;
}.

Definition decimals (n : Z) : list str := map show_u64 (seqZ 0 n).
Definition methods_seen : list str := str_of "OTHER" :: KNOWN_METHODS.
Definition reasons_seen : list str := NO_ROUTE :: str_of "other" :: reason_prefixes ++ known_reasons.
Definition outcomes_seen (known : list str) : list str := str_of "other" :: known.

(** The values of each label of a vector, in order. *)
Definition label_values (w : Words) (v : Vector) : list (list str) :=
  let routes := NO_ROUTE :: w_routes w in
  let upstreams := NO_ROUTE :: w_upstreams w in
  match v with
  | v_requests => [routes; methods_seen; decimals 65536]
  | v_duration => [routes]
  | v_rejections => [w_events w; reasons_seen]
  | v_upstream_errors | v_retries | v_circuit => [upstreams]
  | v_backends => [upstreams; [str_of "healthy"; str_of "unhealthy"]]
  | v_cache => [routes; w_phases w]
  | v_jwks => [outcomes_seen jwks_outcomes]
  | v_extensions => [w_extensions w; outcomes_seen extension_outcomes]
  | v_discovery => [upstreams; outcomes_seen discovery_outcomes]
  | v_cache_fills_abandoned => [outcomes_seen fill_reasons]
  | v_spans_dropped | v_routes | v_shared_limit_keys | v_shared_limit_errors | v_request_deadlines => []
  end.

(** One of the series the words allow. *)
Definition named_by (w : Words) (s : Series) : Prop := Forall2 (fun l values => l ∈ values) s.2 (label_values w s.1).
Definition all_named {F} (w : Words) (l : list (Series * Update F)) : Prop := Forall (fun su => named_by w su.1) l.

Lemma find_in {A} (p : A -> bool) l x : List.find p l = Some x -> x ∈ l.
Proof. intros H. apply find_some in H as [H _]. by apply list_elem_of_In. Qed.

Lemma normalize_method_in m : normalize_method m ∈ methods_seen.
Proof.
  unfold normalize_method, methods_seen. destruct (List.find _ _) eqn:E; simpl; [|by left].
  right. by apply find_in in E.
Qed.

Lemma normalize_reason_in r : normalize_reason r ∈ reasons_seen.
Proof.
  unfold normalize_reason, reasons_seen. destruct (List.find _ _) eqn:E.
  - apply find_in in E. do 2 right. apply elem_of_app. by left.
  - destruct (_ ==? []); [by left|]. case_bool_decide; [|by right; left].
    do 2 right. apply elem_of_app. by right.
Qed.

Lemma or_other_in known o : or_other known o ∈ outcomes_seen known.
Proof. unfold or_other, outcomes_seen. case_bool_decide; [by right|by left]. Qed.

Lemma route_label_in n l : n = [] \/ n ∈ l -> route_label n ∈ NO_ROUTE :: l.
Proof. unfold route_label. intros [->|H]; [by left|]. destruct (n ==? []); [by left|by right]. Qed.

Lemma decimals_in n s : 0 <= s < n -> show_u64 s ∈ decimals n.
Proof. intros H. apply list_elem_of_fmap_2. apply elem_of_seqZ. lia. Qed.

#[export] Hint Resolve normalize_method_in normalize_reason_in or_other_in route_label_in decimals_in : metrics.

Ltac named :=
  unfold record_cache, record_retry, record_request, record_rejection, record_upstream_error, set_circuit_state, named_by;
  cbn [fst snd label_values];
  repeat match goal with |- Forall _ _ => constructor | |- Forall2 _ _ _ => constructor end;
  cbn [fst snd label_values]; eauto with metrics.

Section Exchanges.
Context {N : Type} `{HN : JsonNumber N} `{HC : Crates N}.
Variable g : Gateway.
Variable rq : Request.
Context (decide_reuse : bool -> PError -> PError) (etype_str : ErrorType -> str).
Abbreviation gevent := (event (gatewayE N)).

(** ** The names an exchange records *)

(** The context [logging] reads at the end of an exchange. *)
Inductive ended : list gevent -> Ctx -> Prop :=
| ended_filtered t o c : ftraces (request_filter g rq) new_ctx t o c -> ended t c
| ended_refused t1 c1 t2 o c2 :
    ftraces (request_filter g rq) new_ctx t1 (Go tt) c1 -> ftraces (proxy_upstream_filter g) c1 t2 o c2 ->
    ended (t1 ++ t2) c2
| ended_proxied t1 c1 t2 c2 t3 n p c3 :
    ftraces (request_filter g rq) new_ctx t1 (Go tt) c1 -> ftraces (proxy_upstream_filter g) c1 t2 (Go tt) c2 ->
    phase g rq decide_reuse etype_str c2 t3 n p c3 -> ended (t1 ++ t2 ++ t3) c3.

(** What of a context becomes a label. *)
Definition names (c : Ctx) : str * str := (cx_route_id c, cx_upstream_name c).

(** The route and the upstream are those of a route of a table read in the
    trace, or unset; the circuit is the upstream's. *)
Definition configured (t : list gevent) (c : Ctx) : Prop :=
  names c = ([], []) \/
  exists table route, Event LoadTable table ∈ t /\ route ∈ table_routes table /\ names c = (r_id route, r_upstream route).

Definition labelled (c : Ctx) : (str * str) * option str := (names c, cx_breaker_upstream c).

Lemma matched_listed (table : RouteTable) host path method route :
  match_request table host path method = Some route -> route ∈ table_routes table.
Proof using.
  unfold match_request, index_find, scan. intros H.
  destruct (lookup_index table); [|by apply find_in in H].
  apply bind_Some in H as (p & _ & H). by apply list_elem_of_lookup_2 in H.
Qed.

Lemma route_request_labels rq' : keeps labelled (route_request g rq').
Proof using.
  unfold route_request, receive, health, early_refusals, resolve_path, deny, answer_preflight, find_route. step_keeps.
Qed.
Lemma authorize_labels rq' route path : keeps labelled (authorize g rq' route path).
Proof using.
  assert (forall rq id bs, keeps labelled (check_each_binding g rq id bs)).
  { intros rq0 id bs. induction bs; cbn [check_each_binding]; step_keeps. }
  unfold authorize, authenticate_machine, rate_limit_pass, check_rate_limit, check_client_key, authenticate,
    check_cookie_origin, verify_token, check_bindings. step_keeps.
Qed.
Lemma build_plan_labels rq' id key : keeps labelled (build_plan g rq' id key).
Proof using. unfold build_plan, continue_trace, Proxy.sample, describe_caller. step_keeps. Qed.
Lemma extensions_labels rq' route path id plan : keeps labelled (run_extensions g rq' route path id plan).
Proof using. unfold run_extensions. step_keeps. Qed.

Lemma admit_labels rq' table route path subject key plan c t o c' :
  ftraces (admit_request g rq' table route path subject key plan) c t o c' ->
  labelled c' = labelled c \/ labelled c' = ((r_id route, r_upstream route), cx_breaker_upstream c).
Proof using.
  unfold admit_request, plan_slot, admitted_ctx. intros H. run_inv.
  all: unfold rejected_ctx; destruct (r_strip_prefix route), (gw_dev g); (by left) || (by right).
Qed.

Lemma filter_labels t o c : ftraces (request_filter g rq) new_ctx t o c -> configured t c /\ cx_breaker_upstream c = None.
Proof using.
  assert (forall t c1 c2 (E : labelled c2 = labelled c1), configured t c1 -> configured t c2) as Hsame.
  { intros t' c1 c2 [= E1 E2 _]. unfold configured, names. by rewrite E1, E2. }
  assert (forall (t : list gevent) c, labelled c = labelled new_ctx -> configured t c /\ cx_breaker_upstream c = None) as Hnew.
  { intros t' c' [= E1 E2 E3]. split; [|done]. left. unfold names. by rewrite E1, E2. }
  unfold request_filter. intros H.
  apply ftraces_bind in H as [(r & -> & H)|(t1 & t2 & [[table path] route] & c1 & -> & H1 & H)].
  { by apply Hnew, (route_request_labels _ _ _ _ _ H). }
  pose proof (route_request_Go _ _ _ _ _ _ _ _ H1) as (Hr & Hload & _).
  apply route_request_labels in H1.
  apply ftraces_bind in H as [(r & -> & H)|(t3 & t4 & [key id] & c2 & -> & H2 & H)].
  { apply authorize_labels in H. apply Hnew. congruence. }
  apply authorize_labels in H2.
  apply ftraces_bind in H as [(r & -> & H)|(t5 & t6 & plan & c3 & -> & H3 & H)].
  { apply build_plan_labels in H. apply Hnew. congruence. }
  apply build_plan_labels in H3.
  apply ftraces_bind in H as [(r & -> & H)|(t7 & t8 & plan' & c4 & -> & H4 & H)].
  { apply extensions_labels in H. apply Hnew. congruence. }
  apply extensions_labels in H4. apply admit_labels in H as [H|H].
  - apply Hnew. congruence.
  - assert (labelled c4 = labelled new_ctx) as [= _ _ E] by congruence. rewrite E in H. injection H as H5 H6 H7.
    split; [|done]. right. exists table, route. split_and!; [set_solver|by eapply matched_listed, rt_route|].
    unfold names. by rewrite H5, H6.
Qed.

(** Past the filter only the circuit a request was admitted to changes. *)
Lemma proxied_labels c t o c' :
  ftraces (proxy_upstream_filter g) c t o c' -> cx_breaker_upstream c = None ->
  names c' = names c /\ (cx_breaker_upstream c' = None \/ cx_breaker_upstream c' = Some (cx_upstream_name c')).
Proof using.
  unfold proxy_upstream_filter, take_slot, admit_trial. intros H Hb. run_inv.
  all: unfold rejected_ctx; try destruct (gw_dev g).
  all: split; [done|]; try (by right); left; done.
Qed.

Lemma called_labels c t a b c' : called g rq decide_reuse etype_str c t a b c' -> labelled c' = labelled c.
Proof using.
  assert (keeps labelled (upstream_peer g rq)) as Hk.
  { unfold upstream_peer, choose, candidate_addresses, dns_start. step_keeps. }
  destruct 1 as [tr o c' H|chunk c' H|replayable e|reused replayable e|status h|written e]; try done.
  - by apply Hk in H.
  - unfold request_body_filter in H. destruct chunk; [|by injection H as <-].
    destruct (add_body_chunk _ _ _); [by injection H as <-|done].
  - unfold fail_to_connect. destruct (_ && _); [done|]. destruct (cx_retry c); [|done].
    by destruct (should_retry _ _ _ _ _).
  - unfold error_while_proxy. destruct (cx_retry c); [|done].
    destruct (negb _); [done|]. by destruct (should_retry _ _ _ _ _).
Qed.

Lemma phase_labels c t n p c' : phase g rq decide_reuse etype_str c t n p c' -> labelled c' = labelled c.
Proof using. induction 1 as [|c t1 a b c1 t2 n p c2 H1 _ IH]; [done|]. apply called_labels in H1. congruence. Qed.

Lemma configured_mono t1 t2 c1 c2 : names c2 = names c1 -> configured t1 c1 -> configured (t1 ++ t2) c2.
Proof using. intros E [H|(table & route & H)]; [left; congruence|]. right. exists table, route. rewrite E. set_solver. Qed.

Lemma ended_labels t c : ended t c ->
  configured t c /\ (cx_breaker_upstream c = None \/ cx_breaker_upstream c = Some (cx_upstream_name c)).
Proof using.
  destruct 1 as [t o c H|t1 c1 t2 o c2 H1 H2|t1 c1 t2 c2 t3 n p c3 H1 H2 H3].
  - apply filter_labels in H as [H ->]. auto.
  - apply filter_labels in H1 as [H1 Hb]. apply proxied_labels in H2 as [E H2]; [|done].
    split; [by eapply configured_mono|done].
  - apply filter_labels in H1 as [H1 Hb]. apply proxied_labels in H2 as [E H2]; [|done].
    apply phase_labels in H3 as [= E1 E2 E3]. rewrite E2, E3. split; [|done].
    eapply configured_mono; [|done]. rewrite <-E. unfold names. congruence.
Qed.

(** ** Theorems *)

(** The names of a table. *)
Definition table_words (w : Words) (table : RouteTable) : Prop :=
  Forall (fun r => r_id r ∈ w_routes w /\ r_upstream r ∈ w_upstreams w) (table_routes table).

Definition loads_words (w : Words) (ev : gevent) : Prop :=
  match ev_ask ev in gatewayE _ X return X -> Prop with LoadTable => table_words w | _ => fun _ => True end (ev_answer ev).

Lemma configured_words w t c :
  Forall (loads_words w) t -> configured t c ->
  (cx_route_id c = [] \/ cx_route_id c ∈ w_routes w) /\ (cx_upstream_name c = [] \/ cx_upstream_name c ∈ w_upstreams w).
Proof using.
  intros Hw [[= -> ->]|(table & route & Hl & Hr & [= -> ->])]; [auto|].
  rewrite List.Forall_forall in Hw. apply list_elem_of_In, Hw in Hl.
  cbn in Hl. unfold table_words in Hl. rewrite List.Forall_forall in Hl.
  apply list_elem_of_In, Hl in Hr as [H1 H2]. auto.
Qed.

(** C31: no request can invent a time series. Whatever a client sends and
    however its exchange goes -- answered by the filter, refused on its way
    upstream, or proxied with any retries and failures -- every series that
    [logging] then touches, or a retry on the way, is one the configuration allows: its route and its
    upstream are those of a route of a table that was in service or the
    placeholder, its method one of nine or [OTHER], its status a decimal below
    65536; and the reason of a refusal, an extension's own free text included, is
    one of a fixed list whatever it says. *)
Theorem series_are_bounded w t c state_of cache_phase (F : Type) (seconds : F) written e (rej : Rejection N)
    (Hx : ended t c)
    (Hw : Forall (loads_words w) t)
    (Hphase : cache_phase ∈ w_phases w)
    (Hevent : rej_event rej ∈ w_events w)
    (Hstatus : 0 <= default (cx_status c) written < 65536) :
  all_named w (logging_metrics state_of cache_phase seconds written e c ++ record_retry (cx_upstream_name c) ++
    reject_metrics rej).
Proof using.
  apply ended_labels in Hx as [H Hb]. apply (configured_words w) in H as [Hr Hu]; [|done].
  unfold all_named, logging_metrics, reject_metrics. rewrite !Forall_app. split_and!.
  - destruct Hb as [->| ->]; [constructor|]. destruct (state_of _); [named|constructor].
  - destruct (cx_cacheable_route c); [named|constructor].
  - named.
  - destruct e; [named|constructor].
  - named.
  - named.
Qed.
End Exchanges.

(** ** A witness: the sample exchange, answered upstream *)

Definition sample_words : Words :=
  {| w_routes := map r_id (table_routes users_table); w_upstreams := map r_upstream (table_routes users_table);
     w_extensions := []; w_phases := ["disabled"; "hit"; "miss"]; w_events := ["gateway.concurrency_limited"] |}.

Lemma paired_words {A} (m : prog (gatewayE Z) A) w : Forall (loads_words sample_words) (transcript (@paired) m w).
Proof.
  revert w. induction m as [a|X e k IH]; intros w; cbn [transcript]; [constructor|].
  constructor; [|apply IH]. destruct e; try exact I. apply List.Forall_forall. intros r Hr.
  split; apply list_elem_of_In, in_map; exact Hr.
Qed.

Lemma series_are_bounded_witness : exists (g : Gateway) (t : list (event (gatewayE Z))) (c : Ctx),
  ended g users_request (fun _ e => e) (fun _ => []) t c /\
  all_named sample_words
    (logging_metrics (fun _ => Some Closed) "miss" 1 (Some 200) None c ++ record_retry (cx_upstream_name c) ++
     reject_metrics (concurrency_limited (N:=Z) true 1)).
Proof.
  pose proof sample_exchange as H. destruct sample_resolve as [r|]; [|destruct H].
  set (g := sample_gateway r) in *. destruct H as (H1 & H2 & H3 & _).
  pose proof (from_runs (request_filter g users_request) new_ctx) as R1. fold (c_filtered g) in R1. rewrite H1 in R1.
  pose proof (from_runs (proxy_upstream_filter g) (c_filtered g).2) as R2. fold (c_proxied g) in R2.
  pose proof (ended_refused g users_request (fun _ e => e) (fun _ => []) _ _ _ _ _ R1 R2) as Hx.
  eexists g, _, (c_proxied g).2. split; [exact Hx|].
  apply (series_are_bounded g users_request _ _ sample_words _ _ (fun _ => Some Closed) "miss" Z 1 (Some 200) None
           (concurrency_limited (N:=Z) true 1) Hx).
  - apply Forall_app; split; apply paired_words.
  - cbn. rewrite !elem_of_cons. tauto.
  - by apply elem_of_cons; left.
  - cbn. lia.
Defined.
