(* ===== verification/Diff.v ===== *)
(** * Comparing two configurations (cli/policy.rs)

    [lagos diff] reports what changes on the surface of the routes between two
    documents: routes and their effective fields, the deny-list, client keys,
    mounts and upstreams.  What it does not report has not changed: the theorem
    relates an empty report to the decisions both documents lead to. *)

From S2P Require Export Offline Documents.
From Stdlib Require Import Sorted.

(** ** Rendering *)

(** [Debug] of the types that are compared by their text. *)
Class DebugText := {
  debug_strings : list str -> str;
  debug_pairs : list (str * str) -> str;
  debug_rate_limit : option RateLimitConfig -> str;
  debug_concurrency : option ConcurrencyConfig -> str;
  debug_retry : option RetryConfig -> str;
  debug_upstream : UpstreamConfig -> str;
  debug_protection : option CookieProtectionConfig -> str;
}.

(** The derived text names every field, and quotes and escapes strings. *)
Class DebugFaithful `{DebugText} := {
  debug_strings_inj :: Inj (=) (=) debug_strings;
  debug_pairs_inj :: Inj (=) (=) debug_pairs;
  debug_rate_limit_inj :: Inj (=) (=) debug_rate_limit;
  debug_concurrency_inj :: Inj (=) (=) debug_concurrency;
}.

(** [ClientKeyState::label]. *)
Definition rule_label (rule : ClientKeyRule) : str :=
  match rule with
  | RuleRequired => "required"
  | RuleExempt why => "exempt (" ++ exemption_describe why ++ ")"
  | RuleOff => "off"
  end.

(** ** What changes *)

Inductive Change :=
| RouteAdded (name tier prefix upstream : str)
| RouteRemoved (name tier prefix upstream : str)
| RouteField (name field before after : str)
| DeniedRemoved (path : str) | DeniedAdded (path : str)
| CookiesChanged (before after : list str)
| KeyHeaderChanged (before after : option str)
| ForwardAsChanged (before after : option str)
| KeyRemoved (id : str) | KeyAdded (id : str)
| ExemptRemoved (path : str) | ExemptAdded (path : str)
| GroupRemoved (group : str) | GroupAdded (group : str)
| ProtectionChanged
| MountsChanged (before after : list str)
| UpstreamAdded (name : str) | UpstreamRemoved (name : str) | UpstreamChanged (name : str).

(** The elements of a [BTreeSet], and the difference of two. *)
Definition btree_set (l : list str) : list str := dedup (sort_by str_leb l).
Definition set_minus (a b : list str) : list str := List.filter (fun x => negb (existsb (fun y => x ==? y) b)) (btree_set a).

(** Of a [BTreeMap] from pairs: the value of a key, the last one given. *)
Definition map_get {A} (m : list (str * A)) (k : str) : option A := snd <$> List.find (fun kv => kv.1 ==? k) (reverse m).

Section Diff.
Context {N : Type} `{HC : Crates N} `{HD : DebugText}.

(** [route_fields], in the order of its keys. *)
Definition route_fields (c : ResolvedConfig N) (r : RouteConfig) : list (str * str) :=
  let o := r_policy_origins r in
  sort_by (fun a b => str_leb a.1 b.1)
    [(str_of "client_key", rule_label (client_key_rule c r (r_prefix r)));
     (str_of "tier", group (r_auth r));
     (str_of "prefix", r_prefix r);
     (str_of "hosts", debug_strings (r_host r));
     (str_of "methods", debug_strings (r_methods r));
     (str_of "methods_origin", label (po_methods o));
     (str_of "retry_origin", label (po_retry o));
     (str_of "rate_limit_origin", label (po_rate_limit o));
     (str_of "upstream", r_upstream r);
     (str_of "bindings", debug_pairs (r_bind r));
     (str_of "extensions", debug_strings (r_extensions r));
     (str_of "rate_limit", debug_rate_limit (r_rate_limit r));
     (str_of "concurrency", debug_concurrency (r_concurrency r));
     (str_of "retry", debug_retry (r_retry r));
     (str_of "cache", show_bool (r_cache r));
     (str_of "cache_authenticated", show_bool (r_cache_authenticated r));
     (str_of "sse", show_bool (r_sse r));
     (str_of "strip_prefix", show_bool (r_strip_prefix r))].

Definition field_of (fields : list (str * str)) (name : str) : str := default [] (map_get fields name).

(** The routes of a table by identifier. *)
Definition fields_by_id (c : ResolvedConfig N) (t : RouteTable) : list (str * list (str * str)) :=
  map (fun r => (r_id r, route_fields c r)) (table_routes t).

(** The changes of the entry [name]. *)
Definition entry_changes {A} (added removed : str -> A -> list Change) (both : str -> A -> A -> list Change)
    (before after : list (str * A)) (name : str) : list Change :=
  match map_get before name, map_get after name with
  | None, Some b => added name b
  | Some a, None => removed name a
  | Some a, Some b => both name a b
  | None, None => []
  end.
Definition map_changes {A} (added removed : str -> A -> list Change) (both : str -> A -> A -> list Change)
    (before after : list (str * A)) : list Change :=
  concat (map (entry_changes added removed both before after) (btree_set (map fst before ++ map fst after))).

Definition route_changes : list (str * list (str * str)) -> list (str * list (str * str)) -> list Change :=
  map_changes
    (fun name f => [RouteAdded name (field_of f "tier") (field_of f "prefix") (field_of f "upstream")])
    (fun name f => [RouteRemoved name (field_of f "tier") (field_of f "prefix") (field_of f "upstream")])
    (fun name a b => concat (map (fun kv => let v := field_of b kv.1 in
                                            if kv.2 ==? v then [] else [RouteField name kv.1 kv.2 v]) a)).
Definition upstream_changes : list (str * UpstreamConfig) -> list (str * UpstreamConfig) -> list Change :=
  map_changes (fun name _ => [UpstreamAdded name]) (fun name _ => [UpstreamRemoved name])
    (fun name a b => if debug_upstream a ==? debug_upstream b then [] else [UpstreamChanged name]).

Definition set_changes (removed added : str -> Change) (a b : list str) : list Change :=
  map removed (set_minus a b) ++ map added (set_minus b a).
Definition value_changes {A} `{EqDecision A} (change : A -> A -> Change) (a b : A) : list Change :=
  if a ==? b then [] else [change a b].

(** The changes [diff] prints, in its order. *)
Definition changes (old new : ResolvedConfig N) (old_table new_table : RouteTable) : list Change :=
  route_changes (fields_by_id old old_table) (fields_by_id new new_table)
  ++ set_changes DeniedRemoved DeniedAdded (deny_prefixes old_table) (deny_prefixes new_table)
  ++ value_changes CookiesChanged (au_token_cookies (gc_auth (raw old))) (au_token_cookies (gc_auth (raw new)))
  ++ value_changes KeyHeaderChanged (client_key_header old) (client_key_header new)
  ++ value_changes ForwardAsChanged (client_key_forward_as old) (client_key_forward_as new)
  ++ set_changes KeyRemoved KeyAdded (map key_id (client_keys old)) (map key_id (client_keys new))
  ++ set_changes ExemptRemoved ExemptAdded (client_key_exempt old) (client_key_exempt new)
  ++ set_changes GroupRemoved GroupAdded (client_key_exempt_groups old) (client_key_exempt_groups new)
  ++ (if debug_protection (au_cookie_protection (gc_auth (raw old)))
         ==? debug_protection (au_cookie_protection (gc_auth (raw new))) then [] else [ProtectionChanged])
  ++ value_changes MountsChanged (base_paths old) (base_paths new)
  ++ upstream_changes (gc_upstreams (raw old)) (gc_upstreams (raw new)).

(** ** The report *)

Definition arrow : str := " " ++ [226; 134; 146] ++ " ".
Definition shown (o : option str) : str := default (str_of "none") o.
Definition shown_list (l : list str) : str := if is_nil l then "none" else join ", " l.

Definition show_change (ch : Change) : str :=
  match ch with
  | RouteAdded name tier prefix upstream => "+ route " ++ name ++ " (" ++ tier ++ " /" ++ prefix ++ arrow ++ upstream ++ ")"
  | RouteRemoved name tier prefix upstream => "- route " ++ name ++ " (" ++ tier ++ " /" ++ prefix ++ arrow ++ upstream ++ ")"
  | RouteField name field before after => "~ route " ++ name ++ ": " ++ field ++ ": " ++ before ++ arrow ++ after
  | DeniedRemoved path => "- denied /" ++ path
  | DeniedAdded path => "+ denied /" ++ path
  | CookiesChanged before after => "~ auth.token_cookies: " ++ shown_list before ++ arrow ++ shown_list after
  | KeyHeaderChanged before after => "~ client_keys.header: " ++ shown before ++ arrow ++ shown after
  | ForwardAsChanged before after => "~ client_keys.forward_as: " ++ shown before ++ arrow ++ shown after
  | KeyRemoved id => "- client key " ++ id
  | KeyAdded id => "+ client key " ++ id
  | ExemptRemoved path => "- client key exempt /" ++ path
  | ExemptAdded path => "+ client key exempt /" ++ path
  | GroupRemoved group => "- client key exempt group " ++ group
  | GroupAdded group => "+ client key exempt group " ++ group
  | ProtectionChanged => "~ auth.cookie_protection: policy changed (origins hidden)"
  | MountsChanged before after => "~ mounts: " ++ debug_strings before ++ arrow ++ debug_strings after
  | UpstreamAdded name => "+ upstream " ++ name
  | UpstreamRemoved name => "- upstream " ++ name
  | UpstreamChanged name => "~ upstream " ++ name ++ ": target or policy changed (values hidden)"
  end.

(** The lines printed, the fixed note on the scope aside. *)
Definition report (l : list Change) (old_unset new_unset : list str) : list str :=
  map show_change l
  ++ [if is_nil l then str_of "No route-surface changes."
      else [10] ++ show_u64 (Z.of_nat (length l)) ++ " route-surface change(s)."]
  ++ (if is_nil old_unset && is_nil new_unset then []
      else ["Unchecked environment values: old=" ++ debug_strings old_unset ++ ", new=" ++ debug_strings new_unset]).

(** [diff]. *)
Section Command.
Context (config_from_yaml : str -> result GatewayConfig (option (Z * Z) * str)).
Context (groups_from_yaml : str -> result RouteGroups (option (Z * Z) * str)) (env : str -> option str).
Context (parse_uri : str -> result Uri str) (header_name_ok : str -> bool) (show_f64 : f64 -> str).
Context (shared_limits : bool) (known_old known_new : list str).

Definition diff_command (old new : str) (allow_unset : bool) : rprog (result (list str) str) :=
  let fallback := if allow_unset then Some unset_placeholder else None in
  let load known path := load_with_fallback config_from_yaml groups_from_yaml env parse_uri header_name_ok show_f64
                           shared_limits known path fallback in
  letP first := load known_old old in
  tries (map_err (fun _ => "failed to load old configuration " ++ old) first) (fun ot =>
  letP second := load known_new new in
  tries (map_err (fun _ => "failed to load new configuration " ++ new) second) (fun nt =>
  letP old_unset := placeheld_in_both env ot.1 fallback in
  letP new_unset := placeheld_in_both env nt.1 fallback in
  Ret (Ok (report (changes ot.1 nt.1 ot.2 nt.2) old_unset new_unset)))).
End Command.
End Diff.

(** ** The comparison of maps and sets *)

Lemma elem_of_btree_set l x : x ∈ btree_set l <-> x ∈ l.
Proof. unfold btree_set. by rewrite elem_of_dedup, elem_of_sort_by. Qed.

Lemma elem_of_set_minus a b x : x ∈ set_minus a b <-> x ∈ a /\ x ∉ b.
Proof.
  unfold set_minus. rewrite elem_of_lfilter, elem_of_btree_set, negb_true_iff, existsb_none.
  apply and_iff_compat_l. split.
  - intros H Hx. specialize (H x Hx). by rewrite bool_decide_true in H.
  - intros Hx y Hy. apply bool_decide_eq_false. by intros ->.
Qed.

Lemma nil_elem {A} (l : list A) : l = [] <-> forall x, x ∉ l.
Proof. split; [by intros -> x ?%elem_of_nil|]. destruct l as [|x l]; [done|]. intros H. destruct (H x). by left. Qed.

Lemma set_changes_nil removed added a b : set_changes removed added a b = [] <-> forall x, x ∈ a <-> x ∈ b.
Proof.
  unfold set_changes. rewrite app_nil. split.
  - intros [H1%map_eq_nil H2%map_eq_nil] x. rewrite nil_elem in H1, H2.
    specialize (H1 x). specialize (H2 x). rewrite elem_of_set_minus in H1, H2.
    destruct (decide (x ∈ a)), (decide (x ∈ b)); tauto.
  - intros H. split; (match goal with |- map _ ?l = [] => enough (l = []) as -> by done end);
      apply nil_elem; intros x [H1 H2]%elem_of_set_minus; by apply H2, H.
Qed.

Lemma value_changes_nil {A} `{EqDecision A} (change : A -> A -> Change) a b : value_changes change a b = [] <-> a = b.
Proof. unfold value_changes. by case_bool_decide. Qed.

Lemma last_get_elem {A} (m : list (str * A)) k a : map_get m k = Some a -> (k, a) ∈ m.
Proof.
  unfold map_get. intros (kv & [Hin Hk]%find_some & ->)%fmap_Some. breflect. subst k. destruct kv.
  apply list_elem_of_In in Hin. by rewrite elem_of_reverse in Hin.
Qed.

Lemma map_get_unique {A} (m : list (str * A)) k a : NoDup (map fst m) -> (k, a) ∈ m -> map_get m k = Some a.
Proof.
  intros Hn Hin. destruct (map_get m k) as [b|] eqn:E.
  - apply last_get_elem in E. apply list_elem_of_lookup in Hin as [i Hi], E as [j Hj].
    assert (i = j) as <-.
    { eapply NoDup_lookup; [exact Hn| |]; rewrite list_lookup_fmap; [by rewrite Hi|by rewrite Hj]. }
    congruence.
  - unfold map_get in E. apply fmap_None in E. apply find_none with (x := (k, a)) in E.
    + cbn in E. by rewrite bool_decide_true in E.
    + apply list_elem_of_In. by rewrite elem_of_reverse.
Qed.

(** No entry of two maps is reported where each side has what the other has. *)
Lemma map_changes_nil {A} added removed (both : str -> A -> A -> list Change) before after :
  (forall n a, added n a <> []) -> (forall n a, removed n a <> []) ->
  map_changes added removed both before after = [] ->
  forall n, match map_get before n, map_get after n with
            | Some a, Some b => both n a b = []
            | None, None => True
            | _, _ => False
            end.
Proof.
  unfold map_changes. intros Ha Hr H%concat_nil_Forall n. rewrite Forall_elem in H.
  destruct (decide (n ∈ map fst before ++ map fst after)) as [Hin|Hout].
  - specialize (H (entry_changes added removed both before after n)). unfold entry_changes in H.
    lapply H.
    + destruct (map_get before n), (map_get after n); [done|by intros ?%Hr|by intros ?%Ha|done].
    + apply list_elem_of_In, in_map_iff. exists n. split; [done|]. by apply list_elem_of_In, elem_of_btree_set.
  - destruct (map_get before n) as [a|] eqn:E1.
    { destruct Hout. apply elem_of_app. left. apply list_elem_of_In, in_map_iff. exists (n, a).
      split; [done|]. by apply list_elem_of_In, last_get_elem. }
    destruct (map_get after n) as [b|] eqn:E2; [|done].
    destruct Hout. apply elem_of_app. right. apply list_elem_of_In, in_map_iff. exists (n, b).
    split; [done|]. by apply list_elem_of_In, last_get_elem.
Qed.

(** ** What the fields say *)

Section Fields.
Context {N : Type} `{HC : Crates N} `{HD : DebugText}.

(** The keys of [route_fields] are distinct. *)
Lemma route_fields_get (c : ResolvedConfig N) r name v :
  (name, v) ∈ route_fields c r -> field_of (route_fields c r) name = v.
Proof using.
  intros Hin. unfold field_of. erewrite map_get_unique; [done| |done].
  apply (bool_decide_unpack _). vm_compute. exact I.
Qed.

Ltac listed := apply elem_of_sort_by; repeat first [by left | right].

(** What [diff] compares of two routes. *)
Record same_surface (c : ResolvedConfig N) (r : RouteConfig) (c' : ResolvedConfig N) (r' : RouteConfig) : Prop := {
  ss_id : r_id r = r_id r';
  ss_key : rule_label (client_key_rule c r (r_prefix r)) = rule_label (client_key_rule c' r' (r_prefix r'));
  ss_tier : r_auth r = r_auth r';
  ss_prefix : r_prefix r = r_prefix r';
  ss_host : r_host r = r_host r';
  ss_methods : r_methods r = r_methods r';
  ss_upstream : r_upstream r = r_upstream r';
  ss_bind : r_bind r = r_bind r';
  ss_extensions : r_extensions r = r_extensions r';
  ss_rate_limit : r_rate_limit r = r_rate_limit r';
  ss_concurrency : r_concurrency r = r_concurrency r';
  ss_flags : (r_cache r, r_cache_authenticated r, r_sse r, r_strip_prefix r)
             = (r_cache r', r_cache_authenticated r', r_sse r', r_strip_prefix r');
}.

#[local] Instance group_inj : Inj (=) (=) group.
Proof using. intros [] []; vm_compute; congruence. Qed.
#[local] Instance show_bool_inj : Inj (=) (=) show_bool.
Proof using. intros [] []; vm_compute; congruence. Qed.

Lemma unchanged_fields `{!DebugFaithful} c r c' r' :
  r_id r = r_id r' ->
  concat (map (fun kv => let v := field_of (route_fields c' r') kv.1 in
                         if kv.2 ==? v then [] else [RouteField (r_id r) kv.1 kv.2 v]) (route_fields c r)) = [] ->
  same_surface c r c' r'.
Proof using.
  intros Hid Hnone%concat_nil_Forall. rewrite Forall_elem in Hnone.
  assert (forall name v v', (name, v) ∈ route_fields c r -> (name, v') ∈ route_fields c' r' -> v = v') as Hf.
  { intros name v v' Hin Hin'. apply route_fields_get in Hin'.
    specialize (Hnone (if v ==? v' then [] else [RouteField (r_id r) name v v'])).
    lapply Hnone; [by case_bool_decide|]. apply list_elem_of_In, in_map_iff. exists (name, v).
    split; [cbn [fst snd]; by rewrite Hin'|]. by apply list_elem_of_In. }
  clear Hnone. split; [done|..].
  - apply (Hf "client_key"); listed.
  - apply (inj group), (Hf "tier"); listed.
  - apply (Hf "prefix"); listed.
  - apply (inj debug_strings), (Hf "hosts"); listed.
  - apply (inj debug_strings), (Hf "methods"); listed.
  - apply (Hf "upstream"); listed.
  - apply (inj debug_pairs), (Hf "bindings"); listed.
  - apply (inj debug_strings), (Hf "extensions"); listed.
  - apply (inj debug_rate_limit), (Hf "rate_limit"); listed.
  - apply (inj debug_concurrency), (Hf "concurrency"); listed.
  - assert (r_cache r = r_cache r') as -> by (apply (inj show_bool), (Hf "cache"); listed).
    assert (r_cache_authenticated r = r_cache_authenticated r') as ->
      by (apply (inj show_bool), (Hf "cache_authenticated"); listed).
    assert (r_sse r = r_sse r') as -> by (apply (inj show_bool), (Hf "sse"); listed).
    assert (r_strip_prefix r = r_strip_prefix r') as -> by (apply (inj show_bool), (Hf "strip_prefix"); listed).
    done.
Qed.

(** ** Tables with the same surface *)

(** A route file as it is parsed: the compiled patterns are not in it. *)
Definition uncompiled (r : RouteConfig) : Prop := r_hosts r = [] /\ r_bindings r = [].
Definition parsed (g : RouteGroups) : Prop := Forall (fun tr => uncompiled tr.2) (tagged g).

(** A table built from such a file. *)
Record built (t : RouteTable) : Prop := {
  bu_ok : table_ok t;
  bu_prefix : forall r, r ∈ table_routes t -> normalize_proxy_path (r_prefix r) = r_prefix r;
  bu_compiled : forall r, r ∈ table_routes t ->
    r_hosts r = oks (map host_parse (r_host r)) /\
    r_bindings r = oks (map (fun st => binding_parse st.1 st.2) (r_bind r));
}.

Lemma build_built v4 g defaults shared : parsed g -> built (build_with v4 g defaults shared).
Proof using.
  intros Hg. split; [apply build_ok|..]; intros r Hr; cbn [build_with table_routes] in Hr; rewrite sort_routes_perm in Hr;
    apply (list_elem_of_fmap_1 fst) in Hr as ([r1 errs1] & -> & Hr); cbn [fst];
    apply elem_of_lookup_imap in Hr as (i & r2 & Hd & Hi); injection Hd as -> _;
    apply list_elem_of_lookup_2 in Hi; apply (list_elem_of_fmap_1 (resolve defaults)) in Hi as ([tier r0] & -> & Hi);
    apply elem_of_lfilter in Hi as [Hi _]; unfold parsed in Hg; rewrite Forall_elem in Hg;
    destruct (Hg _ Hi) as [H1 H2]; cbn [snd] in H1, H2; unfold resolve;
    destruct (inherit _ _ _), (inherit (po_retry _) _ _), (inherit (po_rate_limit _) _ _); cbn.
  - apply trim_matches_idemp.
  - by rewrite H1, H2.
Qed.

Definition surface_of (c c' : ResolvedConfig N) (t t' : RouteTable) : Prop :=
  NoDup (map r_id (table_routes t)) /\
  forall r, r ∈ table_routes t -> exists r', r' ∈ table_routes t' /\ same_surface c r c' r'.

Lemma same_surface_sym c r c' r' : same_surface c r c' r' -> same_surface c' r' c r.
Proof using. intros []. by split. Qed.

Lemma unchanged_routes `{!DebugFaithful} c c' t t' :
  NoDup (map r_id (table_routes t)) -> NoDup (map r_id (table_routes t')) ->
  route_changes (fields_by_id c t) (fields_by_id c' t') = [] -> surface_of c c' t t' /\ surface_of c' c t' t.
Proof using.
  intros Hn Hn' Hd. unfold route_changes in Hd.
  assert (forall c t r, NoDup (map r_id (table_routes t)) -> r ∈ table_routes t ->
    map_get (fields_by_id c t) (r_id r) = Some (route_fields c r)) as Hget.
  { clear Hn Hn' Hd. clear c c' t t'. intros c t r Hn Hr. apply map_get_unique; unfold fields_by_id.
    - by rewrite map_map.
    - apply list_elem_of_In, in_map_iff. exists r. split; [done|]. by apply list_elem_of_In. }
  assert (forall c t id f, map_get (fields_by_id c t) id = Some f -> exists r, r ∈ table_routes t /\ r_id r = id /\ f = route_fields c r)
    as Hback.
  { clear Hn Hn' Hd Hget. clear c c' t t'. intros c t id f Hf%last_get_elem. unfold fields_by_id in Hf.
    apply list_elem_of_In, in_map_iff in Hf as (r & [= <- <-] & Hr). exists r. split; [by apply list_elem_of_In|done]. }
  unshelve epose proof (map_changes_nil _ _ _ _ _ _ _ Hd) as Hall; [intros; discriminate..|]. clear Hd.
  split; (split; [done|]); intros r Hr.
  - specialize (Hall (r_id r)). rewrite (Hget _ _ _ Hn Hr) in Hall.
    destruct (map_get (fields_by_id c' t') (r_id r)) as [f|] eqn:E; [|done].
    apply Hback in E as (r' & Hr' & Hid & ->). exists r'. split; [done|]. by apply unchanged_fields.
  - specialize (Hall (r_id r)). rewrite (Hget _ _ _ Hn' Hr) in Hall.
    destruct (map_get (fields_by_id c t) (r_id r)) as [f|] eqn:E; [|done].
    apply Hback in E as (r' & Hr' & Hid & ->). exists r'. split; [done|].
    apply same_surface_sym, unchanged_fields; [done|]. by rewrite Hid.
Qed.

(** The routes of a listener. *)
Definition listening (machine : bool) (t : RouteTable) : RouteTable :=
  if machine then (partition_by_listener t).2 else (partition_by_listener t).1.

Lemma elem_of_listening machine t r :
  r ∈ table_routes (listening machine t) <-> r ∈ table_routes t /\ is_machine (r_auth r) = machine.
Proof using.
  unfold listening, partition_by_listener, machine_tier, is_machine. destruct machine; cbn [fst snd table_routes].
  - by rewrite elem_of_lfilter.
  - by rewrite elem_of_lfilter, negb_true_iff.
Qed.

Lemma listening_ok machine t : table_ok t -> table_ok (listening machine t).
Proof using. intros [H1 H2]%partition_ok. by destruct machine. Qed.

(** Both serve the same requests, and rank alike. *)
Lemma same_patterns c c' t t' r r' : built t -> built t' -> r ∈ table_routes t -> r' ∈ table_routes t' ->
  same_surface c r c' r' -> r_hosts r = r_hosts r' /\ r_bindings r = r_bindings r'.
Proof using.
  intros [_ _ B] [_ _ B'] Hr Hr' Hs. destruct (B r Hr) as [-> ->], (B' r' Hr') as [-> ->].
  by rewrite (ss_host _ _ _ _ Hs), (ss_bind _ _ _ _ Hs).
Qed.

Lemma same_serves c r c' r' host path method : same_surface c r c' r' -> r_hosts r = r_hosts r' ->
  serves_request host path method r = serves_request host path method r'.
Proof using.
  intros Hs Hh. unfold serves_request, matches_method, matches_host.
  by rewrite (ss_prefix _ _ _ _ Hs), (ss_methods _ _ _ _ Hs), Hh.
Qed.
End Fields.

(** ** Routing *)

Section Routing.
Context {N : Type} `{HN : JsonNumber N} `{HC : Crates N} `{HD : DebugText}.

(** A document that loads: a table in order, compiled from its routes, that
    passes validation. *)
Record loads_as (c : ResolvedConfig N) (t : RouteTable) : Prop := {
  la_built : built t;
  la_valid : exists shared_limits known, validate_routes c shared_limits known (table_routes t) = Ok tt;
}.

Lemma validated_ids c shared_limits known routes :
  validate_routes c shared_limits known routes = Ok tt -> NoDup (map r_id routes).
Proof using.
  unfold validate_routes. intros Hv. ok_chain Hv. destruct a. by apply check_each_Ok in Ha as [Hu _].
Qed.

Lemma loads_ids c t : loads_as c t -> NoDup (map r_id (table_routes t)).
Proof using. intros [_ (sl & known & Hv)]. by eapply validated_ids. Qed.

Lemma id_unique t r s : NoDup (map r_id (table_routes t)) -> r ∈ table_routes t -> s ∈ table_routes t -> r_id r = r_id s -> r = s.
Proof using.
  intros Hn [i Hi]%list_elem_of_lookup [j Hj]%list_elem_of_lookup Hid.
  assert (i = j) as <-; [|congruence].
  eapply NoDup_lookup; [exact Hn| |]; rewrite list_lookup_fmap; [by rewrite Hi|rewrite Hj; cbn; by rewrite Hid].
Qed.

Lemma ranked c t r s host path method :
  loads_as c t -> r ∈ table_routes t -> s ∈ table_routes t -> r_id r <> r_id s ->
  is_machine (r_auth r) = is_machine (r_auth s) ->
  serves_request host path method r = true -> serves_request host path method s = true -> outranks r s \/ outranks s r.
Proof using.
  intros [_ (sl & known & Hv)] [i Hi]%list_elem_of_lookup [j Hj]%list_elem_of_lookup Hid Hm Hr Hs.
  eapply (served_once c sl known _ i j); try done. intros ->. congruence.
Qed.

Lemma outranks_same c c' r s r' s' : r_hosts r = r_hosts r' -> r_hosts s = r_hosts s' ->
  same_surface c r c' r' -> same_surface c s c' s' -> outranks r' s' -> outranks r s.
Proof using.
  intros H1 H2 Hr Hs. unfold outranks. by rewrite H1, H2, (ss_prefix _ _ _ _ Hr), (ss_prefix _ _ _ _ Hs).
Qed.

(** What one table finds on a listener, the other finds. *)
Lemma found_alike c c' t t' machine host path method r :
  loads_as c t -> loads_as c' t' -> surface_of c c' t t' -> surface_of c' c t' t ->
  match_request (listening machine t) host path method = Some r ->
  exists r', match_request (listening machine t') host path method = Some r' /\
    r ∈ table_routes t /\ r' ∈ table_routes t' /\ same_surface c r c' r'.
Proof using.
  intros Hl Hl' [_ Hfor] [_ Hback] Hm.
  pose proof (listening_ok machine t (bu_ok _ (la_built _ _ Hl))) as Hok.
  pose proof (listening_ok machine t' (bu_ok _ (la_built _ _ Hl'))) as Hok'.
  rewrite match_request_scan in * by done.
  pose proof (scan_most_specific _ host path method Hok) as H1. rewrite Hm in H1. destruct H1 as (Hr & Hs & Hbest).
  pose proof (scan_most_specific _ host path method Hok') as H2.
  apply elem_of_listening in Hr as [Hr Hmach]. destruct (Hfor r Hr) as (r' & Hr' & Hsame).
  destruct (same_patterns _ _ _ _ _ _ (la_built _ _ Hl) (la_built _ _ Hl') Hr Hr' Hsame) as [Hh _].
  assert (r' ∈ table_routes (listening machine t')) as Hin.
  { apply elem_of_listening. by rewrite <-(ss_tier _ _ _ _ Hsame). }
  assert (serves_request host path method r' = true) as Hs' by by rewrite <-(same_serves _ _ _ _ _ _ _ Hsame Hh).
  destruct (scan (table_routes (listening machine t')) _ _ _) as [s|]; [|by rewrite H2 in Hs'].
  destruct H2 as (Hsin & Hss & Hsbest). exists s. split; [done|]. split; [done|].
  pose proof Hsin as [Hst Hsm]%elem_of_listening. split; [done|].
  destruct (decide (r_id r' = r_id s)) as [Hid|Hid].
  { by rewrite <-(id_unique _ _ _ (loads_ids _ _ Hl') Hr' Hst Hid). }
  exfalso. destruct (Hback s Hst) as (s0 & Hs0 & Hsame0%same_surface_sym).
  destruct (same_patterns _ _ _ _ _ _ (la_built _ _ Hl) (la_built _ _ Hl') Hs0 Hst Hsame0) as [Hh0 _].
  destruct (ranked c' t' r' s host path method Hl' Hr' Hst Hid) as [Ho|Ho]; [|done..|by apply (Hsbest r')|].
  { apply elem_of_listening in Hin as [_ ->]. done. }
  apply (Hbest s0).
  - apply elem_of_listening. split; [done|]. by rewrite (ss_tier _ _ _ _ Hsame0).
  - by rewrite (same_serves _ _ _ _ _ _ _ Hsame0 Hh0).
  - by apply (outranks_same c c' s0 r s r').
Qed.

Lemma denied_alike t t' machine path : (forall d, d ∈ deny_prefixes t <-> d ∈ deny_prefixes t') ->
  is_denied (listening machine t) path = is_denied (listening machine t') path.
Proof using.
  intros Hd. unfold is_denied, listening, partition_by_listener. destruct machine; [done|]. cbn [fst deny_prefixes].
  apply eq_true_iff_eq. rewrite !existsb_In. by setoid_rewrite Hd.
Qed.

(** A client-key requirement, by its parts. *)
Definition under_exempt (c : ResolvedConfig N) (path : str) : bool :=
  existsb (fun p => under_prefix (normalize_proxy_path path) p) (client_key_exempt c).
Definition exempt_group (c : ResolvedConfig N) (r : RouteConfig) : bool :=
  existsb (fun g => g ==? group (r_auth r)) (client_key_exempt_groups c).
Definition rule_state (c : ResolvedConfig N) (r : RouteConfig) (path : str) : ClientKeyState :=
  if (client_key_header c ==? None) || is_machine (r_auth r) then KeyOff
  else if (r_client_key r ==? Some false) || under_exempt c path || exempt_group c r then KeyExempt else KeyRequired.

Lemma client_key_rule_state c r path : client_key_state (client_key_rule c r path) = rule_state c r path.
Proof using.
  unfold client_key_rule, rule_state, under_exempt, exempt_group. destruct (_ || is_machine _); [done|].
  destruct (r_client_key r ==? Some false); [done|]. cbn [orb].
  set (under := existsb (fun p => under_prefix _ p) _). set (grp := existsb _ (client_key_exempt_groups c)).
  destruct (List.find _ _) as [p|] eqn:E.
  - apply find_some in E as [Hin Hp]. assert (under = true) as ->; [|done].
    apply existsb_In. exists p. by rewrite list_elem_of_In.
  - assert (under = false) as ->; [|by destruct grp]. apply existsb_none.
    intros p Hp. apply find_none with (x := p) in E; [done|]. by apply list_elem_of_In.
Qed.

Lemma rule_label_state a b : rule_label a = rule_label b -> client_key_state a = client_key_state b.
Proof using.
  destruct a, b; try done; intros E; apply (f_equal head) in E; vm_compute in E; discriminate E.
Qed.

Lemma keys_alike c c' r r' path :
  same_surface c r c' r' -> normalize_proxy_path (r_prefix r) = r_prefix r ->
  client_key_header c = client_key_header c' -> (forall p, p ∈ client_key_exempt c <-> p ∈ client_key_exempt c') ->
  (forall g, g ∈ client_key_exempt_groups c <-> g ∈ client_key_exempt_groups c') ->
  under_prefix (normalize_proxy_path path) (r_prefix r) = true ->
  client_key_state (client_key_rule c r path) = client_key_state (client_key_rule c' r' path).
Proof using.
  intros Hs Hn Hh He Hg Hp. pose proof (rule_label_state _ _ (ss_key _ _ _ _ Hs)) as Hk.
  rewrite !client_key_rule_state in *. unfold rule_state in *.
  rewrite <-Hh, <-(ss_tier _ _ _ _ Hs), <-(ss_prefix _ _ _ _ Hs) in *. destruct (_ || is_machine _); [done|].
  assert (forall q, under_exempt c' q = under_exempt c q) as Hu.
  { intros q. apply eq_true_iff_eq. unfold under_exempt. rewrite !existsb_In. by setoid_rewrite He. }
  assert (exempt_group c' r' = exempt_group c r) as Hx.
  { apply eq_true_iff_eq. unfold exempt_group. rewrite !existsb_In, (ss_tier _ _ _ _ Hs). by setoid_rewrite Hg. }
  assert (under_exempt c (r_prefix r) = true -> under_exempt c path = true) as Hmono.
  { unfold under_exempt. rewrite !existsb_In, Hn. intros (p & Hin & Hq). exists p. split; [done|]. by eapply under_prefix_trans. }
  rewrite Hu, Hx in *. destruct (exempt_group c r); [by rewrite !orb_true_r|]. rewrite !orb_false_r in *.
  destruct (under_exempt c path); [by rewrite !orb_true_r|]. rewrite !orb_false_r.
  destruct (under_exempt c (r_prefix r)); [by specialize (Hmono eq_refl)|]. by rewrite !orb_false_r in Hk.
Qed.

(** A document against itself. *)
Lemma map_changes_same {A} added removed (both : str -> A -> A -> list Change) m :
  (forall n a, (n, a) ∈ m -> both n a a = []) -> map_changes added removed both m m = [].
Proof using.
  intros Hb. unfold map_changes. apply concat_nil_Forall, Forall_elem. intros l Hl.
  apply list_elem_of_In, in_map_iff in Hl as (n & <- & _). unfold entry_changes.
  destruct (map_get m n) as [a|] eqn:E; [|done]. by apply Hb, last_get_elem.
Qed.

Lemma changes_same c t : changes c c t t = [].
Proof using.
  unfold changes. rewrite !app_nil, !set_changes_nil, !value_changes_nil. split_and!; try done.
  - apply map_changes_same. intros n f Hf. unfold fields_by_id in Hf.
    apply list_elem_of_In, in_map_iff in Hf as (r & [= <- <-] & _).
    apply concat_nil_Forall, Forall_elem. intros l Hl. apply list_elem_of_In, in_map_iff in Hl as ([name v] & <- & Hin).
    cbn [fst snd]. rewrite (route_fields_get c r name v) by by apply list_elem_of_In. by rewrite bool_decide_true.
  - by rewrite bool_decide_true.
  - apply map_changes_same. intros n u _. by rewrite bool_decide_true.
Qed.

(** ** Theorems *)

Context (header_name_ok header_value_ok : str -> bool).

(** C25: a change [lagos diff] does not report is none: if it finds nothing to
    report between two documents that load, then for every request fixture, on
    either listener, both documents decide the same -- outside the mounts,
    unsafe, denied, not listed, or the same route by identifier, tier, upstream
    and upstream path, with the same ownership bindings holding, the same
    client-key requirement and the same limit keys -- whatever the order in
    which the routes and the deny-lists are written; and a document differs in
    nothing from itself. *)
Theorem unreported_documents_decide_alike `{!DebugFaithful} c c' t t' rq
  (Hl : loads_as c t) (Hl' : loads_as c' t') (Hd : changes c c' t t' = []) :
  let machine := tq_listener rq ==? InternalListener in
  Offline.decide header_name_ok header_value_ok c (listening machine t) rq =
  Offline.decide header_name_ok header_value_ok c' (listening machine t') rq /\ changes c c t t = [].
Proof using.
  intros machine. split; [|apply changes_same]. unfold changes in Hd. rewrite !app_nil, !set_changes_nil, !value_changes_nil in Hd.
  destruct Hd as (Hr & Hdeny & _ & Hh & _ & _ & He & Hg & _ & Hm & _).
  apply unchanged_routes in Hr as [S1 S2]; [|by eapply loads_ids..].
  unfold Offline.decide, strip_mount. rewrite <-Hm. destruct (strip_first_mount _ _) as [[base sub]|]; [|done].
  destruct (canonicalize_proxy_path _ _) as [path|]; [|done]. rewrite <-(denied_alike t t') by done.
  destruct (is_denied _ _); [done|].
  destruct (match_request (listening machine t) _ _ _) as [r|] eqn:E.
  2: { destruct (match_request (listening machine t') _ _ _) as [r'|] eqn:E'; [|done].
       destruct (found_alike c' c t' t _ _ _ _ _ Hl' Hl S2 S1 E') as (r & Er & _). by rewrite Er in E. }
  destruct (found_alike c c' t t' _ _ _ _ _ Hl Hl' S1 S2 E) as (r' & -> & Hin & Hin' & Hs).
  destruct (same_patterns _ _ _ _ _ _ (la_built _ _ Hl) (la_built _ _ Hl') Hin Hin' Hs) as [_ Hb].
  assert (under_prefix (normalize_proxy_path path) (r_prefix r) = true) as Hp.
  { rewrite match_request_scan in E by apply listening_ok, Hl. apply find_some in E as [_ E].
    by apply andb_true_iff in E as [[? _]%andb_true_iff _]. }
  rewrite (keys_alike c c' r r' path) by (try done; by apply (bu_prefix _ (la_built _ _ Hl))).
  unfold decide_bindings, decide_keys, upstream_path. destruct Hs as [E1 _ E2 E3 _ _ E4 _ _ E5 E6 [= _ _ _ E7]].
  by rewrite E1, E2, E3, E4, E5, E6, E7, Hb.
Qed.
End Routing.

(** ** A witness: the sample document and a copy of it in other words *)

Definition text_of (l : list str) : str := concat (map (fun s => Z.of_nat (length s) :: s) l).
Lemma text_of_inj : Inj (=) (=) text_of.
Proof.
  intros l. induction l as [|s l IH]; intros [|s' l']; cbn; [done..|]. unfold text_of in *. cbn.
  intros [= Hlen E]. apply Nat2Z.inj in Hlen. apply app_inj_1 in E as [-> E]; [|done]. by rewrite (IH l' E).
Qed.

Definition key_text (k : RateLimitKey) : str :=
  match k with KeyIp => [0] | KeyIdentity => [1] | KeyRoute => [2] | KeyHeader name => 3 :: name end.
Definition missing_text (m : MissingKey) : str :=
  match m with MissingReject => [0] | MissingRoute => [1] | MissingIp => [2] | MissingSkip => [3] end.
Definition rate_text (o : option RateLimitConfig) : list str :=
  match o with
  | None => []
  | Some r => [[rl_requests r]; [rl_interval r]; key_text (rl_key r); missing_text (rl_missing_key r);
               [Z.of_nat (rl_trusted_proxies r)]; [rl_max_keys r];
               [match rl_counter r with CounterExact => 0 | CounterSketch => 1 | CounterShared => 2 end];
               [match rl_mode r with ModeApproximate => 0 | ModeExact => 1 end]]
  end.
Definition cap_text (o : option ConcurrencyConfig) : list str :=
  match o with
  | None => []
  | Some c => [[cc_max c]; match cc_key c with Some k => 0 :: key_text k | None => [1] end;
               missing_text (cc_missing_key c); [Z.of_nat (cc_trusted_proxies c)]]
  end.

#[local] Instance key_text_inj : Inj (=) (=) key_text.
Proof. intros [] []; cbn; congruence. Qed.
#[local] Instance missing_text_inj : Inj (=) (=) missing_text.
Proof. intros [] []; cbn; congruence. Qed.

#[local] Instance sample_debug : DebugText :=
  {| debug_strings := text_of; debug_pairs l := text_of (concat (map (fun p => [p.1; p.2]) l));
     debug_rate_limit o := text_of (rate_text o); debug_concurrency o := text_of (cap_text o);
     debug_retry _ := []; debug_upstream _ := []; debug_protection _ := [] |}.
#[local] Instance sample_debug_faithful : DebugFaithful.
Proof.
  split; cbn [debug_strings debug_pairs debug_rate_limit debug_concurrency sample_debug].
  - exact text_of_inj.
  - intros a b E%text_of_inj. revert b E. induction a as [|[x y] a IH]; intros [|[x' y'] b]; cbn; [done..|].
    intros [= -> -> E]. by rewrite (IH b E).
  - intros [[]|] [[]|] E%text_of_inj; cbn in E; try done. injection E as -> -> Hk%(inj key_text) Hm%(inj missing_text) Ht -> Hc Hd.
    apply Nat2Z.inj in Ht. subst. repeat case_match; by simplify_eq.
  - intros [[? k ? ?]|] [[? k' ? ?]|] E%text_of_inj; cbn in E; try done.
    injection E as -> Hk Hm%(inj missing_text) Ht%Nat2Z.inj. subst. destruct k, k'; try done. injection Hk as Hk%(inj key_text). by subst.
Qed.

(** The deny-list is written otherwise, and the table drawn anew. *)
Definition users_groups (internal : list str) : RouteGroups :=
  {| g_internal := internal; g_machine := []; g_public := [route_of_input status_input];
     g_optional := []; g_authenticated := [route_of_input users_input] |}.
Definition first_table : RouteTable := build_with 7 (users_groups ["internal"]) no_defaults None.
Definition second_table : RouteTable := build_with 8 (users_groups ["/internal/"; "internal"]) no_defaults None.

Lemma users_parsed internal : parsed (users_groups internal).
Proof. repeat constructor. Qed.

Lemma sample_documents_load :
  match sample_resolve with
  | Ok r => validate_routes r true ["users"] (table_routes first_table) = Ok tt /\
            validate_routes r true ["users"] (table_routes second_table) = Ok tt /\ changes r r first_table second_table = []
  | Err _ => False
  end.
Proof. vm_compute. split_and!; reflexivity. Qed.

Lemma unreported_documents_decide_alike_witness :
  match sample_resolve with
  | Ok r => Offline.decide any_text any_text r (listening false first_table) users_fixture =
            Offline.decide any_text any_text r (listening false second_table) users_fixture
  | Err _ => False
  end.
Proof.
  pose proof sample_documents_load as H. destruct sample_resolve as [r|]; [|destruct H]. destruct H as (H1 & H2 & H3).
  apply (unreported_documents_decide_alike any_text any_text r r first_table second_table users_fixture).
  - split; [apply build_built, users_parsed|]. eexists _, _. exact H1.
  - split; [apply build_built, users_parsed|]. eexists _, _. exact H2.
  - exact H3.
Defined.
