(* ===== verification/Explain.v ===== *)
(** * Explaining a request (cli.rs, cli/explanation.rs)

    [lagos explain] says which route a request would take, on which listener,
    and, where it takes none, what each route under its path would have needed.
    The theorem holds what it says against the request filter. *)

From S2P Require Export Offline.

(** ** The explanation *)

Inductive Verdict := Unavailable | AnswersHealth | NotFound (why : ResultKind) | Chosen (route : RouteConfig).

Definition listener_label (l : Listener) : str :=
  match l with PublicListener => "public" | InternalListener => "internal" end.

(** The text under [Result]. *)
Definition verdict_text (v : Verdict) : str :=
  match v with
  | Unavailable => "listener unavailable: server.internal_listen is not configured"
  | AnswersHealth => "200 (local_health)"
  | NotFound KindOutsideMount => "404 (outside_base_path)"
  | NotFound KindUnsafePath => "404 (unsafe_path)"
  | NotFound KindDenied => "404 (deny_list)"
  | NotFound _ => "404 (not_allowlisted)"
  | Chosen _ => "route selected (request outcome unchecked)"
  end.

(** Why a candidate is not the route of the request. *)
Definition reasons (l : Listener) (wrong_listener denied : bool) (host : option str) (cand : RouteCandidate) : list str :=
  let route := cand_route cand in
  (if wrong_listener then
     ["belongs to " ++ listener_label (match l with PublicListener => InternalListener | InternalListener => PublicListener end)
      ++ " listener"]
   else if denied then [str_of "blocked by deny-list before route matching"] else [])
  ++ (if host_ok cand then []
      else [match host with None => str_of "Host header missing" | Some _ => str_of "host mismatch" end
            ++ "; requires " ++ join ", " (r_host route)])
  ++ (if method_ok cand then [] else ["method mismatch; allows " ++ join ", " (r_methods route)]).

Definition candidates (selected other : RouteTable) (host : option str) (path method : str) (l : Listener) (denied : bool)
  : list (RouteConfig * list str) :=
  map (fun cand => (cand_route cand, reasons l false denied host cand)) (prefix_candidates selected host path method)
  ++ map (fun cand => (cand_route cand, reasons l true denied host cand)) (prefix_candidates other host path method).

(** The line printed of a candidate. *)
Definition candidate_line (cr : RouteConfig * list str) : str :=
  "  " ++ r_id cr.1 ++ "  /" ++ r_prefix cr.1 ++ "  (group: " ++ group (r_auth cr.1) ++ "): " ++ join "; " cr.2.

Record Explanation := {
  xp_mount : option (str * str);
  xp_canonical : option str;
  xp_candidates : option (list (RouteConfig * list str));
  xp_verdict : Verdict;
}.
Definition explained (mount : option (str * str)) (canonical : option str) (cands : option (list (RouteConfig * list str)))
    (v : Verdict) : Explanation :=
  {| xp_mount := mount; xp_canonical := canonical; xp_candidates := cands; xp_verdict := v |}.

Section Explain.
Context {N : Type} `{HN : JsonNumber N} `{HC : Crates N}.

Definition bare_path (request_path : str) : str :=
  match split_once 63 request_path with Some (path, _) => path | None => request_path end.

(** [explain], from the document it loaded to its verdict. *)
Definition explain (c : ResolvedConfig N) (t : RouteTable) (method request_path : str) (host : option str) (l : Listener)
    (why_not : bool) : Explanation :=
  let '(public, machine) := partition_by_listener t in
  let '(selected, other) := match l with PublicListener => (public, machine) | InternalListener => (machine, public) end in
  let listed denied canonical :=
    if why_not then Some (candidates selected other host canonical method l denied) else None in
  if (l ==? InternalListener) && (srv_internal_listen (gc_server (raw c)) ==? None) then explained None None None Unavailable
  else
    let request_path := bare_path request_path in
    if request_path ==? srv_health_path (gc_server (raw c)) then explained None None None AnswersHealth
    else match strip_mount c request_path with
         | None => explained None None None (NotFound KindOutsideMount)
         | Some (mount, sub) =>
             match canonicalize_proxy_path percent_decode sub with
             | None => explained (Some (mount, sub)) None None (NotFound KindUnsafePath)
             | Some canonical =>
                 let at_ := explained (Some (mount, sub)) (Some canonical) in
                 if is_denied selected canonical then at_ (listed true canonical) (NotFound KindDenied)
                 else match match_request selected host canonical method with
                      | None => at_ (listed false canonical) (NotFound KindNoRoute)
                      | Some route => at_ None (Chosen route)
                      end
             end
         end.

(** What it adds of the route chosen: where it goes, for how long, and which
    headers the gateway adds, without their values. *)
Definition upstream_line (c : ResolvedConfig N) (route : RouteConfig) (canonical : str) : str :=
  let urls := match upstreams c !! r_upstream route with
              | Some u => join ", " (map ut_url (up_targets u))
              | None => "<undefined>"
              end in
  "  " ++ r_upstream route ++ "  " ++ urls ++ "/" ++ upstream_path route canonical.
Definition shown_timeout (c : ResolvedConfig N) (route : RouteConfig) : Z :=
  if r_sse route then t_sse (gc_timeouts (raw c)) else t_default (gc_timeouts (raw c)).
Definition injected_lines (c : ResolvedConfig N) (l : Listener) : list str :=
  map (fun nv => "  " ++ nv.1 ++ ": <redacted>")
    (match l with PublicListener => injected_headers c | InternalListener => machine_injected_headers c end).
End Explain.

(** ** Its reasons *)

Lemma elem_of_candidates selected other host path method l denied r why :
  (r, why) ∈ candidates selected other host path method l denied ->
  exists wrong t, t = (if wrong : bool then other else selected) /\ r ∈ table_routes t /\
    under_prefix (normalize_proxy_path path) (r_prefix r) = true /\
    why = reasons l wrong denied host
            {| cand_route := r; host_ok := matches_host r ((fun h => to_ascii_lowercase (normalize_host h)) <$> host);
               method_ok := matches_method r (to_ascii_uppercase method) |}.
Proof.
  unfold candidates, prefix_candidates. rewrite !map_map. cbn [cand_route].
  intros [(r' & [= <- <-] & Hr)%list_elem_of_In%in_map_iff|(r' & [= <- <-] & Hr)%list_elem_of_In%in_map_iff]%elem_of_app;
    apply list_elem_of_In, elem_of_lfilter in Hr as [Hr Hp]; [exists false|exists true]; by eexists.
Qed.

Lemma unfolded_case (needs : Z -> bool) (f : Z -> Z) s :
  (forall b, needs b = false -> f b = b) -> ascii_cased needs (map f) s = map f s.
Proof.
  intros Hf. unfold ascii_cased. destruct (existsb needs s) eqn:E; [done|]. symmetry.
  induction s as [|b s IH]; [done|]. cbn in E |- *. apply orb_false_iff in E as [Hb E]. by rewrite Hf, IH.
Qed.

Lemma request_method_upper m : request_method m = to_ascii_uppercase m.
Proof. apply unfolded_case. intros b H. unfold upper_byte. by rewrite H. Qed.
Lemma request_host_lower h : request_host h = (fun h => to_ascii_lowercase (normalize_host h)) <$> h.
Proof. destruct h as [h|]; [|done]. cbn. f_equal. apply unfolded_case. intros b H. unfold lower_byte. by rewrite H. Qed.

Lemma partition_tiers t :
  (forall r, r ∈ table_routes (partition_by_listener t).1 -> machine_tier r = false) /\
  (forall r, r ∈ table_routes (partition_by_listener t).2 -> machine_tier r = true).
Proof.
  unfold partition_by_listener. cbn [fst snd table_routes]. split; intros r [_ H]%elem_of_lfilter; [|done].
  by apply negb_true_iff in H.
Qed.

(** Every candidate of a request that no route serves lacks something. *)
Lemma reasons_given selected other host path method l denied r why :
  (denied = false -> match_request selected host path method = None) -> table_ok selected ->
  (r, why) ∈ candidates selected other host path method l denied -> why <> [].
Proof.
  intros Hnone Hok (wrong & t & -> & Hr & Hp & ->)%elem_of_candidates. unfold reasons.
  destruct wrong; [done|]. destruct denied; [done|]. specialize (Hnone eq_refl).
  rewrite match_request_scan in Hnone by done. pose proof (scan_most_specific _ host path method Hok) as Hs. rewrite Hnone in Hs.
  specialize (Hs r Hr). unfold serves_request in Hs. rewrite Hp, request_method_upper, request_host_lower in Hs.
  cbn [host_ok method_ok app]. cbn [andb] in Hs.
  destruct (matches_host r _); [|done]. by destruct (matches_method r _).
Qed.

(** What keeps a request from a route under its path, with the words for it: the
    route is the other listener's; the listener's deny-list refuses the path
    before any of its routes; the route names hosts and the request has none, or
    another; or it does not take the method. [own] is the table of the listener
    that was asked about. *)
Inductive keeps_off (l : Listener) (own : RouteTable) (host : option str) (path method : str) (r : RouteConfig) : str -> Prop :=
| ko_listener : machine_tier r <> (l ==? InternalListener) ->
    keeps_off l own host path method r ("belongs to " ++ (if machine_tier r then "internal" else "public") ++ " listener")
| ko_denied : machine_tier r = (l ==? InternalListener) -> is_denied own path = true ->
    keeps_off l own host path method r "blocked by deny-list before route matching"
| ko_no_host : host = None -> matches_host r (request_host host) = false ->
    keeps_off l own host path method r ("Host header missing; requires " ++ join ", " (r_host r))
| ko_host h : host = Some h -> matches_host r (request_host host) = false ->
    keeps_off l own host path method r ("host mismatch; requires " ++ join ", " (r_host r))
| ko_method : matches_method r (request_method method) = false ->
    keeps_off l own host path method r ("method mismatch; allows " ++ join ", " (r_methods r)).

(** The reasons given are those, and no others. *)
Lemma reasons_keep_off (l : Listener) own host path method r wrong text :
  machine_tier r = (if wrong : bool then negb (l ==? InternalListener) else (l ==? InternalListener)) ->
  text ∈ reasons l wrong (is_denied own path) host
           {| cand_route := r; host_ok := matches_host r ((fun h => to_ascii_lowercase (normalize_host h)) <$> host);
              method_ok := matches_method r (to_ascii_uppercase method) |} <->
  keeps_off l own host path method r text.
Proof.
  intros Htier. unfold reasons. cbn [cand_route host_ok method_ok].
  rewrite <-request_host_lower, <-request_method_upper, !elem_of_app. split.
  - intros [H|[H|H]].
    + destruct wrong.
      * apply list_elem_of_singleton in H as ->.
        replace (listener_label (match l with PublicListener => InternalListener | InternalListener => PublicListener end))
          with (if machine_tier r then str_of "internal" else str_of "public") by (rewrite Htier; by destruct l).
        apply ko_listener. rewrite Htier. by destruct (l ==? _).
      * destruct (is_denied own path) eqn:Ed; [|by apply elem_of_nil in H].
        apply list_elem_of_singleton in H as ->. by apply ko_denied.
    + destruct (matches_host r (request_host host)) eqn:Eh; [by apply elem_of_nil in H|].
      apply list_elem_of_singleton in H as ->. destruct host as [h|]; [by eapply ko_host|by apply ko_no_host].
    + destruct (matches_method r (request_method method)) eqn:Em; [by apply elem_of_nil in H|].
      apply list_elem_of_singleton in H as ->. by apply ko_method.
  - destruct 1 as [Hl|Hl Hd|Hn Hh|h Hn Hh|Hm].
    + left. destruct wrong; [|congruence]. apply list_elem_of_singleton. rewrite Htier. by destruct l.
    + left. destruct wrong; [rewrite Hl in Htier; by destruct (l ==? InternalListener)|]. rewrite Hd. by apply list_elem_of_singleton.
    + right; left. rewrite Hh, Hn. by apply list_elem_of_singleton.
    + right; left. rewrite Hh, Hn. by apply list_elem_of_singleton.
    + right; right. rewrite Hm. by apply list_elem_of_singleton.
Qed.

Lemma candidates_complete selected other host path method l denied r :
  r ∈ table_routes selected ++ table_routes other -> under_prefix (normalize_proxy_path path) (r_prefix r) = true ->
  exists why, (r, why) ∈ candidates selected other host path method l denied.
Proof.
  intros Hr Hp. unfold candidates, prefix_candidates. rewrite !map_map. cbn [cand_route].
  apply elem_of_app in Hr as [Hr|Hr]; eexists; apply elem_of_app; [left|right];
    apply list_elem_of_In, in_map_iff; exists r; (split; [done|]); by apply list_elem_of_In, elem_of_lfilter.
Qed.

(** ** Theorems *)

Section Truth.
Context {N : Type} `{HN : JsonNumber N} `{HC : Crates N}.
Variable g : Gateway (N:=N).
Abbreviation cfg := (gw_cfg g).

(** The table of a listener. *)
Definition listener_table (l : Listener) (t : RouteTable) : RouteTable :=
  match l with PublicListener => (partition_by_listener t).1 | InternalListener => (partition_by_listener t).2 end.

(** A request, as [explain] is asked about it. *)
Record asked (rq : Request) (method request_path : str) (host : option str) (l : Listener) : Prop := {
  as_path : rq_path rq = bare_path request_path;
  as_method : rq_method rq = method;
  as_host : header_str rq "host" = host;
  as_listener : gw_serves_machine g = (l ==? InternalListener);
  as_mounts : gw_base_paths g = base_paths cfg;
}.

(** What a run may answer besides what the explanation says. *)
Definition unchecked (rq : Request) (resp : Response) : Prop := answered_early g rq resp \/ answered_preflight rq resp.

Definition borne_out (rq : Request) (t : RouteTable) (v : Verdict) (o : flow Response (RouteTable * str * RouteConfig)) : Prop :=
  match v with
  | Unavailable => gw_serves_machine g = true /\ srv_internal_listen (gc_server (raw cfg)) = None
  | AnswersHealth => exists resp, o = Stop resp /\ rs_status resp = 200
  | NotFound _ => exists resp, o = Stop resp /\ (unchecked rq resp \/ rs_status resp = 404)
  | Chosen route => match o with
                    | Go (t', _, route') => t' = t /\ route' = route
                    | Stop resp => unchecked rq resp \/ rs_status resp = 503
                    end
  end.

Lemma health_answers rq c tr o c' : rq_path rq = srv_health_path (gc_server (raw cfg)) ->
  ftraces (route_request g rq) c tr o c' -> exists resp, o = Stop resp /\ rs_status resp = 200.
Proof using.
  intros Hp Hrun. unfold route_request in Hrun.
  apply ftraces_bind in Hrun as [(resp & _ & []%stops_never_receive)|(t1 & t2 & [] & c1 & -> & _ & H)].
  apply ftraces_bind in H as [(resp & -> & H)|(t3 & t4 & [] & c2 & -> & H & _)]; unfold health in H;
    rewrite bool_decide_true in H by done; ftrace_inv. by eexists.
Qed.

Lemma explain_selection rq t method request_path host l why_not :
  asked rq method request_path host l ->
  let x := explain cfg t method request_path host l why_not in
  match xp_verdict x with
  | Unavailable => l = InternalListener /\ srv_internal_listen (gc_server (raw cfg)) = None
  | AnswersHealth => bare_path request_path = srv_health_path (gc_server (raw cfg))
  | NotFound k => selection g rq (listener_table l t) = inl k
  | Chosen route => exists path, selection g rq (listener_table l t) = inr (path, route)
  end.
Proof using.
  intros [Hp Hm Hh _ Hb]. unfold explain, selection, strip_mount, strip_base.
  rewrite Hp, Hm, Hh, Hb, <-strip_mount_base.
  destruct (partition_by_listener t) as [public machine] eqn:Et.
  assert (listener_table l t = match l with PublicListener => public | InternalListener => machine end) as ->.
  { unfold listener_table. by rewrite Et; destruct l. }
  destruct ((l ==? InternalListener) && _) eqn:Eu.
  { destruct l; cbn in Eu |- *; [done|]. by apply bool_decide_eq_true in Eu. }
  destruct (bare_path request_path ==? _) eqn:Eh; [destruct l; by apply bool_decide_eq_true in Eh|].
  destruct l; (destruct (strip_first_mount _ _) as [[base sub]|]; [|done]); cbn [fmap option_fmap option_map snd];
    (destruct (canonicalize_proxy_path _ sub) as [path|]; [|done]); (destruct (is_denied _ path); [done|]);
    destruct (match_request _ _ _ _) as [route|]; [by exists path|done|by exists path|done].
Qed.

Lemma explain_candidates t method request_path host l why_not cands path :
  table_ok t ->
  let x := explain cfg t method request_path host l why_not in
  xp_candidates x = Some cands -> xp_canonical x = Some path ->
  (forall r why, (r, why) ∈ cands -> why <> [] /\ forall text, text ∈ why <-> keeps_off l (listener_table l t) host path method r text) /\
  (forall r, r ∈ table_routes t -> under_prefix (normalize_proxy_path path) (r_prefix r) = true -> exists why, (r, why) ∈ cands).
Proof using.
  intros Hok. unfold explain, listener_table. pose proof (partition_ok t Hok) as [Hpub Hmac].
  assert (forall r, r ∈ table_routes t -> r ∈ table_routes (partition_by_listener t).1 \/ r ∈ table_routes (partition_by_listener t).2) as Hall.
  { intros r Hr. unfold partition_by_listener. cbn [fst snd table_routes]. rewrite !elem_of_lfilter.
    destruct (machine_tier r); [by right|by left]. }
  pose proof (partition_tiers t) as [Ht1 Ht2].
  destruct (partition_by_listener t) as [public machine]. cbn [fst snd] in *.
  assert (forall r, r ∈ table_routes t -> forall l,
    r ∈ table_routes (match l with PublicListener => public | InternalListener => machine end)
      ++ table_routes (match l with PublicListener => machine | InternalListener => public end)) as Hboth.
  { intros r Hr l'. rewrite elem_of_app. destruct l'; destruct (Hall r Hr); auto. }
  set (selected := match l with PublicListener => public | InternalListener => machine end) in *.
  set (other := match l with PublicListener => machine | InternalListener => public end) in *.
  assert (table_ok selected) as Hsel by (by destruct l).
  assert (forall (wrong : bool) r, r ∈ table_routes (if wrong then other else selected) ->
    machine_tier r = (if wrong then negb (l ==? InternalListener) else (l ==? InternalListener))) as Htier.
  { intros wrong r. unfold selected, other. by destruct wrong, l; intros H; first [apply Ht1 in H|apply Ht2 in H]. }
  replace (match l with PublicListener => (public, machine) | InternalListener => (machine, public) end)
    with (selected, other) by (by destruct l).
  destruct (_ && _); [done|]. destruct (bare_path request_path ==? _); [done|]. destruct (strip_mount _ _) as [[mount sub]|]; [|done].
  destruct (canonicalize_proxy_path _ sub) as [canonical|]; [|done].
  assert (forall denied, denied = is_denied selected canonical ->
    (denied = false -> match_request selected host canonical method = None) ->
    (if why_not then Some (candidates selected other host canonical method l denied) else None) = Some cands ->
    Some canonical = Some path ->
    (forall r why, (r, why) ∈ cands -> why <> [] /\ forall text, text ∈ why <-> keeps_off l selected host path method r text) /\
    (forall r, r ∈ table_routes t -> under_prefix (normalize_proxy_path path) (r_prefix r) = true -> exists why, (r, why) ∈ cands))
    as Hc.
  { intros denied Hden Hd Hl [= <-]. destruct why_not; [|done]. injection Hl as <-. split.
    - intros r why Hin. split; [by eapply reasons_given|]. intros text.
      apply elem_of_candidates in Hin as (wrong & own & -> & Hr & _ & ->). subst denied.
      apply reasons_keep_off. by apply Htier.
    - intros r Hr. apply candidates_complete. exact (Hboth r Hr l). }
  destruct (is_denied selected canonical); [by apply Hc|].
  destruct (match_request selected host canonical method) eqn:Em; [done|]. by apply Hc.
Qed.

(** C24: [lagos explain] tells the truth: where it says the health endpoint
    answers, every run of the request does; where it says 404, no run routes the
    request, and where it names a route every run that routes the request takes
    that route -- the answers that can come before or instead being those it
    says it does not check, and an upstream that is not configured; and where it
    lists why not, every route of either listener under the path is listed, each
    with a reason that keeps this request from it. *)
Theorem explanations_are_true rq t method request_path host l why_not c tr o c'
  (Hasked : asked rq method request_path host l) (Hok : table_ok t)
  (Hload : Forall (loads (listener_table l t)) tr)
  (Hrun : ftraces (route_request g rq) c tr o c') :
  let x := explain cfg t method request_path host l why_not in
  borne_out rq (listener_table l t) (xp_verdict x) o /\
  forall cands path, xp_candidates x = Some cands -> xp_canonical x = Some path ->
    (forall r why, (r, why) ∈ cands ->
       why <> [] /\ forall text, text ∈ why <-> keeps_off l (listener_table l t) host path method r text) /\
    (forall r, r ∈ table_routes t -> under_prefix (normalize_proxy_path path) (r_prefix r) = true ->
       exists why, (r, why) ∈ cands).
Proof using.
  intros x. split; [|intros cands path; by apply explain_candidates].
  pose proof (explain_selection _ t _ _ _ _ why_not Hasked) as Hx. fold x in Hx. cbv zeta in Hx.
  destruct (xp_verdict x) as [| |k|route]; cbn.
  - destruct Hx as [-> Hx]. split; [|done]. by rewrite (as_listener _ _ _ _ _ Hasked).
  - eapply health_answers; [|done]. by rewrite (as_path _ _ _ _ _ Hasked).
  - apply route_request_select in Hrun as [(resp & -> & He)|(c1 & t1 & t2 & -> & Hs)]; [exists resp; split; [done|]; by left; left|].
    apply (select_route_traces g rq (listener_table l t)) in Hs; [|by apply Forall_app in Hload as [_ ?]].
    rewrite Hx in Hs. destruct o as [resp|[[t' path] route]]; [|by destruct Hs].
    exists resp. split; [done|]. destruct Hs; [left; by right|by right].
  - destruct Hx as [path Hx].
    apply route_request_select in Hrun as [(resp & -> & He)|(c1 & t1 & t2 & -> & Hs)]; [by left; left|].
    apply (select_route_traces g rq (listener_table l t)) in Hs; [|by apply Forall_app in Hload as [_ ?]].
    rewrite Hx in Hs. destruct o as [resp|[[t' path'] route']]; [destruct Hs; [left; by right|by right]|].
    destruct Hs as [-> Hs]. by injection Hs as <- <-.
Qed.
End Truth.

(** ** A witness: a path no route lists, explained *)

Definition unlisted_request : Request :=
  {| rq_method := "GET"; rq_path := "/api/v1/jobs/7"; rq_query := None;
     rq_headers := headers_of [(str_of "host", str_of "gw.example")]; rq_client_addr := Some (str_of "192.0.2.1:5000") |}.
Definition unlisted_routing (g : Gateway) : stage (RouteTable * str * RouteConfig) := route_request g unlisted_request.
Definition unlisted_path : str := "/api/v1/jobs/7?dry=1".
Definition explained_with (r : ResolvedConfig Z) : Explanation :=
  explain r users_table "GET" unlisted_path (Some (str_of "gw.example")) PublicListener true.

Lemma sample_explanation :
  match sample_resolve with
  | Ok r => xp_verdict (explained_with r) = NotFound KindNoRoute /\
            xp_canonical (explained_with r) = Some (str_of "jobs/7") /\
            map candidate_line <$> xp_candidates (explained_with r)
              = Some [str_of "  jobs  /jobs  (group: machine): belongs to internal listener"] /\
            gw_base_paths (sample_gateway r) = base_paths r
  | Err _ => False
  end.
Proof. vm_compute. split_and!; reflexivity. Qed.

(** A quiet moment on the public listener. *)
Definition public_users : RouteTable := listener_table PublicListener users_table.
Definition public_answer {X} (e : gatewayE Z X) : X :=
  match e with LoadTable => public_users | e => quiet_answer e end.
Definition publicly {X} (e : gatewayE Z X) (w : ()) : X * () := (public_answer e, w).

Lemma publicly_loads {A} (m : prog (gatewayE Z) A) w : Forall (loads public_users) (transcript (@publicly) m w).
Proof.
  revert w. induction m as [a|X e k IH]; intros w; cbn [transcript]; constructor; [|apply IH]. by destruct e.
Qed.

Lemma explanations_are_true_witness :
  match sample_resolve with
  | Ok r => exists o c', ftraces (unlisted_routing (sample_gateway r)) new_ctx
                (transcript (@publicly) (unlisted_routing (sample_gateway r) new_ctx) tt) o c' /\
              borne_out (sample_gateway r) unlisted_request public_users (NotFound KindNoRoute) o
  | Err _ => False
  end.
Proof.
  pose proof sample_explanation as H. destruct sample_resolve as [r|]; [|destruct H]. destruct H as (Hv & _ & _ & Hm).
  set (m := unlisted_routing (sample_gateway r)).
  pose proof (run_traces (@publicly) (m new_ctx) tt) as Hrun. destruct (Prog.run (@publicly) (m new_ctx) tt).1 as [o c'].
  exists o, c'. split; [exact Hrun|]. rewrite <-Hv.
  refine (proj1 (explanations_are_true (sample_gateway r) unlisted_request users_table "GET" unlisted_path
    (Some (str_of "gw.example")) PublicListener true new_ctx _ o c' _ (build_ok _ _ _ _) (publicly_loads _ _) Hrun)).
  split; [reflexivity|reflexivity|reflexivity|reflexivity|exact Hm].
Defined.
