(* ===== verification/PoolHealth.v ===== *)
(** * Health checks of a pool (upstream.rs, runtime.rs)

    The checker a pool is built with, which check a member gets, the service
    that keeps the pool current, and the gauge that samples its health.  The
    checks themselves and the balancers are Pingora's. *)

From S2P Require Export Upstream Metrics.

(** ** Checkers *)

(** What [http_health_check] sets of Pingora's [HttpHealthCheck]. *)
Record HttpHealthCheck := {
  hh_sni : str;
  hh_tls : bool;
  hh_host : str;
  hh_path : str;
  hh_success : Z;
  hh_failure : Z;
  hh_connection_timeout : Z;
  hh_read_timeout : Z;
  hh_write_timeout : Z;
}.

Inductive Checker :=
| Unchecked
| TcpCheck (success failure timeout : Z)
| HttpChecks (checks : list HttpHealthCheck) (healthy_after unhealthy_after : Z).

Section Checkers.
(** [RequestHeader]: whether a value can be a [Host] header, and whether a path
    can be requested. *)
Context (insert_host build_request : str -> result () str).

Definition http_health_check (hc : HealthCheckConfig) (t : UpstreamTarget) (path : str) : result HttpHealthCheck str :=
  let? _ := insert_host (tg_addr t) in
  let? _ := build_request path in
  Ok {| hh_sni := tg_sni t; hh_tls := tg_tls t; hh_host := tg_addr t; hh_path := path;
        hh_success := hc_healthy_after hc; hh_failure := hc_unhealthy_after hc;
        hh_connection_timeout := hc_timeout hc; hh_read_timeout := hc_timeout hc; hh_write_timeout := hc_timeout hc |}.

(** The checker [build_pool] sets. *)
Definition pool_checker (name : str) (cfg : UpstreamConfig) (targets : list UpstreamTarget) : result Checker str :=
  match up_health_check cfg with
  | None => Ok Unchecked
  | Some hc =>
      match hc_path hc with
      | Some path =>
          let? checks := collect_results (fun t =>
            map_err (fun e => "upstream `" ++ name ++ "`: invalid HTTP health check: " ++ e) (http_health_check hc t path)) targets in
          Ok (HttpChecks checks (hc_healthy_after hc) (hc_unhealthy_after hc))
      | None => Ok (TcpCheck (hc_healthy_after hc) (hc_unhealthy_after hc) (hc_timeout hc))
      end
  end.

(** [PoolHttpHealthCheck]: the check a member is handed to, and the threshold. *)
Definition check_of (checks : list HttpHealthCheck) (b : Backend) : result HttpHealthCheck str :=
  ok_or (checks !! be_index b) (str_of "health check has no matching upstream target").
Definition health_threshold (healthy_after unhealthy_after : Z) (success : bool) : Z :=
  if success then healthy_after else unhealthy_after.

(** ** Starting a pool *)

(** What [start_balancer] sets of the balancer, and whether its service is
    registered. *)
Record Started := {
  sd_balance : Balance;
  sd_health_frequency : option Z;
  sd_update_frequency : option Z;
  sd_registered : bool;
}.

(** [prime]: [polled] is the first poll of the balancer's update. *)
Definition prime (name : str) (polled : option (result () str)) : result () str :=
  match polled with
  | None => Err ("upstream `" ++ name ++ "`: backend discovery did not complete")
  | Some updated => map_err (fun e => "upstream `" ++ name ++ "`: " ++ e) updated
  end.

Definition start_balancer (name : str) (cfg : UpstreamConfig) (polled : option (result () str)) : result Started str :=
  let? _ := prime name polled in
  let frequency := hc_interval <$> up_health_check cfg in
  let updates := dc_interval <$> up_discovery cfg in
  Ok {| sd_balance := up_balance cfg; sd_health_frequency := frequency; sd_update_frequency := updates;
        sd_registered := match up_health_check cfg, up_discovery cfg with None, None => false | _, _ => true end |}.

(** [build_pool] with its checker and its service. *)
Definition start_pool parse_uri to_socket_addrs (name : str) (cfg : UpstreamConfig) (polled : option (result () str))
  : result (Kind * list Backend * option DnsDiscovery * Checker * Started) str :=
  let? (kind, members, d) := build_pool parse_uri to_socket_addrs name cfg in
  let? checker := pool_checker name cfg (kind_targets kind) in
  let? started := start_balancer name cfg polled in
  Ok (kind, members, d, checker, started).
End Checkers.

(** ** Sampling *)

(** A tick of [PoolHealthGauge]. *)
Definition sample_health {F} (upstreams : list (str * (Kind * list Backend))) (ready : Backend -> bool) : list (Series * Update F) :=
  concat (map (fun nu => match health_counts nu.2.1 nu.2.2 ready with
                         | Some (healthy, unhealthy) => set_pool_health nu.1 (Z.of_nat healthy) (Z.of_nat unhealthy)
                         | None => []
                         end) upstreams).

(** The gauge counts every member once, and names configured upstreams only. *)
Lemma health_counts_total k members ready h u :
  health_counts k members ready = Some (h, u) -> (h + u = length members)%nat.
Proof.
  destruct k; [done|]. cbn. intros [= <- <-]. pose proof (filter_length_le ready members). lia.
Qed.

Lemma sample_health_named {F} w upstreams ready :
  Forall (fun nu => nu.1 ∈ w_upstreams w) upstreams -> all_named (F:=F) w (sample_health upstreams ready).
Proof.
  unfold all_named, sample_health. induction 1 as [|[n [k m]] l Hn _ IH]; [constructor|]. cbn [map concat].
  apply Forall_app. split; [|exact IH]. cbn [fst snd] in *. destruct (health_counts k m ready) as [[h u]|]; [|constructor].
  unfold set_pool_health. repeat constructor; cbn [fst snd]; rewrite ?elem_of_cons; tauto.
Qed.

(** ** Members and their checks *)

(** The sets a pool may be serving from: the first, or after any refreshes. *)
Inductive serving (members : list Backend) (d : option DnsDiscovery) : list Backend -> Prop :=
| serving_first : serving members d members
| serving_refreshed d0 s : d = Some d0 -> rtc refresh (d0, members) s -> serving members d s.2.

Lemma refreshed_ok targets s s' : pool_ok targets s -> rtc refresh s s' -> pool_ok targets s'.
Proof. intros Hs H. induction H as [|s0 s1 s2 H1 _ IH]; [done|]. eauto using refresh_ok_preserved. Qed.

Lemma build_pool_index parse_uri to_socket_addrs name cfg targets members d :
  build_pool parse_uri to_socket_addrs name cfg = Ok (Pool targets, members, d) ->
  forall b, b ∈ members -> (be_index b < length targets)%nat.
Proof.
  unfold build_pool. intros (ts & Hts & (ans & Hans & (m & Hm & H)%rbind_Ok)%rbind_Ok)%rbind_Ok.
  injection H as -> <- _. destruct (member_set _ _ _ _) as [m'|] eqn:E in Hm; [|done]. injection Hm as ->.
  apply startup_index in Hans.
  assert (length (zip targets (up_targets cfg)) = length targets) as Hlen.
  { apply collect_results_Ok, Forall2_length in Hts. rewrite length_zip. lia. }
  rewrite Hlen in Hans. by destruct (member_set_whole _ _ _ _ _ _ E Hans).
Qed.

Lemma serving_index parse_uri to_socket_addrs name cfg targets members d now :
  build_pool parse_uri to_socket_addrs name cfg = Ok (Pool targets, members, d) -> serving members d now ->
  forall b, b ∈ now -> (be_index b < length targets)%nat.
Proof.
  intros Hb [|d0 s -> Hs]; [by eapply build_pool_index|]. apply build_pool_ok in Hb.
  by apply (pk_index _ _ (refreshed_ok _ _ _ Hb Hs)).
Qed.

(** ** Theorems *)

Section Checked.
Context (insert_host build_request : str -> result () str).
Context (parse_uri : str -> result Uri str) (to_socket_addrs : str -> result (list SocketAddr) str).

(** How a member of a pool is checked: not at all where no health checks are
    configured; over TCP, by connecting to it, where they name no path; and over
    HTTP with the check of the very target that requests to the member are sent
    to, where they do. *)
Definition checked_as (hc : option HealthCheckConfig) (targets : list UpstreamTarget) (checker : Checker) (b : Backend) : Prop :=
  match hc with
  | None => checker = Unchecked
  | Some hc =>
      match hc_path hc with
      | None => checker = TcpCheck (hc_healthy_after hc) (hc_unhealthy_after hc) (hc_timeout hc)
      | Some path => exists checks healthy unhealthy t check,
          checker = HttpChecks checks healthy unhealthy /\
          select (Pool targets) (Some b) = Some {| sel_target := t; sel_addr := Some (be_addr b) |} /\
          check_of checks b = Ok check /\
          (hh_sni check, hh_tls check, hh_host check) = (tg_sni t, tg_tls t, tg_addr t) /\
          (hh_path check, hh_connection_timeout check, hh_read_timeout check) = (path, hc_timeout hc, hc_timeout hc) /\
          (forall ok, health_threshold healthy unhealthy ok = if ok then hc_healthy_after hc else hc_unhealthy_after hc)
      end
  end.

(** C26: a member is checked as what it is dialled as: in every pool that starts,
    whatever sets of members it serves from afterwards, each member is checked as
    its configuration says, over HTTP with the server name, the TLS setting and
    the authority of the very target that requests to that member are sent to,
    under the path, the timeout and the thresholds configured, over TCP with that
    timeout and those thresholds, or not at all where there are no checks. The
    pool's service is registered exactly where it has health checks of either
    kind or discovery, and each then runs at its configured interval, so neither
    is silently off. *)
Theorem members_are_checked_as_dialled name cfg polled targets members d checker started
  (Hs : start_pool insert_host build_request parse_uri to_socket_addrs name cfg polled
        = Ok (Pool targets, members, d, checker, started)) :
  (forall now b, serving members d now -> b ∈ now -> checked_as (up_health_check cfg) targets checker b) /\
  (sd_registered started = true <-> is_Some (up_health_check cfg) \/ is_Some (up_discovery cfg)) /\
  sd_health_frequency started = hc_interval <$> up_health_check cfg /\
  sd_update_frequency started = dc_interval <$> up_discovery cfg.
Proof using.
  unfold start_pool in Hs. apply rbind_Ok in Hs as ([[k m] d'] & Hbuild & Hs).
  apply rbind_Ok in Hs as (c & Hc & Hs). apply rbind_Ok in Hs as (st & Hst & [= -> -> -> -> ->]). split.
  - intros now b Hnow Hb. pose proof (serving_index _ _ _ _ _ _ _ _ Hbuild Hnow b Hb) as Hi.
    unfold pool_checker in Hc. unfold checked_as. destruct (up_health_check cfg) as [hc|]; [|by injection Hc as <-].
    destruct (hc_path hc) as [path|] eqn:Ep; [|by injection Hc as <-].
    apply rbind_Ok in Hc as (cs & Hcs & [= <-]). apply collect_results_Ok in Hcs. cbn [kind_targets] in Hcs.
    destruct (lookup_lt_is_Some_2 targets (be_index b) Hi) as [t Ht].
    destruct (Forall2_lookup_l _ _ _ _ _ Hcs Ht) as (check & Hch & Hok). apply map_err_Ok in Hok.
    exists cs, (hc_healthy_after hc), (hc_unhealthy_after hc), t, check. unfold http_health_check in Hok.
    apply rbind_Ok in Hok as ([] & _ & Hok). apply rbind_Ok in Hok as ([] & _ & [= <-]). split_and!; try done.
    + cbn. by rewrite Ht.
    + unfold check_of. by rewrite Hch.
  - unfold start_balancer in Hst. apply rbind_Ok in Hst as ([] & _ & [= <-]).
    cbn [sd_registered sd_update_frequency sd_health_frequency]. split; [|done]. rewrite !is_Some_alt.
    destruct (up_health_check cfg), (up_discovery cfg); naive_solver.
Qed.
End Checked.

(** ** A witness: two hosts checked over HTTP, after a refresh *)

Definition checked_upstream : UpstreamConfig :=
  {| up_targets := up_targets sample_upstream; up_balance := RoundRobin; up_hash_on := HashPath;
     up_health_check := Some {| hc_path := Some (str_of "/healthz"); hc_interval := from_secs 10; hc_timeout := from_secs 2;
                                hc_healthy_after := 2; hc_unhealthy_after := 3 |};
     up_circuit_breaker := None; up_discovery := up_discovery sample_upstream |}.
Definition any_value (s : str) : result () str := Ok tt.
Definition checked_pool := start_pool any_value any_value sample_parse_uri sample_addrs "users" checked_upstream (Some (Ok tt)).
Definition checked_hosts : option (list str) :=
  match checked_pool with
  | Ok (Pool targets, members, Some d, HttpChecks checks _ _, _) =>
      let s := discover sample_lookup d in
      match s.2, (discover sample_lookup s.1).2 with
      | Ok _, Ok now => Some (map (fun b => match check_of checks b with Ok c => hh_host c | Err e => e end) now)
      | _, _ => None
      end
  | _ => None
  end.
Lemma sample_checks : checked_hosts = Some [str_of "a:80"; str_of "b:80"; str_of "b:80"].
Proof. vm_compute. reflexivity. Qed.

Lemma members_are_checked_as_dialled_witness :
  exists targets members d checks h u started now,
    checked_pool = Ok (Pool targets, members, Some d, HttpChecks checks h u, started) /\ length now = 3%nat /\
    forall b, b ∈ now -> (exists check, check_of checks b = Ok check) /\ sd_registered started = true.
Proof.
  pose proof sample_checks as H. unfold checked_hosts in H.
  destruct checked_pool as [[[[[[|targets] members] [d|]] [| |checks h u]] started]|] eqn:E; try discriminate H.
  cbv zeta in H. destruct (discover sample_lookup d) as [d1 [m|e]] eqn:E1; cbn [fst snd] in H; [|discriminate H].
  destruct (discover sample_lookup d1) as [d2 [now|e]] eqn:E2; cbn [snd] in H; [|discriminate H].
  exists targets, members, d, checks, h, u, started, now. split; [reflexivity|]. injection H as H.
  split; [apply (f_equal length) in H; rewrite length_map in H; exact H|]. intros b Hb.
  assert (serving members (Some d) now) as Hnow.
  { refine (serving_refreshed members (Some d) d (d2, now) eq_refl _). eapply rtc_l; [by eapply refresh_ok|].
    apply rtc_once. by eapply refresh_ok. }
  destruct (members_are_checked_as_dialled any_value any_value sample_parse_uri sample_addrs "users" checked_upstream
    (Some (Ok tt)) targets members (Some d) _ started E) as [Hall [[_ Hreg] _]].
  destruct (Hall now b Hnow Hb) as (checks' & h' & u' & t & check & [= <- <- <-] & _ & Hc & _).
  split; [by exists check|]. apply Hreg. left. by eexists.
Defined.
