(* ===== verification/Otel.v ===== *)
(** * Exporting spans (otel.rs, proxy.rs)

    The span of a finished request, the bounded queue it is put on without
    waiting, and the task that sends spans in batches.  The channel is tokio's
    [mpsc]: first in, first out, [try_send] refusing what does not fit; the
    exporter that sends a batch is OpenTelemetry's, and what it does with it is
    not known here. *)

From S2P Require Export Exchange.

(** ** Spans *)

Record FinishedSpan := {
  fs_trace : TraceContext;
  fs_name : str;
  fs_route : str;
  fs_upstream : str;
  fs_method : str;
  fs_path : str;
  fs_status : Z;
  fs_retries : Z;
  fs_start : Z;
  fs_end : Z;
}.

(** What [logging] makes of a context: a span for a sampled trace only; [now] is
    the wall clock and [elapsed] the time since the request started. *)
Definition finished_span (now elapsed status : Z) (c : Ctx) : option FinishedSpan :=
  letO trace := cx_trace c in
  if ctx_sampled trace then
    Some {| fs_trace := trace;
            fs_name := if cx_route_id c ==? [] then cx_method c else cx_method c ++ " " ++ cx_route_id c;
            fs_route := cx_route_id c; fs_upstream := cx_upstream_name c; fs_method := cx_method c;
            fs_path := [b_slash] ++ cx_path c; fs_status := status; fs_retries := cx_attempts c;
            fs_start := now - elapsed; fs_end := now |}
  else None.

Inductive AttrValue := AttrText (s : str) | AttrInt (n : Z).

(** OpenTelemetry's [SpanData], where it is set. *)
Record SpanData := {
  sp_trace_id : list Z;
  sp_span_id : list Z;
  sp_flags : Z;
  sp_parent_span_id : list Z;
  sp_parent_is_remote : bool;
  sp_name : str;
  sp_start : Z;
  sp_end : Z;
  sp_attributes : list (str * AttrValue);
  sp_error : option str;
}.

(** [SpanId::INVALID]. *)
Definition INVALID_SPAN : list Z := repeat 0 8.

Definition to_span_data (service : str) (s : FinishedSpan) : SpanData :=
  let trace := fs_trace s in
  {| sp_trace_id := trace_id trace; sp_span_id := span_id trace; sp_flags := flags trace;
     sp_parent_span_id := default INVALID_SPAN (parent_span_id trace);
     sp_parent_is_remote := match parent_span_id trace with Some _ => true | None => false end;
     sp_name := fs_name s; sp_start := fs_start s; sp_end := fs_end s;
     sp_attributes :=
       [(str_of "service.name", AttrText service); (str_of "http.request.method", AttrText (fs_method s));
        (str_of "url.path", AttrText (fs_path s)); (str_of "http.response.status_code", AttrInt (fs_status s))]
       ++ (if fs_route s ==? [] then [] else [(str_of "lagos.route", AttrText (fs_route s))])
       ++ (if fs_upstream s ==? [] then [] else [(str_of "lagos.upstream", AttrText (fs_upstream s))])
       ++ (if 0 <? fs_retries s then [(str_of "lagos.retries", AttrInt (fs_retries s))] else []);
     sp_error := if 500 <=? fs_status s then Some (str_of "upstream or gateway error") else None |}.

(** ** The exporter *)

Definition QUEUE_DEPTH : nat := 2048.
Definition BATCH_SIZE : nat := 256.
Definition BATCH_INTERVAL : Z := from_secs 2.

(** The channel, the task's batch, what was handed to the exporter, the dropped
    spans counted, whether every sender is gone, and whether the task ended. *)
Record Exporter := {
  xp_queue : list FinishedSpan;
  xp_batch : list SpanData;
  xp_sent : list (list SpanData);
  xp_dropped : Z;
  xp_closed : bool;
  xp_ended : bool;
}.
Definition exporter_new : Exporter :=
  {| xp_queue := []; xp_batch := []; xp_sent := []; xp_dropped := 0; xp_closed := false; xp_ended := false |}.

Section Exporter.
Context (depth size : nat) (service : str).

(** [record]: never waits. *)
Definition record (span : FinishedSpan) (x : Exporter) : Exporter :=
  if (length (xp_queue x) <? depth)%nat && negb (xp_ended x) then
    {| xp_queue := xp_queue x ++ [span]; xp_batch := xp_batch x; xp_sent := xp_sent x; xp_dropped := xp_dropped x;
       xp_closed := xp_closed x; xp_ended := xp_ended x |}
  else
    {| xp_queue := xp_queue x; xp_batch := xp_batch x; xp_sent := xp_sent x; xp_dropped := xp_dropped x + 1;
       xp_closed := xp_closed x; xp_ended := xp_ended x |}.

(** A turn of the task's loop: what [select!] woke it with. *)
Inductive Wake := Received | Ticked.

(** [recv] is ready where a span waits or every sender is gone. *)
Definition woken (wake : Wake) (x : Exporter) : option (list FinishedSpan * list SpanData * bool) :=
  match wake with
  | Ticked => Some (xp_queue x, xp_batch x, true)
  | Received =>
      match xp_queue x with
      | s :: rest =>
          let batch := xp_batch x ++ [to_span_data service s] in
          Some (rest, batch, (size <=? length batch)%nat)
      | [] => if xp_closed x then Some ([], xp_batch x, true) else None
      end
  end.

Definition turn (wake : Wake) (x : Exporter) : option Exporter :=
  if xp_ended x then None
  else
    letO qbf := woken wake x in
    let '(queue, batch, flush) := qbf in
    let sending := flush && negb (bool_decide (length batch = 0%nat)) in
    let rest := if sending then [] else batch in
    Some {| xp_queue := queue; xp_batch := rest; xp_sent := if sending then xp_sent x ++ [batch] else xp_sent x;
            xp_dropped := xp_dropped x; xp_closed := xp_closed x;
            xp_ended := xp_closed x && bool_decide (length rest = 0%nat) |}.

(** The senders go: only after that does [recv] give [None]. *)
Definition close (x : Exporter) : Exporter :=
  {| xp_queue := xp_queue x; xp_batch := xp_batch x; xp_sent := xp_sent x; xp_dropped := xp_dropped x;
     xp_closed := true; xp_ended := xp_ended x |}.

(** Requests finish and the task turns, in any order; with the spans offered and
    those the queue took. *)
Inductive runs : list FinishedSpan -> list FinishedSpan -> Exporter -> Prop :=
| runs_new : runs [] [] exporter_new
| runs_taken offered taken x s : runs offered taken x -> xp_closed x = false ->
    xp_dropped (record s x) = xp_dropped x -> runs (offered ++ [s]) (taken ++ [s]) (record s x)
| runs_dropped offered taken x s : runs offered taken x -> xp_closed x = false ->
    xp_dropped (record s x) <> xp_dropped x -> runs (offered ++ [s]) taken (record s x)
| runs_turn offered taken x wake x' : runs offered taken x -> turn wake x = Some x' -> runs offered taken x'
| runs_close offered taken x : runs offered taken x -> runs offered taken (close x).

(** ** What the exporter keeps *)

Definition batch_ok (b : list SpanData) : Prop := (0 < length b <= size)%nat.

Record exporter_ok (offered taken : list FinishedSpan) (x : Exporter) : Prop := {
  eo_queue : (length (xp_queue x) <= depth)%nat;
  eo_batch : (length (xp_batch x) < size)%nat;
  eo_sent : Forall batch_ok (xp_sent x);
  eo_kept : concat (xp_sent x) ++ xp_batch x ++ map (to_span_data service) (xp_queue x) = map (to_span_data service) taken;
  eo_dropped : Z.of_nat (length offered) = Z.of_nat (length taken) + xp_dropped x;
  eo_taken : taken `sublist_of` offered;
  eo_open : xp_closed x = false -> xp_ended x = false;
}.

Lemma turn_ok offered taken x wake x' : (0 < size)%nat ->
  exporter_ok offered taken x -> turn wake x = Some x' -> exporter_ok offered taken x'.
Proof using.
  intros Hsize [Hq Hb Hs Hk Hd Ht Ho]. unfold turn. destruct (xp_ended x); [done|].
  intros ([[queue batch] flush] & Hw & [= <-])%bind_Some.
  assert ((length queue <= depth)%nat /\ (length batch <= size)%nat /\ (flush = false -> (length batch < size)%nat) /\
    concat (xp_sent x) ++ batch ++ map (to_span_data service) queue = map (to_span_data service) taken) as (Hq' & Hb' & Hf & Hk').
  { unfold woken in Hw. destruct wake; [|injection Hw as <- <- <-; split_and!; [done|lia|done|done]].
    destruct (xp_queue x) as [|s rest] eqn:E.
    - destruct (xp_closed x); [|done]. injection Hw as <- <- <-. split_and!; [cbn in *; lia|lia|done|done].
    - injection Hw as <- <- <-. cbn [length] in Hq. rewrite length_app. cbn [length]. split_and!; [lia|lia| |].
      + intros Hl%Nat.leb_gt. lia.
      + rewrite <-Hk. cbn [map]. by rewrite <-!app_assoc. }
  destruct flush; cbn [andb]; [|by split; cbn; auto; intros ->].
  case_bool_decide as He; cbn [negb].
  - split; cbn; auto; [lia|]. by intros ->.
  - split; cbn; auto.
    + apply Forall_app. split; [done|]. repeat constructor; [|done]. lia.
    + rewrite concat_app. cbn [concat]. by rewrite app_nil_r, <-app_assoc.
    + by intros ->.
Qed.

Lemma runs_ok offered taken x : (0 < size)%nat -> runs offered taken x -> exporter_ok offered taken x.
Proof using.
  intros Hsize. induction 1 as [|offered taken x s _ IH Hc Hd|offered taken x s _ IH Hc Hd|offered taken x wake x' _ IH Ht
    |offered taken x _ IH].
  - split; cbn; auto using sublist_nil_l; lia.
  - unfold record in *. destruct ((_ <? _)%nat && _) eqn:E; cbn in Hd; [|lia].
    apply andb_true_iff in E as [E%Nat.ltb_lt _]. destruct IH as [Hq Hb Hs Hk Hdr Ht Ho].
    split; cbn; auto; rewrite ?length_app; cbn [length]; [lia| |lia|by apply sublist_app].
    rewrite !map_app. cbn [map]. by rewrite <-Hk, <-!app_assoc.
  - unfold record in *. destruct ((_ <? _)%nat && _) eqn:E; cbn in Hd; [done|]. destruct IH as [Hq Hb Hs Hk Hdr Ht Ho].
    split; cbn; auto; [rewrite length_app; cbn [length]; lia|by apply sublist_inserts_r].
  - by eapply turn_ok.
  - destruct IH. by split.
Qed.
End Exporter.

(** ** The task *)

(** Every queued span is received in as many turns. *)
Lemma queue_drains size service n x : xp_ended x = false -> xp_closed x = false -> length (xp_queue x) = n ->
  exists x', foldr (fun w m => m ≫= turn size service w) (Some x) (repeat Received n) = Some x' /\ xp_queue x' = [].
Proof.
  revert x. induction n as [|n IH]; intros x He Hc Hn.
  - exists x. split; [done|]. by apply nil_length_inv.
  - destruct (xp_queue x) as [|s rest] eqn:E; [done|].
    assert (exists x1, turn size service Received x = Some x1 /\ xp_queue x1 = rest /\ xp_ended x1 = false /\
      xp_closed x1 = false) as (x1 & H1 & Hq1 & He1 & Hc1).
    { unfold turn. rewrite He. cbn [woken]. rewrite E. cbn [mbind option_bind]. eexists. split; [done|]. cbn. by rewrite Hc. }
    destruct (IH x1) as (x' & Hx & Hq'); [done|done|by rewrite Hq1; injection Hn|].
    exists x'. split; [|done]. rewrite <-Hx, <-H1. clear. induction n as [|n IH]; cbn; [done|]. cbn in IH. by rewrite IH.
Qed.

(** C32: However requests finish and the exporter's task turns, at most
    [QUEUE_DEPTH] spans wait, the batch stays below [BATCH_SIZE], no request to
    the collector is empty or larger, and the spans sent, batched and waiting are
    exactly those the queue took, in the order their requests finished, every
    other one being counted as dropped.  The task never ends while requests are
    served and empties the queue in as many turns as spans wait.  A span is
    exported for a sampled trace only, under the identifiers that the
    [traceparent] sent upstream reads back as, and is an error exactly from 500
    on. *)
Theorem spans_are_bounded_and_kept service offered taken x
  (Hr : runs QUEUE_DEPTH BATCH_SIZE service offered taken x) :
  exporter_ok QUEUE_DEPTH BATCH_SIZE service offered taken x /\
  (xp_closed x = false -> exists x',
     foldr (fun w m => m ≫= turn BATCH_SIZE service w) (Some x) (repeat Received (length (xp_queue x))) = Some x' /\
     xp_queue x' = []) /\
  (forall now elapsed status c s trace, finished_span now elapsed status c = Some s -> cx_trace c = Some trace ->
     ctx_ok trace ->
     ctx_sampled trace = true /\
     parse_traceparent (to_header trace) =
       Some (sp_trace_id (to_span_data service s), sp_span_id (to_span_data service s), sp_flags (to_span_data service s)) /\
     (sp_error (to_span_data service s) <> None <-> 500 <= status)).
Proof.
  assert (0 < BATCH_SIZE)%nat as Hsize by (unfold BATCH_SIZE; lia).
  pose proof (runs_ok _ _ _ _ _ _ Hsize Hr) as Hok. split_and!; [done| |].
  - intros Hc. by apply queue_drains; [apply (eo_open _ _ _ _ _ _ Hok)| |].
  - intros now elapsed status c s trace Hs Ht Htr. unfold finished_span in Hs. rewrite Ht in Hs. cbn [mbind option_bind] in Hs.
    destruct (ctx_sampled trace) eqn:E; [|done]. injection Hs as <-. split_and!; [done|by apply traceparent_roundtrip|].
    cbn. destruct (Z.leb_spec 500 status); split; intros; (done || lia).
Qed.

Definition sampled_trace : TraceContext :=
  {| trace_id := 9 :: repeat 0 15; span_id := 5 :: repeat 0 7; parent_span_id := None; flags := 1 |}.
Definition sampled_ctx : Ctx := new_ctx <| cx_trace := Some sampled_trace |> <| cx_method := str_of "GET" |>.
Definition sample_span (status : Z) : FinishedSpan :=
  default (Build_FinishedSpan sampled_trace [] [] [] [] [] 0 0 0 0)
    (finished_span 100 40 status sampled_ctx).

(** Two requests finish; the first is received and sent by the tick. *)
Lemma sample_span_runs (service : str) : runs QUEUE_DEPTH BATCH_SIZE service [sample_span 200; sample_span 503] [sample_span 200; sample_span 503]
  {| xp_queue := [sample_span 503]; xp_batch := []; xp_sent := [[to_span_data service (sample_span 200)]]; xp_dropped := 0;
     xp_closed := false; xp_ended := false |}.
Proof.
  eapply (runs_turn _ _ _ _ _ {| xp_queue := [sample_span 503]; xp_batch := [to_span_data service (sample_span 200)];
    xp_sent := []; xp_dropped := 0; xp_closed := false; xp_ended := false |} Ticked); [|done].
  eapply (runs_turn _ _ _ _ _ {| xp_queue := [sample_span 200; sample_span 503]; xp_batch := []; xp_sent := [];
    xp_dropped := 0; xp_closed := false; xp_ended := false |} Received); [|vm_compute; reflexivity].
  apply (runs_taken QUEUE_DEPTH BATCH_SIZE service [sample_span 200] [sample_span 200] {| xp_queue := [sample_span 200]; xp_batch := [];
    xp_sent := []; xp_dropped := 0; xp_closed := false; xp_ended := false |} (sample_span 503)); [|done|done].
  apply (runs_taken QUEUE_DEPTH BATCH_SIZE service [] [] exporter_new (sample_span 200)); [constructor|done|done].
Qed.
Lemma sampled_trace_ok : ctx_ok sampled_trace.
Proof.
  split; cbn; (split_and! || unfold is_byte); try done; apply Forall_elem; intros b Hb; unfold is_byte;
    repeat (apply elem_of_cons in Hb as [->|Hb]; [lia|]); by apply elem_of_nil in Hb.
Qed.

Lemma spans_are_bounded_and_kept_witness :
  (exists x', foldr (fun w m => m ≫= turn BATCH_SIZE (str_of "gw") w)
     (Some {| xp_queue := [sample_span 503]; xp_batch := []; xp_sent := [[to_span_data (str_of "gw") (sample_span 200)]];
              xp_dropped := 0; xp_closed := false; xp_ended := false |}) [Received] = Some x' /\ xp_queue x' = []) /\
  sp_error (to_span_data (str_of "gw") (sample_span 503)) <> None /\
  parse_traceparent (to_header sampled_trace) = Some (9 :: repeat 0 15, 5 :: repeat 0 7, 1).
Proof.
  destruct (spans_are_bounded_and_kept _ _ _ _ (sample_span_runs (str_of "gw"))) as (_ & Hd & Hs).
  destruct (Hs 100 40 503 sampled_ctx (sample_span 503)
    sampled_trace eq_refl eq_refl sampled_trace_ok) as (_ & Hp & He).
  split; [exact (Hd eq_refl)|]. split; [by apply He|exact Hp].
Defined.

(** Were the senders to go while spans wait, one tick ends the task with those
    spans unsent. *)
Lemma closing_leaves_spans_unsent (service : str) : exists x,
  runs QUEUE_DEPTH BATCH_SIZE service [sample_span 200] [sample_span 200] x /\
  xp_ended x = true /\ xp_queue x = [sample_span 200] /\ xp_sent x = [].
Proof.
  exists {| xp_queue := [sample_span 200]; xp_batch := []; xp_sent := []; xp_dropped := 0; xp_closed := true; xp_ended := true |}.
  split; [|done].
  eapply (runs_turn _ _ _ _ _ {| xp_queue := [sample_span 200]; xp_batch := []; xp_sent := [];
    xp_dropped := 0; xp_closed := true; xp_ended := false |} Ticked); [|done].
  eapply (runs_close _ _ _ _ _ (Build_Exporter [sample_span 200] [] [] 0 false false)).
  apply (runs_taken QUEUE_DEPTH BATCH_SIZE service [] [] exporter_new (sample_span 200)); [constructor|done|done].
Qed.
