(* ===== verification/Effective.v ===== *)
(** * The effective view (cli/effective.rs)

    What [lagos effective] prints: the settings in force, without the text that a
    document holds.  Which setting may be shown is decided in Inventory.v; here
    is the view itself, from the two inputs to the value that is printed.  The
    theorem is one of indistinguishability: configurations that differ in what
    must stay hidden have one view.  An object keeps its keys in the order of the
    source; the serializer is [serde_json]. *)

From S2P Require Export Inventory.

Section View.
Context {N : Type} `{HN : JsonNumber N} {YN : Type} `{HY : YamlCrate YN}.
Abbreviation json := (value N).
Abbreviation Source := (Source (YN:=YN)).

(** ** Values *)

Definition jnum (n : Z) : json := Number (num_of_u64 n).
Definition jdur (d : Z) : json := VString (show_duration d).
Definition jopt {A} (f : A -> json) (o : option A) : json := match o with Some a => f a | None => Null end.
Definition jstr (s : str) : json := VString s.
Definition jstrs (l : list string) : json := Array (map (fun s => VString (str_of s)) l).

Definition field_json (f : Field json) : json :=
  Object [(str_of "value", default (VString REDACTED) (fd_value f)); (str_of "origin", VString (fd_origin f));
          (str_of "redacted", Bool (fd_redacted f))].
Definition safe (s : Source) (path : str) (v : json) : json := field_json (field s path (Some v)).
Definition hidden (s : Source) (path : str) : json := field_json (field s path None).
Definition policy_json (s rs : Source) (path name : str) (origin : PolicyOrigin) (v : json) : json :=
  let f := policy s rs path name origin v Null in
  Object [(str_of "value", default (VString REDACTED) (fd_value f)); (str_of "origin", VString (fd_origin f));
          (str_of "redacted", Bool (fd_redacted f)); (str_of "policy_origin", VString (label origin))].

(** ** Upstreams *)

Definition balance_text (b : Balance) : str :=
  match b with RoundRobin => "round_robin" | Random => "random" | Consistent => "consistent" end.
Definition health_json (h : HealthCheckConfig) : json :=
  Object [(str_of "path", VString REDACTED); (str_of "interval", jdur (hc_interval h)); (str_of "timeout", jdur (hc_timeout h));
          (str_of "healthy_after", jnum (hc_healthy_after h)); (str_of "unhealthy_after", jnum (hc_unhealthy_after h))].
Definition breaker_json (b : CircuitBreakerConfig) : json :=
  Object [(str_of "failures", jnum (cb_failures b)); (str_of "window", jdur (cb_window b)); (str_of "cooldown", jdur (cb_cooldown b));
          (str_of "successes_to_close", jnum (cb_successes_to_close b)); (str_of "max_trials", jnum (cb_max_trials b))].
Definition discovery_json (d : DiscoveryConfig) : json :=
  Object [(str_of "interval", jdur (dc_interval d)); (str_of "max_members", jnum (dc_max_members d))].

(** [upstream_ids]: an upstream is named by its position. *)
Definition reference (kind : str) (i : nat) : str := kind ++ "-" ++ show_u64 (Z.of_nat i + 1).
Definition upstream_position (c : GatewayConfig) (name : str) : option nat := fst <$> list_find (fun nu => nu.1 = name) (gc_upstreams c).
Definition upstream_id (c : GatewayConfig) (name : str) : option str := reference "upstream" <$> upstream_position c name.

Definition upstream_json (s : Source) (c : GatewayConfig) (name : str) (u : UpstreamConfig) : json :=
  Object [(str_of "reference", jopt jstr (upstream_id c name)); (str_of "name", hidden s "upstreams");
          (str_of "targets", hidden s "upstreams");
          (str_of "balance", safe s "upstreams" (VString (balance_text (up_balance u))));
          (str_of "hash_on", hidden s "upstreams");
          (str_of "health_check", safe s "upstreams" (jopt health_json (up_health_check u)));
          (str_of "circuit_breaker", safe s "upstreams" (jopt breaker_json (up_circuit_breaker u)));
          (str_of "discovery", safe s "upstreams" (jopt discovery_json (up_discovery u)));
          (str_of "target_count", safe s "upstreams" (jnum (Z.of_nat (length (up_targets u)))))].

(** ** Routes *)

Definition standard_methods : list str :=
  [str_of "GET"; str_of "HEAD"; str_of "POST"; str_of "PUT"; str_of "PATCH"; str_of "DELETE"; str_of "OPTIONS";
   str_of "CONNECT"; str_of "TRACE"].
Definition shown_method (m : str) : str := if existsb (fun s => s ==? m) standard_methods then m else REDACTED.
Definition shown_key (k : RateLimitKey) : str :=
  match k with KeyIp => "ip" | KeyIdentity => "identity" | KeyRoute => "route" | KeyHeader _ => REDACTED end.
Definition shown_missing (m : MissingKey) : str :=
  match m with MissingReject => "reject" | MissingRoute => "route" | MissingIp => "ip" | MissingSkip => "skip" end.
Definition counter_text (c : Counter) : str :=
  match c with CounterExact => "exact" | CounterSketch => "sketch" | CounterShared => "shared" end.
Definition mode_text (m : LimitMode) : str := match m with ModeApproximate => "approximate" | ModeExact => "exact" end.
Definition failure_text (f : RetryOn) : str :=
  match f with ConnectionFailure => "connection_failure" | TransportError => "transport_error" end.

Definition retry_json (r : RetryConfig) : json :=
  Object [(str_of "attempts", jnum (retry_attempts r)); (str_of "non_idempotent", Bool (retry_non_idempotent r));
          (str_of "on", Array (map (fun f => VString (failure_text f)) (retry_on r)))].
Definition rate_json (r : RateLimitConfig) : json :=
  Object [(str_of "requests", jnum (rl_requests r)); (str_of "interval", jdur (rl_interval r));
          (str_of "key", VString (shown_key (rl_key r))); (str_of "counter", VString (counter_text (rl_counter r)));
          (str_of "mode", VString (mode_text (rl_mode r))); (str_of "missing_key", VString (shown_missing (rl_missing_key r)));
          (str_of "trusted_proxies", jnum (Z.of_nat (rl_trusted_proxies r))); (str_of "max_keys", jnum (rl_max_keys r))].
Definition cap_json (c : ConcurrencyConfig) : json :=
  Object [(str_of "max", jnum (cc_max c)); (str_of "key", VString (shown_key (concurrency_key c)));
          (str_of "missing_key", VString (shown_missing (cc_missing_key c)));
          (str_of "trusted_proxies", jnum (Z.of_nat (cc_trusted_proxies c)))].

(** The group of a route in its file. *)
Definition group_path (external : bool) (r : RouteConfig) : str :=
  if external then group (r_auth r) else "routes." ++ group (r_auth r).

Definition route_json (s rs : Source) (external : bool) (c : GatewayConfig) (i : nat) (r : RouteConfig) : json :=
  let path := group_path external r in
  let origins := r_policy_origins r in
  Object [(str_of "reference", VString (reference "route" i));
          (str_of "listener", VString (if is_machine (r_auth r) then "internal" else "public"));
          (str_of "group", VString (group (r_auth r))); (str_of "id", hidden rs path); (str_of "prefix", hidden rs path);
          (str_of "host", hidden rs path);
          (str_of "upstream", safe rs path (jopt jstr (upstream_id c (r_upstream r))));
          (str_of "methods", policy_json s rs path "methods" (po_methods origins)
                               (Array (map (fun m => VString (shown_method m)) (r_methods r))));
          (str_of "enabled", safe rs path (Bool (r_enabled r))); (str_of "sse", safe rs path (Bool (r_sse r)));
          (str_of "strip_prefix", safe rs path (Bool (r_strip_prefix r)));
          (str_of "client_key", safe rs path (jopt Bool (r_client_key r))); (str_of "cache", safe rs path (Bool (r_cache r)));
          (str_of "retry", policy_json s rs path "retry" (po_retry origins) (jopt retry_json (r_retry r)));
          (str_of "rate_limit", policy_json s rs path "rate_limit" (po_rate_limit origins) (jopt rate_json (r_rate_limit r)));
          (str_of "concurrency", safe rs path (jopt cap_json (r_concurrency r)));
          (str_of "bind", hidden rs path);
          (str_of "extensions", Object [(str_of "value", VString REDACTED); (str_of "status", VString "unchecked");
                                        (str_of "origin", VString (so_label rs ++ "." ++ path))])].

(** ** The other settings *)

Definition keepalive_json (k : TcpKeepaliveConfig) : json :=
  Object [(str_of "idle", jdur (ka_idle k)); (str_of "interval", jdur (ka_interval k)); (str_of "count", jnum (ka_count k))].
Definition server_json (s : Source) (v : ServerConfig) : json :=
  Object [(str_of "listen", hidden s "server.listen"); (str_of "internal_listen", hidden s "server.internal_listen");
          (str_of "mounts", hidden s "server.mounts"); (str_of "health_path", hidden s "server.health_path");
          (str_of "service_name", hidden s "server.service_name"); (str_of "threads", safe s "server.threads" (jnum (srv_threads v)));
          (str_of "tcp_keepalive", safe s "server.tcp_keepalive" (jopt keepalive_json (srv_tcp_keepalive v)));
          (str_of "shutdown_grace", safe s "server.shutdown_grace" (jopt jdur (srv_shutdown_grace v)));
          (str_of "graceful_shutdown", safe s "server.graceful_shutdown" (jdur (srv_graceful_shutdown v)))].
Definition timeouts_json (s : Source) (t : Timeouts) : json :=
  Object [(str_of "request_total", safe s "timeouts.request_total" (jopt jdur (t_request_total t)));
          (str_of "extension", safe s "timeouts.extension" (jdur (t_extension t)));
          (str_of "extension_chain", safe s "timeouts.extension_chain" (jdur (t_extension_chain t)));
          (str_of "connect", safe s "timeouts.connect" (jdur (t_connect t)));
          (str_of "default", safe s "timeouts.default" (jdur (t_default t))); (str_of "sse", safe s "timeouts.sse" (jdur (t_sse t)));
          (str_of "upload", safe s "timeouts.upload" (jdur (t_upload t)));
          (str_of "upstream_idle", safe s "timeouts.upstream_idle" (jdur (t_upstream_idle t)));
          (str_of "downstream_read", safe s "timeouts.downstream_read" (jdur (t_downstream_read t)));
          (str_of "downstream_write", safe s "timeouts.downstream_write" (jdur (t_downstream_write t)));
          (str_of "downstream_drain", safe s "timeouts.downstream_drain" (jdur (t_downstream_drain t)));
          (str_of "downstream_keepalive", safe s "timeouts.downstream_keepalive" (jdur (t_downstream_keepalive t)))].
Definition connections_json (l : ConnectionLimitConfig) : json :=
  Object [(str_of "connections", jnum (cl_connections l)); (str_of "interval", jdur (cl_interval l));
          (str_of "max_tracked", jnum (cl_max_tracked l))].
Definition limits_json (s : Source) (l : Limits) : json :=
  Object [(str_of "extension_inflight", safe s "limits.extension_inflight" (jopt jnum (lt_extension_inflight l)));
          (str_of "max_body", safe s "limits.max_body" (jnum (lt_max_body l)));
          (str_of "max_token", safe s "limits.max_token" (jnum (lt_max_token l)));
          (str_of "keepalive_requests", safe s "limits.keepalive_requests" (jnum (lt_keepalive_requests l)));
          (str_of "upstream_pool", safe s "limits.upstream_pool" (jnum (lt_upstream_pool l)));
          (str_of "connections_per_ip", safe s "limits.connections_per_ip" (jopt connections_json (lt_connections_per_ip l)));
          (str_of "min_send_rate", safe s "limits.min_send_rate" (jopt jnum (lt_min_send_rate l)))].
Definition dns_json (s : Source) (d : DnsConfig) : json :=
  Object [(str_of "cache_ttl", safe s "dns.cache_ttl" (jdur (dns_cache_ttl d)));
          (str_of "max_entries", safe s "dns.max_entries" (jnum (dns_max_entries d)))].
Definition cache_json (c : CacheConfig) : json :=
  Object [(str_of "max_size", jnum (ca_max_size c)); (str_of "max_object_size", jnum (ca_max_object_size c));
          (str_of "max_inflight_fill", jnum (ca_max_inflight_fill c)); (str_of "default_ttl", jdur (ca_default_ttl c));
          (str_of "stale_while_revalidate", jdur (ca_stale_while_revalidate c))].

Definition provenance_available (s : Source) : bool := negb (so_masked s ==? None) && negb (so_expanded s ==? None).
Definition source_json (name : str) (s : Source) : json :=
  Object [(str_of "label", VString name); (str_of "path", VString REDACTED); (str_of "path_redacted", Bool true);
          (str_of "provenance_available", Bool (provenance_available s))].

(** [project]. *)
Definition project (c : GatewayConfig) (t : RouteTable) (s rs : Source) (external : bool) : json :=
  Object
    [(str_of "diagnostic", Bool true); (str_of "suitable_for_deployment", Bool false); (str_of "is_running_snapshot", Bool false);
     (str_of "scope", VString "current input files and environment for this invocation; inputs are not an atomic multi-file snapshot");
     (str_of "redaction", VString ("unclassified strings and paths, credentials, URLs, extension data, and interpolated settings "
                                   ++ "are hidden; route policies use conservative group provenance"));
     (str_of "sources", Array (source_json "CONFIG" s :: (if external then [source_json "routes.file" rs] else [])));
     (str_of "checked", jstrs ["input parsing"; "configuration resolution"; "route table validation"]%string);
     (str_of "unchecked", jstrs ["extension registration and configuration introspection"; "credential verification";
                                 "listener binding"; "DNS and upstream availability";
                                 "rate-limit state, cache, and running services"]%string);
     (str_of "configuration", Object
       [(str_of "defaults", hidden s "defaults"); (str_of "server", server_json s (gc_server c));
        (str_of "timeouts", timeouts_json s (gc_timeouts c)); (str_of "limits", limits_json s (gc_limits c));
        (str_of "dns", dns_json s (gc_dns c)); (str_of "cache", safe s "cache" (jopt cache_json (gc_cache c)));
        (str_of "auth", hidden s "auth"); (str_of "inject", hidden s "inject"); (str_of "identity", hidden s "identity");
        (str_of "reject", hidden s "reject"); (str_of "cors", hidden s "cors"); (str_of "forward", hidden s "forward");
        (str_of "observability", hidden s "observability");
        (str_of "upstreams", Array (map (fun nu => upstream_json s c nu.1 nu.2) (gc_upstreams c)));
        (str_of "routes", Array (imap (route_json s rs external c) (table_routes t)));
        (str_of "routes_file", hidden s "routes.file");
        (str_of "deny_rules", hidden rs (if external then "internal" else "routes.internal"))])].

(** ** The command *)

Section Command.
Context {M : Type} `{HC : Crates M}.
Context (config_from_yaml : str -> result GatewayConfig (option (Z * Z) * str)).
Context (groups_from_yaml : str -> result RouteGroups (option (Z * Z) * str)) (env : str -> option str).
Context (parse_uri : str -> result Uri str) (header_name_ok : str -> bool) (show_f64 : f64 -> str).
Context (shared_limits : bool) (known : list str).

(** The groups of a route file, with its source. *)
Definition external_groups (text : str) : result (Source * RouteGroups) str :=
  let? source := source_read env "routes.file" text in
  let? expanded := map_err (interpolation_diagnostic "routes.file") (interpolate text env) in
  let? groups := map_err (fun _ => str_of "routes.file: invalid route input") (groups_from_yaml (Interpolate.text expanded)) in
  Ok (source, groups).

(** [run], to the value that is printed; what it printed is made of. *)
Record Effective := {
  ef_config : GatewayConfig;
  ef_table : RouteTable;
  ef_source : Source;
  ef_routes : option Source;
}.
Definition effective_view (e : Effective) : json :=
  project (ef_config e) (ef_table e) (ef_source e) (default (ef_source e) (ef_routes e))
    (match ef_routes e with Some _ => true | None => false end).

Definition effective_inputs (path : str) : rprog (result Effective str) :=
  letP text := ask (ReadFile path) in
  tries (map_err (fun _ => str_of "cannot read CONFIG as UTF-8") text) (fun text =>
  tries (source_read env "CONFIG" text) (fun source =>
  tries (map_err (configuration_diagnostic "CONFIG") (parse_with_fallback config_from_yaml env path text None)) (fun re =>
  letP now := ask MonoNow in
  tries (map_err (fun m => configuration_diagnostic "CONFIG" (ConfigInvalid m))
           (resolve_config (N:=M) parse_uri header_name_ok show_f64 now (resolve_route_file_against path re.1) re.2)) (fun cfg =>
  letP external := (match rc_file (gc_routes (raw cfg)) with
                    | Some file =>
                        letP text := ask (ReadFile file) in
                        Ret (let? text := map_err (fun _ => str_of "cannot read routes.file as UTF-8") text in
                             let? sg := external_groups text in Ok (Some sg))
                    | None => Ret (Ok None)
                    end) in
  tries external (fun external =>
  letP v4 := ask NewNamespace in
  let table := build_with v4 (match external with Some sg => sg.2 | None => groups (gc_routes (raw cfg)) end)
                 (gc_defaults (raw cfg)) None in
  tries (map_err (fun m => configuration_diagnostic "routes" (ConfigInvalid m)) (validate_table cfg shared_limits known table))
    (fun _ =>
  Ret (Ok {| ef_config := raw cfg; ef_table := table; ef_source := source; ef_routes := fst <$> external |}))))))).

Definition effective_command (path : str) : rprog (result json str) :=
  letP inputs := effective_inputs path in Ret (let? e := inputs in Ok (effective_view e)).
End Command.
End View.

(** ** Configurations that look alike

    Two settings at a path look alike where they are the same, or where the
    document hides whatever is there. *)

Section Alike.
Context {N : Type} `{HN : JsonNumber N} {YN : Type} `{HY : YamlCrate YN}.
Abbreviation json := (value N).
Abbreviation Source := (Source (YN:=YN)).

(** Whether the document hides a path does not depend on what is there. *)
Definition tainted_at (s : Source) (path : str) : bool := fd_redacted (field s path (Some (Null : json))).

(** Whether the masked document has anything at a path. *)
Definition located_at (s : Source) (path : str) : bool :=
  match (field_walk (so_inspection s) (split_on 46 path) (so_masked s) (so_expanded s)
           ((so_masked s ==? None) || (so_expanded s ==? None))).1.1 with
  | Some _ => true
  | None => false
  end.

(** Two documents, with the variables of each filled in, that have their settings
    at the same paths and hide them at the same paths, whatever text is there
    and whatever their variables hold. *)
Record source_alike (s s' : Source) : Prop := {
  sa_label : so_label s = so_label s';
  sa_parsed : provenance_available s = provenance_available s';
  sa_located : forall path, located_at s path = located_at s' path;
  sa_tainted : forall path, tainted_at s path = tainted_at s' path;
}.

Lemma field_source s s' path (v : option json) : source_alike s s' -> field s path v = field s' path v.
Proof using.
  intros [Hl _ Hn Ht]. specialize (Hn path). specialize (Ht path). revert Hn Ht. unfold located_at, tainted_at, field.
  destruct (field_walk (so_inspection s) _ _ _ _) as [[node expanded] tainted], (field_walk (so_inspection s') _ _ _ _) as [[node' expanded'] tainted'].
  cbn zeta. cbn [fst fd_redacted].
  assert ((Some (Null : json) ==? None) = false) as -> by (by apply bool_decide_eq_false). rewrite !orb_false_r.
  assert (forall o : option (Yaml YN), negb (o ==? None) = match o with Some _ => true | None => false end) as E.
  { intros [y|]; [apply negb_true_iff; by apply bool_decide_eq_false|done]. }
  rewrite !E, Hl. by intros -> ->.
Qed.

Lemma safe_source s s' path (v : json) : source_alike s s' -> safe s path v = safe s' path v.
Proof using. intros H. unfold safe. by rewrite (field_source s s'). Qed.
Lemma hidden_source s s' path : source_alike s s' -> (hidden s path : json) = hidden s' path.
Proof using. intros H. unfold hidden. by rewrite (field_source s s'). Qed.
Lemma policy_source s s' rs rs' path name origin (v : json) : source_alike s s' -> source_alike rs rs' ->
  policy_json s rs path name origin v = policy_json s' rs' path name origin v.
Proof using.
  intros H Hr. unfold policy_json, policy. rewrite (field_source rs rs' path (Some Null)) by done.
  destruct origin; [by rewrite (field_source rs rs')|by rewrite (field_source s s')|done].
Qed.

(** The view of alike documents. *)
Lemma project_source c t s s' rs rs' external : source_alike s s' -> source_alike rs rs' ->
  (project c t s rs external : json) = project c t s' rs' external.
Proof using.
  intros H Hr. pose proof (fun path => safe_source s s' path) as E1. pose proof (fun path => hidden_source s s' path) as E2.
  assert (forall name, (source_json name s : json) = source_json name s') as E3
    by (intros name; unfold source_json; by rewrite (sa_parsed _ _ H)).
  assert (forall name, (source_json name rs : json) = source_json name rs') as E4
    by (intros name; unfold source_json; by rewrite (sa_parsed _ _ Hr)).
  assert (forall i r, (route_json s rs external c i r : json) = route_json s' rs' external c i r) as E5.
  { intros i r. unfold route_json.
    by rewrite !(safe_source rs rs'), !(hidden_source rs rs'), !(policy_source s s' rs rs'), (sa_label _ _ Hr). }
  assert (forall nu, (upstream_json s c nu.1 nu.2 : json) = upstream_json s' c nu.1 nu.2) as E6.
  { intros nu. unfold upstream_json. by rewrite !(safe_source s s'), !(hidden_source s s'). }
  unfold project, server_json, timeouts_json, limits_json, dns_json.
  rewrite !(safe_source s s'), !(hidden_source s s'), (hidden_source rs rs'), E3, E4 by done.
  rewrite (map_ext _ _ E6).
  rewrite (imap_ext (route_json s rs external c) (route_json s' rs' external c)) by (intros; apply E5). done.
Qed.

Lemma field_tainted s path (v w : json) : tainted_at s path = true -> field s path (Some v) = field s path (Some w).
Proof using.
  unfold tainted_at, field. destruct (field_walk _ _ _ _ _) as [[node expanded] tainted]. cbn zeta. cbn [fd_redacted].
  assert (forall x : json, (Some x ==? None) = false) as Hn by (intros; by apply bool_decide_eq_false).
  rewrite !Hn. by intros ->.
Qed.

Inductive alike_at {A} (s : Source) (path : str) (a b : A) : Prop :=
| alike_hidden : tainted_at s path = true -> alike_at s path a b
| alike_same : a = b -> alike_at s path a b.

(** A policy comes from its route, or from the defaults of the document. *)
Inductive policy_alike_at {A} (s rs : Source) (path name : str) (origin : PolicyOrigin) (a b : A) : Prop :=
| policy_alike_group : alike_at rs path a b -> policy_alike_at s rs path name origin a b
| policy_alike_default : origin = OriginGlobalDefaults -> tainted_at s ("defaults." ++ name) = true ->
    policy_alike_at s rs path name origin a b.

Lemma safe_alike {A} s path (f : A -> json) a b : alike_at s path a b -> safe s path (f a) = safe s path (f b).
Proof using. unfold safe. intros [H| ->]; [|done]. by rewrite (field_tainted _ _ _ (f b)). Qed.

Lemma policy_alike {A} s rs path name origin (f : A -> json) a b :
  policy_alike_at s rs path name origin a b -> policy_json s rs path name origin (f a) = policy_json s rs path name origin (f b).
Proof using.
  unfold policy_json, policy. intros [[H| ->]| -> H]; [|done|by rewrite (field_tainted _ _ (f a) (f b))].
  change (fd_redacted (field rs path (Some Null))) with (tainted_at rs path). rewrite H. cbn [orb fd_value fd_origin fd_redacted].
  destruct origin; [by rewrite (field_tainted rs path (f a) (f b))| |done].
  unfold field. by destruct (field_walk _ _ _ _ _) as [[node expanded] tainted].
Qed.

(** What of an upstream, a rate limit and a concurrency limit is not text. *)
Definition blind_health (h : HealthCheckConfig) : HealthCheckConfig :=
  {| hc_path := None; hc_interval := hc_interval h; hc_timeout := hc_timeout h; hc_healthy_after := hc_healthy_after h;
     hc_unhealthy_after := hc_unhealthy_after h |}.
Definition blind_key (k : RateLimitKey) : RateLimitKey := match k with KeyHeader _ => KeyHeader [] | k => k end.
(** Methods other than the standard ones are text. *)
Definition blind_method (m : str) : str := if decide (m ∈ standard_methods) then m else [].
Definition blind_rate (r : RateLimitConfig) : RateLimitConfig :=
  {| rl_requests := rl_requests r; rl_interval := rl_interval r; rl_key := blind_key (rl_key r); rl_missing_key := rl_missing_key r;
     rl_trusted_proxies := rl_trusted_proxies r; rl_max_keys := rl_max_keys r; rl_counter := rl_counter r; rl_mode := rl_mode r |}.
Definition blind_cap (c : ConcurrencyConfig) : ConcurrencyConfig :=
  {| cc_max := cc_max c; cc_key := blind_key <$> cc_key c; cc_missing_key := cc_missing_key c;
     cc_trusted_proxies := cc_trusted_proxies c |}.

Record upstream_alike (s : Source) (u u' : UpstreamConfig) : Prop := {
  ua_balance : alike_at s "upstreams" (up_balance u) (up_balance u');
  ua_health : alike_at s "upstreams" (blind_health <$> up_health_check u) (blind_health <$> up_health_check u');
  ua_breaker : alike_at s "upstreams" (up_circuit_breaker u) (up_circuit_breaker u');
  ua_discovery : alike_at s "upstreams" (up_discovery u) (up_discovery u');
  ua_targets : alike_at s "upstreams" (length (up_targets u)) (length (up_targets u'));
}.

(** The settings that are one duration or number each, by name. *)
Definition duration_settings : list (str * (Timeouts -> Z)) :=
  [(str_of "extension", t_extension); (str_of "extension_chain", t_extension_chain); (str_of "connect", t_connect);
   (str_of "default", t_default); (str_of "sse", t_sse); (str_of "upload", t_upload); (str_of "upstream_idle", t_upstream_idle);
   (str_of "downstream_read", t_downstream_read); (str_of "downstream_write", t_downstream_write);
   (str_of "downstream_drain", t_downstream_drain); (str_of "downstream_keepalive", t_downstream_keepalive)].
Definition limit_settings : list (str * (Limits -> option Z)) :=
  [(str_of "extension_inflight", lt_extension_inflight); (str_of "max_body", fun l => Some (lt_max_body l));
   (str_of "max_token", fun l => Some (lt_max_token l)); (str_of "keepalive_requests", fun l => Some (lt_keepalive_requests l));
   (str_of "upstream_pool", fun l => Some (lt_upstream_pool l)); (str_of "min_send_rate", lt_min_send_rate)].

(** The names of upstreams may differ, not how many there are. *)
Record config_alike (s : Source) (c c' : GatewayConfig) : Prop := {
  ca_threads : alike_at s "server.threads" (srv_threads (gc_server c)) (srv_threads (gc_server c'));
  ca_keepalive : alike_at s "server.tcp_keepalive" (srv_tcp_keepalive (gc_server c)) (srv_tcp_keepalive (gc_server c'));
  ca_grace : alike_at s "server.shutdown_grace" (srv_shutdown_grace (gc_server c)) (srv_shutdown_grace (gc_server c'));
  ca_graceful : alike_at s "server.graceful_shutdown" (srv_graceful_shutdown (gc_server c)) (srv_graceful_shutdown (gc_server c'));
  ca_timeouts : forall name f, (name, f) ∈ duration_settings ->
    alike_at s ("timeouts." ++ name) (f (gc_timeouts c)) (f (gc_timeouts c'));
  ca_total : alike_at s "timeouts.request_total" (t_request_total (gc_timeouts c)) (t_request_total (gc_timeouts c'));
  ca_limits : forall name f, (name, f) ∈ limit_settings ->
    alike_at s ("limits." ++ name) (f (gc_limits c)) (f (gc_limits c'));
  ca_connections : alike_at s "limits.connections_per_ip" (lt_connections_per_ip (gc_limits c)) (lt_connections_per_ip (gc_limits c'));
  ca_ttl : alike_at s "dns.cache_ttl" (dns_cache_ttl (gc_dns c)) (dns_cache_ttl (gc_dns c'));
  ca_entries : alike_at s "dns.max_entries" (dns_max_entries (gc_dns c)) (dns_max_entries (gc_dns c'));
  ca_cache : alike_at s "cache" (gc_cache c) (gc_cache c');
  ca_upstreams : Forall2 (fun nu nu' => upstream_position c nu.1 = upstream_position c' nu'.1 /\ upstream_alike s nu.2 nu'.2)
                   (gc_upstreams c) (gc_upstreams c');
}.

(** Of a route: its group, and what else its group and its policies let show. *)
Record route_alike (s rs : Source) (external : bool) (c c' : GatewayConfig) (r r' : RouteConfig) : Prop := {
  ra_group : r_auth r = r_auth r';
  ra_origins : r_policy_origins r = r_policy_origins r';
  ra_upstream : alike_at rs (group_path external r) (upstream_position c (r_upstream r)) (upstream_position c' (r_upstream r'));
  ra_flags : alike_at rs (group_path external r) (r_enabled r, r_sse r, r_strip_prefix r, r_client_key r, r_cache r)
               (r_enabled r', r_sse r', r_strip_prefix r', r_client_key r', r_cache r');
  ra_concurrency : alike_at rs (group_path external r) (blind_cap <$> r_concurrency r) (blind_cap <$> r_concurrency r');
  ra_methods : policy_alike_at s rs (group_path external r) "methods" (po_methods (r_policy_origins r))
                 (map blind_method (r_methods r)) (map blind_method (r_methods r'));
  ra_retry : policy_alike_at s rs (group_path external r) "retry" (po_retry (r_policy_origins r)) (r_retry r) (r_retry r');
  ra_rate : policy_alike_at s rs (group_path external r) "rate_limit" (po_rate_limit (r_policy_origins r))
              (blind_rate <$> r_rate_limit r) (blind_rate <$> r_rate_limit r');
}.

(** ** The view of what looks alike *)

Lemma shown_key_blind k : shown_key k = shown_key (blind_key k).
Proof using. by destruct k. Qed.
Lemma method_blind m : shown_method m = shown_method (blind_method m).
Proof using.
  unfold blind_method. destruct (decide _) as [|Hm]; [done|]. unfold shown_method. rewrite (proj2 (existsb_none _ _)); [done|].
  intros x Hx. apply bool_decide_eq_false. by intros ->.
Qed.
Lemma health_blind o : jopt health_json o = jopt (N:=N) health_json (blind_health <$> o).
Proof using. by destruct o. Qed.
Lemma rate_blind o : jopt rate_json o = jopt (N:=N) rate_json (blind_rate <$> o).
Proof using. destruct o; [|done]. cbn. unfold rate_json. cbn. by rewrite <-shown_key_blind. Qed.
Lemma cap_blind o : jopt cap_json o = jopt (N:=N) cap_json (blind_cap <$> o).
Proof using.
  destruct o as [cap|]; [|done]. cbn. unfold cap_json, concurrency_key. cbn. destruct (cc_key cap); [|done]. cbn. by rewrite <-shown_key_blind.
Qed.

Ltac entries := repeat match goal with
  | |- Object _ = Object _ => apply (f_equal Object)
  | |- Array _ = Array _ => apply (f_equal Array)
  | |- ?a :: _ = ?a :: _ => apply (f_equal (cons a))
  | |- (?k, _) :: _ = (?k, _) :: _ => apply f_equal2; [apply (f_equal (pair k))|]
  | |- ?a = ?a => reflexivity
  end.

Lemma upstream_json_alike s c c' name name' u u' : upstream_position c name = upstream_position c' name' -> upstream_alike s u u' ->
  upstream_json s c name u = upstream_json s c' name' u'.
Proof using.
  intros Hid [Hb Hh Hc Hd Ht]. unfold upstream_json, upstream_id. rewrite Hid, (health_blind (up_health_check u)), (health_blind (up_health_check u')).
  entries.
  - exact (safe_alike _ _ (fun b => VString (balance_text b)) _ _ Hb).
  - exact (safe_alike _ _ (jopt health_json) _ _ Hh).
  - exact (safe_alike _ _ (jopt breaker_json) _ _ Hc).
  - exact (safe_alike _ _ (jopt discovery_json) _ _ Hd).
  - exact (safe_alike _ _ (fun n => jnum (Z.of_nat n)) _ _ Ht).
Qed.

Lemma flag_alike {A} s path (f : A -> json) (v w : json) a b : alike_at s path a b -> v = f a -> w = f b -> safe s path v = safe s path w.
Proof using. intros H -> ->. by apply safe_alike. Qed.

Lemma route_json_alike s rs external c c' i r r' : route_alike s rs external c c' r r' ->
  route_json s rs external c i r = route_json s rs external c' i r'.
Proof using.
  intros [Hg Ho Hu Hf Hc Hm Hr Hl]. unfold route_json.
  assert (group_path external r' = group_path external r) as Hp by (unfold group_path; by rewrite Hg).
  rewrite <-Ho, Hp, <-Hg, !(cap_blind (r_concurrency _)), !(rate_blind (r_rate_limit _)).
  rewrite !(map_ext (fun m => VString (shown_method m)) (fun m => VString (shown_method (blind_method m))))
    by (intros; by rewrite <-method_blind).
  rewrite <-!(map_map blind_method (fun m => VString (shown_method m))).
  entries.
  - exact (safe_alike _ _ (fun i => jopt jstr (reference "upstream" <$> i)) _ _ Hu).
  - exact (policy_alike _ _ _ _ _ (fun l => Array (map (fun m => VString (shown_method m)) l)) _ _ Hm).
  - by apply (flag_alike _ _ (fun '(a, _, _, _, _) => Bool a) _ _ _ _ Hf).
  - by apply (flag_alike _ _ (fun '(_, a, _, _, _) => Bool a) _ _ _ _ Hf).
  - by apply (flag_alike _ _ (fun '(_, _, a, _, _) => Bool a) _ _ _ _ Hf).
  - by apply (flag_alike _ _ (fun '(_, _, _, a, _) => jopt Bool a) _ _ _ _ Hf).
  - by apply (flag_alike _ _ (fun '(_, _, _, _, a) => Bool a) _ _ _ _ Hf).
  - exact (policy_alike _ _ _ _ _ (jopt retry_json) _ _ Hr).
  - exact (policy_alike _ _ _ _ _ (jopt rate_json) _ _ Hl).
  - exact (safe_alike _ _ (jopt cap_json) _ _ Hc).
Qed.

Ltac listed := repeat first [by left | right].

Lemma settings_json_alike s c c' : config_alike s c c' ->
  (server_json s (gc_server c) : json) = server_json s (gc_server c') /\
  (timeouts_json s (gc_timeouts c) : json) = timeouts_json s (gc_timeouts c') /\
  (limits_json s (gc_limits c) : json) = limits_json s (gc_limits c') /\
  (dns_json s (gc_dns c) : json) = dns_json s (gc_dns c') /\
  (safe s "cache" (jopt cache_json (gc_cache c)) : json) = safe s "cache" (jopt cache_json (gc_cache c')).
Proof using.
  intros [Ht Hk Hg Hgg Htm Htt Hl Hcn Httl He Hca _].
  assert (forall name f, (name, f) ∈ duration_settings -> safe s ("timeouts." ++ name) (jdur (f (gc_timeouts c)) : json)
    = safe s ("timeouts." ++ name) (jdur (f (gc_timeouts c')))) as Hd.
  { intros name f Hin. exact (safe_alike _ _ jdur _ _ (Htm name f Hin)). }
  assert (forall name f, (name, f) ∈ limit_settings -> safe s ("limits." ++ name) (jopt jnum (f (gc_limits c)) : json)
    = safe s ("limits." ++ name) (jopt jnum (f (gc_limits c')))) as Hn.
  { intros name f Hin. exact (safe_alike _ _ (jopt jnum) _ _ (Hl name f Hin)). }
  split_and!.
  - unfold server_json. entries; [exact (safe_alike _ _ jnum _ _ Ht)|exact (safe_alike _ _ (jopt keepalive_json) _ _ Hk)
      |exact (safe_alike _ _ (jopt jdur) _ _ Hg)|exact (safe_alike _ _ jdur _ _ Hgg)].
  - unfold timeouts_json. entries; [exact (safe_alike _ _ (jopt jdur) _ _ Htt)| ..].
    + apply (Hd (str_of "extension") t_extension). listed.
    + apply (Hd (str_of "extension_chain") t_extension_chain). listed.
    + apply (Hd (str_of "connect") t_connect). listed.
    + apply (Hd (str_of "default") t_default). listed.
    + apply (Hd (str_of "sse") t_sse). listed.
    + apply (Hd (str_of "upload") t_upload). listed.
    + apply (Hd (str_of "upstream_idle") t_upstream_idle). listed.
    + apply (Hd (str_of "downstream_read") t_downstream_read). listed.
    + apply (Hd (str_of "downstream_write") t_downstream_write). listed.
    + apply (Hd (str_of "downstream_drain") t_downstream_drain). listed.
    + apply (Hd (str_of "downstream_keepalive") t_downstream_keepalive). listed.
  - unfold limits_json. entries; [| | | | |exact (safe_alike _ _ (jopt connections_json) _ _ Hcn)|].
    + apply (Hn (str_of "extension_inflight") lt_extension_inflight). listed.
    + apply (Hn (str_of "max_body") (fun l => Some (lt_max_body l))). listed.
    + apply (Hn (str_of "max_token") (fun l => Some (lt_max_token l))). listed.
    + apply (Hn (str_of "keepalive_requests") (fun l => Some (lt_keepalive_requests l))). listed.
    + apply (Hn (str_of "upstream_pool") (fun l => Some (lt_upstream_pool l))). listed.
    + apply (Hn (str_of "min_send_rate") lt_min_send_rate). listed.
  - unfold dns_json. entries; [exact (safe_alike _ _ jdur _ _ Httl)|exact (safe_alike _ _ jnum _ _ He)].
  - exact (safe_alike _ _ (jopt cache_json) _ _ Hca).
Qed.

Lemma imap_alike {A B} (R : A -> A -> Prop) (f g : nat -> A -> B) l l' :
  Forall2 R l l' -> (forall i x y, R x y -> f i x = g i y) -> imap f l = imap g l'.
Proof using.
  intros H. revert f g. induction H as [|x y l l' Hx _ IH]; intros f g Hf; [done|].
  rewrite !imap_cons. f_equal; [by apply Hf|]. apply IH. intros i x' y' ?. by apply Hf.
Qed.

Lemma project_alike c c' t t' s rs external : config_alike s c c' ->
  Forall2 (route_alike s rs external c c') (table_routes t) (table_routes t') ->
  (project c t s rs external : json) = project c' t' s rs external.
Proof using.
  intros Hc Hr. destruct (settings_json_alike _ _ _ Hc) as (H1 & H2 & H3 & H4 & H5). unfold project.
  rewrite H1, H2, H3, H4, H5. entries.
  - pose proof (ca_upstreams _ _ _ Hc) as Hu. revert Hu. generalize (gc_upstreams c) (gc_upstreams c').
    induction 1 as [|[n u] [n' u'] l l' [Hid Hu] _ IH]; [done|]. cbn [map]. f_equal; [by apply upstream_json_alike|exact IH].
  - apply (imap_alike _ _ _ _ _ Hr). intros i r r'. apply route_json_alike.
Qed.
End Alike.

(** ** The command *)

Definition diagnostic_reasons : list str :=
  [str_of "unterminated variable reference"; str_of "empty variable name"; str_of "invalid variable name";
   str_of "invalid substituted value"; str_of "missing required variable"].
Definition fixed_diagnostics : list str :=
  [str_of "cannot read CONFIG as UTF-8"; str_of "CONFIG: invalid configuration input";
   str_of "CONFIG: configuration failed semantic validation"; str_of "cannot read routes.file as UTF-8";
   str_of "routes.file: invalid route input"; str_of "routes: configuration failed semantic validation"].

(** A message that holds nothing of a document but a line number. *)
Inductive value_free (m : str) : Prop :=
| free_fixed : m ∈ fixed_diagnostics -> value_free m
| free_line source line reason : source ∈ [str_of "CONFIG"; str_of "routes.file"] -> reason ∈ diagnostic_reasons ->
    m = source ++ ":line " ++ show_line line ++ ": " ++ reason -> value_free m.

Ltac listed := repeat first [by left | right].

Lemma interpolation_value_free source e : source ∈ [str_of "CONFIG"; str_of "routes.file"] -> value_free (interpolation_diagnostic source e).
Proof. intros Hs. unfold interpolation_diagnostic. destruct e; eapply free_line; try exact Hs; try reflexivity; listed. Qed.

Section Command.
Context {N : Type} `{HN : JsonNumber N} {YN : Type} `{HY : YamlCrate YN} {M : Type} `{HC : Crates M}.
Context (config_from_yaml : str -> result GatewayConfig (option (Z * Z) * str)).
Context (groups_from_yaml : str -> result RouteGroups (option (Z * Z) * str)) (env : str -> option str).
Context (parse_uri : str -> result Uri str) (header_name_ok : str -> bool) (show_f64 : f64 -> str).
Context (shared_limits : bool) (known : list str).
Abbreviation inputs := (effective_inputs (YN:=YN) (M:=M) config_from_yaml groups_from_yaml env parse_uri header_name_ok show_f64
  shared_limits known).

Lemma source_read_free label text m : label ∈ [str_of "CONFIG"; str_of "routes.file"] ->
  source_read (YN:=YN) env label text = Err m -> value_free m.
Proof using.
  intros Hl. unfold source_read. destruct (inspect text env) as [i|e]; cbn [map_err rbind];
    [|intros [= <-]; by apply interpolation_value_free].
  destruct (interpolate text env) as [x|e]; cbn [map_err rbind]; [done|]. intros [= <-]. by apply interpolation_value_free.
Qed.

Lemma parse_free path text e : parse_with_fallback config_from_yaml env path text None = Err e ->
  value_free (configuration_diagnostic "CONFIG" e).
Proof using.
  unfold parse_with_fallback. destruct (interpolate_with_fallback _ _ _) as [x|i].
  - unfold from_expanded. destruct (config_from_yaml _) as [c|[loc m]]; [done|]. intros [= <-]. apply free_fixed. listed.
  - intros [= <-]. apply interpolation_value_free. listed.
Qed.

Lemma external_free text m : external_groups (YN:=YN) groups_from_yaml env text = Err m -> value_free m.
Proof using.
  unfold external_groups. destruct (source_read env "routes.file" text) as [s|e] eqn:E; cbn [rbind].
  - destruct (interpolate text env) as [x|e]; cbn [map_err rbind]; [|intros [= <-]; apply interpolation_value_free; listed].
    destruct (groups_from_yaml _); cbn [map_err rbind]; [done|]. intros [= <-]. apply free_fixed. listed.
  - intros [= <-]. eapply source_read_free; [|exact E]. listed.
Qed.

(** The documents of a view are the files, each with its variables filled in. *)
Definition read_from (e : Effective) : Prop :=
  (exists text, source_read env "CONFIG" text = Ok (ef_source e)) /\
  (forall rs, ef_routes e = Some rs -> exists text, source_read env "routes.file" text = Ok rs).

Lemma external_source text sg : external_groups (YN:=YN) groups_from_yaml env text = Ok sg -> source_read env "routes.file" text = Ok sg.1.
Proof using.
  unfold external_groups. intros H. apply rbind_Ok in H as (s & Hs & H). apply rbind_Ok in H as (x & _ & H).
  apply rbind_Ok in H as (g & _ & [= <-]). exact Hs.
Qed.

Lemma inputs_traces path tr r : traces (inputs path) tr r ->
  match r with
  | Ok e => exists (cfg : ResolvedConfig M), raw cfg = ef_config e /\ validate_table cfg shared_limits known (ef_table e) = Ok tt /\ read_from e
  | Err m => value_free m
  end.
Proof using.
  unfold effective_inputs. intros H.
  apply rask_traces in H as (text & t1 & -> & H).
  apply tries_traces in H as [(e & He & _ & ->)|(doc & _ & H)].
  { apply map_err_Err in He as (e' & _ & ->). apply free_fixed. listed. }
  apply tries_traces in H as [(e & He & _ & ->)|(source & Hsource & H)].
  { eapply source_read_free; [|exact He]. listed. }
  apply tries_traces in H as [(e & He & _ & ->)|(re & _ & H)].
  { apply map_err_Err in He as (e' & He & ->). by eapply parse_free. }
  apply rask_traces in H as (now & t2 & -> & H).
  apply tries_traces in H as [(e & He & _ & ->)|(cfg & _ & H)].
  { apply map_err_Err in He as (e' & _ & ->). apply free_fixed. listed. }
  apply traces_bind in H as (t3 & t4 & external & -> & Hx & H).
  apply tries_traces in H as [(e & -> & _ & ->)|(ext & -> & H)].
  { destruct (rc_file _) as [file|]; [|by destruct Hx]. apply rask_traces in Hx as (routes & t5 & -> & [_ Hx]).
    destruct routes as [routes|e']; cbn [map_err rbind] in Hx.
    - destruct (external_groups groups_from_yaml env routes) as [sg|e'] eqn:E; [done|]. injection Hx as ->. by eapply external_free.
    - injection Hx as ->. apply free_fixed. listed. }
  apply rask_traces in H as (v4 & t5 & -> & H).
  apply tries_traces in H as [(e & He & _ & ->)|([] & Hv & H)].
  { apply map_err_Err in He as (e' & _ & ->). apply free_fixed. listed. }
  destruct H as [_ ->]. exists cfg. split; [done|]. split; [by apply map_err_Ok in Hv|].
  split; [by exists doc|]. intros rs Hrs. destruct ext as [sg|]; [injection Hrs as <-|done].
  destruct (rc_file _) as [file|]; [|by destruct Hx]. apply rask_traces in Hx as (routes & t6 & -> & [_ Hx]).
  destruct routes as [routes|e']; cbn [map_err rbind] in Hx; [|done].
  destruct (external_groups groups_from_yaml env routes) as [sg'|e'] eqn:E; [|done]. injection Hx as ->.
  exists routes. by apply external_source.
Qed.

(** A path of a document on the way to which, and at which, no scalar and no key
    comes from a variable, and where filling the variables in changes nothing. *)
Definition written_literally (s : Source (YN:=YN)) (path : str) : Prop :=
  exists m e, so_masked s = Some m /\ so_expanded s = Some e /\
    match field_walk (so_inspection s) (split_on 46 path) (Some m) (Some e) false with
    | (Some a, Some b, false) => value_eq a b = true /\ contains_interpolation (so_inspection s) a = false
    | (None, None, false) => True
    | _ => False
    end.

Lemma untainted_literal (s : Source (YN:=YN)) path : tainted_at (N:=N) s path = false -> written_literally s path.
Proof using.
  intros H. destruct (shown_settings_are_literal s path (Some (Null : value N)) H) as (_ & m & e & node & expanded & Hm & He & Hw & Hn).
  exists m, e. split_and!; [done..|]. rewrite Hw. destruct node, expanded; [|done..]. by destruct Hn as (? & ? & _).
Qed.

(** C29: What [lagos effective] prints tells nothing of the text of a document
    nor of what its variables hold.  An error is one of a fixed list of messages,
    with at most a line number.  A view is that of a document that resolves and a
    table that validation accepts, and of the documents themselves it shows only
    which settings are there and which are hidden: it stays the same view whatever
    text they hold at those paths and whatever their variables fill in, and
    whatever identifiers, paths, hosts, header names, URLs, credentials and other
    text the configuration they make has, and whatever settings it has at the
    paths that the document does not spell out literally. *)
Theorem effective_view_tells_no_text path tr r
  (Hr : traces (effective_command (N:=N) (YN:=YN) (M:=M) config_from_yaml groups_from_yaml env parse_uri header_name_ok show_f64
                  shared_limits known path) tr r) :
  match r with
  | Err m => value_free m
  | Ok v => exists (e : Effective) (cfg : ResolvedConfig M),
      v = effective_view e /\ raw cfg = ef_config e /\ validate_table cfg shared_limits known (ef_table e) = Ok tt /\ read_from e /\
      forall e' : Effective, source_alike (N:=N) (ef_source e) (ef_source e') ->
        option_Forall2 (source_alike (N:=N)) (ef_routes e) (ef_routes e') ->
        config_alike (N:=N) (ef_source e) (ef_config e) (ef_config e') ->
        Forall2 (route_alike (N:=N) (ef_source e) (default (ef_source e) (ef_routes e))
                   (match ef_routes e with Some _ => true | None => false end) (ef_config e) (ef_config e'))
          (table_routes (ef_table e)) (table_routes (ef_table e')) ->
        effective_view e' = v
  end /\
  (forall (s : Source (YN:=YN)) p, tainted_at (N:=N) s p = false -> written_literally s p).
Proof using.
  split; [|apply untainted_literal].
  unfold effective_command in Hr. apply traces_bind in Hr as (t1 & t2 & i & -> & Hi & [_ ->]).
  apply inputs_traces in Hi. destruct i as [e|m]; cbn [rbind]; [|done]. destruct Hi as (cfg & Hc & Hv & Hread).
  exists e, cfg. split_and!; [done..|]. intros e' Hs Hrs Hcfg Hroutes. unfold effective_view.
  rewrite (project_alike _ _ _ _ _ _ _ Hcfg Hroutes). symmetry.
  destruct Hrs as [rs rs' Hrs|]; cbn [default]; by apply project_source.
Qed.
End Command.

(** ** A witness: another address and other credentials, the same view *)

Definition plain_yaml : YamlCrate Z := {|
  yaml_from_str text := Some (YMapping []);
  value_get v key := None;
  mapping_get l key := None;
  value_as_str v := None;
  value_eq a b := false;
|}.

Definition rekeyed (c : GatewayConfig) : GatewayConfig :=
  let v := gc_server c in
  let a := gc_auth c in
  {| gc_defaults := gc_defaults c;
     gc_server := {| srv_listen := "10.1.1.1:9"; srv_mounts := ["/internal-name"]; srv_internal_listen := srv_internal_listen v;
                     srv_health_path := srv_health_path v; srv_service_name := "other"; srv_threads := srv_threads v;
                     srv_tcp_keepalive := srv_tcp_keepalive v; srv_shutdown_grace := srv_shutdown_grace v;
                     srv_graceful_shutdown := srv_graceful_shutdown v |};
     gc_timeouts := gc_timeouts c; gc_limits := gc_limits c; gc_upstreams := gc_upstreams c;
     gc_auth := {| au_machine := Some {| mc_headers := []; mc_secret := "hunter2" |}; au_client_keys := au_client_keys a; au_jwt := au_jwt a;
                   au_firebase := au_firebase a; au_token_cookies := au_token_cookies a; au_cookie_protection := au_cookie_protection a |};
     gc_inject := {| in_headers := [(str_of "x-secret", str_of "s3cret")]; in_machine := [] |}; gc_reject := gc_reject c;
     gc_forward := gc_forward c; gc_identity := gc_identity c; gc_routes := gc_routes c; gc_observability := gc_observability c;
     gc_dns := gc_dns c; gc_cors := gc_cors c; gc_cache := gc_cache c; gc_shared_counters := gc_shared_counters c |}.

Lemma rekeyed_alike {YN} `{YamlCrate YN} (s : Source (YN:=YN)) c : config_alike (N:=Z) s c (rekeyed c).
Proof.
  split; try (intros; by apply alike_same). unfold rekeyed. cbn [gc_upstreams]. unfold upstream_position. cbn [gc_upstreams].
  generalize (gc_upstreams c) at 1 2. intros g. induction (gc_upstreams c) as [|nu l IH]; constructor; [|exact IH].
  split; [done|]. split; by apply alike_same.
Qed.
Lemma unchanged_routes_alike {YN} `{YamlCrate YN} (s rs : Source (YN:=YN)) external c l :
  Forall2 (route_alike (N:=Z) s rs external c (rekeyed c)) l l.
Proof. induction l as [|r l IH]; constructor; [|exact IH]. split; try done; first [by apply alike_same | by apply policy_alike_group, alike_same]. Qed.

Definition sample_effective : rprog (result (value Z) str) :=
  effective_command (N:=Z) (YN:=Z) (HY:=plain_yaml) (M:=Z) (sample_config_yaml file_document) file_groups (fun _ => None) sample_parse_uri
    (fun _ => true) (fun _ => []) true ["users"] "conf/gateway.yml".
(** The thread count is shown; the address is not. *)
Definition shown_setting (name : str) (v : value Z) : option (value Z) :=
  letO m := as_object v in letO c := map_get "configuration" m in letO m := as_object c in letO srv := map_get "server" m in
  letO m := as_object srv in letO f := map_get name m in letO m := as_object f in map_get "value" m.

Lemma sample_view : match answer sample_effective with
  | Ok v => shown_setting "threads" v = Some (Number (srv_threads (gc_server file_document))) /\
            shown_setting "listen" v = Some (VString REDACTED)
  | Err _ => False
  end.
Proof. vm_compute. split; reflexivity. Qed.

(** The documents may have been filled in with anything. *)
Definition filled_otherwise (s : Source (YN:=Z)) : Source (YN:=Z) :=
  {| so_label := so_label s; so_inspection := {| masked := str_of "hunter2"; references := [] |}; so_masked := so_masked s;
     so_expanded := (fun _ => YString (str_of "s3cret")) <$> so_expanded s |}.

(** Nothing is at any path of a document that holds nothing. *)
Lemma walk_nothing i ws e t : field_walk (H:=plain_yaml) i ws None e t = (None, match ws with [] => e | _ => None end, t).
Proof.
  revert e t. induction ws as [|w ws IH]; intros e t; [done|]. cbn [field_walk masked_step]. rewrite IH, orb_false_r.
  by destruct e, ws.
Qed.
Lemma walk_empty i path e t :
  field_walk (H:=plain_yaml) i (split_on 46 path) (Some (YMapping [])) e t = (None, None, t).
Proof.
  destruct (split_on_cons 46 path) as (w & ws & ->). cbn [field_walk masked_step]. rewrite walk_nothing.
  cbn [tainted_keys existsb]. rewrite orb_false_r. by destruct e, ws.
Qed.

Lemma filled_otherwise_alike s : so_masked s = Some (YMapping []) -> source_alike (N:=Z) (HY:=plain_yaml) s (filled_otherwise s).
Proof.
  intros Hm. assert ((so_expanded (filled_otherwise s) ==? None) = (so_expanded s ==? None)) as Ee.
  { unfold filled_otherwise. cbn. apply bool_decide_ext. by destruct (so_expanded s). }
  assert (so_masked (filled_otherwise s) = Some (YMapping [])) as Hm' by exact Hm.
  split; [done|unfold provenance_available; by rewrite Ee, Hm, Hm'|..]; intros path; unfold located_at, tainted_at, field;
    by rewrite Ee, Hm, Hm', !walk_empty.
Qed.

Lemma sample_masked label text s : source_read (H:=plain_yaml) (fun _ => None) label text = Ok s -> so_masked s = Some (YMapping []).
Proof. intros H. apply rbind_Ok in H as (i & _ & H). apply rbind_Ok in H as (x & _ & H). by injection H as <-. Qed.

Lemma effective_view_tells_no_text_witness :
  match answer sample_effective with
  | Ok v => exists e : Effective (YN:=Z), v = effective_view (N:=Z) (HY:=plain_yaml) e /\
      effective_view (N:=Z) (HY:=plain_yaml)
        {| ef_config := rekeyed (ef_config e); ef_table := ef_table e; ef_source := filled_otherwise (ef_source e);
           ef_routes := filled_otherwise <$> ef_routes e |} = v
  | Err _ => False
  end.
Proof.
  pose proof sample_view as Hs.
  destruct (effective_view_tells_no_text (N:=Z) (YN:=Z) (HY:=plain_yaml) (M:=Z) (sample_config_yaml file_document) file_groups (fun _ => None)
    sample_parse_uri (fun _ => true) (fun _ => []) true ["users"] "conf/gateway.yml" (transcript (still sample_files) sample_effective 0)
    (answer sample_effective) (run_traces _ _ _)) as [H _].
  destruct (answer sample_effective) as [v|m]; [|destruct Hs].
  destruct H as (e & cfg & Hv & _ & _ & ((text & Hsrc) & Hroutes) & Hsame).
  exists e. split; [exact Hv|]. apply Hsame; cbn [ef_source ef_routes ef_config ef_table].
  - by eapply filled_otherwise_alike, sample_masked.
  - destruct (ef_routes e) as [rs|]; constructor. destruct (Hroutes rs eq_refl) as [t Ht]. by eapply filled_otherwise_alike, sample_masked.
  - apply rekeyed_alike.
  - apply unchanged_routes_alike.
Defined.
