(* ===== verification/Listing.v ===== *)
(** * What the command line says of the policies (cli.rs)

    The table that [lagos routes] prints, and the paragraphs of [lagos explain]
    on the policies of the route it chose.  A line is a string; empty lines and
    the fixed headings are left out.  The lemmas compare the paragraphs with what
    the gateway does. *)

From S2P Require Export Explain Diff.

(** [{:<width$}]: padded to a number of characters. *)
Definition pad (width : nat) (s : str) : str := s ++ repeat 32 (width - length (chars s)).
Definition no_value_dash : str := [226; 128; 148].
Definition or_none (l : list str) : str := join ", " l.
Definition show_missing (m : MissingKey) : str :=
  match m with MissingReject => "Reject" | MissingRoute => "Route" | MissingIp => "Ip" | MissingSkip => "Skip" end.
Definition show_option {A} (f : A -> str) (o : option A) : str :=
  match o with Some a => "Some(" ++ f a ++ ")" | None => "None" end.

Section Listing.
Context {N : Type} `{HN : JsonNumber N} `{HC : Crates N}.

(** ** [lagos routes] *)

Definition denied_lines (t : RouteTable) : list str := map (fun d => "  /" ++ d) (deny_prefixes t).

Definition key_lines (c : ResolvedConfig N) : list str :=
  match client_key_header c with
  | None => []
  | Some header =>
      ["  header      " ++ header]
      ++ (match client_key_forward_as c with Some f => ["  forward_as  " ++ f] | None => [] end)
      ++ ["  keys        " ++ join ", " (map key_id (client_keys c))]
      ++ map (fun prefix => "  exempt      /" ++ prefix) (client_key_exempt c)
      ++ map (fun group => "  exempt      group " ++ group) (client_key_exempt_groups c)
      ++ [str_of "  (routes marked no-client-key are exempt at their prefix)"]
  end.

Definition route_notes (c : ResolvedConfig N) (r : RouteConfig) : list str :=
  (if r_sse r then [str_of "sse"] else [])
  ++ (if r_strip_prefix r then [str_of "strip-prefix"] else [])
  ++ (match client_key_rule c r (r_prefix r) with RuleExempt _ => [str_of "no-client-key"] | _ => [] end)
  ++ (if is_nil (r_extensions r) then [] else [join "+" (r_extensions r)])
  ++ map describe (r_bindings r)
  ++ (match r_rate_limit r with Some rl => [show_u64 (rl_requests rl) ++ "/" ++ show_duration (rl_interval rl)] | None => [] end)
  ++ (match r_concurrency r with Some cap => ["concurrency " ++ show_u64 (cc_max cap)] | None => [] end)
  ++ (match r_retry r with Some rt => ["retry x" ++ show_u64 (retry_attempts rt)] | None => [] end)
  ++ [let o := r_policy_origins r in
      "origins: methods=" ++ label (po_methods o) ++ ", retry=" ++ label (po_retry o) ++ ", rate_limit=" ++ label (po_rate_limit o)].

Definition prefix_width (t : RouteTable) : nat := (foldr Nat.max 0 (map (fun r => length (r_prefix r)) (table_routes t)) + 1)%nat.

Definition route_line (c : ResolvedConfig N) (width : nat) (r : RouteConfig) : str :=
  let methods := if is_nil (r_methods r) then str_of "ANY" else join "," (r_methods r) in
  let notes := route_notes c r in
  let note := if is_nil notes then [] else "  [" ++ join " " notes ++ "]" in
  let host := if is_nil (r_host r) then [] else join "," (r_host r) ++ " " in
  "  " ++ pad 14 (group (r_auth r)) ++ " " ++ host ++ "/" ++ pad width (r_prefix r) ++ arrow ++ pad 14 (r_upstream r) ++ " "
  ++ methods ++ note.

Definition upstream_listing (name : str) (u : UpstreamConfig) : str :=
  let breaker := match up_circuit_breaker u with
                 | Some cb => "  [breaker " ++ show_u64 (cb_failures cb) ++ "/" ++ show_duration (cb_window cb) ++ " cooldown "
                              ++ show_duration (cb_cooldown cb) ++ "]"
                 | None => []
                 end in
  let health := match up_health_check u with
                | Some h => match hc_path h with
                            | Some p => "  [health " ++ p ++ " every " ++ show_duration (hc_interval h) ++ "]"
                            | None => "  [health tcp every " ++ show_duration (hc_interval h) ++ "]"
                            end
                | None => []
                end in
  let discovery := match up_discovery u with Some d => "  [refresh every " ++ show_duration (dc_interval d) ++ "]" | None => [] end in
  "  " ++ pad 16 name ++ " " ++ join ", " (map ut_url (up_targets u)) ++ health ++ discovery ++ breaker.

(** [routes], over the upstreams in the order of the map that holds them. *)
Definition routes_listing (c : ResolvedConfig N) (t : RouteTable) (ups : list (str * UpstreamConfig)) : list str :=
  denied_lines t ++ key_lines c ++ map (route_line c (prefix_width t)) (table_routes t)
  ++ map (fun nu => upstream_listing nu.1 nu.2) ups.

(** ** The paragraphs of [lagos explain] *)

Definition origin_lines (r : RouteConfig) : list str :=
  let o := r_policy_origins r in
  ["  methods: " ++ label (po_methods o); "  retry: " ++ label (po_retry o); "  rate_limit: " ++ label (po_rate_limit o)].

Definition authentication_lines (c : ResolvedConfig N) (r : RouteConfig) : list str :=
  (match r_auth r with
   | Public => [str_of "  no token is read, even if one is sent"; str_of "  identity headers are stripped before proxying"]
   | Optional => ["  no token      " ++ [226; 134; 146] ++ " proxied anonymously"; "  valid token   " ++ [226; 134; 146] ++ " proxied with identity";
                  "  invalid token " ++ [226; 134; 146] ++ " 401"]
   | Routes.Required => [str_of "  a valid token is required; anything else is 401"]
   | Machine => [str_of "  shared credential on the internal listener only"]
   end)
  ++ (let cookies := au_token_cookies (gc_auth (raw c)) in
      if verifies (r_auth r) && negb (is_nil cookies) then
        ["  the token is read from `Authorization: Bearer`, else cookie " ++ join ", then " (map (fun n => "`" ++ n ++ "`") cookies)]
      else []).

Definition client_key_lines (c : ResolvedConfig N) (l : Listener) (r : RouteConfig) (canonical : str) : list str :=
  match l, client_key_header c with
  | PublicListener, Some header =>
      match client_key_rule c r canonical with
      | RuleRequired =>
          ["  one of " ++ show_u64 (Z.of_nat (length (client_keys c))) ++ " key(s) in `" ++ header ++ "`; missing or wrong "
           ++ [226; 134; 146] ++ " 401, before any token is read"; str_of "  the key is removed before proxying"]
          ++ (match client_key_forward_as c with Some f => ["  the key's id is sent upstream as `" ++ f ++ "`"] | None => [] end)
      | RuleExempt why => ["  exempt: " ++ exemption_describe why; str_of "  no key is required; one sent anyway is removed before proxying"]
      | RuleOff => []
      end
  | _, _ => []
  end.

Definition any_method_retried : str :=
  "  a connect failure retries any method; after connecting," ++ [10] ++ "  only idempotent methods are repeated".
Definition retry_lines (r : RouteConfig) (method : str) : list str :=
  match r_retry r with
  | None => []
  | Some rt =>
      ["  up to " ++ show_u64 (retry_attempts rt) ++ " after the first attempt"]
      ++ (if retry_non_idempotent rt then [str_of "  including POST and PATCH (non_idempotent: true)"]
          else if negb (is_idempotent (to_ascii_uppercase method)) then [any_method_retried] else [])
  end.

Definition rate_limit_lines (r : RouteConfig) : list str :=
  match r_rate_limit r with
  | None => []
  | Some rl =>
      ["  " ++ show_u64 (rl_requests rl) ++ " requests per " ++ show_duration (rl_interval rl) ++ ", keyed on "
       ++ match rl_key rl with
          | KeyIp => str_of "the client address" | KeyIdentity => str_of "the caller's subject" | KeyRoute => str_of "this route as a whole"
          | KeyHeader h => "header `" ++ h ++ "`"
          end;
       "  missing key: " ++ show_missing (rl_missing_key rl) ++ "; malformed header keys: 400"]
      ++ (if (rl_key rl ==? KeyIp) && (rl_trusted_proxies rl =? 0)%nat then
            ["  note: trusted_proxies is 0, so the socket peer is used " ++ no_value_dash ++ [10]
             ++ "        behind an ingress every client shares one bucket"]
          else [])
  end.

Definition concurrency_lines (r : RouteConfig) : list str :=
  match r_concurrency r with
  | None => []
  | Some cap =>
      ["  " ++ show_u64 (cc_max cap) ++ " requests upstream at once, "
       ++ match concurrency_key cap with
          | KeyIp => str_of "per client address" | KeyIdentity => str_of "per caller subject" | KeyRoute => str_of "for this route as a whole"
          | KeyHeader h => "per header `" ++ h ++ "`"
          end;
       "  missing key: " ++ show_missing (cc_missing_key cap) ++ "; malformed header keys: 400"]
      ++ (if per_caller cap && (cc_missing_key cap ==? MissingRoute) then
            [str_of "  missing-key route fallback: 503 when the shared fallback cap is full"] else [])
      ++ ["  over the cap: " ++ (if per_caller cap then str_of "429" else str_of "503") ++ " at once, never queued"]
  end.

Definition ownership_lines (r : RouteConfig) : list str :=
  map (fun b => "  " ++ describe b ++ "   (403 if missing, unprovable, or unequal)") (r_bindings r).

Definition cookie_origin_lines (c : ResolvedConfig N) (r : RouteConfig) : list str :=
  match au_cookie_protection (gc_auth (raw c)) with
  | Some policy =>
      if verifies (r_auth r) then
        ["Cookie origin protection: unsafe cookie-authenticated methods require an exact trusted origin; Referer fallback: "
         ++ show_bool (cp_referer_fallback policy)]
      else []
  | None => []
  end.

Definition extension_lines (c : ResolvedConfig N) (r : RouteConfig) : list str :=
  if is_nil (r_extensions r) then []
  else
    ["  per hook: " ++ show_duration (t_extension (gc_timeouts (raw c))) ++ "; complete chain: "
     ++ show_duration (t_extension_chain (gc_timeouts (raw c))) ++ "; concurrent chains: "
     ++ show_option show_u64 (lt_extension_inflight (gc_limits (raw c)));
     str_of "  cooperative timeout/capacity refusal: 503"]
    ++ imap (fun i e => "  " ++ show_u64 (Z.of_nat i + 1) ++ ". " ++ e) (r_extensions r).

(** Everything [explain] prints of the route it chose. *)
Definition policy_report (c : ResolvedConfig N) (l : Listener) (r : RouteConfig) (method canonical : str) : list str :=
  ["  " ++ [226; 156; 147] ++ " " ++ r_id r ++ "  (group: " ++ group (r_auth r) ++ ")"]
  ++ origin_lines r ++ authentication_lines c r ++ client_key_lines c l r canonical ++ retry_lines r method ++ rate_limit_lines r
  ++ concurrency_lines r ++ ownership_lines r ++ cookie_origin_lines c r ++ extension_lines c r
  ++ [upstream_line c r canonical] ++ (if r_strip_prefix r then ["  prefix `/" ++ r_prefix r ++ "` stripped before forwarding"] else [])
  ++ ["  timeout " ++ show_duration (shown_timeout c r) ++ (if r_sse r then str_of " (sse)" else [])]
  ++ injected_lines c l.
End Listing.

(** ** Nothing secret is printed *)

Section Secrets.
Context {N : Type} `{HN : JsonNumber N} `{HC : Crates N}.

(** Configurations that differ in secrets: the digests of client keys, the
    credentials of machines and of identity tokens, and the values of the headers
    that are added, with whatever of the document is not named here. *)
Record alike_but_secrets (c c' : ResolvedConfig N) : Prop := {
  ab_timeouts : gc_timeouts (raw c) = gc_timeouts (raw c');
  ab_limits : gc_limits (raw c) = gc_limits (raw c');
  ab_cookies : au_token_cookies (gc_auth (raw c)) = au_token_cookies (gc_auth (raw c'));
  ab_protection : au_cookie_protection (gc_auth (raw c)) = au_cookie_protection (gc_auth (raw c'));
  ab_header : client_key_header c = client_key_header c';
  ab_forward : client_key_forward_as c = client_key_forward_as c';
  ab_keys : map key_id (client_keys c) = map key_id (client_keys c');
  ab_exempt : client_key_exempt c = client_key_exempt c';
  ab_groups : client_key_exempt_groups c = client_key_exempt_groups c';
  ab_injected : map fst (injected_headers c) = map fst (injected_headers c');
  ab_machine : map fst (machine_injected_headers c) = map fst (machine_injected_headers c');
  ab_upstreams : upstreams c = upstreams c';
}.

Lemma client_key_rule_alike c c' r path : alike_but_secrets c c' -> client_key_rule c r path = client_key_rule c' r path.
Proof using. intros H. unfold client_key_rule. by rewrite (ab_header _ _ H), (ab_exempt _ _ H), (ab_groups _ _ H). Qed.

Lemma injected_lines_alike c c' l : alike_but_secrets c c' -> injected_lines c l = injected_lines c' l.
Proof using.
  intros H. unfold injected_lines. rewrite <-!(map_map fst (fun n => "  " ++ n ++ ": <redacted>")).
  destruct l; [by rewrite (ab_injected _ _ H)|by rewrite (ab_machine _ _ H)].
Qed.

Lemma routes_listing_shows_no_secret c c' t ups : alike_but_secrets c c' -> routes_listing c t ups = routes_listing c' t ups.
Proof using.
  intros H. unfold routes_listing, key_lines.
  rewrite (ab_header _ _ H), (ab_forward _ _ H), (ab_keys _ _ H), (ab_exempt _ _ H), (ab_groups _ _ H). do 3 f_equal.
  apply map_ext. intros r. unfold route_line, route_notes. by rewrite (client_key_rule_alike _ _ _ _ H).
Qed.

Lemma policy_report_shows_no_secret c c' l r method canonical :
  alike_but_secrets c c' -> policy_report c l r method canonical = policy_report c' l r method canonical.
Proof using.
  intros H. unfold policy_report, authentication_lines, client_key_lines, cookie_origin_lines, extension_lines, upstream_line,
    shown_timeout.
  rewrite (injected_lines_alike _ _ _ H), (client_key_rule_alike _ _ _ _ H), (ab_timeouts _ _ H), (ab_limits _ _ H),
    (ab_cookies _ _ H), (ab_protection _ _ H), (ab_header _ _ H), (ab_forward _ _ H), (ab_upstreams _ _ H).
  by rewrite <-(length_map key_id (client_keys c)), (ab_keys _ _ H), length_map.
Qed.
End Secrets.

(** ** What is said of client keys and of retries *)

Section Said.
Context {N : Type} `{HN : JsonNumber N} `{HC : Crates N}.
Variable g : Gateway (N:=N).
Abbreviation cfg := (gw_cfg g).

(** A key is said to be needed exactly where a request of the public listener
    without one is refused, with 401. *)
Lemma client_key_paragraph rq route path c tr (o : flow Response (option str)) c' header :
  gw_serves_machine g = false -> client_key_header cfg = Some header -> hget_all (rq_headers rq) header = [] ->
  ftraces (check_client_key g rq route path) c tr o c' ->
  match o with
  | Stop resp => rs_status resp = 401 /\ Exists (fun l => starts_with "  one of " l = true) (client_key_lines cfg PublicListener route path)
  | Go id => id = None /\ Forall (fun l => starts_with "  one of " l = false) (client_key_lines cfg PublicListener route path)
  end.
Proof using.
  intros Hm Hh Hnone Hrun. unfold check_client_key in Hrun. rewrite Hm in Hrun. cbn [negb andb] in Hrun. cbv zeta in Hrun.
  assert (hget_all (rq_headers rq) (default [] (client_key_header cfg)) = []) as Hg by (by rewrite Hh). rewrite Hg in Hrun.
  unfold client_key_lines. rewrite Hh. case_bool_decide as Hr.
  - rewrite Hr. apply ftraces_reject in Hrun as (_ & -> & _). split; [done|]. by apply Exists_cons_hd.
  - ftrace_inv. split; [done|]. destruct (client_key_rule cfg route path) as [| |why]; [constructor|done|].
    repeat (constructor; [reflexivity|]). constructor.
Qed.
End Said.

(** No route is tried more often than the paragraph on retries says. *)
Lemma retry_paragraph_bounds r rt method outcomes : r_retry r = Some rt -> 0 <= retry_attempts rt ->
  hd_error (retry_lines r method) = Some ("  up to " ++ show_u64 (retry_attempts rt) ++ " after the first attempt") /\
  deliveries (policy_from_config rt) 0 method outcomes <= 1 + retry_attempts rt.
Proof.
  intros Hr Ha. unfold retry_lines. rewrite Hr. split; [done|].
  pose proof (deliveries_from (policy_from_config rt) 0 method outcomes) as H. cbn [attempts policy_from_config] in H. lia.
Qed.

(** A policy that retries transport errors only is explained like any other: "a
    connect failure retries any method", where it retries none. *)
Definition transport_only : RetryConfig :=
  {| retry_attempts := 2; retry_on := [TransportError]; retry_non_idempotent := false |}.
Lemma retry_paragraph_ignores_on r : r_retry r = Some transport_only ->
  any_method_retried ∈ retry_lines r "POST" /\
  should_retry (policy_from_config transport_only) Connect 0 "POST" true = false.
Proof. intros H. unfold retry_lines. rewrite H. split; [|done]. right. by left. Qed.
