(* ===== verification/Services.v ===== *)
(** * The services of a running gateway (runtime.rs)

    What [Runtime::run] hands to Pingora's server once everything is built: the
    listeners with the bounds of their connections, and the services that run
    beside them.  The server itself is Pingora's. *)

From S2P Require Export Documents Edge PoolHealth.

Section Services.
Context {N : Type} `{HN : JsonNumber N} `{HC : Crates N} {R : Type} `{HR : RateSketch R}.

(** A listener, as [add_listener] leaves it: the gateway behind it, the options of
    its sockets and connections, the deadlines of [DeadlineProxy] and the filter
    of new connections. *)
Record ServedListener := {
  sl_name : str;
  sl_addr : str;
  sl_gateway : Gateway (N:=N);
  sl_keepalive_limit : option Z;
  sl_header_timeout : Z;
  sl_request_total : option Z;
  sl_tcp_keepalive : option TcpKeepaliveConfig;
  sl_filter : option (Limiter R);
}.

Definition add_listener (name addr : str) (g : Gateway (N:=N)) (c : GatewayConfig) : ServedListener :=
  {| sl_name := name; sl_addr := addr; sl_gateway := g; sl_keepalive_limit := downstream_server_options c;
     sl_header_timeout := t_downstream_read (gc_timeouts c); sl_request_total := t_request_total (gc_timeouts c);
     sl_tcp_keepalive := srv_tcp_keepalive (gc_server c);
     sl_filter := connection_limiter <$> lt_connections_per_ip (gc_limits c) |}.

Inductive Service :=
| PoolService (upstream : str)
| Listens (l : ServedListener)
| ReloadsRoutes (reloader : RouteReloader (N:=N)) (interval : Z)
| SyncsLimits (machine : bool) (interval : Z)
| ExportsSpans (endpoint service_name : str)
| ServesMetrics (listen : str)
| SamplesPools (interval : Z).

(** The pools whose balancers have something periodic to do. *)
Definition health_services (ups : list (str * UpstreamConfig)) : list Service :=
  map (fun nu => PoolService nu.1)
    (List.filter (fun nu => match up_health_check nu.2, up_discovery nu.2 with None, None => false | _, _ => true end) ups).

Definition public_listener (b : Booted (N:=N)) : ServedListener :=
  let c := raw (bt_config b) in add_listener "Lagos public proxy" (srv_listen (gc_server c)) (bt_public b) c.
Definition internal_listener (b : Booted (N:=N)) : option ServedListener :=
  let c := raw (bt_config b) in
  letO addr := srv_internal_listen (gc_server c) in
  (fun g => add_listener "Lagos internal proxy" addr g c) <$> bt_internal b.

(** [Runtime::run], from the server it makes to [run_forever]. *)
Definition run_services (b : Booted (N:=N)) : list Service :=
  let c := raw (bt_config b) in
  health_services (map_to_list (upstreams (bt_config b)))
  ++ [Listens (public_listener b)]
  ++ (match internal_listener b with Some l => [Listens l] | None => [] end)
  ++ (match bt_reloader b with Some r => [ReloadsRoutes r (rc_reload (gc_routes c))] | None => [] end)
  ++ (match bt_sync b with
      | Some f => [SyncsLimits (match srv_internal_listen (gc_server c) with Some _ => true | None => false end) (sc_sync (fa_cfg f))]
      | None => []
      end)
  ++ (match (letO t := ob_tracing (gc_observability c) in tc_otlp t) with
      | Some endpoint => [ExportsSpans endpoint (srv_service_name (gc_server c))]
      | None => []
      end)
  ++ (match ob_metrics (gc_observability c) with
      | Some m => [ServesMetrics (mt_listen m); SamplesPools (mt_pool_sample_interval m)]
      | None => []
      end).

(** What becomes of connections and exchanges at a listener. *)
Definition accepts (l : ServedListener) (evs : list edge_event) : list bool :=
  match sl_filter l with
  | Some m => accept_all m evs
  | None => omap (fun e => match e with Opens _ _ => Some true | Forgets _ => None end) evs
  end.
Definition serves_exchange {T} (l : ServedListener) (start : Z) (parsed : option Z) (finished : option (Z * T)) : Ending T :=
  request_budget start (wait_for_header start parsed finished (sl_header_timeout l)) (sl_request_total l).

(** ** What is started *)

Definition listener_of (s : Service) : option ServedListener := match s with Listens l => Some l | _ => None end.

Lemma run_listeners b : omap listener_of (run_services b) = public_listener b :: option_list (internal_listener b).
Proof using.
  unfold run_services. rewrite !omap_app.
  assert (forall ups, omap listener_of (health_services ups) = []) as ->.
  { intros ups. unfold health_services. by induction (List.filter _ ups). }
  cbn [omap list_omap listener_of app]. f_equal. destruct (internal_listener b); cbn.
  all: destruct (bt_reloader b), (bt_sync b), (letO t := _ in _), (ob_metrics _); done.
Qed.
End Services.

Section Guarded.
Context {N : Type} `{HN : JsonNumber N} `{HC : Crates N} {R : Type} `{HR : RateSketch R}.
Context (parse_uri : str -> result Uri str) (header_name_ok : str -> bool) (show_f64 : f64 -> str).
Context (groups_from_yaml : str -> result RouteGroups (option (Z * Z) * str)) (env : str -> option str).
Context (to_socket_addrs : str -> result (list SocketAddr) str) (redis_open : str -> Z -> result () str).
Context (shared_limits : bool) (known : list str) (dev : bool).
Abbreviation starts := (run_document (N:=N) parse_uri header_name_ok show_f64 groups_from_yaml env to_socket_addrs redis_open
  shared_limits known dev).

(** The gateways of a start: one configuration, each serving one listener. *)
Lemma started_gateways doc expanded exts tr b : traces (starts doc expanded exts) tr (Ok b) ->
  gw_cfg (bt_public b) = bt_config b /\ gw_serves_machine (bt_public b) = false /\
  bt_internal b = (fun _ => for_machine_tier (bt_public b)) <$> srv_internal_listen (gc_server (raw (bt_config b))) /\
  (rr_path <$> bt_reloader b) = rc_file (gc_routes (raw (bt_config b))).
Proof using.
  unfold run_document. intros (now & ? & -> & Ht)%rask_traces.
  apply tries_Ok in Ht as (cfg & _ & Ht). apply tries_Ok in Ht as (ups & _ & Ht).
  apply tries_Ok in Ht as (shared & _ & Ht). cbv zeta in Ht. apply traces_bind in Ht as (h1 & h2 & loaded & -> & _ & Ht).
  apply tries_Ok in Ht as (t & -> & Ht). apply tries_Ok in Ht as ([] & _ & Ht).
  apply traces_bind in Ht as (h3 & h4 & verified & -> & _ & Ht). apply tries_Ok in Ht as ([] & -> & Ht).
  apply tries_Ok in Ht as ([] & _ & Ht). destruct (partition_by_listener t) as [public machine].
  apply tries_Ok in Ht as (router & _ & Ht). destruct Ht as [-> [= ->]]. cbn [bt_public bt_config bt_internal bt_reloader].
  split_and!; [done..|]. by destruct (rc_file _).
Qed.

Definition guarded (c : GatewayConfig) (l : ServedListener (N:=N) (R:=R)) : Prop :=
  sl_keepalive_limit l = downstream_server_options c /\ sl_tcp_keepalive l = srv_tcp_keepalive (gc_server c) /\
  (forall cl evs key start, lt_connections_per_ip (gc_limits c) = Some cl ->
     0 <= cl_connections cl < 2 ^ 53 -> 0 < cl_interval cl <= duration_max -> Forgets key ∉ evs ->
     head (times_of key evs) = Some start -> Forall (fun t => start <= t < start + cl_interval cl) (times_of key evs) ->
     map snd (answers_to key evs (accepts l evs)) = map (fun i => Z.of_nat i <? cl_connections cl) (seq 0 (length (times_of key evs)))) /\
  (forall T start parsed (finished : option (Z * T)),
     (forall total, t_request_total (gc_timeouts c) = Some total -> is_Some (instant_checked_add start total)) ->
     (match parsed with Some p => start + t_downstream_read (gc_timeouts c) < p | None => True end ->
        ends_by (start + t_downstream_read (gc_timeouts c)) (serves_exchange l start parsed finished)) /\
     (forall total, t_request_total (gc_timeouts c) = Some total -> ends_by (start + total) (serves_exchange l start parsed finished))).

Lemma add_listener_guarded name addr g c : guarded c (add_listener name addr g c).
Proof using.
  split_and!; [done..| |].
  - intros cl evs key start Hcl H1 H2 Hk H3 H4. unfold accepts, add_listener. cbn [sl_filter]. rewrite Hcl. cbn [fmap option_fmap option_map].
    by destruct (bursts_are_cut_off_per_address (R:=R) cl evs key start H1 H2 Hk H3 H4).
  - intros T start parsed finished Hfits.
    destruct (no_connection_outlives_its_budgets (gc_timeouts c) start parsed finished Hfits) as (H1 & H2 & _). by split.
Qed.

(** C30: A gateway that starts listens where it was told to and nowhere else for
    requests: at the address of the document for the public tiers and, exactly
    where one is configured, at the internal address for the machine tier; and
    each of these listeners, the internal one included, has the guards that are
    configured.  Where new connections are limited, of a burst that an address
    opens within one interval of its first connection exactly the configured
    number is accepted, for a positive interval and a number below 2^53, and so
    long as the store, which is bounded by [max_tracked], keeps the address's
    count: a count it drops begins again.  A client that has not sent its header
    by the read deadline is gone by then, no exchange outlives the total budget
    where there is one, and connections are kept alive as configured.  Every pool
    with health checks or discovery, and a route file, has its service. *)
Theorem every_listener_is_guarded doc expanded exts tr b (Hrun : traces (starts doc expanded exts) tr (Ok b)) :
  let c := raw (bt_config b) in
  let listeners := omap listener_of (run_services (R:=R) b) in
  map (fun l => (sl_addr l, gw_serves_machine (sl_gateway l))) listeners =
    (srv_listen (gc_server c), false) :: (match srv_internal_listen (gc_server c) with Some a => [(a, true)] | None => [] end) /\
  (forall l, l ∈ listeners -> gw_cfg (sl_gateway l) = bt_config b /\ guarded c l) /\
  (forall name u, upstreams (bt_config b) !! name = Some u -> up_health_check u <> None \/ up_discovery u <> None ->
     PoolService name ∈ run_services (R:=R) b) /\
  (forall path, rc_file (gc_routes c) = Some path ->
     exists r, rr_path r = path /\ ReloadsRoutes r (rc_reload (gc_routes c)) ∈ run_services (R:=R) b).
Proof using.
  apply started_gateways in Hrun as (Hcfg & Hm & Hi & Hr). cbv zeta.
  assert (internal_listener (R:=R) b = (fun a => add_listener "Lagos internal proxy" a (for_machine_tier (bt_public b)) (raw (bt_config b)))
    <$> srv_internal_listen (gc_server (raw (bt_config b)))) as Hint.
  { unfold internal_listener. rewrite Hi. by destruct (srv_internal_listen _). }
  rewrite run_listeners, Hint. split_and!.
  - cbn [map]. unfold public_listener. cbn [sl_addr sl_gateway add_listener]. rewrite Hm. f_equal.
    by destruct (srv_internal_listen _).
  - intros l [->|Hl]%elem_of_cons; [split; [done|apply add_listener_guarded]|].
    destruct (srv_internal_listen _) as [a|]; cbn in Hl; [|by apply elem_of_nil in Hl].
    apply list_elem_of_singleton in Hl as ->. split; [done|apply add_listener_guarded].
  - intros name u Hu Hp. unfold run_services. apply elem_of_app. left. unfold health_services.
    apply list_elem_of_In, in_map_iff. exists (name, u). split; [done|]. apply filter_In.
    split; [by apply list_elem_of_In, elem_of_map_to_list|]. cbn [snd].
    destruct (up_health_check u), (up_discovery u); naive_solver.
  - intros path Hp. rewrite Hp in Hr. apply fmap_Some in Hr as (r & Hb & Hr). exists r. split; [done|].
    unfold run_services. rewrite Hb. rewrite !elem_of_app. do 3 right. left. by left.
Qed.
End Guarded.

(** ** Witnesses *)

Lemma every_listener_is_guarded_witness :
  match sample_booted with
  | Ok b => map (fun l => (sl_addr l, gw_serves_machine (sl_gateway l))) (omap listener_of (run_services (R:=gmap str Z) b)) =
              [(srv_listen (gc_server file_document), false); (str_of "127.0.0.1:9090", true)] /\
            (exists r, rr_path r = str_of "routes.yml" /\ ReloadsRoutes r (from_secs 15) ∈ run_services (R:=gmap str Z) b)
  | Err _ => False
  end.
Proof.
  pose proof (run_traces (world_answers readable) sample_boot 100) as Ht.
  change (Prog.run (world_answers readable) sample_boot 100).1 with sample_booted in Ht.
  assert (match sample_booted with
          | Ok b => srv_listen (gc_server (raw (bt_config b))) = srv_listen (gc_server file_document) /\
                    srv_internal_listen (gc_server (raw (bt_config b))) = Some (str_of "127.0.0.1:9090") /\
                    gc_routes (raw (bt_config b)) = gc_routes file_document
          | Err _ => False
          end) as H by (vm_compute; split_and!; reflexivity).
  destruct sample_booted as [b|e]; [|destruct H]. destruct H as (H1 & H2 & H3).
  destruct (every_listener_is_guarded (N:=Z) (R:=gmap str Z) sample_parse_uri (fun _ => true) (fun _ => []) file_groups (fun _ => None)
    (fun _ => Err []) (fun _ _ => Ok tt) true ["users"] false file_document no_expansion [] _ b Ht) as (Hl & _ & _ & Hr).
  split; [rewrite Hl, H1, H2; reflexivity|]. destruct (Hr (str_of "routes.yml")) as (r & Hp & Hin); [by rewrite H3|].
  exists r. split; [exact Hp|]. rewrite H3 in Hin. exact Hin.
Defined.

(** A limit of an interval of no length is accepted, and admits everything. *)
Definition no_length (c : GatewayConfig) : GatewayConfig :=
  let l := gc_limits c in
  {| gc_defaults := gc_defaults c; gc_server := gc_server c; gc_timeouts := gc_timeouts c;
     gc_limits := {| lt_extension_inflight := lt_extension_inflight l; lt_max_body := lt_max_body l; lt_max_token := lt_max_token l;
                     lt_keepalive_requests := lt_keepalive_requests l;
                     lt_connections_per_ip := Some {| cl_connections := 1; cl_interval := 0; cl_max_tracked := 10 |};
                     lt_upstream_pool := lt_upstream_pool l; lt_min_send_rate := lt_min_send_rate l |};
     gc_upstreams := gc_upstreams c; gc_auth := gc_auth c; gc_inject := gc_inject c; gc_reject := gc_reject c;
     gc_forward := gc_forward c; gc_identity := gc_identity c; gc_routes := gc_routes c;
     gc_observability := {| ob_metrics := Some {| mt_listen := "127.0.0.1:9090"; mt_pool_sample_interval := 0 |};
                            ob_tracing := ob_tracing (gc_observability c) |};
     gc_dns := gc_dns c; gc_cors := gc_cors c; gc_cache := gc_cache c; gc_shared_counters := gc_shared_counters c |}.
Lemma empty_intervals_start :
  Documents.answer (sample_validation (no_length file_document) false) = Ok [] /\
  match Documents.answer (sample_start (no_length file_document)) with
  | Ok b => accepts (public_listener (R:=gmap str Z) b) (map (fun port => Opens (peer 7 port) 5) [1; 2; 3; 4])
              = [true; true; true; true] /\
            SamplesPools 0 ∈ run_services (R:=gmap str Z) b
  | Err _ => False
  end.
Proof.
  split; [vm_compute; reflexivity|].
  assert (match Documents.answer (sample_start (no_length file_document)) with
          | Ok b => accepts (public_listener (R:=gmap str Z) b) (map (fun port => Opens (peer 7 port) 5) [1; 2; 3; 4])
                      = [true; true; true; true] /\
                    mt_pool_sample_interval <$> ob_metrics (gc_observability (raw (bt_config b))) = Some 0
          | Err _ => False
          end) as H by (vm_compute; split; reflexivity).
  destruct (Documents.answer (sample_start (no_length file_document))) as [b|e]; [|destruct H]. destruct H as [H1 H2]. split; [exact H1|].
  apply fmap_Some in H2 as (m & Hm & Hz). unfold run_services. rewrite Hm. rewrite !elem_of_app. do 6 right.
  rewrite Hz. right. by left.
Qed.
