(* ===== verification/Redaction.v ===== *)
(** * What is printed of a configuration (config/mod.rs, ratelimit/, accept.rs)

    The hand-written [Debug] texts of what holds a secret, and the connection to
    a counter store with the errors it reports.  What [redis] says of an error is
    a category; how [Debug] quotes a string is a parameter. *)

From S2P Require Export Resp Gateway.

(** ** [Debug] *)

Section Debug.
Context (debug_str : str -> str).

Definition debug_list (l : list str) : str := "[" ++ Str.join (str_of ", ") l ++ "]".
Definition debug_strs (l : list str) : str := debug_list (map debug_str l).
Definition debug_option (o : option str) : str := match o with Some s => "Some(" ++ debug_str s ++ ")" | None => "None" end.
Definition debug_map (m : list (str * str)) : str := "{" ++ Str.join (str_of ", ") (map (fun kv => debug_str kv.1 ++ ": " ++ kv.2) m) ++ "}".

(** [debug_struct] with [finish] or [finish_non_exhaustive]. *)
Definition debug_struct (name : str) (fields : list (str * str)) (exhaustive : bool) : str :=
  name ++ " { " ++ Str.join (str_of ", ") (map (fun kv => kv.1 ++ ": " ++ kv.2) fields ++ (if exhaustive then [] else [str_of ".."])) ++ " }".

(** [Redacted]. *)
Definition redacted (secret : str) : str := "<redacted " ++ show_u64 (Z.of_nat (length secret)) ++ " bytes>".

Definition debug_machine (m : MachineConfig) : str :=
  debug_struct "MachineConfig" [(str_of "headers", debug_strs (mc_headers m)); (str_of "secret", redacted (mc_secret m))] true.
Definition debug_client_keys (c : ClientKeysConfig) : str :=
  debug_struct "ClientKeysConfig"
    [(str_of "header", debug_str (ck_header c)); (str_of "forward_as", debug_option (ck_forward_as c));
     (str_of "keys", debug_map (map (fun kv => (kv.1, redacted kv.2)) (ck_keys c))); (str_of "exempt", debug_strs (ck_exempt c));
     (str_of "exempt_groups", debug_strs (ck_exempt_groups c))] true.
Definition debug_client_key (k : ClientKey) : str :=
  debug_struct "ClientKey" [(str_of "id", debug_str (key_id k)); (str_of "digest", debug_str "<redacted>")] true.
Definition debug_identity_token (t : IdentityTokenConfig) : str :=
  debug_struct "IdentityTokenConfig"
    [(str_of "header", debug_str (it_header t)); (str_of "secret", redacted (it_secret t)); (str_of "ttl", show_duration (it_ttl t));
     (str_of "audience", debug_option (it_audience t))] true.

(** [Limiter], [SharedCounters] and [ConnectionLimiter] show no counter. *)
Definition debug_limiter (name : str) (limit interval : Z) : str :=
  debug_struct name [(str_of "limit", show_u64 limit); (str_of "interval", show_duration interval)] false.
Definition debug_connection_limiter : str := debug_struct "ConnectionLimiter" [] false.
Definition debug_factory (c : SharedCountersConfig) : str :=
  debug_struct "SharedCounterFactory" [(str_of "url", debug_str (redact_url (sc_url c))); (str_of "sync", show_duration (sc_sync c))] false.

(** ** The connection to a counter store *)

Record RespBackend := { rb_timeout : Z; rb_display_url : str }.
Definition debug_backend (b : RespBackend) : str :=
  debug_struct "RespBackend" [(str_of "url", debug_str (rb_display_url b)); (str_of "timeout", show_duration (rb_timeout b))] false.

(** [RespBackend::connect]; [open] parses a URL, and the runtime and the lazy
    connection may not come up.  Nothing is dialled. *)
Definition resp_connect (open : str -> result () str) (runtime manager : result () str) (c : SharedCountersConfig) : result RespBackend str :=
  let? url := normalize_url (sc_url c) in
  let display_url := redact_url (sc_url c) in
  let? _ := map_err (fun category => "shared_counters.url could not be parsed: " ++ category) (open url) in
  let? _ := map_err (fun e => "shared counter runtime could not be started: " ++ e) runtime in
  let? _ := map_err (fun e => "shared counter connection could not be set up: " ++ e) manager in
  Ok {| rb_timeout := sc_timeout c; rb_display_url := display_url |}.

(** How a command spawned on the runtime of the backend ends. *)
Inductive CommandEnd (T : Type) := Answered (reply : result T str) | OutOfTime | Lost (why : str).
Arguments Answered {T} _.
Arguments OutOfTime {T}.
Arguments Lost {T} _.

Definition on_backend {T} (b : RespBackend) (task : CommandEnd T) : result T BackendError :=
  match task with
  | Answered (Ok v) => Ok v
  | Answered (Err category) => Err (Shared.Unavailable category)
  | OutOfTime => Err (Shared.Timeout (rb_timeout b))
  | Lost e => Err (Shared.Unavailable ("worker failed: " ++ e))
  end.

(** [vendor], of the answer to [INFO server]. *)
Definition resp_vendor (b : RespBackend) (info : CommandEnd str) : result Vendor BackendError :=
  let? info := on_backend b info in Ok (vendor_from_info info).

(** ** Nothing but the length of a secret *)

Lemma redacted_length a b : length a = length b -> redacted a = redacted b.
Proof using. unfold redacted. by intros ->. Qed.

Lemma debug_machine_hides m m' : mc_headers m = mc_headers m' -> length (mc_secret m) = length (mc_secret m') ->
  debug_machine m = debug_machine m'.
Proof using. intros H1 H2. unfold debug_machine. by rewrite H1, (redacted_length _ _ H2). Qed.

Lemma debug_identity_token_hides t t' : it_header t = it_header t' -> it_ttl t = it_ttl t' -> it_audience t = it_audience t' ->
  length (it_secret t) = length (it_secret t') -> debug_identity_token t = debug_identity_token t'.
Proof using. intros H1 H2 H3 H4. unfold debug_identity_token. by rewrite H1, H2, H3, (redacted_length _ _ H4). Qed.

Lemma debug_client_keys_hides c c' :
  ck_header c = ck_header c' -> ck_forward_as c = ck_forward_as c' -> ck_exempt c = ck_exempt c' ->
  ck_exempt_groups c = ck_exempt_groups c' ->
  Forall2 (fun kv kv' => kv.1 = kv'.1 /\ length kv.2 = length kv'.2) (ck_keys c) (ck_keys c') ->
  debug_client_keys c = debug_client_keys c'.
Proof using.
  intros H1 H2 H3 H4 Hk. unfold debug_client_keys. rewrite H1, H2, H3, H4.
  enough (map (fun kv => (kv.1, redacted kv.2)) (ck_keys c) = map (fun kv => (kv.1, redacted kv.2)) (ck_keys c')) as -> by done.
  induction Hk as [|kv kv' l l' [Hn Hl] _ IH]; [done|]. cbn [map]. by rewrite Hn, (redacted_length _ _ Hl), IH.
Qed.

Lemma debug_client_key_hides k k' : key_id k = key_id k' -> debug_client_key k = debug_client_key k'.
Proof using. intros H. unfold debug_client_key. by rewrite H. Qed.

(** Two stores whose URLs differ in the password are printed alike and report
    alike. *)
Lemma debug_backend_hides open runtime manager c c' b b' scheme user pass pass' host :
  58 ∉ scheme -> 58 ∉ user -> 64 ∉ host ->
  sc_url c = scheme ++ "://" ++ user ++ ":" ++ pass ++ "@" ++ host ->
  sc_url c' = scheme ++ "://" ++ user ++ ":" ++ pass' ++ "@" ++ host -> sc_timeout c = sc_timeout c' -> sc_sync c = sc_sync c' ->
  resp_connect open runtime manager c = Ok b -> resp_connect open runtime manager c' = Ok b' ->
  debug_backend b = debug_backend b' /\ debug_factory c = debug_factory c' /\
  forall T (task : CommandEnd T), on_backend b task = on_backend b' task.
Proof using.
  intros Hs Hu Hh E E' Ht Hy Hb Hb'.
  assert (redact_url (sc_url c) = redact_url (sc_url c')) as Hr by (rewrite E, E'; by rewrite !redact_url_hides_password).
  unfold resp_connect in Hb, Hb'.
  apply rbind_Ok in Hb as (u & _ & ([] & _ & ([] & _ & ([] & _ & [= <-])%rbind_Ok)%rbind_Ok)%rbind_Ok).
  apply rbind_Ok in Hb' as (u' & _ & ([] & _ & ([] & _ & ([] & _ & [= <-])%rbind_Ok)%rbind_Ok)%rbind_Ok).
  unfold debug_factory. by rewrite Ht, Hr, Hy.
Qed.
End Debug.

(** A URL without a scheme is refused with what stands before its first [://],
    and that may be the password's first part. *)
Lemma refusal_echoes_a_password :
  exists rest, normalize_url "bob:pa://ss@cache" = Err ("`bob:pa` " ++ rest).
Proof. eexists. vm_compute. reflexivity. Qed.
