(* ===== verification/Narration.v ===== *)
(** * What is logged of a request (proxy.rs)

    The end of [logging]: the block printed in development, or one structured
    line.  The [Display] of an error is Pingora's. *)

From S2P Require Export Exchange.
From S2P Require Import Str.

Section Narration.
Context {N : Type} `{HN : JsonNumber N} `{HC : Crates N} (show_error : PError -> str).
Variable g : Gateway (N:=N).

Definition esc : str := [27].
Definition tick_mark : str := esc ++ "[32m" ++ [226; 156; 147] ++ esc ++ "[0m".
Definition cross_mark : str := esc ++ "[31m" ++ [226; 156; 151] ++ esc ++ "[0m".
Definition step_line (mark name text : str) : str := "  " ++ mark ++ " " ++ name ++ text.

(** The address narrated of an upstream: [chosen] is the balancer's answer to the
    empty key. *)
Definition narrated_target (name : str) (chosen : option Backend) : str :=
  default (str_of "?")
    (letO u := gw_upstreams g !! name in letO s := Upstream.select (us_kind u) chosen in Some (tg_addr (sel_target s))).

Definition identity_line (c : Ctx) : list str :=
  match cx_subject c, cx_tier c with
  | Some sub, _ => [step_line tick_mark "identity   " sub]
  | None, Some Optional => [step_line tick_mark "identity   " "anonymous (optional tier)"]
  | None, _ => []
  end.
Definition outcome_lines (c : Ctx) (chosen : option Backend) : list str :=
  match cx_rejection c with
  | Some (event, reason) => [step_line cross_mark "refused    " (reason ++ "  [" ++ event ++ "]")]
  | None =>
      if cx_upstream_name c ==? [] then []
      else
        ["  " ++ [226; 134; 146] ++ " upstream   " ++ cx_upstream_name c ++ " " ++ narrated_target (cx_upstream_name c) chosen
         ++ (if cx_sse c then str_of "  (sse)" else [])]
        ++ (match cx_upstream_path c with
            | Some path => ["    as         /" ++ path ++ "  (prefix stripped)"]
            | None => []
            end)
  end.

(** [narrate], line by line. *)
Definition narrate (c : Ctx) (chosen : option Backend) (status latency_ms : Z) (e : option PError) : list str :=
  [[10] ++ esc ++ "[1m" ++ cx_method c ++ " /" ++ cx_path c ++ esc ++ "[0m"]
  ++ (if cx_mount c ==? [] then [] else [step_line tick_mark "mount      /" (cx_mount c)])
  ++ (if cx_route_id c ==? [] then []
      else [step_line tick_mark "route      " (cx_route_id c ++ "  (" ++ default [] (group <$> cx_tier c) ++ ")")])
  ++ identity_line c
  ++ (match cx_rate_limit c with
      | Some (remaining, limit) =>
          [step_line (match cx_retry_after c with Some _ => cross_mark | None => tick_mark end) "rate-limit "
             (show_u64 remaining ++ " / " ++ show_u64 limit ++ " remaining")]
      | None => []
      end)
  ++ map (step_line tick_mark "bind       ") (cx_bindings_met c)
  ++ (match cx_failed_binding c with Some b => [step_line cross_mark "bind       " b] | None => [] end)
  ++ map (step_line tick_mark "extension  ") (cx_extensions_run c)
  ++ outcome_lines c chosen
  ++ (match cx_trace c with Some t => [step_line tick_mark "trace      " (write_hex (trace_id t))] | None => [] end)
  ++ (match cx_circuit c with
      | Some state => [step_line cross_mark "circuit    " (Breaker.as_str state ++ " for " ++ cx_upstream_name c)]
      | None => []
      end)
  ++ (if 0 <? cx_attempts c then [step_line cross_mark "retried    " (show_u64 (cx_attempts c) ++ " time(s)")] else [])
  ++ (match e with Some err => [step_line cross_mark "upstream   " (show_error err)] | None => [] end)
  ++ ["  " ++ [226; 134; 144] ++ " " ++ esc ++ (if status <? 400 then "[32m" else "[31m") ++ show_u64 status ++ esc ++ "[0m  "
      ++ show_u64 latency_ms ++ "ms"].

(** What a request leaves in the log: one entry. *)
Inductive LogEntry :=
| Narrated (lines : list str)
| UpstreamErrorLine (fields : list (str * str))
| AccessLine (fields : list (str * str)).

Definition dash (o : option str) : str := default (str_of "-") o.
Definition log_entry (c : Ctx) (chosen : option Backend) (written : option Z) (latency_ms : Z) (e : option PError) : LogEntry :=
  let status := default (cx_status c) written in
  if gw_dev g then Narrated (narrate c chosen status latency_ms e)
  else match e with
       | Some err =>
           UpstreamErrorLine
             [(str_of "event", str_of "gateway.upstream.error"); (str_of "request_id", cx_request_id c); (str_of "route", cx_route_id c);
              (str_of "upstream", cx_upstream_name c); (str_of "peer", dash (tg_addr <$> cx_target c));
              (str_of "client_ip", dash (cx_client_ip c)); (str_of "path", cx_path c); (str_of "status", show_u64 status);
              (str_of "latency_ms", show_u64 latency_ms); (str_of "retries", show_u64 (cx_attempts c)); (str_of "error", show_error err)]
       | None =>
           AccessLine
             [(str_of "event", str_of "gateway.access"); (str_of "request_id", cx_request_id c); (str_of "route", cx_route_id c);
              (str_of "upstream", cx_upstream_name c); (str_of "path", cx_path c); (str_of "status", show_u64 status);
              (str_of "latency_ms", show_u64 latency_ms); (str_of "retries", show_u64 (cx_attempts c));
              (str_of "client_ip", dash (cx_client_ip c)); (str_of "client", dash (cx_client_key_id c));
              (str_of "credential", dash (cx_credential c));
              (str_of "trace_id", default [] ((fun t => write_hex (trace_id t)) <$> cx_trace c))]
       end.

(** [suppress_error_log] and [suppress_proxy_warn_log]: Pingora logs nothing. *)
Definition suppress_error_log : bool := true.
Definition suppress_proxy_warn_log : bool := true.

(** ** What the log tells of a credential *)

(** Of a token, where it was read: never the token. *)
Lemma presented_token_from rq token from :
  presented_token g rq = Some (token, from) -> from = str_of "header" \/ from = str_of "cookie".
Proof using. unfold presented_token. destruct (letO a := _ in _) as [t|]; [intros [= _ <-]; by left|]. destruct (request_cookie_token _ _); [|done]. intros [= _ <-]. by right. Qed.

Definition credential_known (c : Ctx) : Prop := cx_credential c ∈ [None; Some (str_of "header"); Some (str_of "cookie")].

Lemma verified_keeps_credential rq token :
  keeps cx_credential (check_cookie_origin g rq) /\ keeps cx_credential (verify_token g token) /\
  forall A rej, keeps cx_credential (reject (A:=A) g rej).
Proof using. unfold check_cookie_origin, verify_token. split_and!; [step_keeps..|intros A rej; step_keeps]. Qed.

Lemma authenticate_credential rq route c tr (o : flow Response (option (Identity N))) c' :
  ftraces (authenticate g rq route) c tr o c' -> credential_known c -> credential_known c'.
Proof using.
  intros H Hc. unfold credential_known in *.
  assert (forall A rej c0 t0 (o0 : flow Response A) c1, ftraces (reject g rej) c0 t0 o0 c1 -> cx_credential c1 = cx_credential c0) as Hrej.
  { intros A rej c0 t0 o0 c1 H0. by apply (proj2 (proj2 (verified_keeps_credential rq [])) A rej c0 t0 o0 c1). }
  unfold authenticate in H. destruct (negb _); [by ftrace_inv|].
  destruct (_ <? _)%nat; [by rewrite (Hrej _ _ _ _ _ _ H)|].
  apply ftraces_bind in H as [(r & -> & H)|(t1 & t2 & [] & c1 & -> & H1 & H)].
  { by rewrite (proj1 (verified_keeps_credential rq []) _ _ _ _ H). }
  apply (proj1 (verified_keeps_credential rq [])) in H1. rewrite <-H1 in Hc.
  destruct (presented_token g rq) as [[token from]|] eqn:Ep.
  - assert (Some from ∈ [None; Some (str_of "header"); Some (str_of "cookie")]) as Hf.
    { destruct (presented_token_from _ _ _ Ep) as [->| ->]; right; [by left|right; by left]. }
    apply ftraces_bind in H as [(r & -> & H)|(t3 & t4 & [] & c2 & -> & H2 & H)]; [by ftrace_inv|].
    apply ftraces_update in H2 as (_ & _ & ->). destruct (_ <? _); [by rewrite (Hrej _ _ _ _ _ _ H)|].
    assert (cx_credential c' = cx_credential (c1 <| cx_credential := Some from |>)) as ->; [|exact Hf].
    apply ftraces_bind in H as [(r & -> & H)|(t5 & t6 & id & c3 & -> & H3 & H)].
    + by apply (proj1 (proj2 (verified_keeps_credential rq token))) in H.
    + ftrace_inv. by apply (proj1 (proj2 (verified_keeps_credential rq token))) in H3.
  - destruct (_ ==? _); [by ftrace_inv|by rewrite (Hrej _ _ _ _ _ _ H)].
Qed.
End Narration.
