(* ===== verification/Cli.v ===== *)
(** * The command line (cli.rs)

    Which commands build the extensions of the binary ([run_inner]); [lagos init],
    which writes the starting files; [lagos dev], which supervises a gateway and
    restarts it when its document changes; and what [lagos validate] prints.  What a
    command asks of the file system and of its child process are events, so the
    theorems hold whatever these answer. *)

From S2P Require Export Documents Diff Listing.
From S2P Require Import Str.

(** ** Commands *)

Inductive Command :=
| Config (effective : bool) (path : option str)
| Vars (path : option str)
| Schema (routes : bool)
| Init (path : str) (force docker extensions : bool) (schema : option str)
| Run (path : option str)
| Dev (path : option str)
| Validate (path : option str) (allow_unset : bool)
| Routes (path : option str)
| Test (config cases : option str) (allow_unset : bool)
| Diff (old new : str) (allow_unset : bool)
| Explain (why_not : bool) (listener : Listener) (method path : str) (host config : option str).

(** The call a command line ends in; [validate] is given a registry or names. *)
Inductive Call :=
| serve (path : option str) (extensions : list str)
| call_dev (path : option str) (extensions : list str)
| call_validate (path : option str) (available : list str) (names_only allow_unset : bool)
| call_init (path : str) (force docker extensions : bool) (schema : option str)
| call_schema (routes : bool)
| call_effective (path : option str)
| call_vars (path : option str)
| call_routes (path : option str)
| call_test (config cases : option str) (allow_unset : bool)
| call_diff (old new : str) (allow_unset : bool)
| call_explain (config : option str) (method path : str) (host : option str) (listener : Listener) (why_not : bool).

(** What a command asks of the binary, of the file system and of its child: the
    construction of the extensions, the questions of Runtime.v, [Path::exists],
    [Path::is_dir], [fs::create_dir_all], [fs::write], [current_exe], the spawning
    of [exe run path], a pause of 400 milliseconds, and [Child::try_wait], [kill]
    and [wait]; and the lines it prints. *)
Inductive cliE : Type -> Type :=
| MakeExtensions : cliE (result (list str) str)
| AtRuntime {X} (e : runtimeE X) : cliE X
| Exists (path : str) : cliE bool
| IsDir (path : str) : cliE bool
| CreateDirAll (path : str) : cliE (result () str)
| WriteFile (path contents : str) : cliE (result () str)
| CurrentExe : cliE (result str str)
| Spawn (exe path : str) : cliE (result () str)
| Pause : cliE ()
| TryWait : cliE (result (option str) str)
| Kill : cliE ()
| WaitChild : cliE ()
| Say (lines : list str) : cliE ().

Definition cprog := prog cliE.

(** The rest of a command where a step succeeded. *)
Definition try_then {A B} (m : cprog (result A str)) (k : A -> cprog (result B str)) : cprog (result B str) :=
  letP r := m in match r with Ok a => k a | Err e => Ret (Err e) end.
Definition refuses {B} (m : result () str) (k : cprog (result B str)) : cprog (result B str) :=
  match m with Ok _ => k | Err e => Ret (Err e) end.

Fixpoint at_runtime {A} (m : rprog A) : cprog A :=
  match m with
  | Ret a => Ret a
  | Vis e k => Vis (AtRuntime e) (fun x => at_runtime (k x))
  end.

(** [run_inner]; [names] are those [run_with_extension_names] declares. *)
Definition registry_from (k : list str -> Call) : cprog (result Call str) :=
  try_then (ask MakeExtensions) (fun extensions => Ret (Ok (k extensions))).
Definition run_inner (names : option (list str)) (command : option Command) : cprog (result Call str) :=
  match command with
  | None => registry_from (serve None)
  | Some (Run path) => registry_from (serve path)
  | Some (Dev path) => registry_from (call_dev path)
  | Some (Validate path allow_unset) =>
      match (if allow_unset then names else None) with
      | Some names => Ret (Ok (call_validate path names true allow_unset))
      | None => registry_from (fun extensions => call_validate path extensions false allow_unset)
      end
  | Some (Init path force docker extensions schema) => Ret (Ok (call_init path force docker extensions schema))
  | Some (Schema routes) => Ret (Ok (call_schema routes))
  | Some (Config true path) => Ret (Ok (call_effective path))
  | Some (Config false _) => Ret (Err "config requires --effective")
  | Some (Vars path) => Ret (Ok (call_vars path))
  | Some (Routes path) => Ret (Ok (call_routes path))
  | Some (Test config cases allow_unset) => Ret (Ok (call_test config cases allow_unset))
  | Some (Diff old new allow_unset) => Ret (Ok (call_diff old new allow_unset))
  | Some (Explain why_not listener method path host config) =>
      Ret (Ok (call_explain config method path host listener why_not))
  end.

(** The commands that serve or validate traffic. *)
Definition needs_extensions (names : option (list str)) (command : option Command) : bool :=
  match command with
  | None | Some (Run _) | Some (Dev _) => true
  | Some (Validate _ allow_unset) => negb (allow_unset && match names with Some _ => true | None => false end)
  | _ => false
  end.

(** [bin_name], from the path of the executable where it is known: the part of
    the file's name before its last dot, unless the name starts with it. *)
Definition file_name (p : str) : option str :=
  match skip_ignorable (reverse (split_on b_slash p)) with
  | seg :: _ => if seg ==? ".." then None else Some seg
  | [] => None
  end.
Definition file_stem (p : str) : option str :=
  letO name := file_name p in
  match reverse (split_on b_dot name) with
  | _ :: before => Some (let stem := join [b_dot] (reverse before) in if stem ==? [] then name else stem)
  | [] => None
  end.
Definition bin_name (exe : option str) : str := default (str_of "lagos") (letO exe := exe in file_stem exe).

Example bin_names :
  map (fun p => bin_name (Some (str_of p))) ["/usr/local/bin/lagos"; "bin/gateway.exe"; "a.b.c"; ".hidden"; "/opt/gw/"; ".."; "/"]%string
  = map str_of ["lagos"; "gateway"; "a.b"; ".hidden"; "gw"; "lagos"; "lagos"]%string /\ bin_name None = str_of "lagos".
Proof. split; vm_compute; reflexivity. Qed.

(** ** [lagos init] *)

Definition DEFAULT_CONFIG : str := "gateway.yml".

(** [str::replace] of a string that is not empty; [skip] bytes are already
    replaced. *)
Fixpoint replace_from (from to : str) (skip : nat) (s : str) : str :=
  match s with
  | [] => []
  | b :: rest =>
      match skip with
      | S skip => replace_from from to skip rest
      | O => if starts_with from s then to ++ replace_from from to (length from - 1) rest
             else b :: replace_from from to 0 rest
      end
  end.
Definition replace_str (from to s : str) : str := replace_from from to 0 s.

(** The files of [templates/] that are compiled in. *)
Record Templates := {
  STARTER : str;
  DOCKER_STARTER : str;
  DOCKERFILE_TEMPLATE : str;
  EXTENSION_STARTER : str;
  EXTENSION_DOCKERFILE_TEMPLATE : str;
  EXTENSION_MANIFEST : str;
  EXTENSION_SOURCE : str;
}.

Definition no_schema_reference : str := "--schema needs a nonempty single-line path or URL".

Section Init.
(** The templates, [CARGO_PKG_VERSION] and [LAGOS_SCHEMA_RELEASE] of the build. *)
Context (templates : Templates) (version : str) (release : option str).

Definition editor_schema_reference (given : option str) : result (option str) str :=
  match given with
  | Some reference =>
      if (trim reference ==? []) || existsb is_control (chars reference) then Err no_schema_reference
      else Ok (Some (trim reference))
  | None =>
      Ok (letO v := release in
          if v ==? version
          then Some ("https://raw.githubusercontent.com/lagos-sh/lagos/v" ++ v ++ "/schemas/gateway.schema.json")
          else None)
  end.

Definition gateway_text (docker extensions : bool) (reference : option str) : str :=
  let starter := if extensions then EXTENSION_STARTER templates
                 else if docker then DOCKER_STARTER templates else STARTER templates in
  match reference with
  | Some reference => "# yaml-language-server: $schema=" ++ reference ++ [10] ++ starter
  | None => starter
  end.

(** The files, in the order they are written. *)
Definition init_files (path : str) (docker extensions : bool) (gateway : str) : list (str * str) :=
  let versioned := replace_str "{{LAGOS_VERSION}}" version in
  if extensions then
    [(path, gateway); (str_of "Dockerfile", versioned (EXTENSION_DOCKERFILE_TEMPLATE templates));
     (str_of "ext/Cargo.toml", EXTENSION_MANIFEST templates); (str_of "ext/src/lib.rs", EXTENSION_SOURCE templates)]
  else if docker then [(path, gateway); (str_of "Dockerfile", versioned (DOCKERFILE_TEMPLATE templates))]
  else [(path, gateway)].

Fixpoint check_destinations (force : bool) (destinations : list str) : cprog (result () str) :=
  match destinations with
  | [] => Ret (Ok tt)
  | destination :: rest =>
      letP present := ask (Exists destination) in
      if present && negb force then Ret (Err (destination ++ " already exists. Pass --force to overwrite it.")) else
      letP dir := ask (IsDir destination) in
      if (dir : bool) then Ret (Err (destination ++ " is a directory, not a file.")) else
      check_destinations force rest
  end.

(** [Path::new("ext").exists() && !Path::new("ext").is_dir()]. *)
Definition check_ext (extensions : bool) : cprog (result () str) :=
  if negb extensions then Ret (Ok tt) else
  letP present := ask (Exists "ext") in
  if negb present then Ret (Ok tt) else
  letP dir := ask (IsDir "ext") in
  Ret (refuse_if (negb dir) (str_of "ext exists and is not a directory")).

Fixpoint write_files (files : list (str * str)) : cprog (result () str) :=
  match files with
  | [] => Ret (Ok tt)
  | (destination, contents) :: rest =>
      try_then (ask (WriteFile destination contents)) (fun _ => write_files rest)
  end.

Definition init_notes (bin path : str) (docker extensions : bool) : list str :=
  if docker then
    [str_of (if extensions then "Created gateway.yml, Dockerfile, and ext/" else "Created gateway.yml and Dockerfile");
     str_of "  docker build -t my-gateway .";
     str_of "  docker run --rm -p 8080:8080 --add-host=host.docker.internal:host-gateway my-gateway"]
  else
    ["Created " ++ path; "  " ++ bin ++ " validate " ++ path ++ "   check it";
     "  " ++ bin ++ " routes   " ++ path ++ "   see the route table";
     "  " ++ bin ++ " run      " ++ path ++ "   serve traffic";
     "For a two-file Docker deployment: " ++ bin ++ " init --docker"].

Definition init (bin path : str) (force docker extensions : bool) (schema : option str) : cprog (result () str) :=
  refuses (refuse_if (docker && negb (path ==? DEFAULT_CONFIG))
             (str_of "--docker writes gateway.yml and a Dockerfile beside it; omit PATH or use gateway.yml")) (
  match editor_schema_reference schema with
  | Err e => Ret (Err e)
  | Ok reference =>
      let files := init_files path docker extensions (gateway_text docker extensions reference) in
      try_then (check_destinations force (map fst files)) (fun _ =>
      try_then (check_ext extensions) (fun _ =>
      try_then (if extensions then ask (CreateDirAll "ext/src") else Ret (Ok tt)) (fun _ =>
      try_then (write_files files) (fun _ =>
      letP _ := ask (Say (init_notes bin path docker extensions)) in
      Ret (Ok tt)))))
  end).
End Init.

(** ** [lagos dev] *)

Section Dev.
Context (config_from_yaml : str -> result GatewayConfig (option (Z * Z) * str)).
Context (groups_from_yaml : str -> result RouteGroups (option (Z * Z) * str)) (env : str -> option str).
Context {N : Type} `{HN : JsonNumber N} `{HC : Crates N}.
Context (parse_uri : str -> result Uri str) (header_name_ok : str -> bool) (show_f64 : f64 -> str).
Context (shared_limits : bool) (known : list str).

Definition load (path : str) : rprog (result (ResolvedConfig N * RouteTable) str) :=
  load_with_fallback config_from_yaml groups_from_yaml env parse_uri header_name_ok show_f64 shared_limits known path None.

Definition dev_route_line (r : RouteConfig) : str :=
  let methods := if is_nil (r_methods r) then str_of "ANY" else join "," (r_methods r) in
  "  " ++ pad 7 methods ++ " " ++ pad 14 (group (r_auth r)) ++ " /" ++ r_prefix r ++ Diff.arrow ++ r_upstream r.

Definition dev_banner (path : str) (cfg : ResolvedConfig N) (table : RouteTable) : list str :=
  let server := gc_server (raw cfg) in
  ["  listening   http://" ++ srv_listen server]
  ++ (match srv_internal_listen server with Some internal => ["  internal    http://" ++ internal] | None => [] end)
  ++ ["  health      " ++ srv_health_path server; "  config      " ++ path]
  ++ (match rc_file (gc_routes (raw cfg)) with Some f => ["  routes      " ++ f ++ "  (hot-reloads, no restart)"] | None => [] end)
  ++ map dev_route_line (table_routes table)
  ++ [str_of "Watching for changes. Ctrl-C to stop."].

(** A turn of the two loops: [child] is whether one was spawned, which is where
    the outer loop enters the inner one, and [last] the modification time last
    seen. *)
Definition dev_turn (exe path : str) (child : bool) (last : option Z) : cprog (flow str (bool * option Z)) :=
  if negb child then
    letP spawned := ask (Spawn exe path) in
    Ret (match spawned with Err e => Stop e | Ok _ => Go (true, last) end)
  else
    letP _ := ask Pause in
    letP status := ask TryWait in
    match status with
    | Err e => Ret (Stop e)
    | Ok (Some status) => Ret (Stop ("gateway exited (" ++ status ++ ")"))
    | Ok None =>
        letP current := ask (AtRuntime (Mtime path)) in
        if current ==? last then Ret (Go (true, last)) else
        letP _ := ask (Say [str_of "configuration changed"]) in
        letP loaded := at_runtime (load path) in
        match loaded with
        | Ok ct =>
            let n := length (table_routes ct.2) in
            letP _ := ask (Say [show_u64 (Z.of_nat n) ++ (if Nat.eqb n 1 then " route" else " routes")]) in
            letP _ := ask Kill in
            letP _ := ask WaitChild in
            Ret (Go (false, current))
        | Err e =>
            letP _ := ask (Say [e; str_of "keeping the running configuration"]) in
            Ret (Go (true, current))
        end
    end.

(** So many turns; [None]: still watching. *)
Fixpoint watch (turns : nat) (exe path : str) (child : bool) (last : option Z) : cprog (option str) :=
  match turns with
  | O => Ret None
  | S turns =>
      letP turned := dev_turn exe path child last in
      match turned with
      | Stop e => Ret (Some e)
      | Go (child, last) => watch turns exe path child last
      end
  end.

(** [dev], for so many turns of its loops. *)
Definition dev (turns : nat) (is_file : str -> bool) (bin : str) (path : option str) (registry : list str)
  : cprog (result () str) :=
  try_then (ask CurrentExe) (fun exe =>
  try_then (Ret (resolve_config_path env is_file bin path)) (fun path =>
  try_then (at_runtime (load path)) (fun ct =>
  let missing := Ext.missing registry (Ext.extension_names ct.2) in
  refuses (refuse_if (negb (is_nil missing))
             ("routes reference extensions that are not registered: " ++ join ", " missing)) (
  letP _ := ask (Say (dev_banner path ct.1 ct.2)) in
  letP last := ask (AtRuntime (Mtime path)) in
  letP ended := watch turns exe path false last in
  Ret (match ended with Some e => Err e | None => Ok tt end))))).
End Dev.

(** ** Traces of commands *)

(** What a program of Runtime.v did, as a command did it. *)
Definition at_runtime_event (ev : event runtimeE) : event cliE := Event (AtRuntime (ev_ask ev)) (ev_answer ev).

Lemma at_runtime_traces {A} (m : rprog A) tr a :
  traces (at_runtime m) tr a <-> exists t, tr = map at_runtime_event t /\ traces m t a.
Proof.
  revert tr. induction m as [b|X e k IH]; intros tr; cbn [at_runtime traces].
  - split; [intros [-> ->]; by exists []|]. intros (t & -> & -> & ->). done.
  - split.
    + intros (x & tr' & -> & (t & -> & Ht)%IH). exists (Event e x :: t). split; [done|]. by exists x, t.
    + intros (t & -> & x & t' & -> & Ht). exists x, (map at_runtime_event t'). split; [done|]. apply IH. by exists t'.
Qed.

Lemma try_then_traces {A B} (m : cprog (result A str)) (k : A -> cprog (result B str)) tr o :
  traces (try_then m k) tr o ->
  (exists e, traces m tr (Err e) /\ o = Err e) \/
  (exists t1 t2 a, tr = t1 ++ t2 /\ traces m t1 (Ok a) /\ traces (k a) t2 o).
Proof.
  unfold try_then. rewrite traces_bind. intros (t1 & t2 & [a|e] & -> & H1 & H2).
  - right. by exists t1, t2, a.
  - destruct H2 as [-> ->]. left. exists e. by rewrite app_nil_r.
Qed.

Lemma cask_traces {X A} (e : cliE X) (k : X -> cprog A) tr a :
  traces (pbind (ask e) k) tr a <-> exists x tr', tr = Event e x :: tr' /\ traces (k x) tr' a.
Proof. done. Qed.

Lemma refuses_traces {B} (m : result () str) (k : cprog (result B str)) tr o :
  traces (refuses m k) tr o -> (exists e, m = Err e /\ tr = [] /\ o = Err e) \/ (m = Ok tt /\ traces k tr o).
Proof. destruct m as [[]|e]; cbn; [by right|]. intros [-> ->]. left. by exists e. Qed.

(** Take the traces of a command apart, question by question. *)
Ltac ctrace_step :=
  match goal with
  | H : traces (pbind (ask ?e) ?k) ?tr ?a |- _ => apply (proj1 (cask_traces e k tr a)) in H as (? & ? & ? & ?)
  | H : traces (try_then _ _) _ _ |- _ => apply try_then_traces in H as [(? & ? & ?)|(? & ? & ? & ? & ? & ?)]
  | H : traces (refuses _ _) _ _ |- _ => apply refuses_traces in H as [(? & ? & ? & ?)|(? & ?)]
  | H : traces (ask _) _ _ |- _ => apply traces_ask in H
  | H : traces (Ret _) _ _ |- _ => destruct H as [? ?]
  end; simplify_eq.
Ltac ctrace_inv := repeat ctrace_step.

(** The extensions of the binary are built for the commands that serve or
    validate traffic, once and before anything else is done, and their error ends
    the command; for no other command are they built. *)
Lemma extensions_are_built_when_needed names command tr o : traces (run_inner names command) tr o ->
  if needs_extensions names command
  then exists built, tr = [Event MakeExtensions built] /\ forall e, built = Err e -> o = Err e
  else tr = [].
Proof.
  assert (forall k tr o, traces (registry_from k) tr o ->
    exists built, tr = [Event MakeExtensions built] /\ forall e, built = Err e -> o = Err e) as Hreg.
  { clear. intros k tr o H. unfold registry_from in H. ctrace_inv.
    - eexists (Err _). split; [done|]. by intros ? [= ->].
    - eexists (Ok _). by split. }
  destruct command as [[[] ?|?|?|?|?|?|? au|?|?|?|?]|]; cbn [run_inner needs_extensions]; intros H; try done; try by apply Hreg in H.
  all: try by destruct H.
  destruct au, names as [names|]; cbn; try by apply Hreg in H. by destruct H.
Qed.

(** ** What [init] touches *)

(** The path an event changes. *)
Definition touches (ev : event cliE) : option str :=
  match ev_ask ev with WriteFile p _ => Some p | CreateDirAll p => Some p | _ => None end.
Definition written (ev : event cliE) : option (str * str) :=
  match ev_ask ev with WriteFile p contents => Some (p, contents) | _ => None end.
Abbreviation looks := (fun ev => touches ev = None).

(** What must have been found of a destination before anything is written. *)
Definition cleared (force : bool) (tr : list (event cliE)) (destination : str) : Prop :=
  (force = true \/ Event (Exists destination) false ∈ tr) /\ Event (IsDir destination) false ∈ tr.

Lemma cleared_mono force tr tr' d : tr ⊆ tr' -> cleared force tr d -> cleared force tr' d.
Proof. intros H [[?|?] ?]; (split; [|by apply H]); [by left|right; by apply H]. Qed.

Lemma check_destinations_looks force ds tr o : traces (check_destinations force ds) tr o -> Forall looks tr.
Proof.
  revert tr. induction ds as [|d ds IH]; intros tr H; cbn [check_destinations] in H; [ctrace_inv; constructor|].
  ctrace_step. case_match; ctrace_inv; [by repeat constructor|]. case_match; ctrace_inv; repeat (constructor; [done|]); [constructor|by apply IH].
Qed.

Lemma check_destinations_clear force ds tr : traces (check_destinations force ds) tr (Ok tt) -> Forall (cleared force tr) ds.
Proof.
  revert tr. induction ds as [|d ds IH]; intros tr H; cbn [check_destinations] in H; [constructor|].
  ctrace_step. destruct (x && negb force) eqn:Ex; ctrace_inv. case_match; ctrace_inv. subst.
  match goal with H : traces (check_destinations _ _) _ _ |- _ => apply IH in H end. constructor.
  - split; [|by right; left]. destruct x; [|by right; left]. left. by destruct force.
  - eapply List.Forall_impl; [|done]. intros d' Hd'. eapply cleared_mono; [|exact Hd']. set_solver.
Qed.

Lemma check_ext_looks extensions tr o : traces (check_ext extensions) tr o -> Forall looks tr.
Proof. unfold check_ext. intros H. repeat (case_match; ctrace_inv); repeat constructor. Qed.

Lemma write_files_traces files tr o : traces (write_files files) tr o ->
  (forall ev p, ev ∈ tr -> touches ev = Some p -> p ∈ map fst files) /\ (o = Ok tt -> omap written tr = files).
Proof.
  revert tr. induction files as [|[d contents] files IH]; intros tr H; cbn [write_files] in H.
  { ctrace_inv. split; [|done]. by intros ev p ?%elem_of_nil. }
  ctrace_inv.
  - split; [|done]. intros ev p ->%list_elem_of_singleton [= ->]. by left.
  - match goal with H : traces (write_files _) _ _ |- _ => apply IH in H as [H1 H2] end. split.
    + intros ev p [->|Hin]%elem_of_cons; [intros [= ->]; by left|]. intros Hp. right. by eapply H1.
    + intros Ho. cbn. by rewrite H2.
Qed.

Lemma looks_first (tc tw t1 : list (event cliE)) ev t2 p :
  Forall looks tc -> tc ++ tw = t1 ++ ev :: t2 -> touches ev = Some p -> tc ⊆ t1 /\ ev ∈ tw.
Proof.
  intros Hq Heq Hp. apply app_eq_inv in Heq as [(k & -> & Hk)|(k & -> & ->)].
  - destruct k as [|e k]; cbn in Hk.
    + rewrite app_nil_r. split; [done|]. rewrite <-Hk. by left.
    + injection Hk as <- _. apply Forall_app in Hq as [_ Hq]. apply Forall_inv in Hq. congruence.
  - split; [set_solver|]. apply elem_of_app. right. by left.
Qed.

Lemma looks_elem tr ev : Forall looks tr -> ev ∈ tr -> touches ev = None.
Proof. rewrite List.Forall_forall. intros H Hin. by apply H, list_elem_of_In. Qed.

Lemma omap_looks tr : Forall looks tr -> omap written tr = [].
Proof.
  induction 1 as [|ev tr Hev _ IH]; [done|]. cbn. rewrite IH. unfold touches in Hev. unfold written.
  destruct (ev_ask ev); done.
Qed.

(** What [init] does once it has checked the files. *)
Lemma init_rest (extensions : bool) files notes t o :
  traces (try_then (check_ext extensions) (fun _ =>
          try_then (if extensions then ask (CreateDirAll "ext/src") else Ret (Ok tt)) (fun _ =>
          try_then (write_files files) (fun _ => letP _ := ask (Say notes) in Ret (Ok tt))))) t o ->
  (forall ev p, ev ∈ t -> touches ev = Some p -> p ∈ map fst files \/ extensions = true /\ p = str_of "ext/src") /\
  (o = Ok tt -> omap written t = files).
Proof.
  intros [(e & H%check_ext_looks & ->)|(te & t' & [] & -> & He%check_ext_looks & H)]%try_then_traces.
  { split; [|done]. intros ev p Hin Hp. eapply looks_elem in Hin; [|done]. congruence. }
  rewrite omap_app, omap_looks by done. setoid_rewrite elem_of_app. cbn [app].
  assert ((forall ev p, ev ∈ t' -> touches ev = Some p -> p ∈ map fst files \/ extensions = true /\ p = str_of "ext/src") /\
          (o = Ok tt -> omap written t' = files)) as [H1 H2].
  2:{ split; [|done]. intros ev p [Hin|Hin] Hp; [|by eapply H1]. eapply looks_elem in Hin; [|done]. congruence. }
  apply try_then_traces in H as [(e & H & ->)|(td & tw & [] & -> & Hd & H)].
  { split; [|done]. destruct extensions; ctrace_inv. intros ev p ->%list_elem_of_singleton [= <-]. by right. }
  assert (omap written td = []) as Hdw by (clear H; destruct extensions; by ctrace_inv).
  assert (forall ev p, ev ∈ td -> touches ev = Some p -> extensions = true /\ p = str_of "ext/src") as Hdt.
  { clear H. destruct extensions; ctrace_inv; [by intros ev p ->%list_elem_of_singleton [= <-]|by intros ev p ?%elem_of_nil]. }
  rewrite omap_app, Hdw. setoid_rewrite elem_of_app. cbn [app].
  apply try_then_traces in H as [(e & [Hw _]%write_files_traces & ->)|(tf & ts & [] & -> & [Hw Hf]%write_files_traces & H)].
  - split; [|done]. intros ev p [Hin|Hin] Hp; [right; by eapply Hdt|left; by eapply Hw].
  - ctrace_inv. rewrite omap_app, Hf by done. split; [|by rewrite app_nil_r].
    intros ev p [Hin|[Hin| ->%list_elem_of_singleton]%elem_of_app] Hp; [right; by eapply Hdt|left; by eapply Hw|done].
Qed.

Section Inited.
Context (templates : Templates) (version : str) (release : option str).

(** Without [--force] nothing that exists is touched: whatever [init] writes or
    creates, it found before that every file it writes is absent, or was told to
    overwrite it, and that none is a directory; and it touches those files only,
    and the directory of the extension.  Where it succeeds it has written all of
    them, each once. *)
Lemma init_overwrites_nothing_unasked bin path force docker extensions schema tr o
  (Hrun : traces (init templates version release bin path force docker extensions schema) tr o) :
  exists files, (forall reference, editor_schema_reference version release schema = Ok reference ->
                   files = init_files templates version path docker extensions (gateway_text templates docker extensions reference)) /\
    (forall t1 ev t2 p, tr = t1 ++ ev :: t2 -> touches ev = Some p ->
       (p ∈ map fst files \/ extensions = true /\ p = str_of "ext/src") /\ Forall (cleared force t1) (map fst files)) /\
    (o = Ok tt -> omap written tr = files).
Proof using.
  unfold init in Hrun. apply refuses_traces in Hrun as [(e & _ & -> & ->)|[_ Hrun]].
  { exists (match editor_schema_reference version release schema with
            | Ok r => init_files templates version path docker extensions (gateway_text templates docker extensions r)
            | Err _ => [] end). split; [by intros r ->|]. split; [|done]. by intros [] ? ? ?. }
  destruct (editor_schema_reference version release schema) as [reference|e].
  2:{ destruct Hrun as [-> ->]. exists []. split; [done|]. split; [|done]. by intros [] ? ? ?. }
  set (files := init_files _ _ _ _ _ _) in *. exists files. split; [by intros ? [= <-]|].
  apply try_then_traces in Hrun as [(e & H%check_destinations_looks & ->)|(tc & t & [] & -> & Hc & Hrun)].
  { split; [|done]. intros t1 ev t2 p -> Hp. apply Forall_app in H as [_ H]. apply Forall_inv in H. congruence. }
  pose proof (check_destinations_looks _ _ _ _ Hc) as Hq. apply check_destinations_clear in Hc.
  assert (forall t1 : list (event cliE), tc ⊆ t1 -> Forall (cleared force t1) (map fst files)) as Hclear.
  { intros t1 H. eapply List.Forall_impl; [|exact Hc]. intros d. by apply cleared_mono. }
  apply init_rest in Hrun as [Ht Hok]. split.
  - intros t1 ev t2 p Heq Hp. destruct (looks_first _ _ _ _ _ _ Hq Heq Hp) as [H1 H2]. split; [by eapply Ht|by apply Hclear].
  - intros Ho. by rewrite omap_app, Hok, omap_looks by done.
Qed.

(** The reference written for editors is one line, and not empty; the rest of the
    document is the starter. *)
Lemma schema_reference_is_one_line given r (Hutf : Utf8 given)
  (Hr : editor_schema_reference version release (Some given) = Ok (Some r)) : r <> [] /\ 10 ∉ r.
Proof using.
  unfold editor_schema_reference in Hr. destruct (trim given ==? []) eqn:Et; [done|]. cbn [orb] in Hr.
  destruct (existsb is_control (chars given)) eqn:Ec; [done|]. injection Hr as <-. apply bool_decide_eq_false in Et.
  split; [done|]. intros H%elem_of_trim. revert H. apply safe_no_newline; [done|]. unfold is_structurally_safe. by rewrite Ec.
Qed.
End Inited.

(** ** What [dev] does to its child *)

(** The children alive after these events, as far as [dev] counts them. *)
Definition alive (ev : event cliE) : Z :=
  match ev with
  | Event (Spawn _ _) (Ok _) => 1
  | Event WaitChild _ => -1
  | _ => 0
  end.
Definition children (tr : list (event cliE)) : Z := foldr (fun ev n => alive ev + n) 0 tr.

Lemma children_app t1 t2 : children (t1 ++ t2) = children t1 + children t2.
Proof. unfold children. induction t1 as [|ev t1 IH]; [done|]. cbn. rewrite IH. lia. Qed.

Lemma children_quiet tr : Forall (fun ev => alive ev = 0) tr -> children tr = 0.
Proof. unfold children. induction 1 as [|ev tr H _ IH]; [done|]. cbn. lia. Qed.

Lemma alive_at_runtime tl : Forall (fun ev => alive ev = 0) (map at_runtime_event tl).
Proof. induction tl; by constructor. Qed.

Section Turns.
Context (config_from_yaml : str -> result GatewayConfig (option (Z * Z) * str)).
Context (groups_from_yaml : str -> result RouteGroups (option (Z * Z) * str)) (env : str -> option str).
Context {N : Type} `{HN : JsonNumber N} `{HC : Crates N}.
Context (parse_uri : str -> result Uri str) (header_name_ok : str -> bool) (show_f64 : f64 -> str).
Context (shared_limits : bool) (known : list str).
Abbreviation load := (load config_from_yaml groups_from_yaml env parse_uri header_name_ok show_f64 shared_limits known).
Abbreviation dev_turn := (dev_turn config_from_yaml groups_from_yaml env parse_uri header_name_ok show_f64 shared_limits known).
Abbreviation watch := (watch config_from_yaml groups_from_yaml env parse_uri header_name_ok show_f64 shared_limits known).
Abbreviation dev := (dev config_from_yaml groups_from_yaml env parse_uri header_name_ok show_f64 shared_limits known).

(** The machine: a turn from whether there is a child and the modification time
    last seen, with its events, to an end or to where the next turn starts. *)
Inductive dev_step (exe path : str) : bool -> option Z -> list (event cliE) -> flow str (bool * option Z) -> Prop :=
| turn_spawns last : dev_step exe path false last [Event (Spawn exe path) (Ok tt)] (Go (true, last))
| turn_spawn_fails last e : dev_step exe path false last [Event (Spawn exe path) (Err e)] (Stop e)
| turn_ended last status e : status <> Ok None ->
    dev_step exe path true last [Event Pause tt; Event TryWait status] (Stop e)
| turn_unchanged last :
    dev_step exe path true last [Event Pause tt; Event TryWait (Ok None); Event (AtRuntime (Mtime path)) last] (Go (true, last))
| turn_refused last current said tl e lines : current <> last -> traces (load path) tl (Err e) ->
    dev_step exe path true last
      ([Event Pause tt; Event TryWait (Ok None); Event (AtRuntime (Mtime path)) current; Event (Say said) tt]
       ++ map at_runtime_event tl ++ [Event (Say lines) tt]) (Go (true, current))
| turn_replaced last current said tl ct lines : current <> last -> traces (load path) tl (Ok ct) ->
    dev_step exe path true last
      ([Event Pause tt; Event TryWait (Ok None); Event (AtRuntime (Mtime path)) current; Event (Say said) tt]
       ++ map at_runtime_event tl ++ [Event (Say lines) tt; Event Kill tt; Event WaitChild tt]) (Go (false, current)).

Lemma dev_turn_traces exe path child last tr r : traces (dev_turn exe path child last) tr r -> dev_step exe path child last tr r.
Proof using.
  unfold Cli.dev_turn. destruct child; cbn [negb]; intros H.
  2:{ ctrace_step. destruct x as [[]|e]; ctrace_inv; constructor. }
  do 2 ctrace_step. destruct x as [], x1 as [[status|]|e]; [by ctrace_inv; constructor| |by ctrace_inv; constructor].
  ctrace_step. case_bool_decide as Hx; [subst; ctrace_inv; constructor|]. ctrace_step. destruct x1.
  match goal with H : traces (pbind _ _) _ _ |- _ => apply traces_bind in H as (t1 & t2 & loaded & -> & Hl & H2) end.
  apply at_runtime_traces in Hl as (tl & -> & Hl). destruct loaded as [ct|e]; ctrace_inv.
  - repeat match goal with u : () |- _ => destruct u end. by eapply turn_replaced.
  - repeat match goal with u : () |- _ => destruct u end. by eapply turn_refused.
Qed.

(** A turn keeps the count of children, and kills only for a document that was
    loaded since. *)
Definition counted (n0 : Z) (tr : list (event cliE)) : Prop := forall t1 t2, tr = t1 ++ t2 -> 0 <= n0 + children t1 <= 1.
Definition kills_after_load (path : str) (tr : list (event cliE)) : Prop :=
  forall t1 t2, tr = t1 ++ Event Kill tt :: t2 ->
    exists t0 tl ct lines, t1 = t0 ++ map at_runtime_event tl ++ [Event (Say lines) tt] /\ traces (load path) tl (Ok ct).

Lemma prefix_in_two {A} (a b p q : list A) : a ++ b = p ++ q -> p `prefix_of` a \/ exists k, p = a ++ k /\ b = k ++ q.
Proof using. intros [(k & -> & ->)|(k & -> & ->)]%app_eq_inv; [left; by apply prefix_app_r|right; by exists k]. Qed.

Lemma counted_app n0 a b : counted n0 a -> counted (n0 + children a) b -> counted n0 (a ++ b).
Proof using.
  intros Ha Hb t1 t2 [[k ->]|(k & -> & ->)]%prefix_in_two; [by eapply Ha|]. rewrite children_app, Z.add_assoc. by eapply Hb.
Qed.

Lemma counted_quiet n0 tr : 0 <= n0 <= 1 -> Forall (fun ev => alive ev = 0) tr -> counted n0 tr.
Proof using. intros Hn H t1 t2 ->. apply Forall_app in H as [H _]. rewrite (children_quiet t1) by done. lia. Qed.

Lemma turn_counted exe path child last tr r : dev_step exe path child last tr r ->
  counted (Z.b2z child) tr /\ match r with Go (child', _) => Z.b2z child + children tr = Z.b2z child' | Stop _ => True end.
Proof using.
  assert (forall n tl l, 0 <= n <= 1 -> counted n (map at_runtime_event tl ++ [Event (Say l) tt]) /\ children (map at_runtime_event tl ++ [Event (Say l) tt]) = 0) as Hl.
  { intros n tl l Hn. pose proof (alive_at_runtime tl). split; [apply counted_quiet|apply children_quiet]; try done.
    all: apply Forall_app; split; [done|]; by repeat constructor. }
  assert (forall n a b c d tl, 0 <= n <= 1 -> alive a = 0 -> alive b = 0 -> alive c = 0 -> alive d = 0 ->
            Forall (fun ev => alive ev = 0) ([a; b; c; d] ++ map at_runtime_event tl)) as Hq.
  { intros. apply Forall_app. split; [by repeat constructor|apply alive_at_runtime]. }
  destruct 1; cbn [Z.b2z].
  - split; [|done]. intros [|? [|]] t2 [= ]; simplify_eq; unfold children; cbn; lia.
  - split; [|done]. apply counted_quiet; [lia|by repeat constructor].
  - split; [|done]. apply counted_quiet; [lia|by repeat constructor].
  - split; [|done]. apply counted_quiet; [lia|by repeat constructor].
  - rewrite app_assoc. split.
    + apply counted_quiet; [lia|]. apply Forall_app. split; [by apply (Hq 1); [lia|..]|by repeat constructor].
    + rewrite children_quiet; [done|]. apply Forall_app. split; [by apply (Hq 1); [lia|..]|by repeat constructor].
  - rewrite app_assoc.
    assert (children ([Event Pause tt; Event TryWait (Ok None); Event (AtRuntime (Mtime path)) current; Event (Say said) tt]
                      ++ map at_runtime_event tl) = 0) as E by (by apply children_quiet, (Hq 1); [lia|..]).
    split; [|by rewrite children_app, E]. apply counted_app; [by apply counted_quiet, (Hq 1); [lia|lia|..]|]. rewrite E.
    intros [|? [|? [|? [|]]]] t2 [= ]; simplify_eq; unfold children; cbn; lia.
Qed.

Definition kill_of (ev : event cliE) : bool := match ev_ask ev with Kill => true | _ => false end.
Abbreviation spares := (fun ev => kill_of ev = false).

Lemma spares_at_runtime tl : Forall spares (map at_runtime_event tl).
Proof using. induction tl; by constructor. Qed.

Lemma kills_spared path tr : Forall spares tr -> kills_after_load path tr.
Proof using. intros H t1 t2 ->. apply Forall_app in H as [_ H]. by apply Forall_inv in H. Qed.

Lemma spares_pivot (p q t1 t2 : list (event cliE)) : Forall spares p -> Forall spares q ->
  p ++ Event Kill tt :: q = t1 ++ Event Kill tt :: t2 -> t1 = p.
Proof using.
  intros Hp Hq [(k & -> & Hk)|(k & -> & Hk)]%app_eq_inv; destruct k as [|ev k]; rewrite ?app_nil_r; try done.
  - injection Hk as <- _. apply Forall_app in Hp as [_ Hp]. by apply Forall_inv in Hp.
  - injection Hk as <- ->. apply Forall_app in Hq as [_ Hq]. by apply Forall_inv in Hq.
Qed.

Lemma kills_app path a b : kills_after_load path a -> kills_after_load path b -> kills_after_load path (a ++ b).
Proof using.
  assert (forall t1 t2, b = t1 ++ Event Kill tt :: t2 -> kills_after_load path b ->
    exists t0 tl ct lines, a ++ t1 = t0 ++ map at_runtime_event tl ++ [Event (Say lines) tt] /\ traces (load path) tl (Ok ct)) as Hin.
  { intros t1 t2 Heq (t0 & tl & ct & lines & -> & Hl)%(fun H => H t1 t2 Heq). exists (a ++ t0), tl, ct, lines. by rewrite <-!app_assoc. }
  intros Ha Hb t1 t2 [(k & -> & Hk)|(k & -> & Hk)]%app_eq_inv; [|by eapply Hin].
  destruct k as [|ev k]; cbn in Hk.
  - rewrite app_nil_r in *. specialize (Hin [] t2 (eq_sym Hk) Hb). by rewrite app_nil_r in Hin.
  - injection Hk as <- ->. by eapply Ha.
Qed.

Lemma turn_kills exe path child last tr r : dev_step exe path child last tr r -> kills_after_load path tr.
Proof using.
  destruct 1; [by apply kills_spared; repeat constructor..| |].
  - apply kills_spared. rewrite !Forall_app. split; [by repeat constructor|]. split; [apply spares_at_runtime|by repeat constructor].
  - intros t1 t2 Heq. set (first := [Event Pause tt; _; _; _]) in *.
    assert ((first ++ map at_runtime_event tl ++ [Event (Say lines) tt]) ++ Event Kill tt :: [Event WaitChild tt]
            = t1 ++ Event Kill tt :: t2) as Heq' by (rewrite <-Heq, <-!app_assoc; done).
    apply spares_pivot in Heq'; [exists first, tl, ct, lines; by rewrite Heq'| |by repeat constructor].
    unfold first. rewrite !Forall_app. split; [by repeat constructor|]. split; [apply spares_at_runtime|by repeat constructor].
Qed.

Lemma watch_holds exe path n child last tr o : traces (watch n exe path child last) tr o ->
  counted (Z.b2z child) tr /\ kills_after_load path tr.
Proof using.
  revert child last tr. induction n as [|n IH]; intros child last tr; cbn [Cli.watch].
  { intros [-> _]. split; [apply counted_quiet; [by destruct child|constructor]|by apply kills_spared]. }
  intros (t1 & t2 & r & -> & Ht%dev_turn_traces & Hw)%traces_bind.
  pose proof (turn_kills _ _ _ _ _ _ Ht) as Hk. apply turn_counted in Ht as [Hc Hn]. destruct r as [e|[child' last']].
  { destruct Hw as [-> _]. rewrite app_nil_r. done. }
  apply IH in Hw as [Hc' Hk']. split; [|by apply kills_app]. apply counted_app; [done|]. by rewrite Hn.
Qed.

(** What [dev] did before it watches: it is over, with no child, or the document
    loaded and its extensions are registered. *)
Lemma dev_traces turns is_file bin given registry path tr o :
  resolve_config_path env is_file bin given = Ok path -> traces (dev turns is_file bin given registry) tr o ->
  Forall (fun ev => alive ev = 0 /\ kill_of ev = false) tr \/
  exists exe tl ct said last tw ended,
    tr = (Event CurrentExe (Ok exe) :: map at_runtime_event tl ++ [Event (Say said) tt; Event (AtRuntime (Mtime path)) last]) ++ tw /\
    traces (load path) tl (Ok ct) /\ Ext.missing registry (Ext.extension_names ct.2) = [] /\
    traces (watch turns exe path false last) tw ended.
Proof using.
  assert (forall tl, Forall (fun ev => alive ev = 0 /\ kill_of ev = false) (map at_runtime_event tl)) as Hrt
    by (intros tl; induction tl; by constructor).
  intros Hp Hrun. unfold Cli.dev in Hrun. rewrite Hp in Hrun.
  apply try_then_traces in Hrun as [(e & H & ->)|(tx & t & exe & -> & H & Hrun)]; apply traces_ask in H as ->.
  { left. by repeat constructor. }
  apply try_then_traces in Hrun as [(e & [_ ?] & _)|(t1 & t2 & path' & -> & [-> [= ->]] & Hrun)]; [done|]. cbn [app].
  apply try_then_traces in Hrun as [(e & (tl & -> & H)%at_runtime_traces & ->)|(tx & t3 & ct & -> & (tl & -> & Hl)%at_runtime_traces & Hrun)].
  { left. constructor; [done|apply Hrt]. }
  cbv zeta in Hrun. apply refuses_traces in Hrun as [(e & _ & -> & ->)|[Hm Hrun]].
  { left. rewrite app_nil_r. constructor; [done|apply Hrt]. }
  right. apply refuse_if_Ok, negb_false_iff in Hm.
  do 2 ctrace_step. destruct x.
  match goal with H : traces (pbind _ _) _ _ |- _ => apply traces_bind in H as (tw & t3 & ended & -> & Hw & [-> ->]) end.
  eexists exe, tl, ct, _, _, tw, ended. rewrite app_nil_r. split; [by cbn; rewrite <-app_assoc|]. split; [done|].
  split; [|done]. by destruct (Ext.missing _ _).
Qed.

(** [lagos dev] never stops a gateway for a document that does not load: right
    before the child is killed the document of [path] was read and passed every
    check of [load].  There is never more than one child, and none is started
    before the document loaded with all its extensions registered. *)
Lemma dev_stops_no_child_for_a_broken_document turns is_file bin given registry path tr o
  (Hp : resolve_config_path env is_file bin given = Ok path)
  (Hrun : traces (dev turns is_file bin given registry) tr o) :
  counted 0 tr /\ kills_after_load path tr /\
  forall t1 ev t2, tr = t1 ++ ev :: t2 -> alive ev = 1 -> exists exe tl ct t0,
    t1 = Event CurrentExe exe :: map at_runtime_event tl ++ t0 /\
    traces (load path) tl (Ok ct) /\ Ext.missing registry (Ext.extension_names ct.2) = [].
Proof using.
  destruct (dev_traces _ _ _ _ _ _ _ _ Hp Hrun) as [Hq|(exe & tl & ct & said & last & tw & ended & -> & Hl & Hm & Hw)].
  { assert (Forall (fun ev => alive ev = 0) tr /\ Forall spares tr) as [Ha Hk]
      by (split; eapply List.Forall_impl; [|exact Hq| |exact Hq]; by intros ev []).
    split; [by apply counted_quiet|]. split; [by apply kills_spared|]. intros t1 ev t2 -> He.
    apply Forall_app in Ha as [_ Ha]. apply Forall_inv in Ha. lia. }
  set (first := Event CurrentExe _ :: _) in *.
  assert (Forall (fun ev => alive ev = 0) first /\ Forall spares first) as [Ha Hk].
  { unfold first. rewrite !Forall_cons_iff, !Forall_app. pose proof (alive_at_runtime tl). pose proof (spares_at_runtime tl).
    repeat split; try done; by repeat constructor. }
  apply watch_holds in Hw as [Hc Hk']. split.
  - apply counted_app; [by apply counted_quiet; [lia|]|]. by rewrite children_quiet.
  - split; [apply kills_app; [by apply kills_spared|done]|]. intros t1 ev t2 Heq He.
    apply app_eq_inv in Heq as [(k & E & Hq)|(k & -> & Hq)].
    + destruct k as [|ev' k]; cbn in Hq; [|injection Hq as <- _; rewrite E in Ha; apply Forall_app in Ha as [_ Ha]; apply Forall_inv in Ha; lia].
      rewrite app_nil_r in E. rewrite <-E. unfold first. by eexists _, tl, ct, _.
    + unfold first. eexists _, tl, ct, (_ ++ k). cbn. by rewrite <-app_assoc.
Qed.
End Turns.

(** ** An edit that loads and does not start *)

Section Unregistered.
Context (fs : str -> result str str) (clock : Z).
Context (config_from_yaml : str -> result GatewayConfig (option (Z * Z) * str)).
Context (groups_from_yaml : str -> result RouteGroups (option (Z * Z) * str)) (env : str -> option str).
Context {N : Type} `{HN : JsonNumber N} `{HC : Crates N}.
Context (parse_uri : str -> result Uri str) (header_name_ok : str -> bool) (show_f64 : f64 -> str).
Context (shared_limits : bool) (to_socket_addrs : str -> result (list SocketAddr) str).
Context (redis_open : str -> Z -> result () str) (in_dev : bool).

(** What [dev] checks of an edit before it stops the running child does not
    include that the extensions are registered: such an edit loads, and the child
    started in its place refuses to start. *)
Lemma unregistered_extensions_load_and_do_not_start known known' path extensions cfg t tr o
  (Hload : outcome fs clock (load (N:=N) config_from_yaml groups_from_yaml env parse_uri header_name_ok show_f64 shared_limits known path) (Ok (cfg, t)))
  (Hmissing : Ext.missing extensions (Ext.extension_names t) <> [])
  (Hrun : traces (run_command (N:=N) config_from_yaml groups_from_yaml env parse_uri header_name_ok show_f64 shared_limits known'
                    to_socket_addrs redis_open in_dev path extensions) tr o)
  (Hw : Forall (truthful fs clock) tr) : exists e, o = Err e.
Proof using.
  apply load_outcome in Hload. destruct (document_in _ _ _ _ _ _ _ _ _ _) as [[cfg' g]|e] eqn:Ed; [|done].
  destruct Hload as (v4 & Ht). symmetry in Ht. apply rbind_Ok in Ht as (u & _ & [= <- <-]).
  eapply run_truthful in Hrun as [(e & -> & _)|(b & c & g' & _ & Ed' & _ & Hno)]; [by exists e| |done].
  rewrite Ed in Ed'. injection Ed' as <- <-. destruct Hmissing. rewrite <-Hno. f_equal.
  destruct (table_of_plain cfg' None None v4 g) as [Hr _]. by apply extension_names_unlimited in Hr.
Qed.
End Unregistered.

(** A world in which the document is edited between two looks at it: its routes
    move to a file of which one route names an extension.  The state is how often
    the document's modification time was asked and how many children were
    spawned; a child lives as long as [run] serves the files there are. *)
Definition edited_groups (text : str) : result RouteGroups (option (Z * Z) * str) :=
  if text ==? "audited" then Ok (sample_groups [on_host [] "users" extended_route] []) else file_groups text.
Definition edited_yaml (text : str) : result GatewayConfig (option (Z * Z) * str) :=
  Ok (routes_in_file (if text ==? "edited" then "audited.yml" else "routes.yml") Resolve.sample_document).
Definition files_after (looks : Z) (path : str) : result str str :=
  if path ==? "gateway.yml" then Ok (str_of (if looks <? 3 then "first" else "edited"))
  else if path ==? "routes.yml" then Ok (str_of "public") else Ok (str_of "audited").
Definition run_at (looks : Z) : result () str :=
  match (Prog.run (still (files_after looks))
           (run_command (N:=Z) edited_yaml edited_groups (fun _ => None) sample_parse_uri (fun _ => true) (fun _ => [])
              true ["users"] (fun _ => Err []) (fun _ _ => Ok tt) true "gateway.yml" []) 0).1 with
  | Ok _ => Ok tt
  | Err e => Err e
  end.
Definition edited_answers (X : Type) (e : runtimeE X) (w : Z * Z) : X * (Z * Z) :=
  match e in runtimeE X return X * (Z * Z) with
  | MonoNow => (100, w)
  | NewNamespace => (0, w)
  | ReadFile p => (files_after w.1 p, w)
  | Mtime _ => (Some (if w.1 <? 2 then 1000 else 2000), (w.1 + 1, w.2))
  | Probe => (Ok (str_of "recached", true), w)
  end.
Definition edited_world (X : Type) (e : cliE X) (w : Z * Z) : X * (Z * Z) :=
  match e in cliE X return X * (Z * Z) with
  | MakeExtensions => (Ok [], w)
  | AtRuntime e => edited_answers _ e w
  | Exists _ => (false, w)
  | IsDir _ => (false, w)
  | CreateDirAll _ => (Ok tt, w)
  | WriteFile _ _ => (Ok tt, w)
  | CurrentExe => (Ok (str_of "/bin/lagos"), w)
  | Spawn _ _ => (Ok tt, (w.1, w.2 + 1))
  | TryWait => (Ok (match run_at w.1 with Ok _ => None | Err _ => Some (str_of "exit status: 1") end), w)
  | Pause => (tt, w)
  | Kill => (tt, w)
  | WaitChild => (tt, w)
  | Say _ => (tt, w)
  end.
Definition sample_dev (turns : nat) : cprog (result () str) :=
  dev (N:=Z) edited_yaml edited_groups (fun _ => None) sample_parse_uri (fun _ => true) (fun _ => []) true ["users"]
    turns (fun _ => false) "lagos" (Some (str_of "gateway.yml")) [].

(** The gateway is up until the edit; then its child is killed, and [dev] ends
    with the child that refused to start in its place. *)
Lemma broken_edit_stops_the_gateway :
  Prog.run edited_world (sample_dev 2) (0, 0) = (Ok tt, (2, 1)) /\
  existsb kill_of (transcript edited_world (sample_dev 3) (0, 0)) = true /\
  run_at 3 = Err (str_of "routes reference extensions that are not registered: audit, tenant") /\
  Prog.run edited_world (sample_dev 9) (0, 0) = (Err "gateway exited (exit status: 1)", (3, 2)).
Proof. repeat split; vm_compute; reflexivity. Qed.

(** ** What [validate] prints *)

Section Listed.
Context {N : Type} `{HC : Crates N}.
Context (show_f64 : f64 -> str).

Definition tick (name text : str) : str := [226; 156; 147; 32] ++ pad 11 name ++ " " ++ text.
Definition count {A} (p : A -> bool) (l : list A) : nat := length (List.filter p l).
Definition show_len {A} (l : list A) : str := show_u64 (Z.of_nat (length l)).
Definition if_any (n : nat) (line : str) : list str := if Nat.eqb n 0 then [] else [line].

(** [by_tier] in the order of its keys, as it is printed. *)
Definition by_tier (table : RouteTable) : list (str * nat) :=
  map (fun tier => (tier, count (fun r => group (r_auth r) ==? tier) (table_routes table)))
      (btree_set (map (fun r => group (r_auth r)) (table_routes table))).
Definition breakdown (table : RouteTable) : str :=
  join ", " (map (fun tn => show_u64 (Z.of_nat tn.2) ++ " " ++ tn.1) (by_tier table)).

Definition issuer_count (cfg : ResolvedConfig N) : nat :=
  let auth := gc_auth (raw cfg) in
  (length (au_jwt auth) + match au_firebase auth with Some _ => length (firebase_project_ids cfg) | None => 0 end)%nat.

(** The lines of a document that passed; [names_only] is whether the extensions'
    names were declared, and [unchecked] the variables left as placeholders. *)
Definition validate_listing (path : str) (cfg : ResolvedConfig N) (table : RouteTable) (names_only : bool)
    (unchecked : list str) : list str :=
  let c := raw cfg in
  let routes := table_routes table in
  let forward := gc_forward c in
  let issuers := issuer_count cfg in
  let limited := count (fun r => match r_rate_limit r with Some _ => true | None => false end) routes in
  let bound := length (concat (map r_bindings routes)) in
  [[226; 156; 147] ++ " syntax"]
  ++ (if names_only then [tick "extensions" "names checked; runtime initialization unchecked"] else [])
  ++ [tick "upstreams" (show_u64 (Z.of_nat (size (upstreams cfg))));
      tick "routes" (show_len routes ++ "  (" ++ breakdown table ++ ")");
      tick "deny-list" (show_len (deny_prefixes table));
      tick "client ip"
        (if Nat.eqb (fw_trusted_proxies forward) 0
         then "socket peer (forward.trusted_proxies: 0 " ++ no_value_dash ++ " any arriving X-Forwarded-For is discarded)"
         else show_u64 (Z.of_nat (fw_trusted_proxies forward)) ++ " hop(s) back in X-Forwarded-For")]
  ++ if_any (length (fw_trusted_proxy_ips forward)) (tick "proxy peers" (join ", " (fw_trusted_proxy_ips forward)))
  ++ if_any issuers (tick "issuers" (show_u64 (Z.of_nat issuers)))
  ++ if_any (length (au_token_cookies (gc_auth c)))
       (tick "token from" ("Authorization header, then cookie " ++ join ", " (au_token_cookies (gc_auth c))))
  ++ (match gc_cache c with
      | Some cache => [tick "cache" (show_u64 (Z.of_nat (count r_cache routes)) ++ " route(s), max " ++ show_u64 (ca_max_size cache) ++ " bytes")]
      | None => []
      end)
  ++ (match ob_tracing (gc_observability c) with
      | Some t => [tick "tracing" (match tc_otlp t with
                                   | Some endpoint => endpoint ++ " (sample " ++ show_f64 (tc_sample_ratio t) ++ ")"
                                   | None => str_of "propagation only (no otlp endpoint)"
                                   end)]
      | None => []
      end)
  ++ (match gc_cors c with
      | Some cors => [tick "cors" (show_len (cors_origins cors) ++ " origin(s)" ++ (if cors_credentials cors then str_of ", credentials" else []))]
      | None => []
      end)
  ++ if_any limited ([226; 156; 147] ++ " rate limits " ++ show_u64 (Z.of_nat limited))
  ++ if_any bound (tick "bindings" (show_u64 (Z.of_nat bound)))
  ++ if_any (length (ic_claims (gc_identity c))) (tick "claims" (show_len (ic_claims (gc_identity c))))
  ++ if_any (length (referenced_env cfg)) (tick "environment" (join ", " (referenced_env cfg)))
  ++ if_any (length (defaulted_env cfg)) ("  using defaults for: " ++ join ", " (defaulted_env cfg))
  ++ (if is_nil unchecked then [path ++ " is valid."]
      else ["  NOT checked, unset and left as a placeholder: " ++ join ", " unchecked;
            str_of "  Structure was checked; the values these feed were not. Give one a";
            str_of "  default (`${NAME:-value}`) to have it checked here too.";
            path ++ " is structurally valid (" ++ show_len unchecked ++ " unset)."]).

(** A document is called valid where nothing was left unchecked, and only there. *)
Lemma valid_means_all_checked path cfg table names_only unchecked :
  list.last (validate_listing path cfg table names_only unchecked) = Some (path ++ " is valid.") <-> unchecked = [].
Proof using.
  unfold validate_listing. rewrite !app_assoc, list.last_app. destruct unchecked as [|name unchecked]; cbn; [done|].
  split; [|done]. intros [= H]. rewrite <-!app_assoc in H. apply app_inv_head in H. discriminate H.
Qed.

End Listed.
