(* ===== verification/Tests.v ===== *)
(** * [lagos test] as a command (cli/policy.rs)

    From the document and the file of cases to what is printed and how the command
    ends.  What a case decides and how it compares is in Offline.v; the YAML of the
    cases and how [Debug] quotes a string are parameters.  Empty lines are left
    out. *)

From S2P Require Export Documents Offline Redaction.
From S2P Require Import Str.

(** ** What is printed of a difference *)

Definition show_kind (k : ResultKind) : str :=
  match k with
  | KindRoute => "Route" | KindDenied => "Denied" | KindNoRoute => "NoRoute" | KindOutsideMount => "OutsideMount"
  | KindUnsafePath => "UnsafePath"
  end.
Definition show_key_state (s : ClientKeyState) : str :=
  match s with KeyRequired => "Required" | KeyExempt => "Exempt" | KeyOff => "Off" end.
Definition debug_some {A} (show : A -> str) (o : option A) : str :=
  match o with Some a => "Some(" ++ show a ++ ")" | None => "None" end.

(** [Path::with_file_name], and [cases_path]. *)
Definition has_file_name (p : str) : bool :=
  match skip_ignorable (reverse (split_on b_slash p)) with
  | seg :: _ => negb (seg ==? "..") && negb (seg ==? [])
  | [] => false
  end.
Definition with_file_name (p name : str) : str :=
  path_join (if has_file_name p then default [] (parent p) else p) name.
Definition cases_path (config : str) (given : option str) : str := default (with_file_name config "gateway.test.yml") given.

Example cases_beside_the_document :
  map (fun p => cases_path (str_of p) None) ["gateway.yml"; "conf/gateway.yml"; "/gateway.yml"; "a/b/"; ".."; "/"]%string
  = map str_of ["gateway.test.yml"; "conf/gateway.test.yml"; "/gateway.test.yml"; "a/gateway.test.yml"; "../gateway.test.yml";
                "/gateway.test.yml"]%string.
Proof. vm_compute. reflexivity. Qed.

Definition passed_mark : str := [226; 156; 147; 32].
Definition failed_mark : str := [226; 156; 151; 32].

Section Tests.
Context (debug_str : str -> str).
Context {N : Type} `{HN : JsonNumber N} `{HC : Crates N}.
Context (header_name_ok header_value_ok : str -> bool).
Abbreviation decide := (Offline.decide header_name_ok header_value_ok).
Abbreviation validate_case := (Offline.validate_case header_name_ok header_value_ok).
Abbreviation run_cases := (Offline.run_cases header_name_ok header_value_ok).
Abbreviation run_suite := (Offline.run_suite header_name_ok header_value_ok).

Definition field_text {A} `{EqDecision A} (show debug : A -> str) (name : str) (want got : option A) : list str :=
  match want with
  | Some w => if Some w ==? got then [] else [name ++ ": expected " ++ show w ++ ", got " ++ debug_some debug got]
  | None => []
  end.

(** The texts [compare] returns. *)
Definition differences (e : Expected) (a : Actual) : list str :=
  (if ex_result e ==? ac_result a then []
   else ("result: expected " ++ show_kind (ex_result e) ++ ", got " ++ show_kind (ac_result a))
        :: (if ac_result a ==? KindRoute
            then ["matched route " ++ debug_some debug_str (ac_route a) ++ " on tier " ++ debug_some debug_str (ac_tier a)]
            else []))
  ++ field_text debug_str debug_str "route" (ex_route e) (ac_route a)
  ++ field_text debug_str debug_str "tier" (ex_tier e) (ac_tier a)
  ++ field_text debug_str debug_str "upstream" (ex_upstream e) (ac_upstream a)
  ++ field_text debug_str debug_str "upstream_path" (ex_upstream_path e) (ac_upstream_path a)
  ++ field_text show_bool show_bool "bindings" (ex_bindings e) (ac_bindings a)
  ++ field_text show_key_state show_key_state "client_key" (ex_client_key e) (ac_client_key a)
  ++ field_text show_bool show_bool "policy_keys" (ex_policy_keys e) (ac_policy_keys a).

(** The lines of one case. *)
Definition case_lines (c : ResolvedConfig N) (public internal : RouteTable) (case : TestCase N) : list str :=
  let selected := if tq_listener (tc_request case) ==? PublicListener then public else internal in
  match differences (tc_expect case) (decide c selected (tc_request case)) with
  | [] => [passed_mark ++ tc_name case]
  | texts => (failed_mark ++ tc_name case) :: map (fun text => "  " ++ text) texts
  end.

(** The loop, up to the case that ends it. *)
Fixpoint cases_lines (c : ResolvedConfig N) (public internal : RouteTable) (names : list str) (cases : list (TestCase N)) : list str :=
  match cases with
  | [] => []
  | case :: rest =>
      if is_ok (validate_case case) && negb (existsb (fun n => n ==? tc_name case) names)
      then case_lines c public internal case ++ cases_lines c public internal (tc_name case :: names) rest
      else []
  end.

(** ** The command *)

Context (config_from_yaml : str -> result GatewayConfig (option (Z * Z) * str)).
Context (groups_from_yaml : str -> result RouteGroups (option (Z * Z) * str)) (env : str -> option str).
Context (parse_uri : str -> result Uri str) (show_f64 : f64 -> str) (shared_limits : bool) (known : list str).
(** [serde_yaml_ng::from_str] at the suite of cases. *)
Context (suite_from_yaml : str -> option (list (TestCase N))).

Definition offline_notice : str := "Offline policy checks: token verification and extensions are not executed.".

(** What is printed of a suite that is not empty, and how the command ends; what
    is left unchecked is asked for only after the cases. *)
Definition tested (c : ResolvedConfig N) (t : RouteTable) (path : str) (fallback : option (str -> str)) (cases : list (TestCase N))
  : rprog (list str * result () str) :=
  let '(public, internal) := partition_by_listener t in
  let printed := offline_notice :: cases_lines c public internal [] cases in
  match run_cases c public internal path [] cases with
  | Err e => Ret (printed, Err e)
  | Ok failures =>
      letP unchecked := placeheld_in_both env c fallback in
      Ret (printed
           ++ [show_u64 (Z.of_nat (length cases - failures)) ++ " passed, " ++ show_u64 (Z.of_nat failures) ++ " failed"]
           ++ (if is_nil unchecked then [] else ["Unchecked environment values: " ++ debug_strs debug_str unchecked]),
           refuse_if (0 <? failures)%nat (show_u64 (Z.of_nat failures) ++ " policy test(s) failed"))
  end.

(** [test], from the path that [resolve_config_path] found. *)
Definition test_command (config : str) (given : option str) (allow_unset : bool) : rprog (list str * result () str) :=
  let fallback := if allow_unset then Some unset_placeholder else None in
  letP loaded := load_with_fallback config_from_yaml groups_from_yaml env parse_uri header_name_ok show_f64 shared_limits known
                   config fallback in
  match loaded with
  | Err e => Ret ([], Err e)
  | Ok (cfg, table) =>
      let path := cases_path config given in
      letP source := ask (ReadFile path) in
      match source with
      | Err _ => Ret ([], Err ("failed to read test cases " ++ path))
      | Ok source =>
          match suite_from_yaml source with
          | None => Ret ([], Err ("invalid test cases " ++ path))
          | Some [] => Ret ([], Err (path ++ " contains no tests"))
          | Some cases => tested cfg table path fallback cases
          end
      end
  end.

(** ** The printed lines and the verdict *)

Lemma field_text_differs {A} `{EqDecision A} (show debug : A -> str) name want got :
  length (field_text show debug name want got) = length (differs name want got).
Proof using. unfold field_text, differs. destruct want; [|done]. by case_bool_decide. Qed.

(** One text is printed for each difference. *)
Lemma differences_compared e a : length (differences e a) = length (compare e a).
Proof using.
  unfold differences, compare. rewrite !length_app, !field_text_differs. f_equal.
  case_bool_decide; [done|]. cbn. f_equal. by case_bool_decide.
Qed.

(** A case is marked as passed or as failed, as the loop counts it. *)
Definition crosses (lines : list str) : nat := length (List.filter (starts_with failed_mark) lines).
Definition ticks (lines : list str) : nat := length (List.filter (starts_with passed_mark) lines).

Lemma unmarked mark texts : hd_error mark = Some 226 -> List.filter (starts_with mark) (map (fun text => "  " ++ text) texts) = [].
Proof using. 
  destruct mark as [|b mark]; [done|]. intros [= ->]. induction texts as [|t texts IH]; [done|]. cbn [map List.filter].
  assert (starts_with (226 :: mark) ("  " ++ t) = false) as -> by (by apply (starts_with_head 226 mark 32)). exact IH.
 Qed.

Lemma starts_with_app p s : starts_with p (p ++ s) = true.
Proof using. apply starts_with_spec. by exists s. Qed.

Lemma marks_differ s : starts_with failed_mark (passed_mark ++ s) = false /\ starts_with passed_mark (failed_mark ++ s) = false.
Proof using. by split. Qed.

Lemma case_marked c public internal case :
  let selected := if tq_listener (tc_request case) ==? PublicListener then public else internal in
  let failed := negb (is_nil (compare (tc_expect case) (decide c selected (tc_request case)))) in
  crosses (case_lines c public internal case) = (if failed then 1 else 0)%nat /\
  ticks (case_lines c public internal case) = (if failed then 0 else 1)%nat.
Proof using.
  cbv zeta. unfold case_lines, crosses, ticks. cbv zeta. set (a := decide _ _ _).
  pose proof (differences_compared (tc_expect case) a) as E.
  destruct (differences _ _) as [|d ds], (compare _ _) as [|d' ds']; try done; cbn [is_nil negb].
  cbn [List.filter]. destruct (marks_differ (tc_name case)) as [_ ->]. rewrite starts_with_app, !unmarked by done. by split.
Qed.

Lemma crosses_app a b : crosses (a ++ b) = (crosses a + crosses b)%nat.
Proof using. unfold crosses. by rewrite List.filter_app, length_app. Qed.
Lemma ticks_app a b : ticks (a ++ b) = (ticks a + ticks b)%nat.
Proof using. unfold ticks. by rewrite List.filter_app, length_app. Qed.

Lemma cases_marked c public internal path names cases failures :
  run_cases c public internal path names cases = Ok failures ->
  crosses (cases_lines c public internal names cases) = failures /\
  (ticks (cases_lines c public internal names cases) + failures = length cases)%nat.
Proof using.
  revert names failures. induction cases as [|case cases IH]; intros names failures; cbn [Offline.run_cases cases_lines length].
  { intros [= <-]. done. }
  destruct (validate_case case) as [[]|e]; cbn [rbind is_ok andb]; [|done].
  destruct (existsb _ names); cbn [refuse_if rbind negb]; [done|].
  intros (n & H%IH & [= <-])%rbind_Ok. destruct H as [H1 H2]. destruct (case_marked c public internal case) as [M1 M2].
  rewrite crosses_app, ticks_app, M1, M2, H1. destruct (negb _); lia.
Qed.

(** The verdict of [lagos test] is that of the suite; where the suite ran to its
    end, what it prints has one mark for each case, and the command succeeds
    exactly where none of the marks is a failure. *)
Lemma printed_marks_are_the_verdict c t path fallback cases tr lines verdict :
  cases <> [] -> traces (tested c t path fallback cases) tr (lines, verdict) ->
  let printed := cases_lines c (partition_by_listener t).1 (partition_by_listener t).2 [] cases in
  verdict = run_suite c t path cases /\
  (exists summary, lines = offline_notice :: printed ++ summary) /\
  forall failures, run_cases c (partition_by_listener t).1 (partition_by_listener t).2 path [] cases = Ok failures ->
    crosses printed = failures /\ (ticks printed + crosses printed = length cases)%nat /\
    (verdict = Ok tt <-> crosses printed = 0%nat).
Proof using.
  intros Hne. unfold tested, Offline.run_suite. destruct (partition_by_listener t) as [public internal]. cbn [fst snd].
  replace (refuse_if (is_nil cases) (path ++ " contains no tests")) with (Ok tt : result () str) by (by destruct cases).
  cbn [rbind]. destruct (run_cases _ _ _ _ _ _) as [failures|e] eqn:E; cbn [rbind].
  2:{ intros [_ [= -> ->]]. split; [done|]. split; [|done]. exists []. by rewrite app_nil_r. }
  intros (t1 & t2 & unchecked & -> & _ & [_ [= -> ->]])%traces_bind.
  pose proof (cases_marked _ _ _ _ _ _ _ E) as [M1 M2]. split; [done|]. split; [by eexists|].
  intros failures' [= <-]. rewrite M1. split; [done|]. split; [done|]. rewrite refuse_if_Ok, Nat.ltb_ge. lia.
Qed.

(** Nothing is printed of a suite whose document does not load or whose cases
    cannot be read. *)
Lemma nothing_tested_without_a_suite config given allow_unset tr lines verdict :
  traces (test_command config given allow_unset) tr (lines, verdict) ->
  lines = [] /\ (exists e, verdict = Err e) \/
  exists cfg table fallback cases tt', cases <> [] /\ traces (tested cfg table (cases_path config given) fallback cases) tt' (lines, verdict).
Proof using.
  unfold test_command. intros (t1 & t2 & loaded & -> & _ & H)%traces_bind.
  destruct loaded as [[cfg table]|e]; [|destruct H as [_ [= -> ->]]; left; by eauto].
  apply (proj1 (rask_traces _ _ _ _)) in H as (source & t3 & -> & H). destruct source as [source|e]; [|destruct H as [_ [= -> ->]]; left; by eauto].
  cbv zeta in H. destruct (suite_from_yaml source) as [[|case cases]|]; cbn beta iota in H.
  - destruct H as [_ [= -> ->]]. left. by eauto.
  - right. by eexists _, _, _, (case :: cases), _.
  - destruct H as [_ [= -> ->]]. left. by eauto.
Qed.
End Tests.
